(* ===== verification/_CoqProject ===== *)
-Q . S2P
Prelude.v
Intset.v
Dict.v
Util.v
Sds.v
Sdstext.v
Resp.v
Replication.v
ReplicationWorld.v
Crc.v
Lzf.v
Rio.v
Rdb.v
RdbFile.v
Keyspace.v
Strings.v
StringsSpec.v
Commands.v
Multi.v
Requests.v
Convergence.v
Cluster.v
ClusterSlots.v
ClusterElection.v
ClusterQuery.v
ClusterFailure.v
