(* ===== verification/Prelude.v ===== *)
(** * Verification of the Redis 6.2.7 core deployed by the cluster playbook

    The repository installs a Redis cluster on a group of hosts; the program that runs
    there is the Redis 6.2.7 server whose sources are under
    src/ready/redis-cluster-ubuntu18/redis-6.2.7/src/.  File names below are relative to
    that directory.  This library is a model of the core of that server, translated
    function by function from the C code, with the theorems that make it correct.

    ** The program

    Bytes that arrive on a connection are cut into commands (networking.c).  A command is
    admitted, queued in a transaction or redirected to another node (server.c, multi.c,
    cluster.c), executed on the keyspace (db.c, t_string.c, expire.c), and answered
    (networking.c); if it wrote, it is propagated to the backlog and the replicas
    (server.c, replication.c).  The data set is written to and read from RDB files
    (rdb.c, rio.c, lzf_c.c, lzf_d.c, crc64.c).  The nodes of a cluster agree on who serves
    which hash slot, detect failures and elect replacements (cluster.c, crc16.c).  All of
    this is built on strings, hash tables, integer sets and conversions (sds.c, dict.c,
    intset.c, util.c).

    ** The files

    - Prelude: bytes and machine integers, blocks of memory, little- and big-endian
      encodings, the tactics and lemmas the other files share.
    - Intset (intset.c): the packed representation at byte level; refines a sorted set.
    - Dict (dict.c, dict.h): two chained tables and the incremental rehash; refines a
      finite map.  The scan with reverse binary cursors.
    - Util (util.c): integers as text, [stringmatchlen]; refine the decimal notation and
      a declarative meaning of patterns.
    - Sds, Sdstext (sds.c, sds.h): strings behind headers of five widths; quoting,
      splitting and joining.
    - Crc (crc64.c, crcspeed.c, crc16.c), Lzf (lzf_c.c, lzf_d.c): checksums and
      compression.
    - Resp (networking.c, aof.c): the query buffer and its parsers, the loop that executes
      what was received, the reply buffers, the encoding of propagated commands.  The
      server that executes the commands is the class [CommandServer].
    - Replication, ReplicationWorld (replication.c): backlog, replicas, replication IDs,
      PSYNC on both sides, changes of role, WAIT; and a transition system of any number of
      instances whose steps run these functions.
    - Rio (rio.c, rio.h): streams over the class [RioBackend], with the laws [RioStream].
      Rdb, RdbFile (rdb.c, object.c, cluster.c): strings, DUMP payloads and whole files
      over any such stream.
    - Keyspace (db.c, expire.c, lazyfree.c, multi.c, server.c): the databases and what all
      commands are built from, in a state monad whose failure is a failed assertion or the
      end of memory.  Strings (t_string.c, expire.c, db.c): the handlers.  StringsSpec:
      what each handler does to the cell of its key.  Commands (server.c): the command
      table and what holds of every command.
    - Multi (multi.c, server.c, db.c): [processCommand], [call], MULTI, EXEC, DISCARD,
      WATCH, UNWATCH, SELECT.  Requests: runs of the server.  Convergence: a replica that
      executes what its master propagated.
    - Cluster (cluster.c, cluster.h): the state a node keeps about the cluster and the
      operations on it.  ClusterSlots, ClusterElection, ClusterQuery and ClusterFailure
      hold the theorems about slots, elections, redirections and failure detection.

    ** Conventions

    A C integer is a [Z] with its wrap-around written out where the code can reach it; a
    buffer is a list of bytes.  A result [None] is an access outside a block, the
    dereference of a null pointer, a failed assertion, or memory that cannot be allocated,
    so a theorem that an operation gives [Some] result says that none of this happens.
    Pointers to nodes, entries or clients are names, places or identifiers.  Hosts are
    little endian and 64-bit, as the ones the playbook targets.  The code the
    sources call but do not contain, and input from outside, are parameters: the size
    class of the allocator, the contents of fresh memory, hash functions, the order in
    which a table is iterated, clocks, random choices, the verdicts of access control.

    Loops that are not structural take fuel.  The definitions give each loop a bound read
    off its data (the bytes left in a buffer, the buckets of a table, the width of an
    integer), and the theorems show that a result is reached, so that the fuel is enough;
    none of them is of the form "if the loop ends".  The loading of an RDB file takes its
    fuel as an argument, and as many steps as the file has bytes are shown to suffice.

    ** What the theorems show

    Replication.  [replication_consistent]: in a group of instances that write, replicate,
    lose links, change roles and resynchronize in any order, a connected replica has the
    data of its master up to the bytes in flight, and instances with the same ID never
    diverge.  [propagation_consistent]: a sequence of writes puts one stream in the backlog
    and in the output of all replicas.  [replica_converges]: a replica that executes the
    commands its master propagated during any run ends with the same values and the same
    volatile keys.  [wait_correct]: WAIT counts real acknowledgements.

    Cluster.  [one_winner_per_epoch]: over a network that loses, delays and reorders messages,
    two replicas win one epoch only if its voters are as many as a majority of the masters
    of each taken together, so never while the voters are among the masters that both count;
    no vote may arrive outside the election it is for (a run without this proviso shows why
    it is needed).  Nodes may disagree about the masters, and restart with an epoch older
    than the last they knew.  [getNodeByQuery_correct],
    [redirection_served]: who serves a query, and that redirections lead there.
    [clusterUpdateSlotsConfigWith_correct], [clusterFailoverReplaceYourMaster_correct],
    [epoch_collision_resolved]: slots and epochs after updates, failovers and collisions.
    [markNodeAsFailingIfNeeded_correct], [clusterUpdateState_safe]: failures and the state of
    the cluster are what the majority says.  [keyHashSlot_correct]: hash tags.

    Persistence.  [rdb_roundtrip]: a saved data set is loaded back.  [dump_restore]: the same
    for one value, and a payload with a burst of at most eight changed bytes is refused.  [rdb_load_total]: arbitrary input is
    safe, with one exception that is exhibited.  [lzf_roundtrip], [lzf_decompress_safe] and
    [crc64_correct] are about the two algorithms underneath.

    Commands.  [single_key_correct]: each command on one key has exactly its specified effect
    on that key's cell, reply and propagation, and none on other cells.  [commands_type_safe],
    [requests_type_safe]: no command or request breaks the representation of the data set or
    fails an assertion, whatever its arguments, but for strings that the allocator cannot
    hold; every client that watches a modified key is
    marked.  [transactions_isolated], [transactions_propagated]: a transaction runs as one
    block and only if its watched keys are untouched, and reaches the replicas as one block.
    [replica_readonly]: clients cannot change a read-only replica.  These theorems are about
    servers whose clients are not paused.  [setrange_overflow_stops], and the lemmas
    [decrby_min_decrements] and [Replication.wait_truncated]: corner cases of the handlers
    where the code does not do what it means to.

    Protocol.  [commands_delivered]: pipelined commands are executed once and in order
    however they are cut into reads.  [readQueryFromClient_safe]: arbitrary input is parsed
    within the buffer.  [replies_encoded]: replies are queued in order and encoded correctly.

    Data structures.  [dictAdd_correct], [dictUnlink_correct], [dictRehash_completes]: the hash
    table is a finite map, through rehashing, which ends.  [dictScan_complete]: the guarantee
    of SCAN.  [intsetAdd_correct], [intsetRemove_correct], [intsetValidateIntegrity_correct],
    [sds_grow_correct], [sdssplitargs_correct], [string2ll_correct], [stringmatchlen_correct]: the
    other structures do what their reference definitions say, inside their blocks.

    ** Interfaces between the parts

    The files meet where the code does, but not all of these meetings are composed into one
    theorem.  Resp is proved against [CommandServer]; the server of Multi is not made an
    instance of it.  The keyspace is a finite map, which Dict is proved to refine; its handlers do not run
    on the tables of Dict themselves.  Replication is about the bytes of the stream:
    ReplicationWorld identifies a data set with the stream it results from, and its steps
    hand the bytes of a write to the replicas directly.  Convergence is about the commands:
    [propagation_consistent] shows that the stream contains them with the SELECT commands
    that Convergence has the replica execute, and [commands_delivered] that a server finds
    them in it.

    ** Not modelled

    - Hashes, lists, sets, sorted sets, streams, bitmaps, geo indexes and HyperLogLogs, with
      ziplists, quicklists, listpacks and radix trees: such values are opaque objects of the
      keyspace and are absent from RDB files.
    - INCRBYFLOAT (long doubles of the C library), STRALGO, KEYS, SCAN as a command (its
      cursor is modelled), MOVE, COPY, SWAPDB, FLUSHDB and FLUSHALL, blocking commands.
    - The append only file beyond the encoding of commands; eviction; background threads;
      defragmentation; child processes: they are about files, memory and threads.
    - Scripts and modules, which run foreign code; access control lists, publish/subscribe,
      client-side caching, MONITOR, statistics: where they have a say in whether a request is
      executed, their verdict is a parameter.
    - The wire format and links of the cluster bus, gossip, handshakes, the cluster's
      configuration file, the CLUSTER command, MIGRATE, replica migration.
    - The transfer of an RDB file to a replica and the handshake before PSYNC.
    - Event loop, sockets, TLS, the parser of redis.conf, server start, Sentinel, the command
      line tools, third-party libraries: input and output, or programs of their own.
    - The playbooks themselves, which are lists of tasks for Ansible. *)

From Stdlib Require Import ZArith Lia.
From stdpp Require Import base option list numbers sorting strings.

#[local] Open Scope Z_scope.

(** ** Machine integers

    A C integer of width [w] is a [Z] together with the wrap-around written out
    where the code stores or converts it. *)

Declare Scope redis_scope.
Delimit Scope redis_scope with redis.

Definition wrapu (w x : Z) : Z := x mod 2 ^ w.
Definition wraps (w x : Z) : Z := (x + 2 ^ (w - 1)) mod 2 ^ w - 2 ^ (w - 1).

Definition is_u (w x : Z) : Prop := 0 <= x < 2 ^ w.
Definition is_s (w x : Z) : Prop := - 2 ^ (w - 1) <= x < 2 ^ (w - 1).

Abbreviation u8 := (wrapu 8).
Abbreviation u16 := (wrapu 16).
Abbreviation u32 := (wrapu 32).
Abbreviation u64 := (wrapu 64).
Abbreviation s8 := (wraps 8).
Abbreviation s16 := (wraps 16).
Abbreviation s32 := (wraps 32).
Abbreviation s64 := (wraps 64).

Definition INT16_MIN : Z := - 2 ^ 15.
Definition INT16_MAX : Z := 2 ^ 15 - 1.
Definition INT32_MIN : Z := - 2 ^ 31.
Definition INT32_MAX : Z := 2 ^ 31 - 1.
Definition INT64_MIN : Z := - 2 ^ 63.
Definition INT64_MAX : Z := 2 ^ 63 - 1.
Definition UINT32_MAX : Z := 2 ^ 32 - 1.
Definition UINT64_MAX : Z := 2 ^ 64 - 1.

Lemma wrapu_small w x : is_u w x -> wrapu w x = x.
Proof. unfold wrapu, is_u. apply Z.mod_small. Qed.

Lemma wrapu_range w x : 0 <= w -> is_u w (wrapu w x).
Proof. intros. apply Z.mod_pos_bound. lia. Qed.

Lemma wraps_range w x : 0 < w -> is_s w (wraps w x).
Proof.
  intros Hw. unfold is_s, wraps.
  assert (2 ^ w = 2 * 2 ^ (w - 1)) by (rewrite <- Z.pow_succ_r by lia; f_equal; lia).
  pose proof (Z.mod_pos_bound (x + 2 ^ (w - 1)) (2 ^ w)). lia.
Qed.

Lemma wraps_small w x : 0 < w -> is_s w x -> wraps w x = x.
Proof.
  unfold is_s, wraps. intros Hw H.
  assert (2 ^ w = 2 * 2 ^ (w - 1)) by (rewrite <- Z.pow_succ_r by lia; f_equal; lia).
  rewrite Z.mod_small; lia.
Qed.

Lemma wraps_wrapu w x : 0 < w -> wraps w (wrapu w x) = wraps w x.
Proof.
  intros Hw. unfold wraps, wrapu. f_equal.
  rewrite Zplus_mod_idemp_l. reflexivity.
Qed.

Lemma wrapu_wrapu w x : 0 <= w -> wrapu w (wrapu w x) = wrapu w x.
Proof. intros. unfold wrapu. apply Z.mod_mod. lia. Qed.

(** A number fits in [w] bits exactly when its bits from [w] on are clear. *)
Lemma is_u_bits w x : 0 <= w -> is_u w x <-> forall i, w <= i -> Z.testbit x i = false.
Proof.
  intros Hw. split.
  - intros Hx i Hi. rewrite <- (wrapu_small w x Hx). by apply Z.mod_pow2_bits_high.
  - intros Hb. replace x with (wrapu w x); [by apply wrapu_range|].
    apply Z.bits_inj'. intros i Hi. destruct (decide (i < w)).
    + apply Z.mod_pow2_bits_low. lia.
    + rewrite Hb by lia. apply Z.mod_pow2_bits_high. lia.
Qed.

Lemma land_u w a b : 0 <= w -> is_u w b -> is_u w (Z.land a b).
Proof.
  intros Hw. rewrite !is_u_bits by done. intros Hb i Hi.
  by rewrite Z.land_spec, Hb, andb_false_r.
Qed.

Lemma lor_u w a b : 0 <= w -> is_u w a -> is_u w b -> is_u w (Z.lor a b).
Proof.
  intros Hw. rewrite !is_u_bits by done. intros Ha Hb i Hi. by rewrite Z.lor_spec, Ha, Hb.
Qed.

Lemma lxor_u w a b : 0 <= w -> is_u w a -> is_u w b -> is_u w (Z.lxor a b).
Proof.
  intros Hw. rewrite !is_u_bits by done. intros Ha Hb i Hi. by rewrite Z.lxor_spec, Ha, Hb.
Qed.

(** A mask with one bit tests that bit. *)
Lemma land_pow2_test x k : 0 <= k -> negb (Z.land x (2 ^ k) =? 0) = Z.testbit x k.
Proof.
  intros Hk. destruct (Z.testbit x k) eqn:E.
  - destruct (Z.eqb_spec (Z.land x (2 ^ k)) 0) as [H|]; [|done].
    apply (f_equal (fun y => Z.testbit y k)) in H.
    rewrite Z.land_spec, Z.pow2_bits_true, E, Z.bits_0 in H by done. done.
  - replace (Z.land x (2 ^ k)) with 0; [done|]. apply Z.bits_inj'. intros i Hi.
    rewrite Z.bits_0, Z.land_spec. destruct (decide (i = k)) as [->|]; [by rewrite E|].
    rewrite Z.pow2_bits_false by lia. by rewrite andb_false_r.
Qed.

(** Or-ing a value above the bits of another one adds it. *)
Lemma lor_shift k a b : 0 <= k -> is_u k a -> Z.lor a (Z.shiftl b k) = a + 2 ^ k * b.
Proof.
  intros Hk Ha. assert (Hd : Z.land a (Z.shiftl b k) = 0).
  { apply Z.bits_inj'. intros i Hi. rewrite Z.land_spec, Z.bits_0. destruct (decide (i < k)).
    - rewrite Z.shiftl_spec_low by lia. apply andb_false_r.
    - by rewrite (proj1 (is_u_bits k a Hk) Ha) by lia. }
  rewrite <- Z.lxor_lor, <- Z.add_nocarry_lxor, Z.shiftl_mul_pow2 by done. lia.
Qed.

(** Reduces the width predicates at literal widths to linear arithmetic. *)
Ltac zwidth :=
  unfold is_u, is_s, INT16_MIN, INT16_MAX, INT32_MIN, INT32_MAX, INT64_MIN,
    INT64_MAX, UINT32_MAX, UINT64_MAX in *;
  repeat match goal with
  | H : context [2 ^ (?a - ?b)] |- _ =>
      let v := eval vm_compute in (2 ^ (a - b)) in
      change (2 ^ (a - b)) with v in H
  | |- context [2 ^ (?a - ?b)] =>
      let v := eval vm_compute in (2 ^ (a - b)) in
      change (2 ^ (a - b)) with v
  | H : context [2 ^ Zpos ?p] |- _ =>
      let v := eval vm_compute in (2 ^ Zpos p) in
      change (2 ^ Zpos p) with v in H
  | |- context [2 ^ Zpos ?p] =>
      let v := eval vm_compute in (2 ^ Zpos p) in
      change (2 ^ Zpos p) with v
  end.

Ltac zlia := zwidth; lia.

(** Rewriting with the reduction of a bind, where converting would make the
    kernel evaluate the computations bound. *)
Lemma bind_ret {A B} (f : A -> option B) x : (Some x ≫= f) = f x.
Proof. reflexivity. Qed.

(** ** Byte buffers

    Memory blocks are lists of bytes; an access outside the block has no value
    ([None]), so a theorem that an operation returns [Some] is also a statement
    of memory safety. *)

Abbreviation bytes := (list Z).

(** The bytes of a string literal. *)
Definition bytes_of_string (s : string) : bytes :=
  (fun a => Z.of_nat (Ascii.nat_of_ascii a)) <$> String.list_ascii_of_string s.

Definition is_byte (b : Z) : Prop := 0 <= b < 256.

Definition blen (b : bytes) : Z := Z.of_nat (length b).

Definition load8 (b : bytes) (i : Z) : option Z :=
  if decide (0 <= i) then b !! Z.to_nat i else None.

Definition load (b : bytes) (off n : Z) : option bytes :=
  if decide (0 <= off /\ 0 <= n /\ off + n <= blen b)
  then Some (take (Z.to_nat n) (drop (Z.to_nat off) b)) else None.

Definition store (b : bytes) (off : Z) (bs : bytes) : option bytes :=
  if decide (0 <= off /\ off + blen bs <= blen b)
  then Some (take (Z.to_nat off) b ++ bs ++ drop (Z.to_nat off + length bs) b) else None.

Definition store8 (b : bytes) (off v : Z) : option bytes := store b off [v].

(** [memmove(b+dst, b+src, n)] inside one block. *)
Definition memmove (b : bytes) (dst src n : Z) : option bytes :=
  s ← load b src n; store b dst s.

(** [zrealloc]: keeps the common prefix; bytes gained are indeterminate, read
    from the arbitrary stream [junk]. *)
Definition zrealloc (junk : nat -> Z) (b : bytes) (n : Z) : bytes :=
  take (Z.to_nat n) b ++ (junk <$> seq (length b) (Z.to_nat n - length b)).

(** ** Little-endian integers *)

Fixpoint le_encode (n : nat) (z : Z) : bytes :=
  match n with
  | O => []
  | S n => z mod 256 :: le_encode n (z / 256)
  end.

Fixpoint le_decode (b : bytes) : Z :=
  match b with
  | [] => 0
  | x :: b => x + 256 * le_decode b
  end.

Lemma le_encode_length n z : length (le_encode n z) = n.
Proof. revert z. induction n; intros; simpl; auto. Qed.

Lemma le_encode_byte n z : Forall is_byte (le_encode n z).
Proof.
  revert z. induction n; intros; simpl; constructor; auto.
  unfold is_byte. apply Z.mod_pos_bound. lia.
Qed.

Lemma pow256_succ n : 2 ^ (8 * Z.of_nat (S n)) = 256 * 2 ^ (8 * Z.of_nat n).
Proof.
  replace (8 * Z.of_nat (S n)) with (8 + 8 * Z.of_nat n) by lia.
  rewrite Z.pow_add_r by lia. reflexivity.
Qed.

(** Decoding what was encoded gives the value back modulo the width. *)
Lemma le_decode_enc n z : le_decode (le_encode n z) = z mod 2 ^ (8 * Z.of_nat n).
Proof.
  revert z. induction n as [|n IH]; intros z; cbn [le_encode le_decode].
  - rewrite Z.mod_1_r. reflexivity.
  - rewrite IH, pow256_succ.
    assert (0 < 2 ^ (8 * Z.of_nat n)) by lia.
    rewrite Z.rem_mul_r by lia. reflexivity.
Qed.

Lemma le_decode_range b : Forall is_byte b -> 0 <= le_decode b < 2 ^ (8 * blen b).
Proof.
  unfold blen. induction 1 as [|x b Hx _ IH]; cbn [le_decode length].
  - simpl. lia.
  - rewrite pow256_succ. unfold is_byte in Hx. lia.
Qed.

Lemma le_encode_dec b : Forall is_byte b -> le_encode (length b) (le_decode b) = b.
Proof.
  induction 1 as [|x b Hx _ IH]; cbn [le_decode length le_encode]; [done|].
  unfold is_byte in Hx.
  replace ((x + 256 * le_decode b) mod 256) with x
    by (Z.div_mod_to_equations; lia).
  replace ((x + 256 * le_decode b) / 256) with (le_decode b)
    by (Z.div_mod_to_equations; lia).
  by rewrite IH.
Qed.

(** ** Laws of the buffer accesses *)

Lemma blen_nonneg b : 0 <= blen b.
Proof. unfold blen. lia. Qed.

Lemma blen_app a b : blen (a ++ b) = blen a + blen b.
Proof. unfold blen. rewrite length_app. lia. Qed.

(** Lengths of buffers, reduced to linear arithmetic. *)
Create HintDb blen.
#[export] Hint Rewrite @length_app @length_take @length_drop @length_cons @length_nil @length_replicate @length_fmap @length_reverse
  @length_insert @length_seq : blen.

Ltac blia := unfold blen in *; autorewrite with blen in *; lia.

Lemma load8_Some b i x : 0 <= i -> b !! Z.to_nat i = Some x -> load8 b i = Some x.
Proof. intros. unfold load8. by rewrite decide_True. Qed.

Lemma load8_app_mid (pre post : bytes) x i : i = blen pre -> load8 (pre ++ x :: post) i = Some x.
Proof.
  intros ->. unfold blen. apply load8_Some; [lia|]. rewrite Nat2Z.id. by apply list_lookup_middle.
Qed.

Lemma load_Some b off n :
  0 <= off -> 0 <= n -> off + n <= blen b ->
  load b off n = Some (take (Z.to_nat n) (drop (Z.to_nat off) b)).
Proof. intros. unfold load. rewrite decide_True by done. done. Qed.

Lemma load_length b off n s : load b off n = Some s -> blen s = n.
Proof.
  unfold load, blen. case_decide; [|done]. intros [= <-].
  rewrite length_take, length_drop. lia.
Qed.

Lemma store_Some b off bs :
  0 <= off -> off + blen bs <= blen b -> is_Some (store b off bs).
Proof. intros. unfold store. rewrite decide_True by done. eauto. Qed.

Lemma store_length b off bs b' : store b off bs = Some b' -> length b' = length b.
Proof.
  unfold store, blen. case_decide; [|done]. intros [= <-].
  rewrite !length_app, length_take, length_drop. lia.
Qed.

Lemma store_lookup b off bs b' (i : nat) :
  store b off bs = Some b' ->
  b' !! i = if decide (off <= Z.of_nat i < off + blen bs)
            then bs !! (i - Z.to_nat off)%nat else b !! i.
Proof.
  unfold store, blen. case_decide as Hd; [|done]. intros [= <-].
  case_decide as Hi.
  - rewrite lookup_app_r by (rewrite length_take; lia).
    rewrite length_take, lookup_app_l by lia. f_equal. lia.
  - destruct (decide (Z.of_nat i < off)).
    + rewrite lookup_app_l by (rewrite length_take; lia).
      rewrite lookup_take_lt by lia. done.
    + rewrite lookup_app_r by (rewrite length_take; lia).
      rewrite length_take, lookup_app_r by lia.
      rewrite lookup_drop. f_equal. lia.
Qed.

Lemma load_ext b b' off n :
  length b = length b' ->
  (forall i : nat, off <= Z.of_nat i < off + n -> b !! i = b' !! i) ->
  load b off n = load b' off n.
Proof.
  intros Hl Hext. unfold load, blen. rewrite Hl. case_decide; [|done].
  f_equal. apply list_eq. intros i.
  destruct (decide (i < Z.to_nat n)%nat).
  - rewrite !lookup_take_lt, !lookup_drop by lia. apply Hext. lia.
  - rewrite !lookup_take_ge by lia. done.
Qed.

(** A load that does not meet the stored range is unaffected. *)
Lemma load_store_disjoint b off bs b' o n :
  store b off bs = Some b' ->
  o + n <= off \/ off + blen bs <= o ->
  load b' o n = load b o n.
Proof.
  intros Hs Hd. apply load_ext; [by eapply store_length|].
  intros i Hi. rewrite (store_lookup _ _ _ _ _ Hs). rewrite decide_False by lia. done.
Qed.

Lemma load_store_same b off bs b' :
  store b off bs = Some b' -> load b' off (blen bs) = Some bs.
Proof.
  intros Hs. pose proof (store_length _ _ _ _ Hs) as Hl.
  unfold store in Hs. case_decide as Hd; [|done].
  rewrite load_Some by (unfold blen in *; lia). f_equal. simplify_eq.
  unfold blen in *.
  rewrite drop_app_ge by (rewrite length_take; lia).
  rewrite length_take.
  replace (Z.to_nat off - Nat.min (Z.to_nat off) (length b))%nat with O by lia.
  rewrite drop_0, Nat2Z.id. apply take_app_length.
Qed.

(** Two stores side by side are one store. *)
Lemma store_store_adj b o1 o2 x y b1 b2 :
  store b o2 x = Some b1 -> store b1 o1 y = Some b2 -> o1 + blen y = o2 ->
  store b o1 (y ++ x) = Some b2.
Proof.
  intros H1 H2 Ho. pose proof (store_length _ _ _ _ H1) as Hl1.
  pose proof (store_length _ _ _ _ H2) as Hl2.
  assert (0 <= o1) by (unfold store in H2; case_decide; [lia|done]).
  destruct (store_Some b o1 (y ++ x)) as [b3 H3]; [done|..].
  { unfold store in H1, H2. repeat case_decide; try done.
    rewrite blen_app. unfold blen in *. lia. }
  rewrite H3. f_equal. apply list_eq. intros i.
  rewrite (store_lookup _ _ _ _ _ H3), (store_lookup _ _ _ _ _ H2), (store_lookup _ _ _ _ _ H1).
  rewrite blen_app. unfold blen in *. repeat case_decide; try lia; try done.
  - by rewrite lookup_app_l by lia.
  - rewrite lookup_app_r by lia. f_equal. lia.
Qed.

Lemma store_0 b bs : blen bs <= blen b -> store b 0 bs = Some (bs ++ drop (length bs) b).
Proof. intros. unfold store. rewrite decide_True by (unfold blen in *; lia). done. Qed.

Lemma store_in b off bs :
  0 <= off -> off + blen bs <= blen b ->
  store b off bs = Some (take (Z.to_nat off) b ++ bs ++ drop (Z.to_nat off + length bs) b).
Proof. intros. unfold store. by rewrite decide_True. Qed.

(** Accesses at a boundary between two parts of a buffer. *)
Lemma store8_mid (pre post : bytes) y v i : i = blen pre -> store8 (pre ++ y :: post) i v = Some (pre ++ v :: post).
Proof.
  intros ->. unfold store8, store, blen. rewrite decide_True by (rewrite length_app; cbn; lia).
  rewrite Nat2Z.id, take_app_length. cbn [length]. by rewrite <- drop_drop, drop_app_length.
Qed.

Lemma load_prefix (pre post : bytes) n : n = blen pre -> load (pre ++ post) 0 n = Some pre.
Proof.
  intros ->. rewrite load_Some by (rewrite ?blen_app; unfold blen; lia).
  unfold blen. by rewrite Nat2Z.id, drop_0, take_app_length.
Qed.

(** Two loads agree when the bytes they range over do. *)
Lemma load_shift b b' off off' n :
  0 <= off -> 0 <= off' -> 0 <= n -> off + n <= blen b -> off' + n <= blen b' ->
  (forall k : nat, Z.of_nat k < n -> b !! (Z.to_nat off + k)%nat = b' !! (Z.to_nat off' + k)%nat) ->
  load b off n = load b' off' n.
Proof.
  intros ????? H. rewrite !load_Some by done. f_equal. apply list_eq. intros i.
  destruct (decide (i < Z.to_nat n)%nat).
  - rewrite !lookup_take_lt, !lookup_drop by lia. apply H. lia.
  - rewrite !lookup_take_ge by lia. done.
Qed.

Lemma memmove_Some b dst src n :
  0 <= dst -> 0 <= src -> 0 <= n -> dst + n <= blen b -> src + n <= blen b ->
  exists b', memmove b dst src n = Some b' /\ length b' = length b /\
    forall i : nat, b' !! i = if decide (dst <= Z.of_nat i < dst + n)
                              then b !! (i - Z.to_nat dst + Z.to_nat src)%nat else b !! i.
Proof.
  intros. unfold memmove. destruct (load b src n) as [s|] eqn:Hl.
  2: { rewrite load_Some in Hl; done. }
  pose proof (load_length _ _ _ _ Hl) as Hlen. cbn.
  destruct (store_Some b dst s) as [b' Hs]; [lia..|].
  exists b'. split_and!; [done|by eapply store_length|].
  intros i. rewrite (store_lookup _ _ _ _ _ Hs), Hlen. case_decide; [|done].
  rewrite load_Some in Hl by lia. injection Hl as <-.
  rewrite lookup_take_lt, lookup_drop by lia. f_equal. lia.
Qed.

Lemma zrealloc_length junk b n : 0 <= n -> blen (zrealloc junk b n) = n.
Proof.
  intros. unfold blen, zrealloc. rewrite length_app, length_take, length_fmap, length_seq. lia.
Qed.

Lemma zrealloc_load junk b n off m :
  0 <= n -> off + m <= n -> off + m <= blen b -> load (zrealloc junk b n) off m = load b off m.
Proof.
  intros Hn H1 H2. unfold load at 1 2. rewrite zrealloc_length by lia.
  case_decide as Hd; [|case_decide; [lia|done]].
  rewrite decide_True by lia. f_equal. apply list_eq. intros i.
  destruct (decide (i < Z.to_nat m)%nat).
  - rewrite !lookup_take_lt, !lookup_drop by lia. unfold zrealloc, blen in *.
    rewrite lookup_app_l by (rewrite length_take; lia). rewrite lookup_take_lt by lia. done.
  - rewrite !lookup_take_ge by lia. done.
Qed.

(** ** Sorted lists by index *)

Lemma sorted_lookup_lt (l : list Z) (i j : nat) x y :
  StronglySorted Z.lt l -> l !! i = Some x -> l !! j = Some y -> (i < j)%nat -> x < y.
Proof.
  intros Hs. revert i j. induction Hs as [|a l Hs IH Ha]; intros i j Hx Hy Hij; [done|].
  destruct i as [|i], j as [|j]; simpl in *; try lia.
  - simplify_eq. rewrite Forall_forall in Ha. apply Ha. eapply list_elem_of_lookup_2; eauto.
  - eapply IH; eauto. lia.
Qed.

Lemma sorted_of_lookup (l : list Z) :
  (forall (i : nat) x y, l !! i = Some x -> l !! S i = Some y -> x < y) ->
  StronglySorted Z.lt l.
Proof.
  intros H. apply Sorted_StronglySorted; [intros ???; lia|].
  induction l as [|a l IH]; constructor.
  - apply IH. intros i. apply (H (S i)).
  - destruct l as [|b l]; constructor. by apply (H 0%nat).
Qed.

(** Insertion of [v] at index [p]. *)
Definition list_insert_at {A} (p : nat) (v : A) (l : list A) : list A :=
  take p l ++ v :: drop p l.

Lemma length_list_insert_at {A} p (v : A) l :
  (p <= length l)%nat -> length (list_insert_at p v l) = S (length l).
Proof.
  intros. unfold list_insert_at. rewrite length_app. simpl. rewrite length_take, length_drop. lia.
Qed.

Lemma lookup_list_insert_at {A} p (v : A) l i :
  (p <= length l)%nat ->
  list_insert_at p v l !! i =
  if decide (i < p)%nat then l !! i else if decide (i = p) then Some v else l !! (i - 1)%nat.
Proof.
  intros Hp. unfold list_insert_at. repeat case_decide.
  - rewrite lookup_app_l by (rewrite length_take; lia). by rewrite lookup_take_lt.
  - subst. rewrite lookup_app_r by (rewrite length_take; lia). rewrite length_take.
    by replace (p - Nat.min p (length l))%nat with O by lia.
  - rewrite lookup_app_r by (rewrite length_take; lia). rewrite length_take.
    replace (i - Nat.min p (length l))%nat with (S (i - p - 1)) by lia.
    simpl. rewrite lookup_drop. f_equal. lia.
Qed.

Lemma elem_of_list_insert_at {A} p (v x : A) l : x ∈ list_insert_at p v l <-> x = v \/ x ∈ l.
Proof.
  unfold list_insert_at. rewrite elem_of_app, elem_of_cons.
  rewrite <- (take_drop p l) at 3. rewrite elem_of_app. tauto.
Qed.

(** Deletion of the element at index [p]. *)
Definition list_remove_at {A} (p : nat) (l : list A) : list A := take p l ++ drop (S p) l.

Lemma lookup_list_remove_at {A} p (l : list A) i :
  (p < length l)%nat ->
  list_remove_at p l !! i = if decide (i < p)%nat then l !! i else l !! S i.
Proof.
  intros Hp. unfold list_remove_at. case_decide.
  - rewrite lookup_app_l by (rewrite length_take; lia). by rewrite lookup_take_lt.
  - rewrite lookup_app_r by (rewrite length_take; lia). rewrite length_take, lookup_drop.
    f_equal. lia.
Qed.

Lemma length_list_remove_at {A} p (l : list A) :
  (p < length l)%nat -> length (list_remove_at p l) = (length l - 1)%nat.
Proof.
  intros. unfold list_remove_at. rewrite length_app, length_take, length_drop. lia.
Qed.
