(* ===== verification/Intset.v ===== *)
(** * Integer sets (src/intset.c)

    An intset is one block: a 32-bit encoding (the width of its elements in
    bytes), a 32-bit length, and the elements packed at that width, strictly
    increasing. The model keeps the element area as bytes. The out-parameters
    [pos], [value] and [success] are components of the result; [None] is an
    out-of-bounds access or a failed assertion. *)

From Stdlib Require Import ZArith Lia.
From stdpp Require Import base option list numbers sorting.
From S2P Require Import Prelude.
#[local] Open Scope Z_scope.

Module Intset.

(** typedef struct intset *)
Record intset := mk_intset {
  encoding : Z;
  length : Z;
  contents : bytes;
}.

Abbreviation INTSET_ENC_INT16 := 2.
Abbreviation INTSET_ENC_INT32 := 4.
Abbreviation INTSET_ENC_INT64 := 8.

(** sizeof(intset), the flexible array member excluded. *)
Definition sizeof_intset : Z := 8.

Definition _intsetValueEncoding (v : Z) : Z :=
  if (v <? INT32_MIN) || (INT32_MAX <? v) then INTSET_ENC_INT64
  else if (v <? INT16_MIN) || (INT16_MAX <? v) then INTSET_ENC_INT32
  else INTSET_ENC_INT16.

Definition _intsetGetEncoded (s : intset) (pos enc : Z) : option Z :=
  if enc =? INTSET_ENC_INT64 then
    v64 ← load (contents s) (pos * 8) 8; Some (s64 (le_decode v64))
  else if enc =? INTSET_ENC_INT32 then
    v32 ← load (contents s) (pos * 4) 4; Some (s32 (le_decode v32))
  else
    v16 ← load (contents s) (pos * 2) 2; Some (s16 (le_decode v16)).

Definition _intsetGet (s : intset) (pos : Z) : option Z :=
  _intsetGetEncoded s pos (u8 (encoding s)).

Definition set_contents (s : intset) (c : bytes) : intset :=
  mk_intset (encoding s) (length s) c.

Definition _intsetSet (s : intset) (pos value : Z) : option intset :=
  if encoding s =? INTSET_ENC_INT64 then
    set_contents s <$> store (contents s) (pos * 8) (le_encode 8 value)
  else if encoding s =? INTSET_ENC_INT32 then
    set_contents s <$> store (contents s) (pos * 4) (le_encode 4 value)
  else
    set_contents s <$> store (contents s) (pos * 2) (le_encode 2 value).

Definition intsetNew : intset := mk_intset INTSET_ENC_INT16 0 [].

(** The loop of intsetSearch; [fuel] bounds its iterations. *)
Fixpoint search_loop (fuel : nat) (s : intset) (value min max mid cur : Z)
    : option (Z * Z * Z) :=
  match fuel with
  | O => None
  | S fuel =>
      if max >=? min then
        let mid := s32 (Z.shiftr (u32 (u32 min + u32 max)) 1) in
        cur ← _intsetGet s mid;
        if value >? cur then search_loop fuel s value (mid + 1) max mid cur
        else if value <? cur then search_loop fuel s value min (mid - 1) mid cur
        else Some (min, mid, cur)
      else Some (min, mid, cur)
  end.

Definition intsetSearch (s : intset) (value : Z) : option (bool * Z) :=
  let max := s32 (u32 (length s - 1)) in
  if length s =? 0 then Some (false, 0)
  else
    last ← _intsetGet s max;
    if value >? last then Some (false, length s)
    else
      first ← _intsetGet s 0;
      if value <? first then Some (false, 0)
      else
        '(min, mid, cur) ← search_loop (S (Z.to_nat (length s))) s value 0 max (-1) (-1);
        if value =? cur then Some (true, u32 mid) else Some (false, u32 min).

Section Allocation.
Context (junk : nat -> Z).

Definition intsetResize (s : intset) (len : Z) : option intset :=
  let size := u64 (len * encoding s) in
  if size <=? UINT64_MAX - sizeof_intset
  then Some (set_contents s (zrealloc junk (contents s) size)) else None.

(** while(length--) of intsetUpgradeAndAdd, [n] values left to move. *)
Fixpoint upgrade_loop (n : nat) (s : intset) (curenc prepend : Z) : option intset :=
  match n with
  | O => Some s
  | S n =>
      v ← _intsetGetEncoded s (Z.of_nat n) curenc;
      s ← _intsetSet s (Z.of_nat n + prepend) v;
      upgrade_loop n s curenc prepend
  end.

Definition intsetUpgradeAndAdd (s : intset) (value : Z) : option intset :=
  let curenc := u8 (encoding s) in
  let newenc := _intsetValueEncoding value in
  let len := s32 (length s) in
  let prepend := if value <? 0 then 1 else 0 in
  let s := mk_intset newenc (length s) (contents s) in
  s ← intsetResize s (u32 (length s + 1));
  if len <? 0 then None else
  s ← upgrade_loop (Z.to_nat len) s curenc prepend;
  s ← (if prepend =? 1 then _intsetSet s 0 value
        else _intsetSet s (s32 (length s)) value);
  Some (mk_intset (encoding s) (u32 (length s + 1)) (contents s)).

Definition intsetMoveTail (s : intset) (from to : Z) : option intset :=
  let bytes := u32 (length s - from) in
  let size := if encoding s =? INTSET_ENC_INT64 then 8
              else if encoding s =? INTSET_ENC_INT32 then 4 else 2 in
  set_contents s <$>
    memmove (contents s) (to * size) (from * size) (u32 (bytes * size)).

Definition intsetAdd (s : intset) (value : Z) : option (intset * bool) :=
  let valenc := _intsetValueEncoding value in
  if valenc >? encoding s then
    s ← intsetUpgradeAndAdd s value; Some (s, true)
  else
    '(found, pos) ← intsetSearch s value;
    if found : bool then Some (s, false)
    else
      s ← intsetResize s (u32 (length s + 1));
      s ← (if pos <? length s then intsetMoveTail s pos (u32 (pos + 1)) else Some s);
      s ← _intsetSet s (s32 pos) value;
      Some (mk_intset (encoding s) (u32 (length s + 1)) (contents s), true).

Definition intsetRemove (s : intset) (value : Z) : option (intset * bool) :=
  let valenc := _intsetValueEncoding value in
  if valenc <=? encoding s then
    '(found, pos) ← intsetSearch s value;
    if found : bool then
      let len := length s in
      s ← (if pos <? u32 (len - 1) then intsetMoveTail s (u32 (pos + 1)) pos else Some s);
      s ← intsetResize s (u32 (len - 1));
      Some (mk_intset (encoding s) (u32 (len - 1)) (contents s), true)
    else Some (s, false)
  else Some (s, false).
End Allocation.

Definition intsetFind (s : intset) (value : Z) : option bool :=
  let valenc := _intsetValueEncoding value in
  if valenc <=? encoding s then fst <$> intsetSearch s value else Some false.

(** [rnd] is what rand() returned. *)
Definition intsetRandom (rnd : Z) (s : intset) : option Z :=
  let len := length s in
  if len =? 0 then None else _intsetGet s (s32 (u32 rnd mod len)).

Definition intsetGet (s : intset) (pos : Z) : option (option Z) :=
  if pos <? length s then Some <$> _intsetGet s (s32 pos) else Some None.

Definition intsetLen (s : intset) : Z := length s.

Definition intsetBlobLen (s : intset) : Z :=
  u64 (sizeof_intset + u64 (length s * encoding s)).

(** A block of memory seen through the struct, as the cast of [p] does. *)
Definition intset_of_blob (p : bytes) : option intset :=
  e ← load p 0 4; l ← load p 4 4;
  Some (mk_intset (le_decode e) (le_decode l) (drop 8 p)).

(** The ordering scan of intsetValidateIntegrity from index [i] on, [n] records left. *)
Fixpoint validate_loop (n : nat) (s : intset) (i prev : Z) : option bool :=
  match n with
  | O => Some true
  | S n =>
      cur ← _intsetGet s (s32 i);
      if cur <=? prev then Some false else validate_loop n s (i + 1) cur
  end.

Definition intsetValidateIntegrity (p : bytes) (size : Z) (deep : bool) : option bool :=
  if size <? sizeof_intset then Some false
  else
    s ← intset_of_blob p;
    let validate record_size :=
      let count := length s in
      if negb (u64 (sizeof_intset + u64 (count * record_size)) =? size) then Some false
      else if count =? 0 then Some false
      else if negb deep then Some true
      else
        prev ← _intsetGet s 0;
        validate_loop (Z.to_nat (count - 1)) s 1 prev in
    if encoding s =? INTSET_ENC_INT64 then validate INTSET_ENC_INT64
    else if encoding s =? INTSET_ENC_INT32 then validate INTSET_ENC_INT32
    else if encoding s =? INTSET_ENC_INT16 then validate INTSET_ENC_INT16
    else Some false.

(** ** Representation

    [repr s l]: the block [s] holds exactly the strictly increasing list [l].
    The bound on the length keeps the byte counts of intsetMoveTail, computed in
    32 bits, from wrapping. *)

Definition enc_ok (e : Z) : Prop := e = 2 \/ e = 4 \/ e = 8.

Definition max_len : Z := 2 ^ 28.

Record repr (s : intset) (l : list Z) : Prop := {
  repr_enc : enc_ok (encoding s);
  repr_len : length s = blen l;
  repr_max : blen l <= max_len;
  repr_size : blen (contents s) = length s * encoding s;
  repr_get : forall i x, l !! i = Some x -> _intsetGet s (Z.of_nat i) = Some x;
  repr_sorted : StronglySorted Z.lt l;
}.

(** Linear arithmetic after a case split on the element width. *)
Ltac enc_lia :=
  unfold enc_ok in *;
  repeat match goal with
  | H : ?e = 2 \/ _ |- _ =>
      destruct H as [H | [H | H]]; try subst e; rewrite ?H in *
  end; first [done | zlia].

(** ** Element accesses *)

Lemma getEncoded_eq s pos e :
  enc_ok e ->
  _intsetGetEncoded s pos e =
  (fun b => wraps (8 * e) (le_decode b)) <$> load (contents s) (pos * e) e.
Proof. unfold _intsetGetEncoded. intros [-> | [-> | ->]]; simpl; by destruct load. Qed.

Lemma set_eq s pos v :
  enc_ok (encoding s) ->
  _intsetSet s pos v =
  set_contents s <$> store (contents s) (pos * encoding s) (le_encode (Z.to_nat (encoding s)) v).
Proof. unfold _intsetSet. intros [H | [H | H]]; rewrite H; done. Qed.

Lemma u8_enc e : enc_ok e -> u8 e = e.
Proof. intros [-> | [-> | ->]]; done. Qed.

Lemma blen_le_encode e v : enc_ok e -> blen (le_encode (Z.to_nat e) v) = e.
Proof. intros H. unfold blen. rewrite le_encode_length. destruct H as [-> | [-> | ->]]; done. Qed.

Lemma set_Some s pos v :
  enc_ok (encoding s) -> 0 <= pos -> (pos + 1) * encoding s <= blen (contents s) ->
  exists s', _intsetSet s pos v = Some s'.
Proof.
  intros He Hp Hb. rewrite set_eq by done.
  edestruct (store_Some (contents s) (pos * encoding s)) as [c ->]; eauto.
  - enc_lia.
  - rewrite blen_le_encode by done. lia.
Qed.

Lemma set_inv s pos v s' :
  enc_ok (encoding s) -> _intsetSet s pos v = Some s' ->
  encoding s' = encoding s /\ length s' = length s /\
  List.length (contents s') = List.length (contents s).
Proof.
  intros He. rewrite set_eq by done. destruct store as [c|] eqn:Hs; [|done].
  intros [= <-]. simpl. eauto using store_length.
Qed.

Lemma get_set_same s pos v s' :
  enc_ok (encoding s) -> _intsetSet s pos v = Some s' ->
  _intsetGetEncoded s' pos (encoding s) = Some (wraps (8 * encoding s) v).
Proof.
  intros He. rewrite set_eq, getEncoded_eq by done. destruct store as [c|] eqn:Hs; [|done].
  intros [= <-]. simpl. apply load_store_same in Hs. rewrite blen_le_encode in Hs by done.
  rewrite Hs. simpl. f_equal. rewrite le_decode_enc, Z2Nat.id by (enc_lia).
  apply wraps_wrapu. enc_lia.
Qed.

Lemma get_set_other s pos v s' j e :
  enc_ok (encoding s) -> enc_ok e -> _intsetSet s pos v = Some s' ->
  (j + 1) * e <= pos * encoding s \/ (pos + 1) * encoding s <= j * e ->
  _intsetGetEncoded s' j e = _intsetGetEncoded s j e.
Proof.
  intros He He'. rewrite set_eq, !getEncoded_eq by done.
  destruct store as [c|] eqn:Hs; [|done]. intros [= <-] Hd. simpl.
  erewrite load_store_disjoint; eauto. rewrite blen_le_encode by done. lia.
Qed.

Lemma get_Some s pos e :
  enc_ok e -> 0 <= pos -> (pos + 1) * e <= blen (contents s) ->
  exists v, _intsetGetEncoded s pos e = Some v.
Proof.
  intros He Hp Hb. rewrite getEncoded_eq by done.
  rewrite load_Some by (enc_lia). eauto.
Qed.

Lemma get_range s pos e v :
  enc_ok e -> _intsetGetEncoded s pos e = Some v -> is_s (8 * e) v.
Proof.
  intros He. rewrite getEncoded_eq by done. destruct load; [|done]. intros [= <-].
  apply wraps_range. enc_lia.
Qed.

(** The encoding chosen for a value is the narrowest that holds it. *)
Lemma valueEncoding_spec v e :
  is_s 64 v -> enc_ok e ->
  enc_ok (_intsetValueEncoding v) /\ (_intsetValueEncoding v <= e <-> is_s (8 * e) v).
Proof.
  intros Hv He. unfold _intsetValueEncoding, enc_ok.
  destruct He as [-> | [-> | ->]]; simpl (8 * _);
    repeat case_match; zwidth; lia.
Qed.

(** ** intsetSearch *)

(** [pos] is where [v], absent from [l], belongs. *)
Definition insert_pos (l : list Z) (v : Z) (pos : Z) : Prop :=
  0 <= pos <= blen l /\
  (forall i x, l !! i = Some x -> Z.of_nat i < pos -> x < v) /\
  (forall i x, l !! i = Some x -> pos <= Z.of_nat i -> v < x).

Definition search_post (l : list Z) (v : Z) (found : bool) (pos : Z) : Prop :=
  if found then 0 <= pos /\ l !! Z.to_nat pos = Some v else insert_pos l v pos.

Lemma get_repr s l i :
  repr s l -> 0 <= i < blen l ->
  exists x, l !! Z.to_nat i = Some x /\ _intsetGet s i = Some x.
Proof.
  intros Hr Hi. unfold blen in Hi.
  destruct (lookup_lt_is_Some_2 l (Z.to_nat i)) as [x Hx]; [lia|].
  exists x. split; [done|].
  pose proof (repr_get _ _ Hr _ _ Hx) as Hg. by rewrite Z2Nat.id in Hg by lia.
Qed.

Lemma repr_get_iff s l i x :
  repr s l -> 0 <= i < blen l -> _intsetGet s i = Some x <-> l !! Z.to_nat i = Some x.
Proof. intros Hr Hi. destruct (get_repr _ _ _ Hr Hi) as (y & -> & ->). done. Qed.

Lemma search_loop_spec s l v fuel min max mid cur :
  repr s l ->
  0 <= min -> max < blen l -> min <= max + 1 ->
  (forall i x, l !! i = Some x -> Z.of_nat i < min -> x < v) ->
  (forall i x, l !! i = Some x -> max < Z.of_nat i -> v < x) ->
  (max < min -> cur <> v) ->
  max - min + 1 < Z.of_nat fuel ->
  exists min' mid' cur', search_loop fuel s v min max mid cur = Some (min', mid', cur') /\
    (cur' = v /\ 0 <= mid' < blen l /\ l !! Z.to_nat mid' = Some v \/
     cur' <> v /\ insert_pos l v min').
Proof.
  intros Hr. revert min max mid cur.
  induction fuel as [|fuel IH]; intros min max mid cur Hmin Hmax Hmm Hlo Hhi Hcur Hf; [lia|].
  cbn [search_loop]. destruct (Z.geb_spec max min) as [Hge|Hlt].
  2: { exists min, mid, cur. split; [done|]. right. split; [apply Hcur; lia|].
       split_and!; [lia|lia|done|]. intros i x Hx Hi. eapply Hhi; eauto. lia. }
  pose proof (repr_max _ _ Hr) as HM. change max_len with 268435456 in HM.
  set (m := s32 _).
  assert (min <= m <= max) as Hm.
  { subst m. rewrite (wrapu_small 32 min), (wrapu_small 32 max), wrapu_small by zlia.
    rewrite Z.shiftr_div_pow2, Z.pow_1_r by lia.
    rewrite wraps_small; [|lia|]; zwidth; Z.div_mod_to_equations; lia. }
  clearbody m. destruct (get_repr s l m Hr) as (x & Hlm & ->); [lia|]. cbn.
  pose proof (repr_sorted _ _ Hr) as Hsort.
  destruct (Z.gtb_spec v x) as [Hvx|Hvx]; [|destruct (Z.ltb_spec v x) as [Hxv|Hxv]].
  - apply IH; [lia..| |done|lia|lia].
    intros i y Hy Hi. destruct (decide (Z.of_nat i = m)) as [<-|].
    + rewrite Nat2Z.id in Hlm. simplify_eq; lia.
    + assert (y < x); [|lia]. eapply (sorted_lookup_lt l i (Z.to_nat m)); eauto. lia.
  - apply IH; [lia..|done| |lia|lia].
    intros i y Hy Hi. destruct (decide (Z.of_nat i = m)) as [<-|].
    + rewrite Nat2Z.id in Hlm. simplify_eq; lia.
    + assert (x < y); [|lia]. eapply (sorted_lookup_lt l (Z.to_nat m) i); eauto. lia.
  - assert (v = x) as -> by lia. exists min, m, x. split; [done|]. left. split_and!; auto; lia.
Qed.

Lemma search_spec s l v :
  repr s l ->
  exists found pos, intsetSearch s v = Some (found, pos) /\ search_post l v found pos.
Proof.
  intros Hr. unfold intsetSearch. rewrite (repr_len _ _ Hr).
  pose proof (repr_max _ _ Hr) as HM. change max_len with 268435456 in HM.
  pose proof (blen_nonneg l).
  destruct (Z.eqb_spec (blen l) 0) as [H0|H0].
  { exists false, 0. split; [done|]. destruct l; [|done]. split_and!; done. }
  rewrite wrapu_small, wraps_small by zlia.
  destruct (get_repr s l (blen l - 1) Hr) as (hi & Hlhi & ->); [lia|].
  destruct (get_repr s l 0 Hr) as (lo & Hllo & ->); [lia|]. cbn [mbind option_bind].
  pose proof (repr_sorted _ _ Hr) as Hsort.
  destruct (Z.gtb_spec v hi) as [Hhi|Hhi].
  { exists false, (blen l). split; [done|]. split_and!; [lia|lia|..]; intros i x Hx Hi.
    - assert (x <= hi); [|lia]. destruct (decide (Z.of_nat i = blen l - 1)) as [E|].
      + rewrite <- E, Nat2Z.id in Hlhi. simplify_eq; lia.
      + apply Z.lt_le_incl. eapply (sorted_lookup_lt l i); eauto. lia.
    - apply lookup_lt_Some in Hx. unfold blen in *. lia. }
  destruct (Z.ltb_spec v lo) as [Hlo|Hlo].
  { exists false, 0. split; [done|]. split_and!; [lia|lia|lia|]. intros i x Hx _.
    change (Z.to_nat 0) with 0%nat in Hllo.
    destruct i as [|i]; [simplify_eq; lia|].
    assert (lo < x); [|lia]. eapply (sorted_lookup_lt l 0 (S i)); eauto. lia. }
  destruct (search_loop_spec s l v (S (Z.to_nat (blen l))) 0 (blen l - 1) (-1) (-1) Hr)
    as (mn & md & cur & -> & Hres); try lia.
  { intros i x Hx Hi. apply lookup_lt_Some in Hx. unfold blen in *. lia. }
  cbn. destruct Hres as [(-> & Hmd & Hl)|[Hne Hi]].
  - rewrite Z.eqb_refl. eexists true, _. split; [done|].
    rewrite wrapu_small by zlia. split; [lia|done].
  - destruct (Z.eqb_spec v cur); [done|]. eexists false, _. split; [done|].
    rewrite wrapu_small; [done|]. destruct Hi as [? _]. zlia.
Qed.

(** ** intsetAdd *)

Lemma insert_pos_sorted l v pos :
  StronglySorted Z.lt l -> insert_pos l v pos ->
  StronglySorted Z.lt (list_insert_at (Z.to_nat pos) v l).
Proof.
  intros Hs (Hp & Hlo & Hhi). unfold blen in Hp. apply sorted_of_lookup. intros i x y.
  rewrite !lookup_list_insert_at by lia. repeat case_decide; try lia; intros Hx Hy; simplify_eq.
  - eapply sorted_lookup_lt; eauto.
  - eapply Hlo; eauto. lia.
  - eapply Hhi; eauto. lia.
  - eapply sorted_lookup_lt; eauto. lia.
Qed.

Lemma insert_pos_notin l v pos : insert_pos l v pos -> v ∉ l.
Proof.
  intros (_ & Hlo & Hhi) [i Hi]%list_elem_of_lookup.
  destruct (decide (Z.of_nat i < pos)); [specialize (Hlo _ _ Hi)|specialize (Hhi _ _ Hi)]; lia.
Qed.

Lemma get_resize junk s n s' :
  enc_ok (encoding s) -> 0 <= n < 2 ^ 32 -> intsetResize junk s n = Some s' ->
  encoding s' = encoding s /\ length s' = length s /\
  blen (contents s') = n * encoding s /\
  forall j e, enc_ok e -> 0 <= j -> (j + 1) * e <= n * encoding s ->
    (j + 1) * e <= blen (contents s) ->
    _intsetGetEncoded s' j e = _intsetGetEncoded s j e.
Proof.
  intros He Hn. unfold intsetResize. case_match; [|done]. intros [= <-]. cbn.
  assert (0 <= n * encoding s) by (enc_lia).
  rewrite wrapu_small by (enc_lia).
  split_and!; [done|done|by rewrite zrealloc_length by lia|].
  intros j e He' Hj H1 H2. rewrite !getEncoded_eq by done. cbn.
  rewrite zrealloc_load by lia. done.
Qed.

Lemma resize_Some junk s n :
  enc_ok (encoding s) -> 0 <= n < 2 ^ 32 -> exists s', intsetResize junk s n = Some s'.
Proof.
  intros He Hn. unfold intsetResize.
  rewrite wrapu_small by (enc_lia).
  destruct (Z.leb_spec (n * encoding s) (UINT64_MAX - sizeof_intset)) as [|Hb]; [eauto|].
  unfold sizeof_intset in Hb. destruct He as [He | [He | He]]; rewrite He in Hb; zlia.
Qed.

(** intsetMoveTail moves the elements from index [from] on to index [to]. *)
Lemma moveTail_spec s from to :
  enc_ok (encoding s) -> length s <= max_len ->
  0 <= from <= length s -> 0 <= to ->
  length s * encoding s <= blen (contents s) ->
  (length s - from + to) * encoding s <= blen (contents s) ->
  exists s', intsetMoveTail s from to = Some s' /\
    encoding s' = encoding s /\ length s' = length s /\ blen (contents s') = blen (contents s) /\
    (forall j, 0 <= j < to -> (j + 1) * encoding s <= blen (contents s) ->
       _intsetGetEncoded s' j (encoding s) = _intsetGetEncoded s j (encoding s)) /\
    (forall j, from <= j < length s ->
       _intsetGetEncoded s' (j - from + to) (encoding s) = _intsetGetEncoded s j (encoding s)).
Proof.
  intros He Hmax Hf Ht Hc1 Hc2. unfold intsetMoveTail. change max_len with 268435456 in Hmax.
  set (e := encoding s) in *.
  replace (if e =? 8 then 8 else if e =? 4 then 4 else 2) with e
    by (destruct He as [-> | [-> | ->]]; done).
  rewrite !wrapu_small by (rewrite ?wrapu_small; enc_lia).
  destruct (memmove_Some (contents s) (to * e) (from * e) ((length s - from) * e))
    as (c & -> & Hlen & Hc); [enc_lia..|].
  eexists. split; [done|]. cbn. unfold blen. rewrite Hlen. split_and!; [done..| |].
  - intros j Hj Hj'. rewrite !getEncoded_eq by done. cbn. f_equal.
    apply load_ext; [done|]. intros i Hi. rewrite Hc, decide_False; [done|].
    enc_lia.
  - intros j Hj. rewrite !getEncoded_eq by done. cbn. f_equal.
    unfold blen in *. apply load_shift; unfold blen; rewrite ?Hlen;
      try (enc_lia).
    intros k Hk. rewrite Hc, decide_True by (enc_lia).
    f_equal. enc_lia.
Qed.

(** [l] is packed in [s] at width [e]: index [i] of the block reads [l !! i]. *)
Definition packed (s : intset) (e : Z) (l : list Z) : Prop :=
  forall i x, l !! i = Some x -> _intsetGetEncoded s (Z.of_nat i) e = Some x.

Lemma repr_intro s l :
  enc_ok (encoding s) -> length s = blen l -> blen l <= max_len ->
  blen (contents s) = length s * encoding s ->
  packed s (encoding s) l -> StronglySorted Z.lt l -> repr s l.
Proof.
  intros He Hl Hm Hc Hp Hs. constructor; try done.
  intros i x Hx. unfold _intsetGet. rewrite u8_enc by done. by apply Hp.
Qed.

Lemma repr_packed s l : repr s l -> packed s (encoding s) l.
Proof.
  intros Hr i x Hx. pose proof (repr_get _ _ Hr _ _ Hx) as Hg.
  unfold _intsetGet in Hg. rewrite u8_enc in Hg; [done|apply Hr].
Qed.

Lemma repr_fits s l x : repr s l -> x ∈ l -> is_s (8 * encoding s) x.
Proof.
  intros Hr [i Hi]%list_elem_of_lookup. apply (repr_packed _ _ Hr) in Hi.
  eapply get_range; [apply Hr|done].
Qed.

(** [gap s l p]: the block has room for one element more than [l], and holds [l]
    with index [p] left free. *)
Record gap (s : intset) (l : list Z) (p : Z) : Prop := {
  gap_enc : enc_ok (encoding s);
  gap_len : length s = blen l;
  gap_size : blen (contents s) = (blen l + 1) * encoding s;
  gap_below : forall i x, l !! i = Some x -> Z.of_nat i < p ->
    _intsetGetEncoded s (Z.of_nat i) (encoding s) = Some x;
  gap_above : forall i x, l !! i = Some x -> p <= Z.of_nat i ->
    _intsetGetEncoded s (Z.of_nat i + 1) (encoding s) = Some x;
}.

(** Writing the value in the gap and counting it gives a well-formed set again. *)
Lemma fill_gap s l v p :
  gap s l p -> insert_pos l v p -> StronglySorted Z.lt l -> blen l < max_len ->
  is_s (8 * encoding s) v ->
  exists s', _intsetSet s p v = Some s' /\ encoding s' = encoding s /\ length s' = length s /\
    repr (mk_intset (encoding s) (blen l + 1) (contents s')) (list_insert_at (Z.to_nat p) v l).
Proof.
  intros [He Hl Hc Hlo Hhi] Hip Hs Hmax Hv. pose proof Hip as (Hp & _ & _).
  destruct (set_Some s p v) as [s' Hs']; [done|lia|rewrite Hc; enc_lia|].
  destruct (set_inv _ _ _ _ He Hs') as (E & L & C). exists s'. split_and!; [done..|].
  assert (Z.to_nat p <= List.length l)%nat by (unfold blen in *; lia).
  assert (blen (list_insert_at (Z.to_nat p) v l) = blen l + 1) as Hlen
    by (unfold blen; rewrite length_list_insert_at by done; lia).
  apply repr_intro; cbn; rewrite ?Hlen; try done; [lia| | |by apply insert_pos_sorted].
  - rewrite <- Hc. unfold blen. by rewrite C.
  - intros i x. change (_intsetGetEncoded _ (Z.of_nat i)) with (_intsetGetEncoded s' (Z.of_nat i)).
    rewrite lookup_list_insert_at by done. repeat case_decide; intros Hx.
    + rewrite (get_set_other s p v s'); try done; [|left; enc_lia]. apply Hlo; [done|lia].
    + injection Hx as <-. subst i. rewrite Z2Nat.id by lia.
      rewrite (get_set_same s p v s') by done. rewrite wraps_small; [done|enc_lia|done].
    + rewrite (get_set_other s p v s'); try done; [|right; enc_lia].
      rewrite <- (Hhi _ _ Hx) by lia. f_equal. lia.
Qed.

(** Growing the block by one element and shifting the tail opens the gap. *)
Lemma open_gap junk s l pos :
  repr s l -> blen l < max_len -> 0 <= pos <= blen l ->
  exists s1 s2, intsetResize junk s (blen l + 1) = Some s1 /\
    (if pos <? length s1 then intsetMoveTail s1 pos (pos + 1) else Some s1) = Some s2 /\
    encoding s2 = encoding s /\ gap s2 l pos.
Proof.
  intros Hr Hmax Hp. pose proof (repr_enc _ _ Hr) as He. pose proof (repr_len _ _ Hr) as Hl.
  pose proof (repr_size _ _ Hr) as Hc. pose proof (repr_packed _ _ Hr) as Hpk.
  change max_len with 268435456 in Hmax.
  destruct (resize_Some junk s (blen l + 1)) as [s1 Hs1]; [done|zlia|]. exists s1.
  destruct (get_resize junk s (blen l + 1) s1 He) as (E1 & L1 & C1 & G1); [zlia|done|].
  assert (forall i x, l !! i = Some x -> _intsetGetEncoded s1 (Z.of_nat i) (encoding s) = Some x) as G.
  { intros i x Hx. pose proof (lookup_lt_Some _ _ _ Hx). rewrite G1; [by apply Hpk|done|lia|..];
      rewrite ?Hc, ?Hl; unfold blen; enc_lia. }
  destruct (Z.ltb_spec pos (length s1)) as [Hlt|Hge].
  - destruct (moveTail_spec s1 pos (pos + 1)) as (s2 & -> & E2 & L2 & C2 & G2 & G2');
      [rewrite ?E1, ?L1, ?C1, ?Hl; change max_len with 268435456; enc_lia..|].
    rewrite ?E1, ?L1, ?C1, ?Hl in *. exists s2. split_and!; [done..|].
    constructor; rewrite ?E2; try done; try congruence; intros i x Hx Hi.
    + rewrite G2; [by apply G|lia|]. enc_lia.
    + rewrite <- (G _ _ Hx), <- (G2' (Z.of_nat i)); [f_equal; lia|].
      apply lookup_lt_Some in Hx. unfold blen. lia.
  - exists s1. split_and!; [done..|]. constructor; rewrite ?E1; try done; try congruence.
    + intros i x Hx _. by apply G.
    + intros i x Hx Hi. apply lookup_lt_Some in Hx. unfold blen in *. lia.
Qed.

(** The branch of intsetAdd that keeps the encoding. *)
Lemma add_at_spec junk s l v pos :
  repr s l -> blen l < max_len -> insert_pos l v pos -> is_s (8 * encoding s) v ->
  exists s', (s ← intsetResize junk s (u32 (length s + 1));
      s ← (if pos <? length s then intsetMoveTail s pos (u32 (pos + 1)) else Some s);
      s ← _intsetSet s (s32 pos) v;
      Some (mk_intset (encoding s) (u32 (length s + 1)) (contents s), true)) = Some (s', true) /\
    encoding s' = encoding s /\ repr s' (list_insert_at (Z.to_nat pos) v l).
Proof.
  intros Hr Hmax Hip Hv. pose proof Hip as (Hp & _ & _). rewrite (repr_len _ _ Hr).
  pose proof Hmax as Hm. change max_len with 268435456 in Hm.
  rewrite (wrapu_small 32 (blen l + 1)), (wrapu_small 32 (pos + 1)), (wraps_small 32 pos) by zlia.
  destruct (open_gap junk s l pos) as (s1 & s2 & -> & Hs2 & E2 & Hg); [done..|].
  cbn. rewrite Hs2. cbn.
  destruct (fill_gap s2 l v pos) as (s3 & -> & E3 & L3 & Hr3); rewrite ?E2; [done..|apply Hr|done|done|].
  eexists. split; [done|]. cbn. rewrite E3, L3, (gap_len _ _ _ Hg), wrapu_small by zlia. done.
Qed.

(** The back-to-front rewriting of intsetUpgradeAndAdd: moving value [n-1] first
    never overwrites a value that is still to be read at the narrow width. *)
Lemma upgrade_loop_spec l curenc prepend n s :
  enc_ok curenc -> enc_ok (encoding s) -> curenc < encoding s -> 0 <= prepend <= 1 ->
  (n <= List.length l)%nat ->
  blen (contents s) = (blen l + 1) * encoding s ->
  (forall i x, l !! i = Some x -> (i < n)%nat -> _intsetGetEncoded s (Z.of_nat i) curenc = Some x) ->
  (forall i x, l !! i = Some x -> (n <= i)%nat ->
     _intsetGetEncoded s (Z.of_nat i + prepend) (encoding s) = Some x) ->
  exists s', upgrade_loop n s curenc prepend = Some s' /\
    encoding s' = encoding s /\ length s' = length s /\ blen (contents s') = blen (contents s) /\
    forall i x, l !! i = Some x -> _intsetGetEncoded s' (Z.of_nat i + prepend) (encoding s) = Some x.
Proof.
  intros Hce. revert s. induction n as [|n IH]; intros s He Hlt Hp Hn Hc Hold Hnew.
  { exists s. split_and!; try done. intros i x Hx. apply Hnew; [done|lia]. }
  cbn [upgrade_loop]. destruct (lookup_lt_is_Some_2 l n) as [v Hv]; [lia|].
  rewrite (Hold _ _ Hv) by lia. cbn.
  assert (is_s (8 * encoding s) v) as Hfit.
  { assert (is_s (8 * curenc) v) by (eapply get_range; eauto). enc_lia. }
  destruct (set_Some s (Z.of_nat n + prepend) v) as [s1 Hs1]; [done|lia| |].
  { rewrite Hc. unfold blen. enc_lia. }
  destruct (set_inv _ _ _ _ He Hs1) as (E1 & L1 & C1). rewrite Hs1. cbn.
  assert (blen (contents s1) = blen (contents s)) as C1' by (unfold blen; by rewrite C1).
  destruct (IH s1) as (s' & -> & E & L & C & G); rewrite ?E1, ?C1'; try done; [lia|..].
  - intros i x Hx Hi. rewrite (get_set_other s (Z.of_nat n + prepend) v s1); try done; [apply Hold; [done|lia]|].
    left. enc_lia.
  - intros i x Hx Hi. destruct (decide (i = n)) as [->|].
    + rewrite Hv in Hx. injection Hx as <-. rewrite (get_set_same s (Z.of_nat n + prepend) v s1) by done.
      rewrite wraps_small; [done| |done]. enc_lia.
    + rewrite (get_set_other s (Z.of_nat n + prepend) v s1); try done; [apply Hnew; [done|lia]|]. right. enc_lia.
  - exists s'. rewrite E1, C1' in *. split_and!; try done. congruence.
Qed.

(** Values too wide for the current encoding lie outside the range of the set. *)
Lemma upgrade_insert_pos s l v :
  repr s l -> ~ is_s (8 * encoding s) v ->
  insert_pos l v (if v <? 0 then 0 else blen l).
Proof.
  intros Hr Hv. pose proof (blen_nonneg l).
  assert (forall i x, l !! i = Some x -> is_s (8 * encoding s) x) as Hx.
  { intros i x Hx. eapply repr_fits, list_elem_of_lookup_2; eauto. }
  pose proof (repr_enc _ _ Hr) as He.
  destruct (Z.ltb_spec v 0); split_and!; try lia; intros i x Hi Hp.
  - apply Hx in Hi. enc_lia.
  - apply Hx in Hi. enc_lia.
  - apply lookup_lt_Some in Hi. unfold blen in *. lia.
Qed.

Lemma upgradeAndAdd_spec junk s l v :
  repr s l -> blen l < max_len -> is_s 64 v -> _intsetValueEncoding v > encoding s ->
  exists s', intsetUpgradeAndAdd junk s v = Some s' /\
    encoding s' = _intsetValueEncoding v /\
    repr s' (list_insert_at (Z.to_nat (if v <? 0 then 0 else blen l)) v l).
Proof.
  intros Hr Hmax Hv Henc. pose proof (repr_enc _ _ Hr) as He.
  pose proof (repr_len _ _ Hr) as Hl. pose proof (repr_size _ _ Hr) as Hc.
  pose proof (repr_packed _ _ Hr) as Hpk.
  destruct (valueEncoding_spec v (encoding s) Hv He) as [Hne Hfit].
  assert (~ is_s (8 * encoding s) v) as Hnf by (rewrite <- Hfit; lia).
  pose proof (upgrade_insert_pos s l v Hr Hnf) as Hip.
  assert (is_s (8 * _intsetValueEncoding v) v) as Hfit'
    by (apply (valueEncoding_spec v (_intsetValueEncoding v) Hv Hne); lia).
  unfold intsetUpgradeAndAdd. revert Henc Hne Hfit'.
  generalize (_intsetValueEncoding v) as ne. intros ne Henc Hne Hfit'. clear Hfit Hnf.
  pose proof (blen_nonneg l) as Hnn. change max_len with 268435456 in Hmax.
  cbv zeta. cbn [length contents encoding]. rewrite u8_enc, Hl by done.
  rewrite (wrapu_small 32 (blen l + 1)), (wraps_small 32 (blen l)) by zlia.
  set (s0 := mk_intset ne (blen l) (contents s)).
  destruct (resize_Some junk s0 (blen l + 1)) as [s1 Hs1]; [done|zlia|]. rewrite Hs1.
  destruct (get_resize junk s0 (blen l + 1) s1 Hne) as (E1 & L1 & C1 & G1); [zlia|done|].
  cbn in E1, L1, C1, G1 |- *. destruct (Z.ltb_spec (blen l) 0); [lia|].
  destruct (upgrade_loop_spec l (encoding s) (if v <? 0 then 1 else 0) (Z.to_nat (blen l)) s1)
    as (s2 & -> & E2 & L2 & C2 & G2); rewrite ?E1; try done.
  { lia. } { destruct (v <? 0); lia. } { unfold blen. lia. }
  { intros i x Hx Hi. rewrite G1; try done.
    - by apply Hpk.
    - lia.
    - unfold blen in *. enc_lia.
    - rewrite Hc, Hl. unfold blen in *. enc_lia. }
  { intros i x Hx Hi. apply lookup_lt_Some in Hx. unfold blen in *. lia. }
  cbn. set (p := if v <? 0 then 0 else blen l) in *.
  replace (if (if v <? 0 then 1 else 0) =? 1 then _intsetSet s2 0 v
           else _intsetSet s2 (s32 (length s2)) v) with (_intsetSet s2 p v).
  2: { subst p. rewrite L2, L1, wraps_small by zlia. by destruct (v <? 0). }
  rewrite E1 in *.
  assert (gap s2 l p) as Hg.
  { constructor; rewrite ?E2; try done; try congruence; intros i x Hx Hi; pose proof (G2 _ _ Hx) as Hg;
      apply lookup_lt_Some in Hx; subst p; destruct (v <? 0); try (unfold blen in *; lia); try done.
    by rewrite Z.add_0_r in Hg. }
  destruct (fill_gap s2 l v p) as (s3 & -> & E3 & L3 & Hr3); rewrite ?E2; [done..|apply Hr|done|done|].
  eexists. split; [done|]. cbn. rewrite E3, L3, L2, L1, E2, wrapu_small by zlia.
  rewrite E2 in Hr3. done.
Qed.

(** ** intsetRemove *)

Lemma remove_at_sorted l p :
  (p < List.length l)%nat -> StronglySorted Z.lt l -> StronglySorted Z.lt (list_remove_at p l).
Proof.
  intros Hp Hs. apply sorted_of_lookup. intros i x y.
  rewrite !lookup_list_remove_at by done. repeat case_decide; try lia; intros Hx Hy;
    eapply sorted_lookup_lt; eauto; lia.
Qed.

Lemma elem_of_remove_at l p v x :
  StronglySorted Z.lt l -> l !! p = Some v ->
  x ∈ list_remove_at p l <-> x ∈ l /\ x <> v.
Proof.
  intros Hs Hv. pose proof (lookup_lt_Some _ _ _ Hv). rewrite !list_elem_of_lookup. split.
  - intros [i Hi]. rewrite lookup_list_remove_at in Hi by done. case_decide.
    + split; [eauto|]. assert (x < v); [|lia]. eapply (sorted_lookup_lt l i p); eauto.
    + split; [eauto|]. assert (v < x); [|lia]. eapply (sorted_lookup_lt l p (S i)); eauto. lia.
  - intros [[i Hi] Hne]. destruct (decide (i < p)%nat).
    + exists i. rewrite lookup_list_remove_at, decide_True by done. done.
    + assert (i <> p) by congruence. exists (i - 1)%nat.
      rewrite lookup_list_remove_at, decide_False by lia. rewrite <- Hi. f_equal. lia.
Qed.

Lemma remove_at_spec junk s l v pos :
  repr s l -> 0 <= pos -> l !! Z.to_nat pos = Some v ->
  exists s', (s' ← (if pos <? u32 (length s - 1) then intsetMoveTail s (u32 (pos + 1)) pos else Some s);
      s' ← intsetResize junk s' (u32 (length s - 1));
      Some (mk_intset (encoding s') (u32 (length s - 1)) (contents s'), true)) = Some (s', true) /\
    repr s' (list_remove_at (Z.to_nat pos) l).
Proof.
  intros Hr Hp Hv. pose proof (lookup_lt_Some _ _ _ Hv) as Hplt.
  pose proof (repr_enc _ _ Hr) as He. pose proof (repr_len _ _ Hr) as Hl.
  pose proof (repr_size _ _ Hr) as Hc. pose proof (repr_packed _ _ Hr) as Hpk.
  pose proof (repr_max _ _ Hr) as Hmax. change max_len with 268435456 in Hmax.
  assert (pos < blen l) as Hpl by (unfold blen; lia).
  rewrite (wrapu_small 32 (length s - 1)), (wrapu_small 32 (pos + 1)) by zlia.
  assert (exists s1, (if pos <? length s - 1 then intsetMoveTail s (pos + 1) pos else Some s)
      = Some s1 /\ encoding s1 = encoding s /\ length s1 = length s /\
      blen (contents s1) = blen (contents s) /\
      (forall i, 0 <= i < pos -> _intsetGetEncoded s1 i (encoding s) = _intsetGetEncoded s i (encoding s)) /\
      (forall i, pos <= i < blen l - 1 ->
        _intsetGetEncoded s1 i (encoding s) = _intsetGetEncoded s (i + 1) (encoding s)))
    as (s1 & -> & E1 & L1 & C1 & G1 & G1').
  { destruct (Z.ltb_spec pos (length s - 1)) as [Hlt|Hge].
    - destruct (moveTail_spec s (pos + 1) pos) as (s1 & -> & E1 & L1 & C1 & G1 & G1');
        [rewrite ?Hc, ?Hl in *; change max_len with 268435456; enc_lia..|].
      exists s1. split_and!; try done; intros i Hi.
      + apply G1; [lia|]. rewrite Hc, Hl. enc_lia.
      + rewrite <- (G1' (i + 1)) by lia. f_equal. lia.
    - exists s. split_and!; try done; lia. }
  assert (enc_ok (encoding s1)) as He1 by (by rewrite E1).
  destruct (resize_Some junk s1 (length s - 1)) as [s2 Hs2]; [done|zlia|].
  destruct (get_resize junk s1 (length s - 1) s2 He1) as (E2 & L2 & C2 & G2); [zlia|done|].
  cbn. rewrite Hs2. eexists. split; [done|]. rewrite E2, E1.
  assert (blen (list_remove_at (Z.to_nat pos) l) = blen l - 1) as Hlen
    by (unfold blen; rewrite length_list_remove_at by done; lia).
  apply repr_intro; cbn; rewrite ?Hlen, ?Hl; try done.
  - change max_len with 268435456. lia.
  - rewrite C2, E1, Hl. done.
  - intros i x. change (_intsetGetEncoded _ (Z.of_nat i)) with (_intsetGetEncoded s2 (Z.of_nat i)).
    intros Hx. pose proof (lookup_lt_Some _ _ _ Hx) as Hi.
    rewrite length_list_remove_at in Hi by done. rewrite lookup_list_remove_at in Hx by done.
    assert ((Z.of_nat i + 1) <= blen l - 1) by (unfold blen; lia).
    rewrite G2; [|done|lia|rewrite Hl; enc_lia|rewrite C1, Hc, Hl; enc_lia].
    case_decide.
    + rewrite G1 by lia. by apply Hpk.
    + rewrite G1' by lia. apply Hpk in Hx. rewrite <- Hx. f_equal. lia.
  - apply remove_at_sorted; [done|apply Hr].
Qed.

(** ** intsetValidateIntegrity *)

Lemma validate_loop_spec s (vals : list Z) n i prev :
  (i + n <= List.length vals)%nat -> blen vals <= max_len ->
  (forall j x, vals !! j = Some x -> _intsetGet s (Z.of_nat j) = Some x) ->
  (0 < i)%nat -> vals !! (i - 1)%nat = Some prev ->
  exists b, validate_loop n s (Z.of_nat i) prev = Some b /\
    (b = true <-> forall j x y, (i - 1 <= j)%nat -> (S j < i + n)%nat ->
      vals !! j = Some x -> vals !! S j = Some y -> x < y).
Proof.
  intros Hin Hmax Hget. change max_len with 268435456 in Hmax.
  revert i prev Hin. induction n as [|n IH]; intros i prev Hin Hi Hprev; cbn [validate_loop].
  { exists true. split; [done|]. split; [|done]. intros _ j x y. lia. }
  destruct (lookup_lt_is_Some_2 vals i) as [cur Hcur]; [lia|].
  rewrite wraps_small by (unfold blen in *; zlia). rewrite (Hget _ _ Hcur). cbn.
  destruct (Z.leb_spec cur prev) as [Hle|Hgt].
  - exists false. split; [done|]. split; [done|]. intros H.
    assert (prev < cur); [|lia]. eapply (H (i - 1)%nat); try lia; [done|].
    by replace (S (i - 1)) with i by lia.
  - replace (Z.of_nat i + 1) with (Z.of_nat (S i)) by lia.
    destruct (IH (S i) cur) as (b & -> & Hb); [lia|lia| |].
    { by replace (S i - 1)%nat with i by lia. }
    exists b. split; [done|]. rewrite Hb. split.
    + intros H j x y Hj Hj' Hx Hy. destruct (decide (j = i - 1)%nat) as [->|].
      * replace (S (i - 1)) with i in Hy by lia. simplify_eq. lia.
      * eapply (H j); eauto; lia.
    + intros H j x y Hj Hj' Hx Hy. eapply (H j); eauto; lia.
Qed.

(** The values read at the first [n] indexes. *)
Definition decode_all (s : intset) (n : nat) : list Z :=
  (fun i => default 0 (_intsetGet s (Z.of_nat i))) <$> seq 0 n.

Lemma decode_all_get s n :
  enc_ok (encoding s) -> Z.of_nat n * encoding s <= blen (contents s) ->
  forall i x, decode_all s n !! i = Some x -> _intsetGet s (Z.of_nat i) = Some x.
Proof.
  intros He Hc i x. unfold decode_all. rewrite list_lookup_fmap, fmap_Some.
  intros (j & [-> Hj]%lookup_seq & ->). simpl (0 + i)%nat in *.
  unfold _intsetGet. rewrite u8_enc by done.
  destruct (get_Some s (Z.of_nat i) (encoding s)) as [v ->]; [done|lia|enc_lia|done].
Qed.

(** Two lists packed in the same block are the same list. *)
Lemma repr_decode s l : repr s l -> l = decode_all s (List.length l).
Proof.
  intros Hr. apply list_eq. intros i. unfold decode_all. rewrite list_lookup_fmap.
  destruct (l !! i) as [x|] eqn:Hx.
  - pose proof (lookup_lt_Some _ _ _ Hx). rewrite lookup_seq_lt by done. simpl.
    by rewrite (repr_get _ _ Hr _ _ Hx).
  - apply lookup_ge_None in Hx. by rewrite lookup_seq_ge.
Qed.

Lemma validate_records_spec s :
  enc_ok (encoding s) -> 0 < length s <= max_len ->
  blen (contents s) = length s * encoding s ->
  exists b, (prev ← _intsetGet s 0; validate_loop (Z.to_nat (length s - 1)) s 1 prev) = Some b /\
    (b = true <-> exists l, l <> [] /\ repr s l).
Proof.
  intros He Hn Hc. set (vals := decode_all s (Z.to_nat (length s))).
  assert (List.length vals = Z.to_nat (length s)) as Hlen
    by (unfold vals, decode_all; by rewrite length_fmap, length_seq).
  assert (blen vals = length s) as Hbl by (unfold blen; lia).
  assert (forall i x, vals !! i = Some x -> _intsetGet s (Z.of_nat i) = Some x) as Hget
    by (apply decode_all_get; [done|]; rewrite Z2Nat.id; lia).
  destruct (lookup_lt_is_Some_2 vals 0) as [prev Hprev]; [lia|].
  pose proof (Hget _ _ Hprev) as H0. change (Z.of_nat 0) with 0 in H0. rewrite H0. cbn.
  destruct (validate_loop_spec s vals (Z.to_nat (length s - 1)) 1 prev) as (b & Hb & Hspec);
    [lia|lia|done|lia|done|].
  exists b. split; [done|]. rewrite Hspec. split.
  - intros Hs. exists vals. split; [by destruct vals|].
    constructor; try done; try lia.
    apply sorted_of_lookup. intros i x y Hx Hy. pose proof (lookup_lt_Some _ _ _ Hy).
    eapply (Hs i); eauto; lia.
  - intros (l & Hne & Hr) j x y _ Hj Hx Hy.
    assert (l = vals) as ->.
    { rewrite (repr_decode s l Hr). unfold vals. f_equal.
      pose proof (repr_len _ _ Hr). unfold blen in *. lia. }
    eapply sorted_lookup_lt; [apply Hr|..]; eauto.
Qed.

Lemma blob_fields p s :
  Forall is_byte p -> intset_of_blob p = Some s ->
  is_u 32 (encoding s) /\ is_u 32 (length s) /\ contents s = drop 8 p.
Proof.
  intros Hp. unfold intset_of_blob.
  destruct (load p 0 4) as [e|] eqn:He; [|done].
  destruct (load p 4 4) as [n|] eqn:Hn; [|done]. intros [= <-]. cbn.
  assert (forall o b, load p o 4 = Some b -> is_u 32 (le_decode b)) as Hu.
  { intros o b Hb. pose proof (load_length _ _ _ _ Hb) as Hl.
    unfold is_u. change 32 with (8 * 4). rewrite <- Hl. apply le_decode_range.
    unfold load in Hb. case_decide; [|done]. injection Hb as <-.
    by apply Forall_take, Forall_drop. }
  split_and!; eauto.
Qed.

(** The checks after the record size has been determined. *)
Lemma validate_payload_spec s size :
  enc_ok (encoding s) -> is_u 32 (length s) -> size <= 2 ^ 29 -> blen (contents s) = size - 8 ->
  exists b,
    (if negb (u64 (8 + u64 (length s * encoding s)) =? size) then Some false
     else if length s =? 0 then Some false
     else prev ← _intsetGet s 0; validate_loop (Z.to_nat (length s - 1)) s 1 prev) = Some b /\
    (b = true <-> exists l, l <> [] /\ repr s l).
Proof.
  intros He Hul Hsz Hcl. change (2 ^ 29) with 536870912 in Hsz.
  rewrite !wrapu_small by (rewrite ?wrapu_small; enc_lia).
  destruct (Z.eqb_spec (8 + length s * encoding s) size) as [Heq|Hne]; simpl negb; cbn iota.
  2: { exists false. split; [done|]. split; [done|]. intros (l & _ & Hr).
       pose proof (repr_size _ _ Hr). lia. }
  destruct (Z.eqb_spec (length s) 0) as [H0|H0].
  { exists false. split; [done|]. split; [done|]. intros (l & Hl & Hr).
    pose proof (repr_len _ _ Hr). unfold blen in *. destruct l; [done|]. simpl in *. lia. }
  apply validate_records_spec; [done| |lia]. change max_len with 268435456. enc_lia.
Qed.

(** ** Theorems *)

(** Membership. On a well-formed intset holding the increasing list [l],
    intsetFind terminates without reading outside the block and answers exactly
    whether the 64-bit value belongs to [l]. *)
Theorem intsetFind_correct s l v :
  repr s l -> is_s 64 v ->
  exists b, intsetFind s v = Some b /\ (b = true <-> v ∈ l).
Proof.
  intros Hr Hv. unfold intsetFind. pose proof (repr_enc _ _ Hr) as He.
  destruct (valueEncoding_spec v (encoding s) Hv He) as [_ Hfit].
  destruct (Z.leb_spec (_intsetValueEncoding v) (encoding s)) as [Hle|Hgt].
  - destruct (search_spec s l v Hr) as (f & pos & -> & Hpost). exists f. split; [done|].
    destruct f; simpl in Hpost.
    + split; [|done]. intros _. eapply list_elem_of_lookup_2. apply Hpost.
    + split; [done|]. intros Hin. by apply insert_pos_notin in Hpost.
  - exists false. split; [done|]. split; [done|]. intros Hin.
    apply (repr_fits _ _ _ Hr) in Hin. apply Hfit in Hin. lia.
Qed.

(** C24: insertion. intsetAdd on a well-formed intset never leaves the block,
    keeps it well formed, adds exactly the value to the set, reports success
    exactly when the value was new, and ends with the wider of the old encoding
    and the one the value needs: in-place upgrades lose no element. *)
Theorem intsetAdd_correct junk s l v :
  repr s l -> is_s 64 v -> blen l < max_len ->
  exists s' ok l', intsetAdd junk s v = Some (s', ok) /\ repr s' l' /\
    (forall x, x ∈ l' <-> x = v \/ x ∈ l) /\ (ok = true <-> v ∉ l) /\
    encoding s' = Z.max (encoding s) (_intsetValueEncoding v).
Proof.
  intros Hr Hv Hmax. unfold intsetAdd. pose proof (repr_enc _ _ Hr) as He.
  destruct (valueEncoding_spec v (encoding s) Hv He) as [_ Hfit].
  destruct (Z.gtb_spec (_intsetValueEncoding v) (encoding s)) as [Hgt|Hle].
  - destruct (upgradeAndAdd_spec junk s l v) as (s' & -> & E & Hr'); [done..|lia|].
    eexists s', true, _. split_and!; [done|done| | |lia].
    + intros x. apply elem_of_list_insert_at.
    + split; [|done]. intros _ Hin%(repr_fits _ _ _ Hr). apply Hfit in Hin. lia.
  - destruct (search_spec s l v Hr) as (f & pos & -> & Hpost). cbn.
    destruct f; simpl in Hpost.
    + assert (v ∈ l) by (eapply list_elem_of_lookup_2; apply Hpost).
      exists s, false, l. split_and!; [done|done| | |lia]; [|split; done].
      intros x. split; [auto|]. intros [->|]; done.
    + destruct (add_at_spec junk s l v pos) as (s' & -> & E & Hr'); [done..|by apply Hfit|].
      eexists s', true, _. split_and!; [done|done| | |lia].
      * intros x. apply elem_of_list_insert_at.
      * split; [|done]. intros _. by eapply insert_pos_notin.
Qed.

(** C25: deletion. intsetRemove on a well-formed intset removes exactly the value,
    keeps the intset well formed and reports success exactly when it was there. *)
Theorem intsetRemove_correct junk s l v :
  repr s l -> is_s 64 v ->
  exists s' ok l', intsetRemove junk s v = Some (s', ok) /\ repr s' l' /\
    (forall x, x ∈ l' <-> x ∈ l /\ x <> v) /\ (ok = true <-> v ∈ l).
Proof.
  intros Hr Hv. unfold intsetRemove. pose proof (repr_enc _ _ Hr) as He.
  destruct (valueEncoding_spec v (encoding s) Hv He) as [_ Hfit].
  assert (v ∉ l -> exists s' ok l', Some (s, false) = Some (s', ok) /\ repr s' l' /\
    (forall x, x ∈ l' <-> x ∈ l /\ x <> v) /\ (ok = true <-> v ∈ l)) as Habs.
  { intros Hn. exists s, false, l. split_and!; [done|done| |split; done].
    intros x. split; [|tauto]. intros Hx. split; [done|]. by intros ->. }
  destruct (Z.leb_spec (_intsetValueEncoding v) (encoding s)) as [Hle|Hgt].
  2: { apply Habs. intros Hin%(repr_fits _ _ _ Hr). apply Hfit in Hin. lia. }
  destruct (search_spec s l v Hr) as (f & pos & -> & Hpost). cbn.
  destruct f; simpl in Hpost; [|by apply Habs, (insert_pos_notin _ _ pos)].
  destruct Hpost as [Hp Hl].
  destruct (remove_at_spec junk s l v pos Hr Hp Hl) as (s' & -> & Hr').
  eexists s', true, _. split_and!; [done|done| |].
  - intros x. eapply elem_of_remove_at; [apply Hr|done].
  - split; [|done]. intros _. by eapply list_elem_of_lookup_2.
Qed.

(** C28: payload validation. On any byte string (up to 512 MB, the size limit of a
    Redis string) the deep check of intsetValidateIntegrity is memory safe, and it
    accepts exactly the blobs that are non-empty well-formed intsets. *)
Theorem intsetValidateIntegrity_correct p :
  Forall is_byte p -> blen p <= 2 ^ 29 ->
  exists b, intsetValidateIntegrity p (blen p) true = Some b /\
    (b = true <-> exists s l, intset_of_blob p = Some s /\ l <> [] /\ repr s l).
Proof.
  intros Hp Hsz. unfold intsetValidateIntegrity. change sizeof_intset with 8.
  destruct (Z.ltb_spec (blen p) 8) as [Hlt|Hge].
  { exists false. split; [done|]. split; [done|]. intros (s & l & Hs & _ & _).
    unfold intset_of_blob in Hs. destruct (load p 0 4); [|done].
    unfold load in Hs. rewrite decide_False in Hs by lia. done. }
  assert (exists s, intset_of_blob p = Some s) as [s Hs]
    by (unfold intset_of_blob; rewrite !load_Some by lia; simpl; eauto).
  destruct (blob_fields p s Hp Hs) as (Hue & Hul & Hc). rewrite Hs. cbn [mbind option_bind].
  assert (blen (contents s) = blen p - 8) as Hcl
    by (rewrite Hc; unfold blen in *; rewrite length_drop; lia).
  assert (forall b, (b = true <-> exists l, l <> [] /\ repr s l) ->
    (b = true <-> exists s' l, Some s = Some s' /\ l <> [] /\ repr s' l)) as Hiff.
  { intros b ->. split; [intros (l & Hl); eauto|]. intros (s' & l & [= <-] & Hl). eauto. }
  assert (enc_ok (encoding s) -> exists b,
    (if negb (u64 (8 + u64 (length s * encoding s)) =? blen p) then Some false
     else if length s =? 0 then Some false
     else prev ← _intsetGet s 0; validate_loop (Z.to_nat (length s - 1)) s 1 prev) = Some b /\
    (b = true <-> exists s' l, Some s = Some s' /\ l <> [] /\ repr s' l)) as Hmain.
  { intros He. destruct (validate_payload_spec s (blen p)) as (b & -> & Hb); eauto. }
  unfold enc_ok in Hmain.
  destruct (Z.eqb_spec (encoding s) 8) as [E8|N8]; [rewrite E8 in Hmain; apply Hmain; lia|].
  destruct (Z.eqb_spec (encoding s) 4) as [E4|N4]; [rewrite E4 in Hmain; apply Hmain; lia|].
  destruct (Z.eqb_spec (encoding s) 2) as [E2|N2]; [rewrite E2 in Hmain; apply Hmain; lia|].
  exists false. split; [done|]. apply Hiff. split; [done|]. intros (l & _ & Hr).
  pose proof (repr_enc _ _ Hr). enc_lia.
Qed.

(** ** Witnesses *)

(** The set -2, 5, 300 in 16-bit encoding. *)
Definition sample : intset := mk_intset 2 3 [254; 255; 5; 0; 44; 1].

Lemma sample_repr : repr sample [-2; 5; 300].
Proof.
  apply repr_intro; try done; [left; done|..].
  - intros [|[|[|i]]] x H; simpl in H; simplify_eq; done.
  - repeat constructor.
Qed.

Lemma intsetFind_witness : exists b, intsetFind sample 5 = Some b /\ (b = true <-> 5 ∈ [-2; 5; 300]).
Proof. apply (intsetFind_correct sample [-2; 5; 300] 5); [apply sample_repr|done]. Defined.

Lemma intsetAdd_witness :
  exists s' ok l', intsetAdd (fun _ => 99) sample (-70000) = Some (s', ok) /\ repr s' l' /\
    (forall x, x ∈ l' <-> x = -70000 \/ x ∈ [-2; 5; 300]) /\ (ok = true <-> -70000 ∉ [-2; 5; 300]) /\
    encoding s' = Z.max (encoding sample) (_intsetValueEncoding (-70000)).
Proof. apply (intsetAdd_correct (fun _ => 99) sample [-2; 5; 300] (-70000)); [apply sample_repr|done|done]. Defined.

Lemma intsetRemove_witness :
  exists s' ok l', intsetRemove (fun _ => 99) sample 5 = Some (s', ok) /\ repr s' l' /\
    (forall x, x ∈ l' <-> x ∈ [-2; 5; 300] /\ x <> 5) /\ (ok = true <-> 5 ∈ [-2; 5; 300]).
Proof. apply (intsetRemove_correct (fun _ => 99) sample [-2; 5; 300] 5); [apply sample_repr|done]. Defined.

Lemma intsetValidateIntegrity_witness :
  let p := [2; 0; 0; 0; 2; 0; 0; 0; 1; 0; 255; 127] in
  exists b, intsetValidateIntegrity p (blen p) true = Some b /\
    (b = true <-> exists s l, intset_of_blob p = Some s /\ l <> [] /\ repr s l).
Proof.
  apply intsetValidateIntegrity_correct; [repeat constructor; done|vm_compute; discriminate].
Defined.

(** The upgrade path evaluated: all elements survive the widening to 32 bits. *)
Example upgrade_run :
  intsetAdd (fun _ => 99) sample 70000 =
  Some (mk_intset 4 4 [254; 255; 255; 255; 5; 0; 0; 0; 44; 1; 0; 0; 112; 17; 1; 0], true).
Proof. vm_compute. reflexivity. Qed.

End Intset.
