(* ===== verification/Dict.v ===== *)
(** * Hash tables with incremental rehashing (src/dict.c, src/dict.h)

    A dict keeps two chained hash tables of power-of-two size; while a rehash is
    in progress entries move bucket by bucket from [ht0] to [ht1], a step at each
    operation. A bucket chain is a list of entries; a pointer to an entry is its
    place ([eref]: table, bucket, position). [None] is a null or out-of-range
    dereference or a failed assertion. The callbacks of dictType are parameters:
    the hash function and the expandAllowed veto; keys are compared by the
    equality of [K]. The content of a freshly allocated entry's value is [junk]. *)

From Stdlib Require Import ZArith Lia.
From stdpp Require Import base option list gmap numbers fin_maps.
From S2P Require Import Prelude.
#[local] Open Scope Z_scope.

Module Dict.

Section Model.
Context {K V : Type} `{Countable K}.
Context (hashFunction : K -> Z).
Context (expandAllowed : option (Z -> Z * Z -> bool)).
Context (junk : V).

(** typedef struct dictEntry; the chain is the list it is in. *)
Abbreviation dictEntry := (K * V)%type.

(** typedef struct dictht *)
Record dictht := mk_ht {
  table : option (list (list dictEntry));
  size : Z;
  sizemask : Z;
  used : Z;
}.

(** typedef struct dict; the type and privdata are the section's parameters. *)
Record dict := mk_dict {
  ht0 : dictht;
  ht1 : dictht;
  rehashidx : Z;
  pauserehash : Z;
}.

Definition DICT_HT_INITIAL_SIZE : Z := 4.
Definition dict_force_resize_ratio : Z := 5.

(** A pointer to an entry: which table, which bucket, how far down the chain. *)
Record eref := mk_eref { e_tbl : bool; e_idx : Z; e_pos : nat }.

Definition ht (d : dict) (tbl : bool) : dictht := if tbl then ht1 d else ht0 d.

Definition set_ht (d : dict) (tbl : bool) (h : dictht) : dict :=
  if tbl then mk_dict (ht0 d) h (rehashidx d) (pauserehash d)
  else mk_dict h (ht1 d) (rehashidx d) (pauserehash d).

Definition set_rehashidx (d : dict) (i : Z) : dict := mk_dict (ht0 d) (ht1 d) i (pauserehash d).

(** ht->table[idx] *)
Definition bucket (h : dictht) (idx : Z) : option (list dictEntry) :=
  t ← table h; if decide (0 <= idx) then t !! Z.to_nat idx else None.

(** ht->table[idx] = chain *)
Definition set_bucket (h : dictht) (idx : Z) (chain : list dictEntry) : dictht :=
  mk_ht ((fun t => <[Z.to_nat idx := chain]> t) <$> table h) (size h) (sizemask h) (used h).

Definition set_used (h : dictht) (u : Z) : dictht := mk_ht (table h) (size h) (sizemask h) u.

Definition dictSize (d : dict) : Z := u64 (used (ht0 d) + used (ht1 d)).

Definition dictIsRehashing (d : dict) : bool := negb (rehashidx d =? -1).

Definition dictHashKey (key : K) : Z := hashFunction key.

Definition _dictReset : dictht := mk_ht None 0 0 0.

(** dictCreate with its _dictInit. *)
Definition dictCreate : dict := mk_dict _dictReset _dictReset (-1) 0.

(** The doubling loop of _dictNextPower. *)
Fixpoint next_power_loop (fuel : nat) (i sz : Z) : option Z :=
  match fuel with
  | O => None
  | S fuel => if i >=? sz then Some i else next_power_loop fuel (u64 (i * 2)) sz
  end.

Definition _dictNextPower (sz : Z) : option Z :=
  if sz >=? INT64_MAX then Some (u64 (INT64_MAX + 1))
  else next_power_loop 64 DICT_HT_INITIAL_SIZE sz.

(** [try_alloc] is Some when the caller passes malloc_failed; it says whether
    ztrycalloc of that many bytes succeeds. The result is the dict, whether it was
    DICT_OK, and malloc_failed. *)
Definition _dictExpand (try_alloc : option (Z -> bool)) (d : dict) (sz : Z)
    : option (dict * bool * bool) :=
  if dictIsRehashing d || (used (ht0 d) >? sz) then Some (d, false, false)
  else
    realsize ← _dictNextPower sz;
    if (realsize <? sz) || (u64 (realsize * 8) <? realsize) then Some (d, false, false)
    else if realsize =? size (ht0 d) then Some (d, false, false)
    else if match try_alloc with Some ok => negb (ok (u64 (realsize * 8))) | None => false end
    then Some (d, false, true)
    else
      let n := mk_ht (Some (replicate (Z.to_nat realsize) [])) realsize (u64 (realsize - 1)) 0 in
      match table (ht0 d) with
      | None => Some (set_ht d false n, true, false)
      | Some _ => Some (set_rehashidx (set_ht d true n) 0, true, false)
      end.

Definition dictExpand (d : dict) (sz : Z) : option (dict * bool) :=
  '(d, ok, _) ← _dictExpand None d sz; Some (d, ok).

Definition dictTryExpand (try_alloc : Z -> bool) (d : dict) (sz : Z) : option (dict * bool) :=
  '(d, _, malloc_failed) ← _dictExpand (Some try_alloc) d sz; Some (d, negb malloc_failed).

Definition dictResize (dict_can_resize : bool) (d : dict) : option (dict * bool) :=
  if negb dict_can_resize || dictIsRehashing d then Some (d, false)
  else
    let minimal := used (ht0 d) in
    let minimal := if minimal <? DICT_HT_INITIAL_SIZE then DICT_HT_INITIAL_SIZE else minimal in
    dictExpand d minimal.

(** while(de): moves a chain to the heads of its buckets in the new table. *)
Fixpoint rehash_chain (d : dict) (chain : list dictEntry) : option dict :=
  match chain with
  | [] => Some d
  | de :: nextde =>
      let h := Z.land (dictHashKey (fst de)) (sizemask (ht1 d)) in
      b ← bucket (ht1 d) h;
      let n0 := set_used (ht0 d) (u64 (used (ht0 d) - 1)) in
      let n1 := set_used (set_bucket (ht1 d) h (de :: b)) (u64 (used (ht1 d) + 1)) in
      rehash_chain (mk_dict n0 n1 (rehashidx d) (pauserehash d)) nextde
  end.

(** Skips empty buckets: Some (d, ev, true) is the early return 1. *)
Fixpoint rehash_skip (fuel : nat) (d : dict) (empty_visits : Z) : option (dict * Z * bool) :=
  match fuel with
  | O => None
  | S fuel =>
      b ← bucket (ht0 d) (rehashidx d);
      match b with
      | [] =>
          let d := set_rehashidx d (rehashidx d + 1) in
          let empty_visits := empty_visits - 1 in
          if empty_visits =? 0 then Some (d, empty_visits, true)
          else rehash_skip fuel d empty_visits
      | _ :: _ => Some (d, empty_visits, false)
      end
  end.

(** while(n-- && d->ht[0].used != 0) *)
Fixpoint rehash_loop (n : nat) (d : dict) (empty_visits : Z) : option (dict * bool) :=
  match n with
  | O => Some (d, false)
  | S n =>
      if used (ht0 d) =? 0 then Some (d, false)
      else if size (ht0 d) <=? rehashidx d then None
      else
        '(d, empty_visits, ret) ← rehash_skip (S (Z.to_nat (size (ht0 d)))) d empty_visits;
        if ret : bool then Some (d, true)
        else
          chain ← bucket (ht0 d) (rehashidx d);
          d ← rehash_chain d chain;
          let d := set_ht d false (set_bucket (ht0 d) (rehashidx d) []) in
          rehash_loop n (set_rehashidx d (rehashidx d + 1)) empty_visits
  end.

(** Returns the dict and whether there is more to rehash. *)
Definition dictRehash (d : dict) (n : nat) : option (dict * bool) :=
  if negb (dictIsRehashing d) then Some (d, false)
  else
    '(d, ret) ← rehash_loop n d (Z.of_nat n * 10);
    if ret : bool then Some (d, true)
    else if used (ht0 d) =? 0
    then Some (mk_dict (ht1 d) _dictReset (-1) (pauserehash d), false)
    else Some (d, true).

Definition _dictRehashStep (d : dict) : option dict :=
  if pauserehash d =? 0 then fst <$> dictRehash d 1 else Some d.

Definition rehash_if_rehashing (d : dict) : option dict :=
  if dictIsRehashing d then _dictRehashStep d else Some d.

(** while(he): position of the key in a chain. *)
Fixpoint find_chain (key : K) (chain : list dictEntry) : option nat :=
  match chain with
  | [] => None
  | he :: next => if decide (key = fst he) then Some O else S <$> find_chain key next
  end.

(** One iteration of the loops over the two tables. *)
Definition find_table (d : dict) (tbl : bool) (h : Z) (key : K) : option (option eref) :=
  let idx := Z.land h (sizemask (ht d tbl)) in
  chain ← bucket (ht d tbl) idx;
  Some (mk_eref tbl idx <$> find_chain key chain).

(** dictEntry fields through a pointer. *)
Definition deref (d : dict) (r : eref) : option dictEntry :=
  chain ← bucket (ht d (e_tbl r)) (e_idx r); chain !! e_pos r.

Definition dictSetVal (d : dict) (r : eref) (val : V) : option dict :=
  chain ← bucket (ht d (e_tbl r)) (e_idx r);
  e ← chain !! e_pos r;
  Some (set_ht d (e_tbl r)
          (set_bucket (ht d (e_tbl r)) (e_idx r) (<[e_pos r := (fst e, val)]> chain))).

Definition dictFind (d : dict) (key : K) : option (dict * option eref) :=
  if dictSize d =? 0 then Some (d, None)
  else
    d ← rehash_if_rehashing d;
    let h := dictHashKey key in
    r ← find_table d false h key;
    match r with
    | Some r => Some (d, Some r)
    | None =>
        if negb (dictIsRehashing d) then Some (d, None)
        else r ← find_table d true h key; Some (d, r)
    end.

Definition dictFetchValue (d : dict) (key : K) : option (dict * option V) :=
  '(d, he) ← dictFind d key;
  match he with
  | Some r => e ← deref d r; Some (d, Some (snd e))
  | None => Some (d, None)
  end.

Definition dictTypeExpandAllowed (d : dict) : option bool :=
  match expandAllowed with
  | None => Some true
  | Some allowed =>
      p ← _dictNextPower (u64 (used (ht0 d) + 1));
      Some (allowed (u64 (p * 8)) (used (ht0 d), size (ht0 d)))
  end.

Definition _dictExpandIfNeeded (dict_can_resize : bool) (d : dict) : option (dict * bool) :=
  if dictIsRehashing d then Some (d, true)
  else if size (ht0 d) =? 0 then dictExpand d DICT_HT_INITIAL_SIZE
  else if (used (ht0 d) >=? size (ht0 d)) &&
          (dict_can_resize || (used (ht0 d) / size (ht0 d) >? dict_force_resize_ratio))
  then
    allowed ← dictTypeExpandAllowed d;
    if allowed : bool then dictExpand d (u64 (used (ht0 d) + 1)) else Some (d, true)
  else Some (d, true).

(** inl existing: the key was found there (or, with None, the table could not be
    expanded); inr idx: the free slot. *)
Definition _dictKeyIndex (dict_can_resize : bool) (d : dict) (key : K) (hash : Z)
    : option (dict * (option eref + Z)) :=
  '(d, ok) ← _dictExpandIfNeeded dict_can_resize d;
  if negb ok then Some (d, inl None)
  else
    r ← find_table d false hash key;
    match r with
    | Some r => Some (d, inl (Some r))
    | None =>
        if negb (dictIsRehashing d) then Some (d, inr (Z.land hash (sizemask (ht0 d))))
        else
          r ← find_table d true hash key;
          match r with
          | Some r => Some (d, inl (Some r))
          | None => Some (d, inr (Z.land hash (sizemask (ht1 d))))
          end
    end.

(** The tail of dictAddRaw: allocates the entry and links it on top of its chain. *)
Definition add_entry (d : dict) (index : Z) (key : K) : option (dict * eref) :=
  let tbl := dictIsRehashing d in
  chain ← bucket (ht d tbl) index;
  let h := set_bucket (ht d tbl) index ((key, junk) :: chain) in
  let h := set_used h (u64 (used h + 1)) in
  Some (set_ht d tbl h, mk_eref tbl index 0).

(** inr r: the new entry; inl existing: nothing was added. *)
Definition dictAddRaw (dict_can_resize : bool) (d : dict) (key : K)
    : option (dict * (option eref + eref)) :=
  d ← rehash_if_rehashing d;
  '(d, slot) ← _dictKeyIndex dict_can_resize d key (dictHashKey key);
  match slot with
  | inl existing => Some (d, inl existing)
  | inr index => '(d, entry) ← add_entry d index key; Some (d, inr entry)
  end.

(** true is DICT_OK. *)
Definition dictAdd (dict_can_resize : bool) (d : dict) (key : K) (val : V) : option (dict * bool) :=
  '(d, r) ← dictAddRaw dict_can_resize d key;
  match r with
  | inr entry => d ← dictSetVal d entry val; Some (d, true)
  | inl _ => Some (d, false)
  end.

(** true is the return value 1: added from scratch. *)
Definition dictReplace (dict_can_resize : bool) (d : dict) (key : K) (val : V) : option (dict * bool) :=
  '(d, r) ← dictAddRaw dict_can_resize d key;
  match r with
  | inr entry => d ← dictSetVal d entry val; Some (d, true)
  | inl existing => existing ← existing; d ← dictSetVal d existing val; Some (d, false)
  end.

Definition dictAddOrFind (dict_can_resize : bool) (d : dict) (key : K) : option (dict * eref) :=
  '(d, r) ← dictAddRaw dict_can_resize d key;
  match r with
  | inr entry => Some (d, entry)
  | inl existing => existing ← existing; Some (d, existing)
  end.

(** Unlinks the entry at [r]: prevHe->next, or the bucket head, becomes he->next. *)
Definition unlink (d : dict) (r : eref) : option (dict * dictEntry) :=
  chain ← bucket (ht d (e_tbl r)) (e_idx r);
  he ← chain !! e_pos r;
  let h := set_bucket (ht d (e_tbl r)) (e_idx r) (delete (e_pos r) chain) in
  Some (set_ht d (e_tbl r) (set_used h (u64 (used h - 1))), he).

(** dictGenericDelete; the entry it unlinks is handed over, freed or not. *)
Definition dictGenericDelete (d : dict) (key : K) : option (dict * option dictEntry) :=
  if (used (ht0 d) =? 0) && (used (ht1 d) =? 0) then Some (d, None)
  else
    d ← rehash_if_rehashing d;
    let h := dictHashKey key in
    r ← find_table d false h key;
    match r with
    | Some r => '(d, he) ← unlink d r; Some (d, Some he)
    | None =>
        if negb (dictIsRehashing d) then Some (d, None)
        else
          r ← find_table d true h key;
          match r with
          | Some r => '(d, he) ← unlink d r; Some (d, Some he)
          | None => Some (d, None)
          end
    end.

Definition dictDelete (d : dict) (key : K) : option (dict * bool) :=
  '(d, he) ← dictGenericDelete d key; Some (d, bool_decide (is_Some he)).

Definition dictUnlink (d : dict) (key : K) : option (dict * option dictEntry) :=
  dictGenericDelete d key.

(** for (i = 0; i < ht->size && ht->used > 0; i++): the chains freed, in order;
    [t] is the part of the table from index i on. *)
Fixpoint clear_loop (t : list (list dictEntry)) (u : Z) : list dictEntry * Z :=
  match t with
  | [] => ([], u)
  | chain :: t =>
      if u >? 0 then
        let '(freed, u) := clear_loop t (u64 (u - Z.of_nat (length chain))) in
        (chain ++ freed, u)
      else ([], u)
  end.

(** _dictClear: the reset table and the entries that were freed. *)
Definition _dictClear (h : dictht) : dictht * list dictEntry :=
  (_dictReset, fst (clear_loop (default [] (table h)) (used h))).

Definition dictEmpty (d : dict) : dict * list dictEntry :=
  let '(n0, f0) := _dictClear (ht0 d) in
  let '(n1, f1) := _dictClear (ht1 d) in
  (mk_dict n0 n1 (-1) 0, f0 ++ f1).

(** while ((s >>= 1) > 0) of rev. *)
Fixpoint rev_loop (fuel : nat) (s mask v : Z) : Z :=
  match fuel with
  | O => v
  | S fuel =>
      let s := Z.shiftr s 1 in
      if s >? 0 then
        let mask := Z.lxor mask (u64 (Z.shiftl mask s)) in
        let v := Z.lor (Z.land (Z.shiftr v s) mask)
                       (Z.land (u64 (Z.shiftl v s)) (Z.lxor UINT64_MAX mask)) in
        rev_loop fuel s mask v
      else v
  end.

Definition rev (v : Z) : Z := rev_loop 7 64 UINT64_MAX v.

(** v |= ~m; v = rev(v); v++; v = rev(v) *)
Definition next_cursor (m v : Z) : Z := rev (u64 (rev (Z.lor v (Z.lxor UINT64_MAX m)) + 1)).

(** The do-while over the expansions of the cursor in the larger table. *)
Fixpoint scan_loop (fuel : nat) (t1 : dictht) (m0 m1 v : Z) : option (Z * list dictEntry) :=
  match fuel with
  | O => None
  | S fuel =>
      de ← bucket t1 (Z.land v m1);
      let v := next_cursor m1 v in
      if Z.land v (Z.lxor m0 m1) =? 0 then Some (v, de)
      else '(v, rest) ← scan_loop fuel t1 m0 m1 v; Some (v, de ++ rest)
  end.

(** The new cursor and the entries passed to fn, in order. Rehashing is paused
    during the call and resumed before it returns; the callback only observes. *)
Definition dictScan (d : dict) (v : Z) : option (Z * list dictEntry) :=
  if dictSize d =? 0 then Some (0, [])
  else if negb (dictIsRehashing d) then
    let m0 := sizemask (ht0 d) in
    de ← bucket (ht0 d) (Z.land v m0);
    Some (next_cursor m0 v, de)
  else
    let '(t0, t1) := if size (ht0 d) >? size (ht1 d) then (ht1 d, ht0 d) else (ht0 d, ht1 d) in
    let m0 := sizemask t0 in
    let m1 := sizemask t1 in
    de ← bucket t0 (Z.land v m0);
    '(v, rest) ← scan_loop (S (Z.to_nat (size t1))) t1 m0 m1 v;
    Some (v, de ++ rest).

(** ** Representation invariant *)

Definition ht_entries (h : dictht) : list dictEntry := concat (default [] (table h)).
#[local] Arguments ht_entries : simpl never.

Definition entries (d : dict) : list dictEntry := ht_entries (ht0 d) ++ ht_entries (ht1 d).

(** The finite map a dict stands for. *)
Definition dmap (d : dict) : gmap K V := list_to_map (entries d).

(** An allocated table: a power of two of buckets, the counters exact, and every
    entry in the bucket its hash selects. *)
Record ht_ok (h : dictht) (t : list (list dictEntry)) : Prop := {
  ok_table : table h = Some t;
  ok_size : exists k, 2 <= k <= 60 /\ size h = 2 ^ k;
  ok_mask : sizemask h = size h - 1;
  ok_len : Z.of_nat (length t) = size h;
  ok_used : used h = Z.of_nat (length (concat t));
  ok_placed : forall i chain e, t !! i = Some chain -> e ∈ chain ->
    Z.land (hashFunction (fst e)) (sizemask h) = Z.of_nat i;
}.

(** No rehash: ht1 is reset and ht0 is reset or allocated. *)
Definition stable (d : dict) : Prop :=
  rehashidx d = -1 /\ ht1 d = _dictReset /\ (ht0 d = _dictReset \/ exists t, ht_ok (ht0 d) t).

(** A rehash in progress: buckets of ht0 below rehashidx have been emptied. *)
Definition rehashing (d : dict) : Prop :=
  exists t0 t1, ht_ok (ht0 d) t0 /\ ht_ok (ht1 d) t1 /\ 0 <= rehashidx d /\
    forall i chain, t0 !! i = Some chain -> Z.of_nat i < rehashidx d -> chain = [].

(** More entries than this do not fit in memory; it keeps the size arithmetic of
    dictExpand from overflowing. *)
Definition max_entries : Z := 2 ^ 59.

Record wf (d : dict) : Prop := {
  wf_state : stable d \/ rehashing d;
  wf_keys : NoDup (entries d).*1;
  wf_count : Z.of_nat (length (entries d)) <= max_entries;
}.

Hypothesis hash_u64 : forall k, is_u 64 (hashFunction k).

(** ** Chains and buckets *)

Lemma concat_insert_perm (t : list (list dictEntry)) i b c :
  t !! i = Some b -> concat (<[i := c]> t) ++ b ≡ₚ concat t ++ c.
Proof.
  intros Hb. rewrite insert_take_drop by (by eapply lookup_lt_Some).
  rewrite <- (take_drop_middle t i b Hb) at 3. rewrite !concat_app. simpl.
  rewrite <- !app_assoc. apply Permutation_app_head.
  rewrite !app_assoc. rewrite (Permutation_app_comm c), (Permutation_app_comm b).
  rewrite <- !app_assoc. apply Permutation_app_head, Permutation_app_comm.
Qed.

Lemma mask_range h t k : ht_ok h t -> 0 <= Z.land (hashFunction k) (sizemask h) < size h.
Proof.
  intros Hok. destruct (ok_size _ _ Hok) as (n & Hn & Hs). rewrite (ok_mask _ _ Hok), Hs.
  replace (2 ^ n - 1) with (Z.ones n) by (rewrite Z.ones_equiv; lia).
  rewrite Z.land_ones by lia. apply Z.mod_pos_bound. lia.
Qed.

Lemma bucket_Some h t idx :
  ht_ok h t -> 0 <= idx < size h -> exists b, bucket h idx = Some b /\ t !! Z.to_nat idx = Some b.
Proof.
  intros Hok Hi. unfold bucket. rewrite (ok_table _ _ Hok). cbn.
  rewrite decide_True by lia. pose proof (ok_len _ _ Hok).
  destruct (lookup_lt_is_Some_2 t (Z.to_nat idx)) as [b Hb]; [lia|]. eauto.
Qed.

Lemma bucket_lookup h t idx b :
  ht_ok h t -> bucket h idx = Some b -> 0 <= idx /\ t !! Z.to_nat idx = Some b.
Proof.
  intros Hok. unfold bucket. rewrite (ok_table _ _ Hok). cbn. case_decide; [auto|done].
Qed.

Lemma ht_entries_ok h t : ht_ok h t -> ht_entries h = concat t.
Proof. intros Hok. unfold ht_entries. by rewrite (ok_table _ _ Hok). Qed.

(** Replacing a chain keeps the table well formed when the counter is adjusted
    and the new chain belongs to that bucket. *)
Lemma ht_ok_set_bucket h t idx b c u :
  ht_ok h t -> bucket h idx = Some b ->
  (forall e, e ∈ c -> Z.land (hashFunction (fst e)) (sizemask h) = idx) ->
  u = used h - Z.of_nat (length b) + Z.of_nat (length c) ->
  ht_ok (set_used (set_bucket h idx c) u) (<[Z.to_nat idx := c]> t) /\
  concat (<[Z.to_nat idx := c]> t) ++ b ≡ₚ concat t ++ c.
Proof.
  intros Hok Hb Hc Hu. destruct (bucket_lookup _ _ _ _ Hok Hb) as [Hi Hl].
  pose proof (concat_insert_perm t _ b c Hl) as Hp. split; [|done].
  destruct Hok as [Ht Hs Hm Hlen Hused Hpl]. constructor; cbn; try done.
  - by rewrite Ht.
  - by rewrite length_insert.
  - apply Permutation_length in Hp. rewrite !length_app in Hp. lia.
  - intros i chain e. destruct (decide (i = Z.to_nat idx)) as [->|Hne].
    + rewrite list_lookup_insert_eq by (by eapply lookup_lt_Some).
      intros [= <-] He. rewrite Hc by done. lia.
    + rewrite list_lookup_insert_ne by done. apply Hpl.
Qed.

Lemma find_chain_Some key chain p :
  find_chain key chain = Some p -> exists v, chain !! p = Some (key, v).
Proof.
  revert p. induction chain as [|[k v] chain IH]; intros p; simpl; [done|].
  case_decide as Hk; simpl in *.
  - intros [= <-]. subst. eauto.
  - destruct (find_chain key chain) as [q|]; [|done]. intros [= <-]. simpl. by apply IH.
Qed.

Lemma find_chain_None key (chain : list dictEntry) :
  find_chain key chain = None -> key ∉ chain.*1.
Proof.
  induction chain as [|[k v] chain IH]; simpl; [intros _; apply not_elem_of_nil|].
  case_decide as Hk; [done|]. destruct (find_chain key chain); [done|].
  intros _. rewrite not_elem_of_cons. auto.
Qed.

(** A lookup in one table finds the key exactly when the table has it. *)
Lemma find_table_spec d tbl t key :
  ht_ok (ht d tbl) t ->
  exists r, find_table d tbl (hashFunction key) key = Some r /\
    match r with
    | Some r => e_tbl r = tbl /\ exists v, deref d r = Some (key, v)
    | None => key ∉ (concat t).*1
    end.
Proof.
  intros Hok. unfold find_table. pose proof (mask_range _ _ key Hok) as Hr.
  destruct (bucket_Some _ _ _ Hok Hr) as (b & Hb & Hl). rewrite Hb. cbn.
  destruct (find_chain key b) as [p|] eqn:Hf; eexists; (split; [done|]); cbn.
  - split; [done|]. unfold deref. cbn. rewrite Hb. cbn. by apply find_chain_Some.
  - intros Hin. apply list_elem_of_fmap in Hin as ([k v] & -> & Hin). simpl in *.
    apply list_elem_of_In, in_concat in Hin as (c & Hc & Hin).
    apply list_elem_of_In, list_elem_of_lookup in Hc as [i Hi]. apply list_elem_of_In in Hin.
    pose proof (ok_placed _ _ Hok _ _ _ Hi Hin) as Hpl. simpl in Hpl. rewrite Hpl in Hl.
    rewrite Nat2Z.id in Hl. rewrite Hi in Hl. injection Hl as ->.
    apply find_chain_None in Hf. apply Hf. apply list_elem_of_fmap. by exists (k, v).
Qed.

(** ** Rehashing *)

Lemma ht_ok_push h t key v :
  ht_ok h t -> Z.of_nat (length (concat t)) < max_entries ->
  let idx := Z.land (hashFunction key) (sizemask h) in
  exists b t', bucket h idx = Some b /\
    ht_ok (set_used (set_bucket h idx ((key, v) :: b)) (u64 (used h + 1))) t' /\
    concat t' ≡ₚ (key, v) :: concat t.
Proof.
  intros Hok Hlen idx. pose proof (mask_range _ _ key Hok) as Hr.
  destruct (bucket_Some _ _ _ Hok Hr) as (b & Hb & Hl).
  destruct (ht_ok_set_bucket h t idx b ((key, v) :: b) (u64 (used h + 1))) as [Hok' Hp]; try done.
  - intros e [->|He]%elem_of_cons; [done|]. rewrite (ok_placed _ _ Hok _ _ _ Hl He).
    rewrite Z2Nat.id by lia. done.
  - pose proof (ok_used _ _ Hok). unfold max_entries in Hlen. rewrite wrapu_small by zlia.
    simpl length. lia.
  - eexists b, _. split_and!; [done..|].
    apply (Permutation_app_inv_r b). rewrite Hp. simpl.
    symmetry. apply Permutation_middle.
Qed.

Lemma set_used_set_used (h : dictht) u u' : set_used (set_used h u) u' = set_used h u'.
Proof. done. Qed.

(** Moving a chain puts all its entries in ht1 and only lowers ht0's counter. *)
Lemma rehash_chain_spec chain d t1 :
  ht_ok (ht1 d) t1 -> Z.of_nat (length chain) <= used (ht0 d) < 2 ^ 64 ->
  Z.of_nat (length chain) + Z.of_nat (length (concat t1)) <= max_entries ->
  exists h1 t1', rehash_chain d chain =
      Some (mk_dict (set_used (ht0 d) (used (ht0 d) - Z.of_nat (length chain))) h1
              (rehashidx d) (pauserehash d)) /\
    ht_ok h1 t1' /\ concat t1' ≡ₚ chain ++ concat t1.
Proof.
  revert d t1. induction chain as [|[k v] chain IH]; intros d t1 Hok Hu Hlen.
  { exists (ht1 d), t1. split_and!; [|done|done]. cbn [rehash_chain length].
    rewrite Z.sub_0_r. by destruct d as [[]]. }
  cbn [rehash_chain length fst] in *. unfold dictHashKey.
  destruct (ht_ok_push (ht1 d) t1 k v Hok) as (b & t' & Hb & Hok' & Hp); [lia|].
  rewrite Hb. cbn [mbind option_bind].
  rewrite (wrapu_small 64 (used (ht0 d) - 1)) by zlia.
  match type of Hok' with ht_ok ?h _ => set (h' := h) in * end.
  destruct (IH (mk_dict (set_used (ht0 d) (used (ht0 d) - 1)) h' (rehashidx d) (pauserehash d)) t')
    as (h1 & t1' & -> & Hok1 & Hp1); [exact Hok'|cbn; lia| |].
  { rewrite Hp. simpl length. lia. }
  exists h1, t1'. split_and!; [|done|].
  - cbn [ht0 rehashidx pauserehash used set_used]. rewrite set_used_set_used.
    by replace (used (ht0 d) - 1 - Z.of_nat (length chain))
      with (used (ht0 d) - Z.of_nat (S (length chain))) by lia.
  - rewrite Hp1, Hp. simpl. symmetry. apply Permutation_middle.
Qed.

Lemma nonempty_bucket (t : list (list dictEntry)) :
  concat t <> [] -> exists m chain, t !! m = Some chain /\ chain <> [].
Proof.
  induction t as [|c t IH]; simpl; [done|]. intros Hne. destruct c as [|e c].
  - destruct (IH Hne) as (m & chain & Hm & Hc). by exists (S m), chain.
  - by exists O, (e :: c).
Qed.

(** While ht0 still counts entries, one of them is at or after rehashidx. *)
Lemma rehash_target d t0 :
  ht_ok (ht0 d) t0 -> used (ht0 d) <> 0 ->
  (forall i chain, t0 !! i = Some chain -> Z.of_nat i < rehashidx d -> chain = []) ->
  exists m chain, t0 !! m = Some chain /\ chain <> [] /\
    rehashidx d <= Z.of_nat m < size (ht0 d).
Proof.
  intros Hok Hu He. destruct (nonempty_bucket t0) as (m & chain & Hm & Hc).
  { intros Hnil. rewrite (ok_used _ _ Hok), Hnil in Hu. done. }
  exists m, chain. split_and!; [done..| |].
  - destruct (decide (rehashidx d <= Z.of_nat m)); [done|].
    destruct Hc. eapply He; [done|lia].
  - rewrite <- (ok_len _ _ Hok). apply lookup_lt_Some in Hm. lia.
Qed.

Lemma rehash_skip_spec fuel d t0 m chain ev :
  ht_ok (ht0 d) t0 -> 0 <= rehashidx d <= Z.of_nat m -> t0 !! m = Some chain -> chain <> [] ->
  (forall i c, t0 !! i = Some c -> Z.of_nat i < rehashidx d -> c = []) ->
  Z.of_nat m - rehashidx d < Z.of_nat fuel ->
  exists j ev' ret, rehash_skip fuel d ev = Some (set_rehashidx d j, ev', ret) /\
    rehashidx d <= j <= Z.of_nat m /\
    (forall i c, t0 !! i = Some c -> Z.of_nat i < j -> c = []) /\
    (ret = true -> rehashidx d < j) /\
    (ret = false -> exists c, bucket (ht0 d) j = Some c /\ c <> []).
Proof.
  intros Hok. revert d Hok ev. induction fuel as [|fuel IH]; intros d Hok ev Hr Hm Hc He Hf; [lia|].
  cbn [rehash_skip].
  assert (Z.of_nat m < size (ht0 d))
    by (rewrite <- (ok_len _ _ Hok); apply lookup_lt_Some in Hm; lia).
  destruct (bucket_Some _ _ (rehashidx d) Hok) as (b & Hb & Hl); [lia|]. rewrite Hb. cbn.
  destruct b as [|e b].
  2: { exists (rehashidx d), ev, false. split_and!; [by destruct d|lia|lia|done|done|eauto]. }
  assert (rehashidx d <> Z.of_nat m) as Hne.
  { intros E. rewrite E, Nat2Z.id, Hm in Hl. by injection Hl as ->. }
  assert (forall i c, t0 !! i = Some c -> Z.of_nat i < rehashidx d + 1 -> c = []) as He'.
  { intros i c Hi Hlt. destruct (decide (Z.of_nat i = rehashidx d)) as [E|].
    - rewrite <- E, Nat2Z.id, Hi in Hl. congruence.
    - eapply He; [done|lia]. }
  destruct (ev - 1 =? 0).
  { exists (rehashidx d + 1), (ev - 1), true. split_and!; [done|lia|lia|done|lia|done]. }
  destruct (IH (set_rehashidx d (rehashidx d + 1)) Hok (ev - 1)) as (j & ev' & ret & -> & Hj & He1 & Hrt & Hrf);
    cbn in *; [lia|done..|lia|].
  exists j, ev', ret. split_and!; [done|lia|lia|done| |done]. intros E. specialize (Hrt E). lia.
Qed.

(** Moving the bucket at [j] and clearing it is one step of the rehash. *)
Lemma rehash_bucket_spec d t0 t1 j c :
  ht_ok (ht0 d) t0 -> ht_ok (ht1 d) t1 -> 0 <= j -> bucket (ht0 d) j = Some c ->
  (forall i ch, t0 !! i = Some ch -> Z.of_nat i < j -> ch = []) ->
  Z.of_nat (length (entries d)) <= max_entries ->
  exists d1, rehash_chain (set_rehashidx d j) c = Some d1 /\
    let d2 := set_rehashidx (set_ht d1 false (set_bucket (ht0 d1) (rehashidx d1) [])) (rehashidx d1 + 1) in
    rehashing d2 /\ entries d2 ≡ₚ entries d /\ rehashidx d2 = j + 1 /\
    pauserehash d2 = pauserehash d /\ size (ht0 d2) = size (ht0 d).
Proof.
  intros Hok0 Hok1 Hj Hc Hemp Hlen. destruct (bucket_lookup _ _ _ _ Hok0 Hc) as [_ Hlc].
  unfold entries in *. rewrite (ht_entries_ok _ _ Hok0), (ht_entries_ok _ _ Hok1) in *.
  rewrite length_app in Hlen. pose proof (ok_used _ _ Hok0) as Hused.
  assert (length c <= length (concat t0))%nat as Hcl.
  { pose proof (Permutation_length (concat_insert_perm t0 _ c [] Hlc)) as Hp.
    rewrite !length_app in Hp. simpl in Hp. lia. }
  destruct (rehash_chain_spec c (set_rehashidx d j) t1) as (h1 & t1' & -> & Hok1' & Hp1);
    cbn; [done|unfold max_entries in Hlen; zlia|lia|].
  destruct (ht_ok_set_bucket (ht0 d) t0 j c [] (used (ht0 d) - Z.of_nat (length c)))
    as [Hok0' Hp0]; [done|done|by intros ? []%not_elem_of_nil|simpl; lia|].
  eexists. split; [done|]. cbn [set_rehashidx set_ht ht0 ht1 rehashidx pauserehash].
  set (h0 := set_bucket _ _ _).
  rewrite (ht_entries_ok h0 _ Hok0'), (ht_entries_ok h1 _ Hok1').
  split_and!; [|by rewrite Hp1, app_assoc, Hp0, app_nil_r|done..].
  exists (<[Z.to_nat j := []]> t0), t1'. split_and!; cbn; [done|done|lia|].
  intros i ch Hi Hlt. destruct (decide (i = Z.to_nat j)) as [->|Hne].
  - rewrite list_lookup_insert_eq in Hi by (by eapply lookup_lt_Some). congruence.
  - rewrite list_lookup_insert_ne in Hi by done. eapply Hemp; [done|lia].
Qed.

(** The rehash loop: what [rehashing] says is kept, and so are the entries. *)
Lemma rehash_loop_spec n d ev :
  rehashing d -> Z.of_nat (length (entries d)) <= max_entries ->
  exists d' ret, rehash_loop n d ev = Some (d', ret) /\ rehashing d' /\
    entries d' ≡ₚ entries d /\ pauserehash d' = pauserehash d /\ size (ht0 d') = size (ht0 d) /\
    rehashidx d <= rehashidx d' /\
    ((0 < n)%nat -> used (ht0 d') <> 0 -> rehashidx d < rehashidx d') /\
    (ret = true -> used (ht0 d') <> 0).
Proof.
  revert d ev. induction n as [|n IH]; intros d ev Hd Hlen; cbn [rehash_loop].
  { exists d, false. split_and!; try done; lia. }
  destruct (Z.eqb_spec (used (ht0 d)) 0) as [Hu|Hu].
  { exists d, false. split_and!; try done; lia. }
  destruct Hd as (t0 & t1 & Hok0 & Hok1 & Hidx & Hemp).
  destruct (rehash_target d t0 Hok0 Hu Hemp) as (m & mc & Hm & Hmc & Hmr).
  destruct (Z.leb_spec (size (ht0 d)) (rehashidx d)); [lia|].
  destruct (rehash_skip_spec (S (Z.to_nat (size (ht0 d)))) d t0 m mc ev)
    as (j & ev' & ret & -> & Hj & Hemp' & Hrt & Hrf); [done|lia|done|done|done|lia|].
  cbn [mbind option_bind]. destruct ret.
  { exists (set_rehashidx d j), true. specialize (Hrt eq_refl). split_and!; cbn; try done; try lia.
    exists t0, t1. split_and!; cbn; try done. lia. }
  destruct (Hrf eq_refl) as (c & Hc & Hcne).
  change (bucket (ht0 (set_rehashidx d j)) (rehashidx (set_rehashidx d j))) with (bucket (ht0 d) j).
  rewrite Hc. cbn [mbind option_bind].
  destruct (rehash_bucket_spec d t0 t1 j c) as (d1 & Hd1 & Hd2 & Hpe & Hi2 & Hpr2 & Hs2); [done|done|lia|done..|].
  rewrite Hd1. cbn [mbind option_bind].
  match type of Hd2 with rehashing ?x => set (d2 := x) in * end.
  match goal with |- context [rehash_loop n ?x ev'] => change x with d2 end.
  destruct (IH d2 ev') as (d' & ret & -> & Hd' & Hp & Hpr & Hsz & Hi' & Hprog & Hret);
    [done|by rewrite Hpe|].
  exists d', ret. split_and!; try done; try lia. by rewrite Hp.
Qed.

(** Any number of rehash steps keeps the dict well formed and its entries; with at
    least one step it either completes or advances. *)
Lemma dictRehash_spec d n :
  wf d -> exists d' more, dictRehash d n = Some (d', more) /\ wf d' /\
    entries d' ≡ₚ entries d /\ pauserehash d' = pauserehash d /\
    more = dictIsRehashing d' /\
    (dictIsRehashing d' = true -> size (ht0 d') = size (ht0 d) /\
       rehashidx d <= rehashidx d' < size (ht0 d') /\
       ((0 < n)%nat -> rehashidx d < rehashidx d')).
Proof.
  intros [Hst Hnd Hlen]. unfold dictRehash, dictIsRehashing.
  destruct Hst as [Hs|Hr].
  { pose proof Hs as (Hi & _). rewrite Hi. cbn. exists d, false.
    rewrite Hi. split_and!; try done. constructor; auto. }
  assert (0 <= rehashidx d) as Hi by (by destruct Hr as (t0 & t1 & _ & _ & Hi & _)).
  destruct (Z.eqb_spec (rehashidx d) (-1)); [lia|]. cbn [negb].
  destruct (rehash_loop_spec n d (Z.of_nat n * 10)) as (d1 & ret & -> & Hr1 & Hp & Hpr & Hsz & Hi1 & Hprog & Hret);
    [done..|].
  cbn [mbind option_bind].
  assert (wf d1) as Hwf1 by (constructor; rewrite ?Hp; auto).
  assert (used (ht0 d1) <> 0 -> rehashidx d1 < size (ht0 d1)) as Hlt.
  { intros Hu. destruct Hr1 as (t0 & t1 & Hok0 & _ & _ & Hemp).
    destruct (rehash_target d1 t0 Hok0 Hu Hemp) as (m & ? & _ & _ & ?). lia. }
  destruct ret.
  { exists d1, true. specialize (Hret eq_refl).
    destruct (Z.eqb_spec (rehashidx d1) (-1)); [lia|]. split_and!; auto. }
  destruct (Z.eqb_spec (used (ht0 d1)) 0) as [Hu1|Hu1].
  - destruct Hr1 as (t0 & t1 & Hok0 & Hok1 & _ & _).
    assert (entries (mk_dict (ht1 d1) _dictReset (-1) (pauserehash d1)) = entries d1) as He.
    { unfold entries. cbn [ht0 ht1]. rewrite (ht_entries_ok _ _ Hok0).
      rewrite (ok_used _ _ Hok0) in Hu1. destruct (concat t0); [|simpl in Hu1; lia].
      unfold ht_entries at 2. simpl. by rewrite app_nil_r. }
    eexists _, false. split; [done|]. rewrite He. split_and!; try done.
    constructor; rewrite ?He, ?Hp; auto. left. split_and!; cbn; eauto.
  - exists d1, true. destruct (Z.eqb_spec (rehashidx d1) (-1)); [lia|]. split_and!; auto.
Qed.

Lemma rehash_if_rehashing_spec d :
  wf d -> exists d', rehash_if_rehashing d = Some d' /\ wf d' /\ entries d' ≡ₚ entries d.
Proof.
  intros Hd. unfold rehash_if_rehashing, _dictRehashStep.
  destruct (dictRehash_spec d 1 Hd) as (d' & more & -> & Hd' & Hp & _).
  destruct (dictIsRehashing d), (pauserehash d =? 0); eauto.
Qed.

(** ** The abstract map *)

Lemma dmap_perm d d' : wf d -> entries d' ≡ₚ entries d -> dmap d' = dmap d.
Proof. intros Hd Hp. symmetry. apply list_to_map_proper; [apply Hd|done]. Qed.

Lemma dmap_lookup d k v : wf d -> (k, v) ∈ entries d <-> dmap d !! k = Some v.
Proof. intros Hd. apply elem_of_list_to_map, Hd. Qed.

Lemma dmap_notin d k : k ∉ (entries d).*1 -> dmap d !! k = None.
Proof. apply not_elem_of_list_to_map. Qed.

Lemma ht_state d tbl : stable d \/ rehashing d ->
  (exists t, ht_ok (ht d tbl) t) \/ ht d tbl = _dictReset.
Proof.
  intros [(_ & H1 & [H0|[t Ht]])|(t0 & t1 & H0 & H1 & _)]; destruct tbl; cbn; eauto.
Qed.

Lemma bucket_ok d tbl idx b :
  stable d \/ rehashing d -> bucket (ht d tbl) idx = Some b -> exists t, ht_ok (ht d tbl) t.
Proof. intros Hs Hb. destruct (ht_state d tbl Hs) as [?|E]; [done|]. by rewrite E in Hb. Qed.

Lemma entries_ht d tbl e : e ∈ ht_entries (ht d tbl) -> e ∈ entries d.
Proof. unfold entries. rewrite elem_of_app. destruct tbl; cbn; auto. Qed.

Lemma deref_entries d r e : stable d \/ rehashing d -> deref d r = Some e -> e ∈ entries d.
Proof.
  intros Hs. unfold deref. destruct (bucket _ _) as [b|] eqn:Hb; [|done]. cbn. intros He.
  destruct (bucket_ok _ _ _ _ Hs Hb) as [t Hok]. apply (entries_ht d (e_tbl r)).
  rewrite (ht_entries_ok _ _ Hok). destruct (bucket_lookup _ _ _ _ Hok Hb) as [_ Hl].
  apply list_elem_of_In, in_concat. exists b. rewrite <- !list_elem_of_In.
  split; by eapply list_elem_of_lookup_2.
Qed.

Lemma deref_dmap d r k v : wf d -> deref d r = Some (k, v) -> dmap d !! k = Some v.
Proof. intros Hd Hr. apply dmap_lookup; [done|]. eapply deref_entries; [apply Hd|done]. Qed.

Lemma entries_count d :
  wf d -> dictSize d = Z.of_nat (length (entries d)) /\
    used (ht0 d) = Z.of_nat (length (ht_entries (ht0 d))) /\
    used (ht1 d) = Z.of_nat (length (ht_entries (ht1 d))).
Proof.
  intros Hd.
  assert (forall tbl, used (ht d tbl) = Z.of_nat (length (ht_entries (ht d tbl)))) as Hu.
  { intros tbl. destruct (ht_state d tbl (wf_state _ Hd)) as [[t Hok]|E].
    - by rewrite (ht_entries_ok _ _ Hok), (ok_used _ _ Hok).
    - by rewrite E. }
  pose proof (Hu false) as H0. pose proof (Hu true) as H1. cbn in H0, H1. split_and!; [|done..].
  pose proof (wf_count _ Hd) as Hc. unfold dictSize, entries, max_entries in *.
  rewrite length_app in *. rewrite H0, H1, wrapu_small by zlia. lia.
Qed.

(** Replacing one chain of either table, seen from the dict. *)
Lemma set_bucket_state d tbl t idx b c u :
  stable d \/ rehashing d -> ht_ok (ht d tbl) t -> bucket (ht d tbl) idx = Some b ->
  (forall e, e ∈ c -> Z.land (hashFunction (fst e)) (sizemask (ht d tbl)) = idx) ->
  u = used (ht d tbl) - Z.of_nat (length b) + Z.of_nat (length c) ->
  (tbl = false -> b = [] -> rehashidx d = -1) ->
  let d' := set_ht d tbl (set_used (set_bucket (ht d tbl) idx c) u) in
  (stable d' \/ rehashing d') /\ entries d' ++ b ≡ₚ entries d ++ c.
Proof.
  intros Hs Hok Hb Hc Hu Hside d'.
  destruct (ht_ok_set_bucket _ _ _ _ _ _ Hok Hb Hc Hu) as [Hok' Hp].
  destruct (bucket_lookup _ _ _ _ Hok Hb) as [Hi Hl].
  split.
  - destruct Hs as [(Hri & H1 & H0)|(t0 & t1 & Hok0 & Hok1 & Hri & Hemp)]; destruct tbl; cbn in *.
    + pose proof (ok_table _ _ Hok) as Ht. by rewrite H1 in Ht.
    + left. split_and!; cbn; eauto.
    + right. exists t0, (<[Z.to_nat idx := c]> t). split_and!; cbn; eauto.
    + right. exists (<[Z.to_nat idx := c]> t), t1. split_and!; cbn; eauto.
      pose proof (ok_table _ _ Hok) as Ht. rewrite (ok_table _ _ Hok0) in Ht. injection Ht as ->.
      intros i ch Hi' Hlt. destruct (decide (i = Z.to_nat idx)) as [->|].
      * rewrite (Hemp _ _ Hl Hlt) in Hside. specialize (Hside eq_refl eq_refl). lia.
      * rewrite list_lookup_insert_ne in Hi' by done. eauto.
  - unfold entries. destruct tbl; cbn in *; rewrite (ht_entries_ok _ _ Hok), (ht_entries_ok _ _ Hok').
    + by rewrite <- !app_assoc, Hp.
    + rewrite <- app_assoc, (Permutation_app_comm _ b), app_assoc, Hp.
      by rewrite <- !app_assoc, (Permutation_app_comm c).
Qed.

Lemma unlink_spec d r k v :
  wf d -> deref d r = Some (k, v) ->
  exists d', unlink d r = Some (d', (k, v)) /\ wf d' /\ entries d ≡ₚ (k, v) :: entries d'.
Proof.
  intros Hd. unfold deref, unlink. destruct (bucket _ _) as [b|] eqn:Hb; [|done]. cbn.
  intros He. rewrite He. cbn. destruct (bucket_ok _ _ _ _ (wf_state _ Hd) Hb) as [t Hok].
  destruct (bucket_lookup _ _ _ _ Hok Hb) as [Hi Hl].
  pose proof (delete_Permutation b _ _ He) as Hbp.
  pose proof (Permutation_length Hbp) as Hbl. simpl in Hbl.
  assert (0 < used (ht d (e_tbl r)) <= max_entries) as Hu.
  { destruct (entries_count d Hd) as (_ & Hu0 & Hu1). pose proof (wf_count _ Hd) as Hc.
    unfold entries in Hc. rewrite length_app in Hc. split.
    - rewrite (ok_used _ _ Hok).
      pose proof (Permutation_length (concat_insert_perm t _ b [] Hl)) as Hp.
      rewrite !length_app in Hp. simpl in Hp. lia.
    - destruct (e_tbl r); cbn; lia. }
  destruct (set_bucket_state d (e_tbl r) t (e_idx r) b (delete (e_pos r) b)
    (u64 (used (ht d (e_tbl r)) - 1))) as [Hs Hp]; try done; [apply Hd|..].
  - intros e Hin. rewrite (ok_placed _ _ Hok _ _ e Hl); [lia|]. rewrite Hbp. by constructor.
  - unfold max_entries in Hu. rewrite wrapu_small by zlia. lia.
  - intros _ ->. done.
  - eexists. split; [done|].
    match goal with |- wf ?x /\ _ => set (d' := x) in * end.
    assert (entries d ≡ₚ (k, v) :: entries d') as Hpe.
    { apply (Permutation_app_inv_r (delete (e_pos r) b)). rewrite <- Hp.
      revert Hbp. generalize (delete (e_pos r) b) as rest. intros rest ->.
      simpl. by rewrite <- Permutation_middle. }
    split; [|done]. constructor; [done|..].
    + pose proof (wf_keys _ Hd) as Hn. rewrite Hpe in Hn. by inversion Hn.
    + pose proof (wf_count _ Hd) as Hc. rewrite Hpe in Hc. simpl in Hc. lia.
Qed.

Lemma dictSetVal_spec d r k v0 v :
  wf d -> deref d r = Some (k, v0) ->
  exists d', dictSetVal d r v = Some d' /\ wf d' /\ dmap d' = <[k := v]> (dmap d).
Proof.
  intros Hd. unfold deref, dictSetVal. destruct (bucket _ _) as [b|] eqn:Hb; [|done]. cbn.
  intros He. rewrite He. cbn. destruct (bucket_ok _ _ _ _ (wf_state _ Hd) Hb) as [t Hok].
  destruct (bucket_lookup _ _ _ _ Hok Hb) as [Hi Hl].
  pose proof (delete_Permutation b _ _ He) as Hbp.
  assert (<[e_pos r := (k, v)]> b ≡ₚ (k, v) :: delete (e_pos r) b) as Hcp.
  { pose proof (lookup_lt_Some _ _ _ He).
    rewrite (delete_Permutation (<[e_pos r := (k, v)]> b) (e_pos r) (k, v))
      by (by apply list_lookup_insert_eq). f_equiv.
    rewrite !delete_take_drop, take_insert_ge, drop_insert_lt by lia. done. }
  destruct (set_bucket_state d (e_tbl r) t (e_idx r) b (<[e_pos r := (k, v)]> b)
    (used (ht d (e_tbl r)))) as [Hs Hp]; try done; [apply Hd|..].
  - intros e. rewrite Hcp. intros [->|Hin]%elem_of_cons; simpl.
    + pose proof (ok_placed _ _ Hok _ _ (k, v0) Hl) as Hpl. simpl in Hpl. rewrite Hpl; [lia|].
      by eapply list_elem_of_lookup_2.
    + rewrite (ok_placed _ _ Hok _ _ e Hl); [lia|]. rewrite Hbp. by constructor.
  - rewrite length_insert. lia.
  - by intros _ ->.
  - eexists. split; [done|].
    match goal with |- wf ?x /\ _ => set (d' := x) in * end.
    assert (stable d' \/ rehashing d') as Hs' by exact Hs.
    assert (entries d' ++ b ≡ₚ entries d ++ <[e_pos r := (k, v)]> b) as Hp' by exact Hp.
    clearbody d'. clear Hs Hp. rename Hp' into Hp.
    assert ((k, v0) :: entries d' ≡ₚ (k, v) :: entries d) as Hpe.
    { rewrite Hcp in Hp. revert Hbp Hp. generalize (delete (e_pos r) b) as rest. intros rest Hbp Hp.
      rewrite Hbp, <- !Permutation_middle in Hp. by apply (Permutation_app_inv_r rest). }
    assert (exists rest, entries d ≡ₚ (k, v0) :: rest) as [rest Hrest].
    { apply elem_of_Permutation. eapply deref_entries; [apply Hd|]. unfold deref. rewrite Hb. done. }
    assert (entries d' ≡ₚ (k, v) :: rest) as Hr'.
    { apply (Permutation_cons_inv (a := (k, v0))). rewrite Hpe, Hrest. apply perm_swap. }
    assert (wf d') as Hd'.
    { constructor; [done|..].
      - pose proof (wf_keys _ Hd) as Hn. rewrite Hrest in Hn. by rewrite Hr'.
      - pose proof (wf_count _ Hd) as Hc. rewrite Hrest in Hc. by rewrite Hr'. }
    split; [done|]. unfold dmap.
    rewrite (list_to_map_proper _ _ (wf_keys _ Hd) Hrest).
    rewrite (list_to_map_proper _ _ (wf_keys _ Hd') Hr'). simpl. by rewrite insert_insert_eq.
Qed.

(** ** Sizing *)

Lemma next_power_loop_spec fuel j sz :
  2 <= j <= 60 -> sz <= 2 ^ 60 -> 60 - j < Z.of_nat fuel ->
  exists k, next_power_loop fuel (2 ^ j) sz = Some (2 ^ k) /\ j <= k <= 60 /\ sz <= 2 ^ k /\
    (j < k -> 2 ^ (k - 1) < sz).
Proof.
  revert j. induction fuel as [|fuel IH]; intros j Hj Hs Hf; [lia|]. cbn [next_power_loop].
  destruct (Z.geb_spec (2 ^ j) sz) as [|Hlt].
  { exists j. split_and!; [done|lia|lia|lia|lia]. }
  assert (j <> 60) by (intros ->; lia).
  replace (2 ^ j * 2) with (2 ^ (j + 1)) by (rewrite Z.pow_add_r by lia; lia).
  assert (2 ^ (j + 1) <= 2 ^ 60) by (apply Z.pow_le_mono_r; lia).
  rewrite wrapu_small by (split; [lia|]; change (2 ^ 64) with (16 * 2 ^ 60); lia).
  destruct (IH (j + 1)) as (k & -> & Hk & Hsz & Hmin); [lia..|].
  exists k. split_and!; [done|lia|lia|done|]. intros _.
  destruct (decide (k = j + 1)) as [->|]; [|apply Hmin; lia].
  replace (j + 1 - 1) with j by lia. done.
Qed.

(** The size chosen is the least power of two, at least 4, that holds [sz]. *)
Lemma dictNextPower_spec sz :
  sz <= 2 ^ 60 ->
  exists k, _dictNextPower sz = Some (2 ^ k) /\ 2 <= k <= 60 /\ sz <= 2 ^ k /\
    (2 < k -> 2 ^ (k - 1) < sz).
Proof.
  intros Hs. unfold _dictNextPower.
  destruct (Z.geb_spec sz INT64_MAX) as [Hge|_]; [zlia|].
  apply (next_power_loop_spec 64 2); [lia|done|lia].
Qed.

Lemma concat_replicate_nil n : concat (replicate n ([] : list dictEntry)) = [].
Proof. by induction n. Qed.

Lemma new_table_ok k :
  2 <= k <= 60 ->
  ht_ok (mk_ht (Some (replicate (Z.to_nat (2 ^ k)) [])) (2 ^ k) (u64 (2 ^ k - 1)) 0)
    (replicate (Z.to_nat (2 ^ k)) []).
Proof.
  intros Hk. assert (0 < 2 ^ k <= 2 ^ 60) by (split; [lia|apply Z.pow_le_mono_r; lia]).
  constructor; cbn [table size sizemask used]; eauto.
  - apply wrapu_small. split; [lia|]. change (2 ^ 64) with (16 * 2 ^ 60). lia.
  - rewrite length_replicate. lia.
  - by rewrite concat_replicate_nil.
  - intros i chain e [-> _]%lookup_replicate. by intros ?%not_elem_of_nil.
Qed.

(** dictExpand keeps the entries; it does its work unless a rehash is running,
    the size is too small, or it would not change the size. *)
Lemma dictExpand_spec d sz :
  wf d -> 0 <= sz <= 2 ^ 60 ->
  exists d' ok, dictExpand d sz = Some (d', ok) /\ wf d' /\ entries d' = entries d /\
    (ok = false -> d' = d) /\
    (ok = true <-> dictIsRehashing d = false /\ used (ht0 d) <= sz /\
       _dictNextPower sz <> Some (size (ht0 d))) /\
    (ok = true -> exists t, ht_ok (ht0 d') t).
Proof.
  intros Hd Hsz. unfold dictExpand, _dictExpand.
  destruct (dictIsRehashing d) eqn:Hr; cbn [orb].
  { exists d, false. split_and!; try done. split; [done|]. by intros (? & _). }
  destruct (Z.gtb_spec (used (ht0 d)) sz) as [Hu|Hu].
  { exists d, false. split_and!; try done. split; [done|]. intros (_ & ? & _). lia. }
  destruct (dictNextPower_spec sz) as (k & Hp & Hk & Hle & _); [lia|]. rewrite Hp.
  cbn [mbind option_bind].
  assert (0 < 2 ^ k <= 2 ^ 60) as Hkb by (split; [lia|apply Z.pow_le_mono_r; lia]).
  rewrite (wrapu_small 64 (2 ^ k * 8)) by (split; [lia|]; change (2 ^ 64) with (16 * 2 ^ 60); lia).
  destruct (Z.ltb_spec (2 ^ k) sz) as [Hx|_]; [lia|].
  destruct (Z.ltb_spec (2 ^ k * 8) (2 ^ k)) as [Hx|_]; [lia|].
  cbn [orb]. destruct (Z.eqb_spec (2 ^ k) (size (ht0 d))) as [Heq|Hneq].
  { exists d, false. split_and!; try done. split; [done|]. intros (_ & _ & Hn). congruence. }
  assert (stable d) as Hst.
  { destruct (wf_state _ Hd) as [?|(t0 & t1 & _ & _ & Hi & _)]; [done|].
    unfold dictIsRehashing in Hr. destruct (Z.eqb_spec (rehashidx d) (-1)); [lia|done]. }
  destruct Hst as (Hri & H1 & H0). pose proof (new_table_ok k Hk) as Hnew.
  set (n := mk_ht _ _ _ _) in *.
  assert (ht_entries n = []) as Hn by (rewrite (ht_entries_ok _ _ Hnew); apply concat_replicate_nil).
  assert (forall d', (stable d' \/ rehashing d') -> entries d' = entries d -> wf d') as Hwf.
  { intros d' Hs He. constructor; rewrite ?He; [done|apply Hd..]. }
  assert (true = true <-> false = false /\ used (ht0 d) <= sz /\ Some (2 ^ k) <> Some (size (ht0 d))) as Hiff.
  { split; [|done]. intros _. split_and!; [done|lia|congruence]. }
  destruct H0 as [H0|[t H0]].
  - replace (table (ht0 d)) with (@None (list (list dictEntry))) by (by rewrite H0).
    eexists _, true. split; [done|].
    assert (entries (set_ht d false n) = entries d) as He.
    { unfold entries. cbn [set_ht ht0 ht1]. by rewrite Hn, H0. }
    split_and!; [apply Hwf; [|done]; left; split_and!; cbn; eauto|done|done|done|cbn; eauto].
  - rewrite (ok_table _ _ H0). eexists _, true. split; [done|].
    assert (entries (set_rehashidx (set_ht d true n) 0) = entries d) as He.
    { unfold entries. cbn [set_rehashidx set_ht ht0 ht1]. by rewrite Hn, H1. }
    split_and!; [apply Hwf; [|done]; right|done|done|done|cbn; eauto].
    exists t, (replicate (Z.to_nat (2 ^ k)) []). split_and!; cbn; [done|done|lia|lia].
Qed.

Lemma not_rehashing_ht0 d t :
  wf d -> ht_ok (ht0 d) t -> dictIsRehashing d = false -> ht1 d = _dictReset.
Proof.
  intros Hd Hok Hr. destruct (wf_state _ Hd) as [(_ & H1 & _)|(t0 & t1 & _ & _ & Hi & _)]; [done|].
  unfold dictIsRehashing in Hr. destruct (Z.eqb_spec (rehashidx d) (-1)); [lia|done].
Qed.

Lemma rehashing_state d :
  wf d -> dictIsRehashing d = true ->
  exists t0 t1, ht_ok (ht0 d) t0 /\ ht_ok (ht1 d) t1.
Proof.
  intros Hd Hr. destruct (wf_state _ Hd) as [(Hi & _)|(t0 & t1 & ? & ? & _)]; [|eauto].
  unfold dictIsRehashing in Hr. by rewrite Hi in Hr.
Qed.

Lemma not_rehashing_idx d : dictIsRehashing d = false -> rehashidx d = -1.
Proof. unfold dictIsRehashing. destruct (Z.eqb_spec (rehashidx d) (-1)); done. Qed.

(** When an entry is about to be added there is an allocated table, and the
    expansion never fails below the memory bound. *)
Lemma dictExpandIfNeeded_spec can_resize d :
  wf d -> exists d', _dictExpandIfNeeded can_resize d = Some (d', true) /\ wf d' /\
    entries d' = entries d /\ exists t, ht_ok (ht0 d') t.
Proof.
  intros Hd. unfold _dictExpandIfNeeded. destruct (dictIsRehashing d) eqn:Hr.
  { destruct (rehashing_state _ Hd Hr) as (t0 & t1 & ? & _). eauto 10. }
  assert (used (ht0 d) <= max_entries) as Hub.
  { destruct (entries_count d Hd) as (_ & -> & _). pose proof (wf_count _ Hd) as Hc.
    unfold entries in Hc. rewrite length_app in Hc. lia. }
  assert (0 <= used (ht0 d)) as Hu0 by (destruct (entries_count d Hd) as (_ & -> & _); lia).
  destruct (ht_state d false (wf_state _ Hd)) as [[t Hok]|E]; cbn in *.
  2: { rewrite E. cbn [size _dictReset]. rewrite Z.eqb_refl.
       destruct (dictExpand_spec d DICT_HT_INITIAL_SIZE Hd) as (d' & ok & -> & Hd' & He & _ & Hiff & Ht).
       { unfold DICT_HT_INITIAL_SIZE. lia. }
       assert (ok = true) as ->.
       { apply Hiff. rewrite E. cbn. unfold DICT_HT_INITIAL_SIZE. split_and!; [done|lia|done]. }
       eauto 10. }
  destruct (ok_size _ _ Hok) as (k & Hk & Hsize).
  destruct (Z.eqb_spec (size (ht0 d)) 0); [lia|].
  destruct (_ && _) eqn:Hcond; [|eauto 10].
  assert (exists b, dictTypeExpandAllowed d = Some b) as [allowed ->].
  { unfold dictTypeExpandAllowed. destruct expandAllowed; [|eauto].
    destruct (dictNextPower_spec (u64 (used (ht0 d) + 1))) as (p & -> & _).
    - unfold max_entries in Hub. rewrite wrapu_small by zlia. zlia.
    - cbn. eauto. }
  cbn [mbind option_bind]. destruct allowed; [|eauto 10].
  unfold max_entries in Hub. rewrite wrapu_small by zlia.
  destruct (dictExpand_spec d (used (ht0 d) + 1) Hd) as (d' & ok & -> & Hd' & He & _ & Hiff & Ht); [zlia|].
  assert (ok = true) as ->; [|eauto 10].
  apply Hiff. split_and!; [done|lia|].
  destruct (dictNextPower_spec (used (ht0 d) + 1)) as (p & -> & _ & Hle & _); [zlia|].
  intros [= E]. apply andb_true_iff in Hcond as [Hge _]. rewrite Z.geb_leb, Z.leb_le in Hge. lia.
Qed.

(** ** Lookup, insertion, deletion *)

(** The search of the two tables, as dictFind, _dictKeyIndex and
    dictGenericDelete run it. *)
Lemma find_both d t key :
  wf d -> ht_ok (ht0 d) t ->
  exists r0, find_table d false (dictHashKey key) key = Some r0 /\
    match r0 with
    | Some r => exists v, deref d r = Some (key, v)
    | None =>
        if dictIsRehashing d then
          exists r1, find_table d true (dictHashKey key) key = Some r1 /\
            match r1 with
            | Some r => exists v, deref d r = Some (key, v)
            | None => dmap d !! key = None
            end
        else dmap d !! key = None
    end.
Proof.
  intros Hd Hok. destruct (find_table_spec d false t key Hok) as (r0 & H0 & Hr0).
  exists r0. split; [done|]. destruct r0 as [r|]; [apply Hr0|].
  destruct (dictIsRehashing d) eqn:Hr.
  - destruct (rehashing_state _ Hd Hr) as (_ & t1 & _ & Hok1).
    destruct (find_table_spec d true t1 key Hok1) as (r1 & H1 & Hr1).
    exists r1. split; [done|]. destruct r1 as [r|]; [apply Hr1|]. apply dmap_notin.
    unfold entries. rewrite fmap_app, elem_of_app, (ht_entries_ok _ _ Hok), (ht_entries_ok _ _ Hok1).
    tauto.
  - apply dmap_notin. unfold entries. rewrite (not_rehashing_ht0 d t Hd Hok Hr).
    rewrite (ht_entries_ok _ _ Hok). change (ht_entries _dictReset) with ([] : list dictEntry).
    by rewrite app_nil_r.
Qed.

Lemma nonempty_allocated d : wf d -> entries d <> [] -> exists t, ht_ok (ht0 d) t.
Proof.
  intros Hd Hne. destruct (wf_state _ Hd) as [(_ & H1 & [H0|?])|(t0 & t1 & ? & _)]; eauto.
  destruct Hne. unfold entries. by rewrite H0, H1.
Qed.

Lemma dmap_entries_nil d : entries d = [] -> dmap d = ∅.
Proof. unfold dmap. by intros ->. Qed.

(** What a search answers: an entry of the key, or that the key is absent. *)
Definition found (d : dict) (key : K) (r : option eref) : Prop :=
  match r with
  | Some r => exists v, deref d r = Some (key, v) /\ dmap d !! key = Some v
  | None => dmap d !! key = None
  end.

Lemma dictFind_spec d key :
  wf d -> exists d' r, dictFind d key = Some (d', r) /\ wf d' /\ dmap d' = dmap d /\ found d' key r.
Proof.
  intros Hd. unfold dictFind. destruct (entries_count d Hd) as (-> & _ & _).
  destruct (Z.eqb_spec (Z.of_nat (length (entries d))) 0) as [H0|H0].
  { exists d, None. split_and!; try done. simpl. rewrite dmap_entries_nil; [done|].
    destruct (entries d); [done|simpl in H0; lia]. }
  destruct (rehash_if_rehashing_spec d Hd) as (d' & -> & Hd' & Hp). cbn [mbind option_bind].
  destruct (nonempty_allocated d' Hd') as [t Hok].
  { intros E. rewrite E in Hp. apply Permutation_length in Hp. simpl in Hp. lia. }
  pose proof (dmap_perm d d' Hd Hp) as Hm.
  destruct (find_both d' t key Hd' Hok) as (r0 & -> & Hr0). cbn [mbind option_bind].
  destruct r0 as [r|].
  { destruct Hr0 as [v Hv]. exists d', (Some r). split_and!; try done.
    exists v. eauto using deref_dmap. }
  destruct (dictIsRehashing d'); cbn [negb].
  - destruct Hr0 as (r1 & -> & Hr1). cbn. exists d', r1. split_and!; try done.
    destruct r1 as [r|]; [|done]. destruct Hr1 as [v Hv]. exists v. eauto using deref_dmap.
  - exists d', None. done.
Qed.

Lemma add_entry_spec d t key :
  wf d -> ht_ok (ht0 d) t -> dmap d !! key = None -> Z.of_nat (length (entries d)) < max_entries ->
  exists d' r, add_entry d (Z.land (dictHashKey key) (sizemask (ht d (dictIsRehashing d)))) key
      = Some (d', r) /\ wf d' /\ dmap d' = <[key := junk]> (dmap d) /\
    deref d' r = Some (key, junk).
Proof.
  intros Hd Hok0 Hnone Hlen. unfold add_entry, dictHashKey.
  assert (exists t, ht_ok (ht d (dictIsRehashing d)) t) as [t' Hok].
  { destruct (dictIsRehashing d) eqn:Hr; cbn; [|eauto].
    destruct (rehashing_state _ Hd Hr) as (_ & t1 & _ & ?). eauto. }
  set (tbl := dictIsRehashing d) in *. set (idx := Z.land _ _).
  pose proof (mask_range _ _ key Hok) as Hidx. fold idx in Hidx.
  destruct (bucket_Some _ _ idx Hok Hidx) as (b & Hb & Hl). rewrite Hb. cbn [mbind option_bind].
  assert (u64 (used (ht d tbl) + 1) = used (ht d tbl) + 1) as Hu64.
  { destruct (entries_count d Hd) as (_ & Hu0 & Hu1). pose proof Hlen as Hc.
    unfold entries, max_entries in Hc. rewrite length_app in Hc.
    apply wrapu_small. destruct tbl; cbn; zlia. }
  destruct (set_bucket_state d tbl t' idx b ((key, junk) :: b) (u64 (used (ht d tbl) + 1)))
    as [Hs Hp]; try done; [apply Hd|..].
  - intros e [->|He]%elem_of_cons; [done|]. rewrite (ok_placed _ _ Hok _ _ e Hl He). lia.
  - rewrite Hu64. simpl length. lia.
  - intros Htbl _. by apply not_rehashing_idx.
  - eexists _, _. split; [done|].
    match goal with |- wf ?x /\ _ => set (d' := x) in * end.
    assert (entries d' ≡ₚ (key, junk) :: entries d) as Hpe.
    { apply (Permutation_app_inv_r b). etrans; [exact Hp|]. simpl. by rewrite <- Permutation_middle. }
    assert (wf d') as Hd'.
    { constructor; [exact Hs|rewrite Hpe; simpl; constructor|rewrite Hpe; simpl; lia]; [|apply Hd].
      intros ([k v] & -> & Hin)%list_elem_of_fmap. apply (dmap_lookup d) in Hin; [|done].
      simpl in Hnone. congruence. }
    split_and!; [done| |].
    + unfold dmap. by rewrite (list_to_map_proper _ _ (wf_keys _ Hd') Hpe).
    + unfold deref, d', bucket. cbn [e_tbl e_idx e_pos]. destruct tbl; cbn in *;
        rewrite (ok_table _ _ Hok); cbn; rewrite decide_True by lia;
        rewrite list_lookup_insert_eq by (by eapply lookup_lt_Some); done.
Qed.

Lemma dictAddRaw_spec can_resize d key :
  wf d -> Z.of_nat (length (entries d)) < max_entries ->
  exists d' r, dictAddRaw can_resize d key = Some (d', r) /\ wf d' /\
    match r with
    | inl existing => dmap d' = dmap d /\ exists r v, existing = Some r /\
        deref d' r = Some (key, v) /\ dmap d !! key = Some v
    | inr r => dmap d !! key = None /\ dmap d' = <[key := junk]> (dmap d) /\
        deref d' r = Some (key, junk)
    end.
Proof.
  intros Hd Hlen. unfold dictAddRaw, _dictKeyIndex.
  destruct (rehash_if_rehashing_spec d Hd) as (d1 & -> & Hd1 & Hp1). cbn [mbind option_bind].
  destruct (dictExpandIfNeeded_spec can_resize d1 Hd1) as (d2 & -> & Hd2 & He2 & t & Hok).
  cbn [mbind option_bind negb].
  assert (entries d2 ≡ₚ entries d) as Hp by (by rewrite He2).
  pose proof (dmap_perm d d2 Hd Hp) as Hm.
  destruct (find_both d2 t key Hd2 Hok) as (r0 & -> & Hr0). cbn [mbind option_bind].
  assert (forall r v, deref d2 r = Some (key, v) -> exists d' r', Some (d2, inl (Some r) : option eref + eref) = Some (d', r') /\
    wf d' /\ match r' with
    | inl existing => dmap d' = dmap d /\ exists r v, existing = Some r /\
        deref d' r = Some (key, v) /\ dmap d !! key = Some v
    | inr r => dmap d !! key = None /\ dmap d' = <[key := junk]> (dmap d) /\
        deref d' r = Some (key, junk)
    end) as Hold.
  { intros r v Hv. exists d2, (inl (Some r)). split_and!; try done. exists r, v.
    rewrite <- Hm. eauto using deref_dmap. }
  destruct r0 as [r|]; [destruct Hr0 as [v Hv]; by eapply Hold|].
  assert (dmap d2 !! key = None -> exists d' r,
    add_entry d2 (Z.land (dictHashKey key) (sizemask (ht d2 (dictIsRehashing d2)))) key = Some (d', r) /\
    wf d' /\ dmap d !! key = None /\ dmap d' = <[key := junk]> (dmap d) /\
    deref d' r = Some (key, junk)) as Hnew.
  { intros Hnone. rewrite <- Hm. destruct (add_entry_spec d2 t key) as (d' & r & Ha & Hrest);
      [done|done|done|by rewrite Hp|]. exists d', r. destruct Hrest as (? & ? & ?). done. }
  destruct (dictIsRehashing d2) eqn:Hr; cbn [negb].
  - destruct Hr0 as (r1 & -> & Hr1). cbn [mbind option_bind].
    destruct r1 as [r|]; [destruct Hr1 as [v Hv]; by eapply Hold|].
    destruct (Hnew Hr1) as (d' & r & Ha & Hrest). cbn in Ha. cbn. rewrite Ha. cbn. eauto.
  - destruct (Hnew Hr0) as (d' & r & Ha & Hrest). cbn in Ha. cbn. rewrite Ha. cbn. eauto.
Qed.

(** ** Scanning with the reversed cursor *)

(** One step of rev: exchanges the bits [s] apart that [mask] selects. *)
Definition swap (s mask v : Z) : Z :=
  Z.lor (Z.land (Z.shiftr v s) mask) (Z.land (u64 (Z.shiftl v s)) (Z.lxor UINT64_MAX mask)).

(** The bit read by step [s] for output bit [i]. *)
Definition swap_src (s mask i : Z) : Z := if Z.testbit mask i then i + s else i - s.

Lemma swap_spec s mask v i :
  0 <= s -> 0 <= i < 64 -> Z.testbit (swap s mask v) i = Z.testbit v (swap_src s mask i).
Proof.
  intros Hs Hi. unfold swap, swap_src.
  rewrite Z.lor_spec, !Z.land_spec, Z.lxor_spec, Z.shiftr_spec by lia.
  unfold wrapu. rewrite Z.mod_pow2_bits_low, Z.shiftl_spec by lia.
  replace (Z.testbit UINT64_MAX i) with true.
  2: { change UINT64_MAX with (Z.ones 64). rewrite Z.ones_spec_low; [done|lia]. }
  destruct (Z.testbit mask i); cbn [xorb]; by rewrite ?andb_true_r, ?andb_false_r, ?orb_false_r.
Qed.

Lemma swap_u64 s mask v : is_u 64 mask -> is_u 64 (swap s mask v).
Proof.
  intros Hm. unfold swap. apply lor_u; [done|by apply land_u|].
  apply land_u; [done|]. by apply lxor_u.
Qed.

Lemma rev_unfold v :
  rev v = swap 1 0x5555555555555555 (swap 2 0x3333333333333333 (swap 4 0x0F0F0F0F0F0F0F0F
    (swap 8 0xFF00FF00FF00FF (swap 16 0xFFFF0000FFFF (swap 32 0xFFFFFFFF v))))).
Proof. reflexivity. Qed.

Definition rev_ok (i : Z) : bool :=
  let i1 := swap_src 1 0x5555555555555555 i in
  let i2 := swap_src 2 0x3333333333333333 i1 in
  let i3 := swap_src 4 0x0F0F0F0F0F0F0F0F i2 in
  let i4 := swap_src 8 0xFF00FF00FF00FF i3 in
  let i5 := swap_src 16 0xFFFF0000FFFF i4 in
  forallb (fun j => (0 <=? j) && (j <? 64)) [i1; i2; i3; i4; i5] &&
  (swap_src 32 0xFFFFFFFF i5 =? 63 - i).

Lemma rev_ok_all : forallb rev_ok (seqZ 0 64) = true.
Proof. vm_compute. reflexivity. Qed.

(** rev reverses the 64 bits of its argument. *)
Lemma rev_spec v i : 0 <= i < 64 -> Z.testbit (rev v) i = Z.testbit v (63 - i).
Proof.
  intros Hi. pose proof rev_ok_all as Hall. rewrite forallb_forall in Hall.
  specialize (Hall i). rewrite <- list_elem_of_In, elem_of_seqZ in Hall.
  specialize (Hall ltac:(lia)). unfold rev_ok in Hall.
  apply andb_true_iff in Hall as [Hr <-%Z.eqb_eq].
  cbn [forallb] in Hr. rewrite !andb_true_iff, !Z.leb_le, !Z.ltb_lt in Hr.
  destruct Hr as (H1 & H2 & H3 & H4 & H5 & _).
  rewrite rev_unfold. by rewrite !swap_spec by lia.
Qed.

Lemma rev_u64 v : is_u 64 (rev v).
Proof. rewrite rev_unfold. apply swap_u64. done. Qed.

Lemma rev_high v i : 64 <= i -> Z.testbit (rev v) i = false.
Proof. intros Hi. by apply (proj1 (is_u_bits 64 (rev v) ltac:(lia)) (rev_u64 v)). Qed.

Lemma rev_rev v : is_u 64 v -> rev (rev v) = v.
Proof.
  intros Hv. apply Z.bits_inj'. intros i Hi. destruct (decide (i < 64)).
  - rewrite !rev_spec by lia. f_equal. lia.
  - rewrite rev_high by lia. by rewrite (proj1 (is_u_bits 64 v ltac:(lia)) Hv) by lia.
Qed.

Lemma rev_0 : rev 0 = 0.
Proof. reflexivity. Qed.

#[local] Opaque rev.

Lemma testbit_mod_0 x n i : x mod 2 ^ n = 0 -> 0 <= i < n -> Z.testbit x i = false.
Proof. intros Hx Hi. rewrite <- (Z.mod_pow2_bits_low x n i), Hx by lia. apply Z.testbit_0_l. Qed.

(** Setting the bits outside a mask of [k] bits fills the low 64-k bits of the
    reversed cursor. *)
Lemma rev_fill k v :
  is_u 64 v -> 0 <= k <= 64 ->
  rev (Z.lor v (Z.lxor UINT64_MAX (Z.ones k))) =
  rev v / 2 ^ (64 - k) * 2 ^ (64 - k) + (2 ^ (64 - k) - 1).
Proof.
  intros Hv Hk. set (n := 64 - k). set (x := rev _).
  assert (forall i, 0 <= i < 64 ->
    Z.testbit x i = Z.testbit (rev v) i || bool_decide (i < n)) as Hx.
  { intros i Hi. unfold x. rewrite !rev_spec, Z.lor_spec, Z.lxor_spec by lia. f_equal.
    change UINT64_MAX with (Z.ones 64). rewrite (Z.ones_spec_low 64) by lia.
    case_bool_decide.
    - by rewrite Z.ones_spec_high by lia.
    - by rewrite Z.ones_spec_low by lia. }
  rewrite (Z.div_mod x (2 ^ n)) by lia.
  replace (x / 2 ^ n) with (rev v / 2 ^ n).
  2: { rewrite <- !Z.shiftr_div_pow2 by lia. apply Z.bits_inj'. intros i Hi.
       rewrite !Z.shiftr_spec by lia. destruct (decide (i + n < 64)).
       - rewrite Hx by lia. rewrite bool_decide_false by lia. by rewrite orb_false_r.
       - unfold x. by rewrite !rev_high by lia. }
  replace (x mod 2 ^ n) with (2 ^ n - 1); [lia|].
  replace (2 ^ n - 1) with (Z.ones n) by (rewrite Z.ones_equiv; lia).
  apply Z.bits_inj'. intros i Hi. destruct (decide (i < n)).
  - rewrite Z.mod_pow2_bits_low, Z.ones_spec_low, Hx by lia.
    rewrite bool_decide_true by lia. by rewrite orb_true_r.
  - rewrite Z.mod_pow2_bits_high, Z.ones_spec_high by lia. done.
Qed.

(** Where the reversed cursor stands after a call; the end of the scan is past
    every hash. *)
Definition limit (v : Z) : Z := if v =? 0 then 2 ^ 64 else rev v.

(** The reversed cursor rounded down to what [k] mask bits distinguish. *)
Definition floor_k (k r : Z) : Z := r / 2 ^ (64 - k) * 2 ^ (64 - k).

Lemma floor_k_bounds k r :
  0 <= k <= 64 -> is_u 64 r ->
  0 <= floor_k k r <= r /\ r < floor_k k r + 2 ^ (64 - k) <= 2 ^ 64.
Proof.
  intros Hk Hr. unfold floor_k, is_u in *. assert (0 < 2 ^ (64 - k)) by lia.
  assert (2 ^ 64 = 2 ^ k * 2 ^ (64 - k)) as E by (rewrite <- Z.pow_add_r by lia; f_equal; lia).
  pose proof (Z.div_mod r (2 ^ (64 - k))). pose proof (Z.mod_pos_bound r (2 ^ (64 - k))).
  assert (0 <= r / 2 ^ (64 - k) < 2 ^ k).
  { split; [apply Z.div_pos; lia|]. apply Z.div_lt_upper_bound; lia. }
  nia.
Qed.

(** Advancing the cursor moves its reversal to the next multiple of 2^(64-k). *)
Lemma next_cursor_spec k v :
  is_u 64 v -> 0 <= k <= 64 ->
  let v' := next_cursor (Z.ones k) v in
  is_u 64 v' /\ limit v' = floor_k k (rev v) + 2 ^ (64 - k) /\
  rev v' = limit v' mod 2 ^ 64.
Proof.
  intros Hv Hk. unfold next_cursor. rewrite rev_fill by done. fold (floor_k k (rev v)).
  replace (floor_k k (rev v) + (2 ^ (64 - k) - 1) + 1) with (floor_k k (rev v) + 2 ^ (64 - k)) by lia.
  pose proof (floor_k_bounds k (rev v) Hk (rev_u64 v)) as Hb.
  set (e := floor_k k (rev v) + 2 ^ (64 - k)) in *. cbv zeta. split; [apply rev_u64|].
  assert (limit (rev (u64 e)) = e) as Hlim.
  { unfold limit. destruct (Z.eqb_spec (rev (u64 e)) 0) as [E|E].
    - apply (f_equal rev) in E. rewrite rev_rev, rev_0 in E by (apply wrapu_range; lia).
      destruct (decide (e = 2 ^ 64)) as [->|]; [done|].
      rewrite wrapu_small in E by (unfold is_u; lia). lia.
    - rewrite rev_rev by (apply wrapu_range; lia). apply wrapu_small.
      destruct (decide (e = 2 ^ 64)) as [Heq|]; [|unfold is_u; lia].
      rewrite Heq in E. exfalso. apply E. apply rev_0. }
  split; [done|]. rewrite Hlim. apply rev_rev. apply wrapu_range. lia.
Qed.

(** Equal reversed prefixes mean the same bucket. *)
Lemma same_prefix_bucket k h v :
  is_u 64 h -> is_u 64 v -> 0 <= k <= 64 ->
  rev h / 2 ^ (64 - k) = rev v / 2 ^ (64 - k) -> Z.land h (Z.ones k) = Z.land v (Z.ones k).
Proof.
  intros Hh Hv Hk E. apply Z.bits_inj'. intros i Hi. rewrite !Z.land_spec.
  destruct (decide (i < k)).
  - f_equal. replace i with (63 - (63 - i)) by lia.
    rewrite <- (rev_spec h (63 - i)), <- (rev_spec v (63 - i)) by lia.
    replace (63 - i) with (63 - i - (64 - k) + (64 - k)) by lia.
    rewrite <- (Z.shiftr_spec (rev h)), <- (Z.shiftr_spec (rev v)) by lia.
    rewrite !Z.shiftr_div_pow2 by lia. by rewrite E.
  - by rewrite Z.ones_spec_high, !andb_false_r by lia.
Qed.

Lemma floor_k_prefix k r r' :
  0 <= k <= 64 -> is_u 64 r' -> floor_k k r <= r' < floor_k k r + 2 ^ (64 - k) ->
  r' / 2 ^ (64 - k) = r / 2 ^ (64 - k).
Proof.
  unfold floor_k. intros Hk _ Hr. assert (0 < 2 ^ (64 - k)) by lia.
  symmetry. apply Z.div_unique with (r := r' - r / 2 ^ (64 - k) * 2 ^ (64 - k)); [left; lia|ring].
Qed.

Lemma ok_mask_ones h t : ht_ok h t -> exists k, 2 <= k <= 60 /\ size h = 2 ^ k /\ sizemask h = Z.ones k.
Proof.
  intros Hok. destruct (ok_size _ _ Hok) as (k & Hk & Hs). exists k. split_and!; try done; try lia.
  rewrite (ok_mask _ _ Hok), Hs, Z.ones_equiv. lia.
Qed.

(** The bucket under the cursor holds every entry whose reversed hash lies in the
    range of the cursor. *)
Lemma scan_bucket h t k v :
  ht_ok h t -> 2 <= k <= 60 -> sizemask h = Z.ones k -> is_u 64 v ->
  exists b, bucket h (Z.land v (sizemask h)) = Some b /\
    (forall e, e ∈ b -> e ∈ concat t) /\
    (forall e, e ∈ concat t ->
      floor_k k (rev v) <= rev (hashFunction (fst e)) < floor_k k (rev v) + 2 ^ (64 - k) -> e ∈ b).
Proof.
  intros Hok Hk Hm Hv.
  assert (0 <= Z.land v (sizemask h) < size h) as Hr.
  { rewrite Hm, Z.land_ones by lia. pose proof (ok_mask _ _ Hok) as Hs. rewrite Hm, Z.ones_equiv in Hs.
    replace (size h) with (2 ^ k) by lia. apply Z.mod_pos_bound. lia. }
  destruct (bucket_Some _ _ _ Hok Hr) as (b & Hb & Hl). exists b. split_and!; [done|..].
  - intros e He. apply list_elem_of_In, in_concat. exists b. rewrite <- !list_elem_of_In.
    split; [by eapply list_elem_of_lookup_2|done].
  - intros e He Hin. apply list_elem_of_In, in_concat in He as (c & Hc & Hec).
    apply list_elem_of_In, list_elem_of_lookup in Hc as [i Hi]. apply list_elem_of_In in Hec.
    pose proof (ok_placed _ _ Hok _ _ _ Hi Hec) as Hpl.
    apply floor_k_prefix in Hin; [|lia|apply rev_u64].
    apply same_prefix_bucket in Hin; [|apply hash_u64|done|lia].
    rewrite <- Hm, Hpl in Hin. rewrite <- Hin, Nat2Z.id, Hi in Hl. by injection Hl as <-.
Qed.

(** The do-while stops exactly when the reversed cursor reaches a multiple of the
    smaller table's granularity. *)
Lemma scan_stop k0 k1 v :
  is_u 64 v -> 0 <= k0 <= k1 -> k1 <= 64 -> rev v mod 2 ^ (64 - k1) = 0 ->
  Z.land v (Z.lxor (Z.ones k0) (Z.ones k1)) = 0 <-> rev v mod 2 ^ (64 - k0) = 0.
Proof.
  intros Hv Hk Hk1 Hlow.
  assert (forall i, 0 <= i -> Z.testbit (Z.lxor (Z.ones k0) (Z.ones k1)) i = bool_decide (k0 <= i < k1)) as Hx.
  { intros i Hi. rewrite Z.lxor_spec. case_bool_decide.
    - rewrite Z.ones_spec_high, Z.ones_spec_low by lia. done.
    - destruct (decide (i < k0)).
      + rewrite !Z.ones_spec_low by lia. done.
      + rewrite !Z.ones_spec_high by lia. done. }
  split; intros E; apply Z.bits_inj'; intros i Hi; rewrite Z.testbit_0_l.
  - destruct (decide (i < 64 - k0)); [|apply Z.mod_pow2_bits_high; lia].
    rewrite Z.mod_pow2_bits_low by lia.
    destruct (decide (i < 64 - k1)); [by eapply testbit_mod_0|].
    apply (f_equal (fun x => Z.testbit x (63 - i))) in E.
    rewrite Z.land_spec, Hx, bool_decide_true, andb_true_r, Z.testbit_0_l in E by lia.
    by rewrite rev_spec by lia.
  - rewrite Z.land_spec, Hx by lia. case_bool_decide; [|apply andb_false_r].
    rewrite andb_true_r. replace i with (63 - (63 - i)) by lia.
    rewrite <- (rev_spec v (63 - i)) by lia. eapply testbit_mod_0; [done|lia].
Qed.

Lemma limit_0_mod v k : 0 <= k <= 64 -> limit v mod 2 ^ (64 - k) = rev v mod 2 ^ (64 - k).
Proof.
  intros Hk. unfold limit. destruct (Z.eqb_spec v 0) as [->|]; [|done].
  rewrite rev_0, Z.mod_0_l by lia.
  replace (2 ^ 64) with (2 ^ k * 2 ^ (64 - k)) by (rewrite <- Z.pow_add_r by lia; f_equal; lia).
  apply Z.mod_mul. lia.
Qed.

Lemma pow_split k0 k1 : 0 <= k0 <= k1 -> k1 <= 64 -> 2 ^ (64 - k0) = 2 ^ (k1 - k0) * 2 ^ (64 - k1).
Proof. intros. rewrite <- Z.pow_add_r by lia. f_equal. lia. Qed.

(** A multiple of the fine granularity between the cursor and the end of its
    coarse block. *)
Lemma floor_step k0 k1 r :
  0 <= k0 <= k1 -> k1 <= 64 ->
  let f1 := floor_k k1 r + 2 ^ (64 - k1) in
  let e0 := floor_k k0 r + 2 ^ (64 - k0) in
  f1 <= e0 /\ f1 mod 2 ^ (64 - k1) = 0 /\ (f1 mod 2 ^ (64 - k0) = 0 <-> f1 = e0) /\
  (f1 < e0 -> floor_k k0 f1 = floor_k k0 r /\ floor_k k1 f1 = f1).
Proof.
  intros Hk Hk1. unfold floor_k. rewrite (pow_split k0 k1) by done.
  assert (0 < 2 ^ (64 - k1)) by lia. assert (0 < 2 ^ (k1 - k0)) by lia.
  generalize dependent (2 ^ (64 - k1)). generalize dependent (2 ^ (k1 - k0)).
  intros q Hq B HB. cbv zeta.
  pose proof (Z.div_mod r B ltac:(lia)) as Hr. pose proof (Z.mod_pos_bound r B HB) as Hrm.
  set (x := r / B) in *. replace (r / (q * B)) with (x / q) by (unfold x; rewrite (Z.mul_comm q), Z.div_div by lia; done).
  pose proof (Z.div_mod x q ltac:(lia)) as Hx. pose proof (Z.mod_pos_bound x q Hq) as Hxm.
  assert (x * B + B = (x + 1) * B) as E1 by ring.
  assert (x / q * (q * B) + q * B = (x / q * q + q) * B) as E0 by ring.
  rewrite E1, E0. split_and!.
  - apply Z.mul_le_mono_nonneg_r; lia.
  - apply Z.mod_mul. lia.
  - rewrite Z.mul_mod_distr_r by lia. split.
    + intros Hm. assert ((x + 1) mod q = 0) as Hm' by nia.
      pose proof (Z.div_mod (x + 1) q ltac:(lia)) as Hd. f_equal. rewrite Hm' in Hd.
      assert ((x + 1) / q = x / q + 1) as Hq1; [|rewrite Hq1 in Hd; lia].
      assert (x / q < (x + 1) / q < x / q + 2); [split; nia|lia].
    + intros Heq. assert (x + 1 = x / q * q + q) as -> by nia.
      replace (x / q * q + q) with ((x / q + 1) * q) by ring.
      rewrite Z.mod_mul by lia. lia.
  - intros Hlt. assert (x + 1 < x / q * q + q) by nia.
    rewrite Z.div_mul by lia. split; [|done].
    rewrite (Z.div_mul_cancel_r (x + 1) q B) by lia. f_equal. symmetry.
    apply Z.div_unique with (r := x + 1 - x / q * q); [left; lia|ring].
Qed.

Lemma scan_loop_spec t1 tt k0 k1 fuel v :
  ht_ok t1 tt -> 2 <= k0 <= k1 -> k1 <= 60 -> sizemask t1 = Z.ones k1 -> is_u 64 v ->
  floor_k k0 (rev v) + 2 ^ (64 - k0) - floor_k k1 (rev v) <= Z.of_nat fuel * 2 ^ (64 - k1) ->
  exists v' em, scan_loop fuel t1 (Z.ones k0) (sizemask t1) v = Some (v', em) /\ is_u 64 v' /\
    limit v' = floor_k k0 (rev v) + 2 ^ (64 - k0) /\
    (forall e, e ∈ em -> e ∈ concat tt) /\
    (forall e, e ∈ concat tt -> rev v <= rev (hashFunction (fst e)) < limit v' -> e ∈ em).
Proof.
  intros Hok Hk Hk1 Hm. revert v. induction fuel as [|fuel IH]; intros v Hv Hf.
  { destruct (floor_k_bounds k0 (rev v)) as [? ?]; [lia|apply rev_u64|].
    destruct (floor_k_bounds k1 (rev v)) as [? ?]; [lia|apply rev_u64|]. lia. }
  cbn [scan_loop]. destruct (scan_bucket t1 tt k1 v Hok ltac:(lia) Hm Hv) as (b & -> & Hb1 & Hb2).
  cbn [mbind option_bind]. rewrite Hm.
  destruct (next_cursor_spec k1 v Hv ltac:(lia)) as (Hv' & Hlim & Hrev).
  set (w := next_cursor (Z.ones k1) v) in *. clearbody w.
  destruct (floor_step k0 k1 (rev v)) as (Hle & Hmod & Hstop & Hnext); [lia|lia|].
  destruct (floor_k_bounds k1 (rev v)) as [Hfl Hfu]; [lia|apply rev_u64|].
  rewrite <- Hlim in *. rewrite limit_0_mod in Hmod by lia.
  pose proof (scan_stop k0 k1 w Hv' ltac:(lia) ltac:(lia) Hmod) as Hs.
  rewrite <- (limit_0_mod w k0), Hstop in Hs by lia.
  destruct (Z.eqb_spec (Z.land w (Z.lxor (Z.ones k0) (Z.ones k1))) 0) as [E|E].
  - apply Hs in E. exists w, b. split_and!; try done. intros e He Hr. apply Hb2; [done|lia].
  - assert (limit w < floor_k k0 (rev v) + 2 ^ (64 - k0)) as Hlt.
    { assert (limit w <> floor_k k0 (rev v) + 2 ^ (64 - k0)) by (by rewrite <- Hs). lia. }
    destruct (floor_k_bounds k0 (rev v)) as [_ Hfu0]; [lia|apply rev_u64|].
    assert (rev w = limit w) as Hw by (rewrite Hrev; apply Z.mod_small; lia).
    destruct (Hnext Hlt) as [Hn0 Hn1]. rewrite <- Hw in Hn0, Hn1.
    destruct (IH w Hv') as (v' & em & Hsl & Hu & Hl' & Hem & Hcov); [lia|].
    rewrite Hm in Hsl. rewrite Hsl. cbn.
    exists v', (b ++ em). rewrite Hn0 in Hl'. split_and!; try done.
    + intros e [He|He]%elem_of_app; auto.
    + intros e He Hr. apply elem_of_app. destruct (decide (rev (hashFunction (fst e)) < limit w)).
      * left. apply Hb2; [done|lia].
      * right. apply Hcov; [done|lia].
Qed.

(** Scanning a pair of tables, [h0] not larger than [h1]. *)
Lemma scan_pair h0 h1 tt0 tt1 v :
  ht_ok h0 tt0 -> ht_ok h1 tt1 -> size h0 <= size h1 -> is_u 64 v ->
  exists v' em, (de ← bucket h0 (Z.land v (sizemask h0));
      '(v, rest) ← scan_loop (S (Z.to_nat (size h1))) h1 (sizemask h0) (sizemask h1) v;
      Some (v, de ++ rest)) = Some (v', em) /\ is_u 64 v' /\ rev v < limit v' /\
    (forall e, e ∈ em -> e ∈ concat tt0 \/ e ∈ concat tt1) /\
    (forall e, e ∈ concat tt0 \/ e ∈ concat tt1 ->
       rev v <= rev (hashFunction (fst e)) < limit v' -> e ∈ em).
Proof.
  intros Hok0 Hok1 Hsz Hv.
  destruct (ok_mask_ones _ _ Hok0) as (k0 & Hk0 & Hs0 & Hm0).
  destruct (ok_mask_ones _ _ Hok1) as (k1 & Hk1 & Hs1 & Hm1).
  assert (k0 <= k1) by (rewrite Hs0, Hs1 in Hsz; apply (Z.pow_le_mono_r_iff 2); lia).
  destruct (scan_bucket h0 tt0 k0 v Hok0 Hk0 Hm0 Hv) as (b & -> & Hb1 & Hb2).
  cbn [mbind option_bind]. rewrite Hm0.
  destruct (floor_k_bounds k0 (rev v)) as [Hf0 Hf0']; [lia|apply rev_u64|].
  destruct (floor_k_bounds k1 (rev v)) as [Hf1 Hf1']; [lia|apply rev_u64|].
  destruct (scan_loop_spec h1 tt1 k0 k1 (S (Z.to_nat (size h1))) v) as (v' & em & -> & Hu & Hl & He & Hc);
    [done|lia|lia|done|done| |].
  { rewrite Hs1, Nat2Z.inj_succ, Z2Nat.id by lia.
    assert (2 ^ 64 = 2 ^ k1 * 2 ^ (64 - k1)) as E by (rewrite <- Z.pow_add_r by lia; f_equal; lia).
    nia. }
  cbn. exists v', (b ++ em). split_and!; try done; [lia|..].
  - intros e [?|?]%elem_of_app; auto.
  - intros e [Hin|Hin] Hr; apply elem_of_app; [left; apply Hb2; [done|lia]|right; auto].
Qed.

Lemma dictScan_spec d v :
  wf d -> is_u 64 v ->
  exists v' em, dictScan d v = Some (v', em) /\ is_u 64 v' /\ rev v < limit v' /\
    (forall e, e ∈ em -> e ∈ entries d) /\
    (forall e, e ∈ entries d -> rev v <= rev (hashFunction (fst e)) < limit v' -> e ∈ em).
Proof.
  intros Hd Hv. unfold dictScan. destruct (entries_count d Hd) as (-> & _ & _).
  pose proof (rev_u64 v) as Hrv. unfold is_u in Hrv.
  destruct (Z.eqb_spec (Z.of_nat (length (entries d))) 0) as [H0|H0].
  { assert (entries d = []) as -> by (destruct (entries d); [done|simpl in H0; lia]).
    exists 0, []. change (limit 0) with (2 ^ 64).
    split_and!; try done; try lia; by intros e ?%not_elem_of_nil. }
  destruct (dictIsRehashing d) eqn:Hr; cbn [negb].
  - destruct (rehashing_state _ Hd Hr) as (t0 & t1 & Hok0 & Hok1).
    assert (forall e, e ∈ entries d <-> e ∈ concat t0 \/ e ∈ concat t1) as Hin.
    { intros e. unfold entries. by rewrite elem_of_app, (ht_entries_ok _ _ Hok0), (ht_entries_ok _ _ Hok1). }
    destruct (Z.gtb_spec (size (ht0 d)) (size (ht1 d))).
    + destruct (scan_pair (ht1 d) (ht0 d) t1 t0 v) as (v' & em & -> & Hu & Hl & He & Hc); [done|done|lia|done|].
      exists v', em. split_and!; try done; intros e; rewrite Hin; [intros ?%He; tauto|]. intros ?. apply Hc. tauto.
    + destruct (scan_pair (ht0 d) (ht1 d) t0 t1 v) as (v' & em & -> & Hu & Hl & He & Hc); [done|done|lia|done|].
      exists v', em. split_and!; try done; intros e; rewrite Hin; [by intros ?%He|apply Hc].
  - destruct (nonempty_allocated d Hd) as [t Hok]; [by intros E; rewrite E in H0|].
    destruct (ok_mask_ones _ _ Hok) as (k & Hk & Hs & Hm).
    destruct (scan_bucket (ht0 d) t k v Hok Hk Hm Hv) as (b & Hb & Hb1 & Hb2).
    rewrite Hb. cbn. rewrite Hm.
    destruct (next_cursor_spec k v Hv ltac:(lia)) as (Hu & Hl & _).
    destruct (floor_k_bounds k (rev v)) as [Hf Hf']; [lia|apply rev_u64|].
    assert (entries d = concat t) as He.
    { unfold entries. rewrite (not_rehashing_ht0 d t Hd Hok Hr), (ht_entries_ok _ _ Hok).
      change (ht_entries _dictReset) with ([] : list dictEntry). by rewrite app_nil_r. }
    eexists _, b. rewrite He. split_and!; try done; [lia|]. intros e Hin Hrng. apply Hb2; [done|lia].
Qed.

(** A full iteration: dictScan is called on the successive states [ds] of the dict,
    each call with the cursor the previous one returned, until the cursor is 0. *)
Inductive scans : Z -> list dict -> list (list dictEntry) -> Prop :=
  | scans_last v d em : dictScan d v = Some (0, em) -> scans v [d] [em]
  | scans_step v v' d ds em ems :
      dictScan d v = Some (v', em) -> v' <> 0 -> scans v' ds ems -> scans v (d :: ds) (em :: ems).

Lemma scans_cover v ds ems key :
  scans v ds ems -> is_u 64 v -> Forall wf ds -> rev v <= rev (hashFunction key) ->
  (forall d, d ∈ ds -> is_Some (dmap d !! key)) ->
  exists i d em val, ds !! i = Some d /\ ems !! i = Some em /\
    (key, val) ∈ em /\ dmap d !! key = Some val.
Proof.
  induction 1 as [v d em Hs|v v' d ds em ems Hs Hne _ IH]; intros Hv Hwf Hle Hall.
  - rewrite Forall_singleton in Hwf. destruct (Hall d) as [val Hval]; [by constructor|].
    destruct (dictScan_spec d v Hwf Hv) as (v' & em' & Hs' & _ & _ & _ & Hcov).
    rewrite Hs in Hs'. injection Hs' as <- <-. exists O, d, em, val. split_and!; try done.
    apply Hcov; [by apply dmap_lookup|]. cbn. pose proof (rev_u64 (hashFunction key)) as Hr.
    unfold is_u in Hr. unfold limit. simpl (0 =? 0). cbn iota. lia.
  - apply Forall_cons in Hwf as [Hd Hds]. destruct (Hall d) as [val Hval]; [by constructor|].
    destruct (dictScan_spec d v Hd Hv) as (v1 & em' & Hs' & Hu & _ & _ & Hcov).
    rewrite Hs in Hs'. injection Hs' as <- <-.
    assert (limit v' = rev v') as Hlim by (unfold limit; destruct (Z.eqb_spec v' 0); done).
    destruct (decide (rev (hashFunction key) < limit v')).
    + exists O, d, em, val. split_and!; try done. apply Hcov; [by apply dmap_lookup|]. cbn. lia.
    + destruct IH as (i & d' & em1 & val' & ?); [done|done|lia| |].
      { intros d' Hd'. apply Hall. by constructor. }
      exists (S i), d', em1, val'. done.
Qed.

(** ** Theorems *)

(** Lookup. On a well-formed dict dictFetchValue never dereferences a null or
    dangling pointer, returns exactly the value the key maps to, and the rehashing
    step it performs keeps the dict well formed and the map unchanged. *)
Theorem dictFetchValue_correct d key :
  wf d -> exists d', dictFetchValue d key = Some (d', dmap d !! key) /\ wf d' /\ dmap d' = dmap d.
Proof.
  intros Hd. unfold dictFetchValue.
  destruct (dictFind_spec d key Hd) as (d' & r & -> & Hd' & Hm & Hr). cbn.
  exists d'. rewrite <- Hm. destruct r as [r|]; simpl in Hr.
  - destruct Hr as (v & -> & ->). done.
  - by rewrite Hr.
Qed.

(** C20: insertion. dictAdd succeeds exactly when the key is absent, and then binds it;
    otherwise the map is unchanged. Expansion and rehashing are invisible. *)
Theorem dictAdd_correct can_resize d key val :
  wf d -> Z.of_nat (length (entries d)) < max_entries ->
  exists d' ok, dictAdd can_resize d key val = Some (d', ok) /\ wf d' /\
    (ok = true <-> dmap d !! key = None) /\
    dmap d' = if ok then <[key := val]> (dmap d) else dmap d.
Proof.
  intros Hd Hlen. unfold dictAdd.
  destruct (dictAddRaw_spec can_resize d key Hd Hlen) as (d' & r & -> & Hd' & Hr). cbn.
  destruct r as [ex|r].
  - destruct Hr as (Hm & r & v & -> & _ & Hv). exists d', false. split_and!; try done.
    split; [done|]. congruence.
  - destruct Hr as (Hn & Hm & Hr).
    destruct (dictSetVal_spec d' r key junk val Hd' Hr) as (d2 & -> & Hd2 & Hm2). cbn.
    exists d2, true. split_and!; try done. by rewrite Hm2, Hm, insert_insert_eq.
Qed.

(** Add or overwrite. dictReplace always binds the key to the value and reports
    whether the key was new. *)
Theorem dictReplace_correct can_resize d key val :
  wf d -> Z.of_nat (length (entries d)) < max_entries ->
  exists d' added, dictReplace can_resize d key val = Some (d', added) /\ wf d' /\
    (added = true <-> dmap d !! key = None) /\ dmap d' = <[key := val]> (dmap d).
Proof.
  intros Hd Hlen. unfold dictReplace.
  destruct (dictAddRaw_spec can_resize d key Hd Hlen) as (d' & r & -> & Hd' & Hr). cbn.
  destruct r as [ex|r].
  - destruct Hr as (Hm & r & v & -> & Hr & Hv). cbn.
    destruct (dictSetVal_spec d' r key v val Hd' Hr) as (d2 & -> & Hd2 & Hm2). cbn.
    exists d2, false. split_and!; [done|done| |by rewrite Hm2, Hm]. split; [done|congruence].
  - destruct Hr as (Hn & Hm & Hr).
    destruct (dictSetVal_spec d' r key junk val Hd' Hr) as (d2 & -> & Hd2 & Hm2). cbn.
    exists d2, true. split_and!; try done. by rewrite Hm2, Hm, insert_insert_eq.
Qed.

(** C21: deletion. dictUnlink returns exactly the binding of the key, if any, and
    removes it from the map. *)
Theorem dictUnlink_correct d key :
  wf d -> exists d', dictUnlink d key = Some (d', (fun v => (key, v)) <$> dmap d !! key) /\
    wf d' /\ dmap d' = delete key (dmap d).
Proof.
  intros Hd. unfold dictUnlink, dictGenericDelete.
  destruct (entries_count d Hd) as (_ & Hu0 & Hu1). rewrite Hu0, Hu1.
  destruct (_ && _) eqn:Hz.
  { apply andb_true_iff in Hz as [H0%Z.eqb_eq H1%Z.eqb_eq].
    assert (dmap d = ∅) as Hm.
    { apply dmap_entries_nil. unfold entries.
      destruct (ht_entries (ht0 d)), (ht_entries (ht1 d)); simpl in *; try lia. done. }
    exists d. rewrite Hm, lookup_empty, delete_empty. done. }
  destruct (rehash_if_rehashing_spec d Hd) as (d' & -> & Hd' & Hp). cbn [mbind option_bind].
  pose proof (dmap_perm d d' Hd Hp) as Hm. rewrite <- Hm.
  destruct (nonempty_allocated d' Hd') as [t Hok].
  { intros E. rewrite E in Hp. apply Permutation_length in Hp. unfold entries in Hp.
    rewrite length_app in Hp. simpl in Hp. rewrite andb_false_iff, !Z.eqb_neq in Hz. lia. }
  assert (forall r v, deref d' r = Some (key, v) -> exists d2,
    ('(d, he) ← unlink d' r; Some (d, Some he)) = Some (d2, (fun v => (key, v)) <$> dmap d' !! key) /\
    wf d2 /\ dmap d2 = delete key (dmap d')) as Hfound.
  { intros r v Hv. destruct (unlink_spec d' r key v Hd' Hv) as (d2 & -> & Hd2 & Hp2). cbn.
    rewrite (deref_dmap d' r key v Hd' Hv). exists d2. split_and!; try done.
    unfold dmap. rewrite (list_to_map_proper _ _ (wf_keys _ Hd') Hp2). simpl.
    rewrite delete_insert_id; [done|]. apply not_elem_of_list_to_map.
    pose proof (wf_keys _ Hd') as Hn. rewrite Hp2 in Hn. by inversion Hn. }
  assert (dmap d' !! key = None -> exists d2,
    Some (d', None) = Some (d2, (fun v => (key, v)) <$> dmap d' !! key) /\
    wf d2 /\ dmap d2 = delete key (dmap d')) as Habsent.
  { intros Hn. exists d'. rewrite Hn. split_and!; try done. by rewrite delete_id. }
  destruct (find_both d' t key Hd' Hok) as (r0 & -> & Hr0). cbn [mbind option_bind].
  destruct r0 as [r|]; [destruct Hr0 as [v Hv]; by eapply Hfound|].
  destruct (dictIsRehashing d'); cbn [negb]; [|auto].
  destruct Hr0 as (r1 & -> & Hr1). cbn [mbind option_bind].
  destruct r1 as [r|]; [destruct Hr1 as [v Hv]; by eapply Hfound|auto].
Qed.

(** One scan step. dictScan never reads outside the tables, reports only entries
    of the dict, and strictly advances the reversed cursor, the final 0 counting as
    past every hash: so an iteration over tables of bounded size ends. *)
Theorem dictScan_progress d v :
  wf d -> is_u 64 v ->
  exists v' em, dictScan d v = Some (v', em) /\ is_u 64 v' /\ (v' = 0 \/ rev v < rev v') /\
    (forall key val, (key, val) ∈ em -> dmap d !! key = Some val).
Proof.
  intros Hd Hv. destruct (dictScan_spec d v Hd Hv) as (v' & em & Hs & Hu & Hl & He & _).
  exists v', em. split_and!; try done.
  - unfold limit in Hl. destruct (Z.eqb_spec v' 0); auto.
  - intros key val Hin. apply dmap_lookup; auto.
Qed.

(** C8: the guarantee of SCAN. Over a complete iteration started at cursor 0, during
    which the dict may change in any way between calls (entries added or removed,
    tables grown, shrunk or rehashed, as long as each state is well formed), every
    key present in all the states is reported at least once, with the value it had. *)
Theorem dictScan_complete ds ems key :
  scans 0 ds ems -> Forall wf ds -> (forall d, d ∈ ds -> is_Some (dmap d !! key)) ->
  exists i d em val, ds !! i = Some d /\ ems !! i = Some em /\
    (key, val) ∈ em /\ dmap d !! key = Some val.
Proof.
  intros Hs Hwf Hall. eapply scans_cover; eauto; [done|].
  rewrite rev_0. pose proof (rev_u64 (hashFunction key)) as Hr. unfold is_u in Hr. lia.
Qed.

(** Repeating dictRehash(d, n) [m] times, as the cron and the lookups do. *)
Fixpoint rehash_times (m n : nat) (d : dict) : option dict :=
  match m with
  | O => Some d
  | S m => '(d, _) ← dictRehash d n; rehash_times m n d
  end.

Lemma rehash_times_spec m n d :
  wf d -> (0 < n)%nat ->
  exists d', rehash_times m n d = Some d' /\ wf d' /\ entries d' ≡ₚ entries d /\
    (dictIsRehashing d = false -> d' = d) /\
    (dictIsRehashing d' = true -> rehashidx d < size (ht0 d) ->
       rehashidx d + Z.of_nat m <= rehashidx d' < size (ht0 d)).
Proof.
  intros Hd Hn. revert d Hd. induction m as [|m IH]; intros d Hd; cbn [rehash_times].
  { exists d. split_and!; try done. lia. }
  destruct (dictRehash_spec d n Hd) as (d1 & more & Hre & Hd1 & Hp1 & _ & _ & Hmore).
  rewrite Hre. cbn [mbind option_bind].
  destruct (IH d1 Hd1) as (d' & -> & Hd' & Hp' & Hfix & Hmore').
  exists d'. split_and!; [done|done|by rewrite Hp'| |].
  - intros Hr. unfold dictRehash in Hre. rewrite Hr in Hre. cbn in Hre.
    injection Hre as <- <-. auto.
  - intros Hr Hlt. destruct (dictIsRehashing d1) eqn:Hr1; [|rewrite Hfix in Hr by done; congruence].
    destruct (Hmore eq_refl) as (Hs1 & Hi1 & Hi1'). specialize (Hi1' Hn).
    specialize (Hmore' Hr). lia.
Qed.

(** C22: incremental rehashing terminates and is invisible. From any well-formed dict,
    at most one call of dictRehash per bucket of the old table, plus one, completes
    the rehash; every intermediate dict is well formed and stands for the same map. *)
Theorem dictRehash_completes n d :
  wf d -> (0 < n)%nat ->
  exists d', rehash_times (S (Z.to_nat (size (ht0 d)))) n d = Some d' /\ wf d' /\
    dmap d' = dmap d /\ dictIsRehashing d' = false.
Proof.
  intros Hd Hn. cbn [rehash_times].
  destruct (dictRehash_spec d n Hd) as (d1 & more & -> & Hd1 & Hp1 & _ & _ & Hmore).
  cbn [mbind option_bind].
  destruct (rehash_times_spec (Z.to_nat (size (ht0 d))) n d1 Hd1 Hn) as (d' & -> & Hd' & Hp' & Hfix & Hlt).
  exists d'. split_and!; [done|done| |].
  - apply dmap_perm; [done|]. by rewrite Hp'.
  - destruct (dictIsRehashing d') eqn:Hr; [|done]. exfalso.
    destruct (dictIsRehashing d1) eqn:Hr1; [|rewrite Hfix in Hr by done; congruence].
    destruct (Hmore eq_refl) as (Hs1 & Hi1 & _).
    assert (0 <= rehashidx d1).
    { destruct (wf_state _ Hd1) as [(E & _)|(t0 & t1 & _ & _ & ? & _)]; [|done].
      unfold dictIsRehashing in Hr1. by rewrite E in Hr1. }
    specialize (Hlt eq_refl). lia.
Qed.

(** dictEmpty frees every entry exactly once and leaves the initial state. *)
Lemma clear_loop_spec (t : list (list dictEntry)) :
  Z.of_nat (length (concat t)) <= max_entries ->
  clear_loop t (Z.of_nat (length (concat t))) = (concat t, 0).
Proof.
  unfold max_entries. induction t as [|c t IH]; intros Hl; [done|].
  simpl concat in *. rewrite length_app in *. cbn [clear_loop].
  destruct (Z.gtb_spec (Z.of_nat (length c + length (concat t))) 0) as [Hg|Hg].
  - rewrite wrapu_small by zlia.
    replace (Z.of_nat (length c + length (concat t)) - Z.of_nat (length c))
      with (Z.of_nat (length (concat t))) by lia.
    rewrite IH by lia. done.
  - destruct c; simpl in *; [|lia]. destruct (concat t); simpl in *; [done|lia].
Qed.

(** Emptying: dictEmpty frees exactly the entries of the dict, each once, and
    returns a well-formed empty dict. *)
Lemma dictEmpty_correct d :
  wf d -> snd (dictEmpty d) = entries d /\ wf (fst (dictEmpty d)) /\ dmap (fst (dictEmpty d)) = ∅.
Proof.
  intros Hd. unfold dictEmpty, _dictClear. cbn [fst snd]. split_and!.
  - unfold entries. pose proof (wf_count _ Hd) as Hc. unfold entries in Hc. rewrite length_app in Hc.
    destruct (entries_count d Hd) as (_ & -> & ->). unfold ht_entries in *.
    by rewrite !clear_loop_spec by lia.
  - constructor; [left; split_and!; auto|constructor|done].
  - done.
Qed.

End Model.

#[global] Arguments dictht : clear implicits.
#[global] Arguments dict : clear implicits.

(** ** Witnesses

    Two dicts over integer keys hashed to themselves: one at rest, one in the middle
    of a rehash from 4 to 8 buckets, bucket 1 still to be moved. *)

Definition hash_id (k : Z) : Z := u64 k.

Lemma hash_id_u64 k : is_u 64 (hash_id k).
Proof. apply wrapu_range. lia. Qed.

Definition at_rest : dict Z Z :=
  mk_dict (mk_ht (Some [[]; [(5, 50); (1, 10)]; [(2, 20)]; []]) 4 3 3) _dictReset (-1) 0.

Definition in_rehash : dict Z Z :=
  mk_dict (mk_ht (Some [[]; [(5, 50); (1, 10)]; []; []]) 4 3 2)
    (mk_ht (Some [[(8, 80)]; []; []; []; []; []; []; []]) 8 7 1) 1 0.

Ltac solve_placed :=
  intros i chain e Hi He;
  repeat (first [done | destruct i as [|i]; [simpl in Hi; injection Hi as <-;
    repeat (apply elem_of_cons in He as [->|He]; [reflexivity|]); by apply not_elem_of_nil in He|]]).

Lemma at_rest_wf : wf hash_id at_rest.
Proof.
  constructor; [left|by apply (bool_decide_unpack (NoDup _)); vm_compute|vm_compute; discriminate].
  split_and!; [done|done|right]. eexists. constructor; try reflexivity; [by exists 2|solve_placed].
Qed.

Lemma in_rehash_wf : wf hash_id in_rehash.
Proof.
  constructor; [right|by apply (bool_decide_unpack (NoDup _)); vm_compute|vm_compute; discriminate].
  eexists _, _. split_and!.
  - constructor; try reflexivity; [by exists 2|solve_placed].
  - constructor; try reflexivity; [by exists 3|solve_placed].
  - done.
  - intros [|i] chain Hi Hlt; cbn in *; [by injection Hi as <-|lia].
Qed.

Lemma dictFetchValue_witness :
  exists d', dictFetchValue hash_id in_rehash 8 = Some (d', dmap in_rehash !! 8) /\
    wf hash_id d' /\ dmap d' = dmap in_rehash.
Proof. apply (dictFetchValue_correct hash_id in_rehash 8), in_rehash_wf. Defined.

Lemma dictAdd_witness :
  exists d' ok, dictAdd hash_id None 0 true at_rest 9 90 = Some (d', ok) /\ wf hash_id d' /\
    (ok = true <-> dmap at_rest !! 9 = None) /\
    dmap d' = if ok then <[9 := 90]> (dmap at_rest) else dmap at_rest.
Proof.
  apply (dictAdd_correct hash_id None 0 true at_rest 9 90); [apply at_rest_wf|done].
Defined.

Lemma dictReplace_witness :
  exists d' added, dictReplace hash_id None 0 true at_rest 5 55 = Some (d', added) /\ wf hash_id d' /\
    (added = true <-> dmap at_rest !! 5 = None) /\ dmap d' = <[5 := 55]> (dmap at_rest).
Proof.
  apply (dictReplace_correct hash_id None 0 true at_rest 5 55); [apply at_rest_wf|done].
Defined.

Lemma dictUnlink_witness :
  exists d', dictUnlink hash_id in_rehash 5 = Some (d', (fun v => (5, v)) <$> dmap in_rehash !! 5) /\
    wf hash_id d' /\ dmap d' = delete 5 (dmap in_rehash).
Proof. apply (dictUnlink_correct hash_id in_rehash 5), in_rehash_wf. Defined.

Lemma dictRehash_witness :
  exists d', rehash_times hash_id (S (Z.to_nat (size (ht0 in_rehash)))) 1 in_rehash = Some d' /\
    wf hash_id d' /\ dmap d' = dmap in_rehash /\ dictIsRehashing d' = false.
Proof. apply (dictRehash_completes hash_id 1 in_rehash); [apply in_rehash_wf|lia]. Defined.

Lemma dictScan_progress_witness :
  exists v' em, dictScan in_rehash 0 = Some (v', em) /\ is_u 64 v' /\ (v' = 0 \/ rev 0 < rev v') /\
    (forall key val, (key, val) ∈ em -> dmap in_rehash !! key = Some val).
Proof. apply (dictScan_progress hash_id hash_id_u64 in_rehash 0); [apply in_rehash_wf|done]. Defined.

(** The table is mid-rehash for the first call and back to 4 buckets afterwards. *)
Lemma dictScan_complete_witness :
  exists i d em val,
    [in_rehash; at_rest; at_rest; at_rest] !! i = Some d /\
    [[(8, 80)]; [(2, 20)]; [(5, 50); (1, 10)]; []] !! i = Some em /\
    (5, val) ∈ em /\ dmap d !! 5 = Some val.
Proof.
  apply (dictScan_complete hash_id hash_id_u64 [in_rehash; at_rest; at_rest; at_rest]
           [[(8, 80)]; [(2, 20)]; [(5, 50); (1, 10)]; []] 5).
  - apply (scans_step 0 2); [vm_compute; reflexivity|done|].
    apply (scans_step 2 1); [vm_compute; reflexivity|done|].
    apply (scans_step 1 3); [vm_compute; reflexivity|done|].
    apply scans_last. vm_compute. reflexivity.
  - repeat (apply Forall_cons_2; [apply at_rest_wf || apply in_rehash_wf|]). apply Forall_nil_2.
  - intros d Hd. repeat (apply elem_of_cons in Hd as [->|Hd]; [by exists 50|]).
    by apply not_elem_of_nil in Hd.
Defined.

End Dict.
