(* ===== verification/Util.v ===== *)
(** * Numbers as text and glob patterns: [util.c]

    [digits10], [sdigits10], [ll2string], [string2ll] and [string2l], the
    conversions behind every integer the protocol and the encodings carry, and
    [stringmatchlen], the glob matcher behind KEYS, SCAN MATCH and PSUBSCRIBE.

    Characters are C [char] values; a string is a block and an index into it,
    and a read outside the block has no value.  The decimal strings are those of
    the reference definition [sdec]; the patterns have the declarative meaning
    [gmatch]. *)

From Stdlib Require Import ZArith Lia.
From stdpp Require Import base option list numbers strings.
From S2P Require Import Prelude.

#[local] Open Scope Z_scope.

Module Util.

(** ** Operations on numbers *)

(** The recursion of [digits10] divides by 10^12, so that a 64-bit value needs
    two levels; [None] is never reached below fuel 2. *)
Fixpoint digits10_rec (fuel : nat) (v : Z) : option Z :=
  match fuel with
  | O => None
  | S fuel =>
      if v <? 10 then Some 1 else
      if v <? 100 then Some 2 else
      if v <? 1000 then Some 3 else
      if v <? 1000000000000 then
        if v <? 100000000 then
          if v <? 1000000 then
            if v <? 10000 then Some 4
            else Some (5 + Z.b2z (100000 <=? v))
          else Some (7 + Z.b2z (10000000 <=? v))
        else if v <? 10000000000 then Some (9 + Z.b2z (1000000000 <=? v))
        else Some (11 + Z.b2z (100000000000 <=? v))
      else r ← digits10_rec fuel (v / 1000000000000); Some (u32 (12 + r))
  end.

Definition digits10 (v : Z) : option Z := digits10_rec 2 v.

(** The magnitude of a [long long] as an [unsigned long long], with the special
    case of [LLONG_MIN], and the sign. *)
Definition magnitude (svalue : Z) : Z * bool :=
  if svalue <? 0 then
    (if negb (svalue =? INT64_MIN) then u64 (- svalue) else u64 (INT64_MAX + 1), true)
  else (u64 svalue, false).

Definition sdigits10 (v : Z) : option Z :=
  let '(uv, negative) := magnitude v in
  if negative : bool then r ← digits10 uv; Some (u32 (r + 1)) else digits10 uv.

(** The table of the hundred two-digit strings. *)
Definition digits : bytes := bytes_of_string (
  "0001020304050607080910111213141516171819" +:+
  "2021222324252627282930313233343536373839" +:+
  "4041424344454647484950515253545556575859" +:+
  "6061626364656667686970717273747576777879" +:+
  "8081828384858687888990919293949596979899").

(** [dst[next] = digits[i+1]; dst[next-1] = digits[i]]. *)
Definition put_pair (dst : bytes) (next i : Z) : option bytes :=
  hi ← load8 digits i;
  lo ← load8 digits (i + 1);
  dst ← store8 dst next lo;
  store8 dst (u32 (next - 1)) hi.

(** The loop of [ll2string] over the digits two at a time, and the last one or
    two digits after it. *)
Fixpoint put_digits (fuel : nat) (dst : bytes) (next value : Z) : option bytes :=
  match fuel with
  | O => None
  | S fuel =>
      if 100 <=? value then
        dst ← put_pair dst next ((value mod 100) * 2);
        put_digits fuel dst (u32 (next - 2)) (value / 100)
      else if value <? 10 then store8 dst next (48 + value)
      else put_pair dst next (value * 2)
  end.

(** Returns the length (0 when the buffer is too small) and the buffer. *)
Definition ll2string (dst : bytes) (dstlen svalue : Z) : option (Z * bytes) :=
  let '(value, negative) := magnitude svalue in
  d ← digits10 value;
  let length := u32 (d + Z.b2z negative) in
  if dstlen <=? length then Some (0, dst) else
  dst ← store8 dst length 0;
  dst ← put_digits 11 dst (u32 (length - 1)) value;
  dst ← (if negative then store8 dst 0 45 else Some dst);
  Some (length, dst).

Definition is_digit (c : Z) : bool := (48 <=? c) && (c <=? 57).

(** The digit loop of [string2ll].  The outer option is a read outside the
    block; the inner one is the overflow return. *)
Fixpoint string2ll_loop (fuel : nat) (s : bytes) (slen plen v : Z) : option (option (Z * Z)) :=
  match fuel with
  | O => None
  | S fuel =>
      if plen <? slen then
        c ← load8 s plen;
        if is_digit c then
          if UINT64_MAX / 10 <? v then Some None else
          let v := u64 (v * 10) in
          if UINT64_MAX - (c - 48) <? v then Some None else
          string2ll_loop fuel s slen (plen + 1) (u64 (v + (c - 48)))
        else Some (Some (plen, v))
      else Some (Some (plen, v))
  end.

Definition string2ll (s : bytes) (slen : Z) : option (option Z) :=
  if slen =? 0 then Some None else
  c0 ← load8 s 0;
  if (slen =? 1) && (c0 =? 48) then Some (Some 0) else
  let negative := c0 =? 45 in
  let plen := Z.b2z negative in
  if negative && (plen =? slen) then Some None else
  c ← load8 s plen;
  if (49 <=? c) && (c <=? 57) then
    r ← string2ll_loop (S (Z.to_nat slen)) s slen (plen + 1) (c - 48);
    match r with
    | None => Some None
    | Some (plen, v) =>
        if plen <? slen then Some None else
        if negative then
          if u64 (- (INT64_MIN + 1)) + 1 <? v then Some None else Some (Some (s64 (u64 (- v))))
        else if INT64_MAX <? v then Some None else Some (Some (s64 v))
    end
  else Some None.

(** [long] and [long long] have the same width on the 64-bit hosts. *)
Definition string2l (s : bytes) (slen : Z) : option (option Z) :=
  r ← string2ll s slen;
  match r with
  | None => Some None
  | Some llval => if (llval <? INT64_MIN) || (INT64_MAX <? llval) then Some None else Some (Some llval)
  end.

(** ** Operations on patterns *)

(** [tolower] of the C locale, which the server keeps for character types. *)
Definition tolower (c : Z) : Z := if (65 <=? c) && (c <=? 90) then c + 32 else c.

(** A string as the C library sees it. *)
Fixpoint c_string (s : bytes) : bytes :=
  match s with [] => [] | c :: s => if c =? 0 then [] else c :: c_string s end.

(** [!strcasecmp(s, lit)] *)
Definition strcase_is (s lit : bytes) : bool := bool_decide (tolower <$> c_string s = lit).

Definition eqc (nocase : bool) (a b : Z) : bool :=
  if negb nocase then a =? b else tolower a =? tolower b.

(** [while (patternLen && pattern[1] == '*')]. *)
Fixpoint skip_stars (fuel : nat) (pattern : bytes) (p patternLen : Z) : option (Z * Z) :=
  match fuel with
  | O => None
  | S fuel =>
      if patternLen =? 0 then Some (p, patternLen) else
      c ← load8 pattern (p + 1);
      if c =? 42 then skip_stars fuel pattern (p + 1) (patternLen - 1)
      else Some (p, patternLen)
  end.

(** [while (star pattern == '*')], once the string is exhausted. *)
Fixpoint trailing_stars (fuel : nat) (pattern : bytes) (p patternLen : Z) : option Z :=
  match fuel with
  | O => None
  | S fuel =>
      c ← load8 pattern p;
      if c =? 42 then trailing_stars fuel pattern (p + 1) (patternLen - 1)
      else Some patternLen
  end.

(** Does [c] lie in the range written [start-end]? *)
Definition in_range (nocase : bool) (start e c : Z) : bool :=
  let '(start, e) := if e <? start then (e, start) else (start, e) in
  let '(start, e, c) :=
    if nocase then (tolower start, tolower e, tolower c) else (start, e, c) in
  (start <=? c) && (c <=? e).

(** The [while(1)] of a bracket class: where it leaves the pattern, and whether
    the string's character [sc] matched. *)
Fixpoint class_loop (fuel : nat) (pattern : bytes) (p patternLen sc : Z) (nocase matched : bool)
  : option (Z * Z * bool) :=
  match fuel with
  | O => None
  | S fuel =>
      c ← load8 pattern p;
      if (c =? 92) && (2 <=? patternLen) then
        c' ← load8 pattern (p + 1);
        class_loop fuel pattern (p + 2) (patternLen - 2) sc nocase (matched || (c' =? sc))
      else if c =? 93 then Some (p, patternLen, matched)
      else if patternLen =? 0 then Some (p - 1, patternLen + 1, matched)
      else
        dash ← (if 3 <=? patternLen then c1 ← load8 pattern (p + 1); Some (c1 =? 45) else Some false);
        if dash : bool then
          e ← load8 pattern (p + 2);
          class_loop fuel pattern (p + 3) (patternLen - 3) sc nocase (matched || in_range nocase c e sc)
        else
          class_loop fuel pattern (p + 1) (patternLen - 1) sc nocase (matched || eqc nocase c sc)
  end.

(** The cases of the switch that consume one character [sc] of the string; [None]
    is "no match", otherwise the position on the last character of the item. *)
Definition match_one (pattern : bytes) (p patternLen c sc : Z) (nocase : bool)
  : option (option (Z * Z)) :=
  if c =? 63 then Some (Some (p, patternLen)) else
  if c =? 91 then
    let '(p, patternLen) := (p + 1, patternLen - 1) in
    c ← load8 pattern p;
    let neg := c =? 94 in
    let '(p, patternLen) := if neg then (p + 1, patternLen - 1) else (p, patternLen) in
    '(p, patternLen, matched) ← class_loop (S (Z.to_nat patternLen)) pattern p patternLen sc nocase false;
    let matched := if neg then negb matched else matched in
    Some (if matched : bool then Some (p, patternLen) else None)
  else
    let '(p, patternLen) :=
      if (c =? 92) && (2 <=? patternLen) then (p + 1, patternLen - 1) else (p, patternLen) in
    c ← load8 pattern p;
    Some (if eqc nocase c sc then Some (p, patternLen) else None).

(** [while(stringLen)] of the star case, trying every non-empty suffix. *)
Fixpoint star_loop (fuel : nat) (rec : Z -> Z -> option bool) (s stringLen : Z) : option bool :=
  match fuel with
  | O => None
  | S fuel =>
      if stringLen =? 0 then Some false else
      r ← rec s stringLen;
      if r : bool then Some true else star_loop fuel rec (s + 1) (stringLen - 1)
  end.

Fixpoint match_loop (fuel : nat) (pattern : bytes) (p patternLen : Z)
    (string : bytes) (s stringLen : Z) (nocase : bool) : option bool :=
  match fuel with
  | O => None
  | S fuel =>
      if (patternLen =? 0) || (stringLen =? 0)
      then Some ((patternLen =? 0) && (stringLen =? 0)) else
      c ← load8 pattern p;
      if c =? 42 then
        '(p, patternLen) ← skip_stars (S (Z.to_nat patternLen)) pattern p patternLen;
        if patternLen =? 1 then Some true else
        star_loop (S (Z.to_nat stringLen))
          (fun s stringLen => match_loop fuel pattern (p + 1) (patternLen - 1) string s stringLen nocase)
          s stringLen
      else
        sc ← load8 string s;
        r ← match_one pattern p patternLen c sc nocase;
        match r with
        | None => Some false
        | Some (p, patternLen) =>
            let '(p, patternLen, s, stringLen) := (p + 1, patternLen - 1, s + 1, stringLen - 1) in
            if stringLen =? 0 then
              patternLen ← trailing_stars (S (Z.to_nat patternLen)) pattern p patternLen;
              Some (patternLen =? 0)
            else match_loop fuel pattern p patternLen string s stringLen nocase
        end
  end.

Definition stringmatchlen (pattern : bytes) (patternLen : Z) (string : bytes) (stringLen : Z)
    (nocase : bool) : option bool :=
  match_loop (S (Z.to_nat patternLen)) pattern 0 patternLen string 0 stringLen nocase.

(** ** Reference: decimal strings *)

Fixpoint udec_fuel (n : nat) (v : Z) : bytes :=
  match n with
  | O => []
  | S n => if v <? 10 then [48 + v] else udec_fuel n (v / 10) ++ [48 + v mod 10]
  end.

(** The decimal digits of a non-negative number, most significant first. *)
Definition udec (v : Z) : bytes := udec_fuel (S (Z.to_nat (Z.log2 v))) v.

(** The canonical decimal string of an integer. *)
Definition sdec (v : Z) : bytes := if v <? 0 then 45 :: udec (- v) else udec v.

Lemma log2_div10 v : 10 <= v -> Z.log2 (v / 10) < Z.log2 v.
Proof.
  intros. pose proof (Z.log2_spec v). pose proof (Z.log2_spec (v / 10)).
  assert (0 < v / 10) by (Z.div_mod_to_equations; lia).
  assert (v / 10 * 10 <= v) by (Z.div_mod_to_equations; lia).
  apply (Z.pow_lt_mono_r_iff 2); [lia|apply Z.log2_nonneg|].
  assert (0 < 2 ^ Z.log2 v) by (apply Z.pow_pos_nonneg; [lia|apply Z.log2_nonneg]).
  rewrite Z.pow_succ_r in * by apply Z.log2_nonneg. lia.
Qed.

Lemma udec_fuel_enough n m v :
  0 <= v -> (Z.to_nat (Z.log2 v) < n)%nat -> (Z.to_nat (Z.log2 v) < m)%nat ->
  udec_fuel n v = udec_fuel m v.
Proof.
  revert m v. induction n as [|n IH]; intros m v Hv Hn Hm; [lia|].
  destruct m as [|m]; [lia|]. cbn [udec_fuel]. case_match; [done|]. f_equal.
  pose proof (log2_div10 v). pose proof (Z.log2_nonneg (v / 10)).
  apply IH; [Z.div_mod_to_equations; lia|lia|lia].
Qed.

Lemma udec_small v : 0 <= v < 10 -> udec v = [48 + v].
Proof. intros. unfold udec. cbn [udec_fuel]. destruct (Z.ltb_spec v 10); [done|lia]. Qed.

Lemma udec_big v : 10 <= v -> udec v = udec (v / 10) ++ [48 + v mod 10].
Proof.
  intros. unfold udec at 1. cbn [udec_fuel]. destruct (Z.ltb_spec v 10); [lia|].
  f_equal. pose proof (log2_div10 v). pose proof (Z.log2_nonneg (v / 10)).
  apply udec_fuel_enough; [Z.div_mod_to_equations; lia|lia|lia].
Qed.

Lemma udec_snoc v x : 0 < v -> 0 <= x < 10 -> udec (10 * v + x) = udec v ++ [48 + x].
Proof.
  intros. rewrite udec_big by lia.
  replace ((10 * v + x) / 10) with v by (Z.div_mod_to_equations; lia).
  by replace ((10 * v + x) mod 10) with x by (Z.div_mod_to_equations; lia).
Qed.

(** Induction along the decimal digits. *)
Lemma udec_ind (P : Z -> Prop) :
  (forall v, 0 <= v < 10 -> P v) ->
  (forall v x, 0 < v -> 0 <= x < 10 -> P v -> P (10 * v + x)) ->
  forall v, 0 <= v -> P v.
Proof.
  intros Hs Hb. apply Zlt_0_ind. intros v IH Hv.
  destruct (decide (v < 10)); [apply Hs; lia|].
  replace v with (10 * (v / 10) + v mod 10) by (Z.div_mod_to_equations; lia).
  apply Hb; [Z.div_mod_to_equations; lia..|]. apply IH. Z.div_mod_to_equations; lia.
Qed.

Lemma udec_nonempty v : 0 <= v -> 0 < blen (udec v).
Proof.
  intros. destruct (decide (v < 10)); [rewrite udec_small by lia; done|].
  rewrite udec_big by lia. rewrite blen_app. unfold blen. simpl. lia.
Qed.

(** [k] digits are enough for the numbers below [10^k]. *)
Lemma udec_length_le k v : 0 <= v -> v < 10 ^ k -> 0 < k -> blen (udec v) <= k.
Proof.
  intros Hv. revert k. pattern v. revert v Hv. apply udec_ind; [intros v Hv|intros v x Hv Hx IH];
    intros k Hk Hk0.
  - rewrite udec_small by lia. unfold blen. simpl. lia.
  - rewrite udec_snoc, blen_app by lia. unfold blen at 2. simpl.
    assert (1 < k). { destruct (decide (k = 1)); [|lia]. subst. lia. }
    replace k with (Z.succ (k - 1)) in Hk by lia. rewrite Z.pow_succ_r in Hk by lia.
    specialize (IH (k - 1)). lia.
Qed.

Lemma udec_length_gt k v : 0 <= v -> 0 <= k -> 10 ^ k <= v -> k < blen (udec v).
Proof.
  intros Hv. revert k. pattern v. revert v Hv. apply udec_ind; [intros v Hv|intros v x Hv Hx IH];
    intros k Hk0 Hk.
  - rewrite udec_small by lia. unfold blen. simpl.
    destruct (decide (k = 0)); [lia|]. replace k with (Z.succ (k - 1)) in Hk by lia.
    rewrite Z.pow_succ_r in Hk by lia. assert (0 < 10 ^ (k - 1)) by (apply Z.pow_pos_nonneg; lia). lia.
  - rewrite udec_snoc, blen_app by lia. unfold blen at 2. simpl.
    destruct (decide (k = 0)); [pose proof (blen_nonneg (udec v)); lia|].
    replace k with (Z.succ (k - 1)) in Hk by lia. rewrite Z.pow_succ_r in Hk by lia.
    specialize (IH (k - 1)). lia.
Qed.

Lemma udec_length_eq k v : 0 < k -> 10 ^ (k - 1) <= v < 10 ^ k -> blen (udec v) = k.
Proof.
  intros Hk Hv. assert (0 < 10 ^ (k - 1)) by (apply Z.pow_pos_nonneg; lia).
  pose proof (udec_length_le k v). pose proof (udec_length_gt (k - 1) v). lia.
Qed.

(** Dropping [k] low digits shortens the string by [k]. *)
Lemma udec_length_div (k : nat) v :
  10 ^ Z.of_nat k <= v -> blen (udec v) = blen (udec (v / 10 ^ Z.of_nat k)) + Z.of_nat k.
Proof.
  revert v. induction k as [|k IH]; intros v Hv.
  - rewrite Z.div_1_r. lia.
  - rewrite Nat2Z.inj_succ, Z.pow_succ_r in * by lia.
    assert (0 < 10 ^ Z.of_nat k) by (apply Z.pow_pos_nonneg; lia).
    rewrite udec_big, blen_app by lia. unfold blen at 2. simpl length.
    rewrite <- Z.div_div by lia. rewrite IH; [lia|].
    apply Z.div_le_lower_bound; lia.
Qed.

(** ** [digits10] and [ll2string] *)

Lemma digits10_rec_small fuel v :
  0 <= v < 10 ^ 12 -> digits10_rec (S fuel) v = Some (blen (udec v)).
Proof.
  intros Hv. cbn [digits10_rec].
  repeat case_match; f_equal; symmetry;
    repeat match goal with
    | H : (_ <? _) = true |- _ => apply Z.ltb_lt in H
    | H : (_ <? _) = false |- _ => apply Z.ltb_ge in H
    | |- context [Z.b2z (?a <=? ?b)] => destruct (Z.leb_spec a b); simpl Z.b2z
    end; try (apply udec_length_eq; lia).
  - by rewrite udec_small by lia.
  - lia.
Qed.

Lemma digits10_udec v : is_u 64 v -> digits10 v = Some (blen (udec v)).
Proof.
  intros Hv. unfold digits10. destruct (decide (v < 10 ^ 12)).
  { apply digits10_rec_small. zlia. }
  remember 1%nat as fuel eqn:Hf. cbn [digits10_rec].
  rewrite !(proj2 (Z.ltb_ge _ _)) by (zwidth; lia). subst fuel.
  change 1000000000000 with (10 ^ 12).
  assert (0 <= v / 10 ^ 12 < 10 ^ 12)
    by (split; [apply Z.div_pos; zlia|apply Z.div_lt_upper_bound; zlia]).
  rewrite digits10_rec_small by done. simpl.
  pose proof (udec_length_div 12 v) as Hd. change (Z.of_nat 12) with 12 in Hd.
  pose proof (udec_length_le 12 (v / 10 ^ 12)). pose proof (blen_nonneg (udec (v / 10 ^ 12))).
  rewrite wrapu_small by zlia. f_equal. lia.
Qed.

Lemma magnitude_abs v : is_s 64 v -> magnitude v = (Z.abs v, v <? 0).
Proof.
  intros Hv. unfold magnitude. destruct (Z.ltb_spec v 0).
  - destruct (Z.eqb_spec v INT64_MIN); cbn [negb]; rewrite wrapu_small by zlia; f_equal; zlia.
  - rewrite wrapu_small by zlia. f_equal. lia.
Qed.

Lemma sdec_length v : blen (sdec v) = blen (udec (Z.abs v)) + Z.b2z (v <? 0).
Proof.
  unfold sdec. destruct (Z.ltb_spec v 0).
  - rewrite Z.abs_neq by lia. unfold blen. simpl. lia.
  - rewrite Z.abs_eq by lia. simpl. lia.
Qed.

Lemma sdec_length_bound v : is_s 64 v -> 0 < blen (sdec v) <= 20.
Proof.
  intros Hv. rewrite sdec_length. pose proof (udec_nonempty (Z.abs v)).
  pose proof (udec_length_le 19 (Z.abs v)). destruct (v <? 0); simpl; zlia.
Qed.

(** [sdigits10] is the length of the decimal string. *)
Lemma sdigits10_sdec v : is_s 64 v -> sdigits10 v = Some (blen (sdec v)).
Proof.
  intros Hv. pose proof (sdec_length_bound v Hv). rewrite sdec_length in *.
  unfold sdigits10. rewrite magnitude_abs by done. rewrite digits10_udec by zlia.
  destruct (v <? 0); cbn [mbind option_bind Z.b2z] in *; f_equal; [rewrite wrapu_small; zlia|lia].
Qed.

Lemma digits_table x :
  0 <= x < 100 ->
  load8 digits (x * 2) = Some (48 + x / 10) /\ load8 digits (x * 2 + 1) = Some (48 + x mod 10).
Proof.
  intros Hx.
  assert (forallb (fun n => let x := Z.of_nat n in
    bool_decide (load8 digits (x * 2) = Some (48 + x / 10) /\
                 load8 digits (x * 2 + 1) = Some (48 + x mod 10))) (seq 0 100) = true) as H
    by (vm_compute; reflexivity).
  rewrite forallb_forall in H. specialize (H (Z.to_nat x)).
  rewrite Z2Nat.id in H by lia. eapply bool_decide_eq_true_1, H, in_seq. lia.
Qed.

Lemma put_pair_store dst next x :
  0 <= x < 100 -> 1 <= next < blen dst -> is_u 32 next ->
  put_pair dst next (x * 2) = store dst (next - 1) [48 + x / 10; 48 + x mod 10].
Proof.
  intros Hx Hn Hu. unfold put_pair. destruct (digits_table x Hx) as [-> ->].
  cbn [mbind option_bind]. rewrite wrapu_small by zlia. unfold store8.
  destruct (store_Some dst next [48 + x mod 10]) as [b1 H1]; [lia|unfold blen in *; simpl; lia|].
  rewrite H1. cbn [mbind option_bind].
  pose proof (store_length _ _ _ _ H1).
  destruct (store_Some b1 (next - 1) [48 + x / 10]) as [b2 H2];
    [lia|unfold blen in *; simpl; lia|].
  rewrite H2. symmetry. apply (store_store_adj _ _ next _ _ _ _ H1 H2). unfold blen. simpl. lia.
Qed.

Lemma udec_pair v : 10 <= v < 100 -> udec v = [48 + v / 10; 48 + v mod 10].
Proof.
  intros. rewrite udec_big by lia. rewrite udec_small by (Z.div_mod_to_equations; lia). done.
Qed.

Lemma udec_hundred v :
  100 <= v -> udec v = udec (v / 100) ++ [48 + v mod 100 / 10; 48 + v mod 100 mod 10].
Proof.
  intros. rewrite udec_big by lia. rewrite (udec_big (v / 10)) by (Z.div_mod_to_equations; lia).
  rewrite Z.div_div by lia. rewrite <- app_assoc. simpl.
  f_equal. f_equal; [|f_equal]; f_equal; Z.div_mod_to_equations; lia.
Qed.

(** The digit loop writes the decimal string so that it ends at [next]. *)
Lemma put_digits_store fuel dst next v :
  (0 < fuel)%nat -> 0 <= v < 100 ^ Z.of_nat fuel -> is_u 32 next -> next < blen dst ->
  0 <= next + 1 - blen (udec v) ->
  put_digits fuel dst next v = store dst (next + 1 - blen (udec v)) (udec v).
Proof.
  revert dst next v. induction fuel as [|fuel IH]; intros dst next v Hf Hv Hu Hn Hk; [lia|].
  cbn [put_digits]. destruct (Z.leb_spec 100 v).
  - assert (0 < v / 100) by (Z.div_mod_to_equations; lia).
    pose proof (udec_nonempty (v / 100) ltac:(lia)).
    assert (blen (udec v) = blen (udec (v / 100)) + 2) as Hl
      by (rewrite udec_hundred, blen_app by lia; done).
    rewrite Hl in Hk |- *. rewrite (udec_hundred v) by lia.
    pose proof (Z.mod_pos_bound v 100 ltac:(lia)).
    rewrite put_pair_store; [|lia|lia|done].
    destruct (store_Some dst (next - 1) [48 + v mod 100 / 10; 48 + v mod 100 mod 10]) as [b1 Hb1];
      [lia|unfold blen; simpl; unfold blen in *; lia|].
    rewrite Hb1. cbn [mbind option_bind]. pose proof (store_length _ _ _ _ Hb1).
    rewrite wrapu_small by zlia. rewrite Nat2Z.inj_succ, Z.pow_succ_r in Hv by lia.
    rewrite IH; [|destruct fuel; simpl in Hv; lia|Z.div_mod_to_equations; lia|zlia|unfold blen in *; lia|lia].
    destruct (store_Some b1 (next - 2 + 1 - blen (udec (v / 100))) (udec (v / 100))) as [b2 Hb2];
      [lia|unfold blen in *; lia|].
    rewrite Hb2. symmetry.
    replace (next + 1 - (blen (udec (v / 100)) + 2))
      with (next - 2 + 1 - blen (udec (v / 100))) by lia.
    apply (store_store_adj _ _ (next - 1) _ _ _ _ Hb1 Hb2). lia.
  - destruct (Z.ltb_spec v 10).
    + rewrite udec_small by lia. unfold store8, blen. simpl. f_equal. lia.
    + rewrite udec_pair in * by lia. unfold blen in Hk. simpl in Hk.
      rewrite put_pair_store; [|lia|lia|done]. f_equal. unfold blen. simpl. lia.
Qed.

(** The sign goes in front of the digits. *)
Lemma put_sign b v :
  blen (udec (Z.abs v)) + Z.b2z (v <? 0) <= blen b ->
  (dst ← store b (Z.b2z (v <? 0)) (udec (Z.abs v));
   if v <? 0 then store8 dst 0 45 else Some dst) = store b 0 (sdec v).
Proof.
  intros Hb. unfold sdec. destruct (Z.ltb_spec v 0); cbn [Z.b2z] in *.
  - rewrite Z.abs_neq in * by lia.
    destruct (store_Some b 1 (udec (- v))) as [b1 HS1]; [lia|lia|].
    rewrite HS1. cbn [mbind option_bind]. pose proof (store_length _ _ _ _ HS1). unfold store8.
    pose proof (udec_nonempty (- v)).
    destruct (store_Some b1 0 [45]) as [b2 HS2]; [lia|unfold blen in *; simpl; lia|].
    rewrite HS2. symmetry. by apply (store_store_adj _ 0 1 (udec (- v)) [45] _ _ HS1 HS2).
  - rewrite Z.abs_eq by lia. by destruct (store b 0 (udec v)).
Qed.

Lemma ll2string_spec dst dstlen v :
  is_s 64 v -> 0 <= dstlen <= blen dst ->
  ll2string dst dstlen v =
    if blen (sdec v) <? dstlen
    then Some (blen (sdec v), sdec v ++ 0 :: drop (S (length (sdec v))) dst)
    else Some (0, dst).
Proof.
  intros Hv Hd. pose proof (sdec_length_bound v Hv) as Hb. pose proof (sdec_length v) as Hl.
  unfold ll2string. rewrite magnitude_abs by done. rewrite digits10_udec by zlia.
  cbn [mbind option_bind]. rewrite <- Hl. rewrite wrapu_small by zlia.
  destruct (Z.leb_spec dstlen (blen (sdec v))), (Z.ltb_spec (blen (sdec v)) dstlen); try lia; [done|].
  change (store8 dst (blen (sdec v)) 0) with (store dst (blen (sdec v)) [0]).
  destruct (store_Some dst (blen (sdec v)) [0]) as [b1 HS1]; [lia|unfold blen in *; simpl; lia|].
  rewrite HS1. cbn [mbind option_bind]. pose proof (store_length _ _ _ _ HS1) as Hb1.
  assert (blen b1 = blen dst) as Hb1' by (unfold blen; lia).
  rewrite wrapu_small by zlia. pose proof (udec_nonempty (Z.abs v)).
  rewrite put_digits_store; [|lia|zlia|destruct (v <? 0); simpl in *; zlia|lia|destruct (v <? 0); simpl in *; lia].
  replace (blen (sdec v) - 1 + 1 - blen (udec (Z.abs v))) with (Z.b2z (v <? 0)) by lia.
  pose proof (put_sign b1 v ltac:(lia)) as Hs.
  destruct (store_Some b1 0 (sdec v)) as [b2 HS2]; [lia|lia|]. rewrite HS2 in Hs.
  destruct (store b1 (Z.b2z (v <? 0)) (udec (Z.abs v))); [|done].
  cbn [mbind option_bind] in *. rewrite Hs. cbn [mbind option_bind]. f_equal. f_equal.
  pose proof (store_store_adj _ _ _ _ _ _ _ HS1 HS2 ltac:(lia)) as HS3.
  rewrite store_0 in HS3 by (rewrite blen_app; unfold blen in *; simpl; lia).
  injection HS3 as <-. rewrite length_app, <- app_assoc. simpl. do 3 f_equal. lia.
Qed.

(** Printing. On a buffer of at least [dstlen] bytes, [ll2string] writes the
    canonical decimal string of any [long long] (LLONG_MIN included), terminated
    by a null byte, and returns its length; it returns 0 and leaves the buffer
    alone exactly when the string and its terminator do not fit. *)
Theorem ll2string_correct dst dstlen v :
  is_s 64 v -> 0 <= dstlen <= blen dst ->
  ll2string dst dstlen v =
    if blen (sdec v) <? dstlen
    then Some (blen (sdec v), sdec v ++ 0 :: drop (S (length (sdec v))) dst)
    else Some (0, dst).
Proof. exact (ll2string_spec dst dstlen v). Qed.

(** ** [string2ll] *)

(** The value of a list of digits after [v]. *)
Definition dval (v : Z) (ds : bytes) : Z := fold_left (fun v c => 10 * v + (c - 48)) ds v.

Lemma dval_cons v c ds : dval v (c :: ds) = dval (10 * v + (c - 48)) ds.
Proof. done. Qed.

Lemma is_digit_spec c : is_digit c = true <-> 48 <= c <= 57.
Proof. unfold is_digit. lia. Qed.

Lemma dval_ge v ds : 0 <= v -> Forall (fun c => is_digit c = true) ds -> v <= dval v ds.
Proof.
  intros Hv Hd. revert v Hv. induction Hd as [|c ds Hc Hd IH]; intros v Hv; [done|].
  apply is_digit_spec in Hc. rewrite dval_cons. specialize (IH (10 * v + (c - 48)) ltac:(lia)). lia.
Qed.

(** Reading further digits appends them to the decimal string. *)
Lemma udec_dval v ds :
  0 < v -> Forall (fun c => is_digit c = true) ds -> udec (dval v ds) = udec v ++ ds.
Proof.
  intros Hv Hd. revert v Hv. induction Hd as [|c ds Hc Hd IH]; intros v Hv.
  - by rewrite app_nil_r.
  - apply is_digit_spec in Hc. rewrite dval_cons, IH by lia. rewrite udec_snoc by lia. rewrite <- app_assoc. simpl. do 2 f_equal. lia.
Qed.

(** The decimal string of a positive number: a digit 1-9, then digits. *)
Lemma udec_cons v :
  0 < v -> exists c ds, udec v = c :: ds /\ 49 <= c <= 57 /\
    Forall (fun c => is_digit c = true) ds /\ dval (c - 48) ds = v.
Proof.
  intros Hv. assert (0 <= v) as H0 by lia. revert H0 Hv. revert v.
  apply (udec_ind (fun v => 0 < v -> _)); [intros v Hv H0|intros v x Hv Hx IH _].
  - exists (48 + v), []. rewrite udec_small by lia. split_and!; [done|lia|lia|constructor|].
    unfold dval. simpl. lia.
  - destruct IH as (c & ds & E & Hc & Hd & Hval); [lia|].
    exists c, (ds ++ [48 + x]). rewrite udec_snoc, E by lia. split_and!; [done|lia|lia|..].
    + apply Forall_app. split; [done|]. constructor; [|constructor]. apply is_digit_spec. lia.
    + unfold dval in *. rewrite fold_left_app, Hval. simpl. lia.
Qed.

(** The loop reaches the end with a value exactly when everything left is a
    digit and the value fits 64 bits. *)
Lemma string2ll_loop_spec fuel s pre ds post v :
  s = pre ++ ds ++ post -> (length ds < fuel)%nat -> 0 <= v <= UINT64_MAX ->
  exists r, string2ll_loop fuel s (blen (pre ++ ds)) (blen pre) v = Some r /\
    (forall q w, r = Some (q, w) -> q <= blen (pre ++ ds)) /\
    (forall w, r = Some (blen (pre ++ ds), w) <->
      Forall (fun c => is_digit c = true) ds /\ w = dval v ds /\ w <= UINT64_MAX).
Proof.
  revert fuel pre v. induction ds as [|c ds IH]; intros fuel pre v Hs Hf Hv;
    (destruct fuel as [|fuel]; [simpl in Hf; lia|]); cbn [string2ll_loop].
  - rewrite app_nil_r. rewrite Z.ltb_irrefl. eexists. split; [done|]. split; [by intros q w [= <- _]|].
    intros w. unfold dval. simpl. split; [intros [= ->]; split_and!; [constructor|done|lia]|].
    intros (_ & -> & _). done.
  - rewrite (proj2 (Z.ltb_lt _ _)) by (rewrite blen_app; unfold blen; simpl; lia).
    assert (load8 s (blen pre) = Some c) as -> by (rewrite Hs; by apply load8_app_mid).
    cbn [mbind option_bind].
    destruct (is_digit c) eqn:Hc.
    2: { eexists. split; [done|]. split; [intros q w [= <- _]; rewrite blen_app; unfold blen; lia|].
         intros w. split; [|intros (Hd & _); apply Forall_cons in Hd; by destruct Hd; congruence].
         rewrite blen_app. intros [= Hq _]. unfold blen in Hq. simpl in Hq. lia. }
    pose proof (proj1 (is_digit_spec c) Hc) as Hc'.
    assert (10 * v + (c - 48) > UINT64_MAX -> forall w,
      Forall (fun c => is_digit c = true) (c :: ds) /\ w = dval v (c :: ds) /\ w <= UINT64_MAX -> False) as Hov.
    { intros Hbig w (Hd & -> & Hw). apply Forall_cons in Hd as [_ Hd].
      pose proof (dval_ge (10 * v + (c - 48)) ds ltac:(lia) Hd). unfold dval in *. simpl in *. lia. }
    destruct (Z.ltb_spec (UINT64_MAX / 10) v).
    { exists None. split; [done|]. split; [done|]. intros w. split; [done|]. intros H'.
      exfalso. revert H'. apply Hov. unfold UINT64_MAX in *. Z.div_mod_to_equations; lia. }
    rewrite wrapu_small by (zwidth; Z.div_mod_to_equations; lia).
    destruct (Z.ltb_spec (UINT64_MAX - (c - 48)) (v * 10)).
    { exists None. split; [done|]. split; [done|]. intros w. split; [done|]. intros H'.
      exfalso. revert H'. apply Hov. lia. }
    rewrite wrapu_small by zlia.
    destruct (IH fuel (pre ++ [c]) (v * 10 + (c - 48))) as (r & Hr & Hle & Hiff).
    { by rewrite <- app_assoc. } { simpl in Hf. lia. } { lia. }
    exists r. rewrite <- app_assoc in *. simpl in *.
    replace (blen (pre ++ [c])) with (blen pre + 1) in Hr by (rewrite blen_app; done).
    split; [exact Hr|]. split; [done|]. intros w. rewrite Hiff, Forall_cons. unfold dval. simpl.
    replace (10 * v + (c - 48)) with (v * 10 + (c - 48)) by lia. tauto.
Qed.

(** The two successful shapes of a number's text. *)
Lemma sdec_shapes v l :
  l = sdec v <->
  (v = 0 /\ l = [48]) \/
  (exists c ds, l = (if v <? 0 then [45] else []) ++ c :: ds /\ 49 <= c <= 57 /\
     Forall (fun c => is_digit c = true) ds /\ dval (c - 48) ds = Z.abs v).
Proof.
  split.
  - intros ->. destruct (decide (v = 0)) as [->|]; [by left|]. right.
    destruct (udec_cons (Z.abs v)) as (c & ds & E & Hc & Hd & Hval); [lia|].
    exists c, ds. split_and!; [|lia|lia|done|done].
    unfold sdec. destruct (Z.ltb_spec v 0).
    + rewrite <- E. simpl. do 2 f_equal. lia.
    + rewrite <- E. simpl. f_equal. lia.
  - intros [[-> ->]|(c & ds & -> & Hc & Hd & Hval)]; [done|].
    assert (c :: ds = udec (Z.abs v)) as ->.
    { rewrite <- Hval, udec_dval by (done || lia). rewrite udec_small by lia. simpl. f_equal. lia. }
    unfold sdec. destruct (Z.ltb_spec v 0); simpl; do 2 f_equal; lia.
Qed.

(** The part of [string2ll] after the first digit, on [pre ++ c :: ds]. *)
Lemma string2ll_tail s pre c ds post (negative : bool) :
  s = pre ++ c :: ds ++ post -> 49 <= c <= 57 ->
  let slen := blen (pre ++ c :: ds) in
  exists r,
    (r ← string2ll_loop (S (Z.to_nat slen)) s slen (blen pre + 1) (c - 48);
     match r with
     | None => Some None
     | Some (plen, v) =>
         if plen <? slen then Some None else
         if negative then
           if u64 (- (INT64_MIN + 1)) + 1 <? v then Some None else Some (Some (s64 (u64 (- v))))
         else if INT64_MAX <? v then Some None else Some (Some (s64 v))
     end) = Some r /\
    (forall w, r = Some w <->
      is_s 64 w /\ (w <? 0) = negative /\
      Forall (fun c => is_digit c = true) ds /\ dval (c - 48) ds = Z.abs w).
Proof.
  intros Hs Hc slen.
  destruct (string2ll_loop_spec (S (Z.to_nat slen)) s (pre ++ [c]) ds post (c - 48))
    as (r & Hr & Hle & Hiff).
  { by rewrite <- app_assoc. }
  { unfold slen. rewrite blen_app. unfold blen. simpl. lia. } { zlia. }
  rewrite <- app_assoc in *. simpl in *. fold slen in Hr, Hle, Hiff.
  replace (blen (pre ++ [c])) with (blen pre + 1) in Hr by (rewrite blen_app; done).
  rewrite Hr. cbn [mbind option_bind].
  assert (forall w, is_s 64 w -> Forall (fun c => is_digit c = true) ds ->
    dval (c - 48) ds = Z.abs w -> r = Some (slen, Z.abs w)) as Hback.
  { intros w Hw Hd Hval. apply Hiff. split_and!; [done|done|zlia]. }
  destruct r as [[q v]|].
  2: { eexists. split; [done|]. intros w. split; [done|]. intros (Hw & _ & Hd & Hval).
       by specialize (Hback w Hw Hd Hval). }
  specialize (Hle q v eq_refl). destruct (Z.ltb_spec q slen).
  { eexists. split; [done|]. intros w. split; [done|]. intros (Hw & _ & Hd & Hval).
    specialize (Hback w Hw Hd Hval). injection Hback. lia. }
  assert (q = slen) as -> by lia.
  destruct (proj1 (Hiff v) eq_refl) as (Hd & Hv & Hmax).
  pose proof (dval_ge (c - 48) ds ltac:(lia) Hd) as Hge.
  change (u64 (- (INT64_MIN + 1)) + 1) with (2 ^ 63). destruct negative.
  - destruct (Z.ltb_spec (2 ^ 63) v).
    + eexists. split; [done|]. intros w. split; [done|]. intros (Hw & _ & _ & Hval). zlia.
    + rewrite wraps_wrapu, wraps_small by zlia. eexists. split; [done|]. intros w.
      split; [intros [= <-]; split_and!; [zlia..|done|lia]|].
      intros (Hw & Hn & _ & Hval). f_equal. lia.
  - destruct (Z.ltb_spec INT64_MAX v).
    + eexists. split; [done|]. intros w. split; [done|]. intros (Hw & Hn & _ & Hval). zlia.
    + rewrite wraps_small by zlia. eexists. split; [done|]. intros w.
      split; [intros [= <-]; split_and!; [zlia..|done|lia]|].
      intros (Hw & Hn & _ & Hval). f_equal. lia.
Qed.

(** When a sign and a first character begin the text of a number. *)
Lemma sdec_head (negative : bool) c ds w :
  (if negative then [45] else []) ++ c :: ds <> [48] -> (negative = false -> c <> 45) ->
  (if negative then [45] else []) ++ c :: ds = sdec w <->
  49 <= c <= 57 /\ (w <? 0) = negative /\
  Forall (fun c => is_digit c = true) ds /\ dval (c - 48) ds = Z.abs w.
Proof.
  intros Hz Hm. rewrite sdec_shapes. split.
  - intros [[_ ?]|(c' & ds' & E & Hc & Hd & Hval)]; [done|].
    destruct negative, (w <? 0); simplify_eq/=; try (split_and!; (done || lia)).
  - intros (Hc & Hn & Hd & Hval). right. exists c, ds. rewrite Hn. split_and!; (done || lia).
Qed.

Lemma string2ll_spec s slen :
  0 <= slen <= blen s ->
  exists r, string2ll s slen = Some r /\
    forall v, r = Some v <-> is_s 64 v /\ take (Z.to_nat slen) s = sdec v.
Proof.
  intros Hlen. set (l := take (Z.to_nat slen) s).
  assert (slen = blen l) as Hl by (unfold l, blen in *; rewrite length_take; lia).
  assert (s = l ++ drop (Z.to_nat slen) s) as Hs by (unfold l; by rewrite take_drop).
  clearbody l. set (post := drop (Z.to_nat slen) s) in Hs. clearbody post. subst s.
  unfold string2ll. subst slen. destruct l as [|c0 l].
  { exists None. split; [done|]. intros v. split; [done|]. intros [_ Hv].
    apply sdec_shapes in Hv as [[_ ?]|(c & ds & E & _)]; [done|]. by destruct (v <? 0). }
  rewrite (proj2 (Z.eqb_neq _ _)) by (unfold blen; simpl; lia).
  assert (load8 ((c0 :: l) ++ post) 0 = Some c0) as Hl0 by done. rewrite Hl0. cbn [mbind option_bind].
  destruct ((blen (c0 :: l) =? 1) && (c0 =? 48)) eqn:H1.
  { apply andb_true_iff in H1 as [H1 ->%Z.eqb_eq]. apply Z.eqb_eq in H1.
    assert (l = []) as -> by (destruct l; [done|unfold blen in H1; cbn [length] in H1; lia]).
    exists (Some 0). split; [done|]. intros v.
    rewrite sdec_shapes. split; [intros [= <-]; split; [zlia|by left]|].
    intros [_ [[-> _]|(c & ds & E & Hc & _)]]; [done|]. destruct (v <? 0); simplify_eq/=; lia. }
  assert (c0 :: l <> [48]) as Hz by (intros [= -> ->]; done).
  destruct (Z.eqb_spec c0 45) as [->|Hm]; cbn [Z.b2z andb].
  - destruct l as [|c ds]; [exists None; split; [done|]|].
    { intros v. split; [done|]. intros [_ Hv].
      apply sdec_shapes in Hv as [[_ ?]|(c & ds & E & Hc & _)]; [done|].
      destruct (v <? 0); simplify_eq/=; lia. }
    rewrite (proj2 (Z.eqb_neq _ _)) by (unfold blen; simpl; lia).
    assert (load8 ((45 :: c :: ds) ++ post) 1 = Some c) as -> by done. cbn [mbind option_bind].
    assert (forall w, 45 :: c :: ds = sdec w <-> _) as Hh by (intros w; by apply (sdec_head true)).
    destruct ((49 <=? c) && (c <=? 57)) eqn:Hc; [|exists None; split; [done|]; intros v; rewrite Hh; split; [done|lia]].
    destruct (string2ll_tail _ [45] c ds post true eq_refl) as (r & Hr & Hiff); [lia|].
    exists r. split; [exact Hr|]. intros v. rewrite Hiff, Hh. split; [|tauto]. intros; split_and!; try tauto; lia.
  - assert (forall w, c0 :: l = sdec w <-> _) as Hh by (intros w; by apply (sdec_head false)).
    rewrite Hl0. cbn [mbind option_bind].
    destruct ((49 <=? c0) && (c0 <=? 57)) eqn:Hc; [|exists None; split; [done|]; intros v; rewrite Hh; split; [done|lia]].
    destruct (string2ll_tail _ [] c0 l post false eq_refl) as (r & Hr & Hiff); [lia|].
    exists r. split; [exact Hr|]. intros v. rewrite Hiff, Hh. split; [|tauto]. intros; split_and!; try tauto; lia.
Qed.

(** C37: parsing. [string2ll] never reads outside the string, and accepts exactly
    the canonical decimal strings of the [long long] values, with the value they
    denote: no spaces, signs, leading zeros, trailing characters or overflowing
    numbers, and nothing printed by [ll2string] is refused. *)
Theorem string2ll_correct s slen :
  0 <= slen <= blen s ->
  exists r, string2ll s slen = Some r /\
    forall v, r = Some v <-> is_s 64 v /\ take (Z.to_nat slen) s = sdec v.
Proof. exact (string2ll_spec s slen). Qed.

Lemma ll2string_witness :
  is_s 64 INT64_MIN /\
  ll2string (replicate 22 1) 21 INT64_MIN =
    Some (20, bytes_of_string "-9223372036854775808" ++ [0; 1]).
Proof.
  split; [zlia|].
  rewrite (ll2string_correct (replicate 22 1) 21 INT64_MIN); [reflexivity|zlia|vm_compute; split; discriminate].
Defined.

Lemma string2ll_witness :
  0 <= 5 <= blen (bytes_of_string "-1234") /\
  exists r, string2ll (bytes_of_string "-1234") 5 = Some r /\
    forall v, r = Some v <-> is_s 64 v /\ bytes_of_string "-1234" = sdec v.
Proof.
  split; [vm_compute; split; discriminate|].
  apply (string2ll_correct (bytes_of_string "-1234") 5). vm_compute; split; discriminate.
Defined.

(** ** Meaning of the patterns *)

(** An item of a bracket class: an escaped character, a range, a character. *)
Inductive citem := CEsc (c : Z) | CRange (a b : Z) | CChar (c : Z).

(** The items of a class and the pattern after it; a class that is not closed
    extends to the end of the pattern. *)
Fixpoint class_items (r : bytes) : list citem * bytes :=
  match r with
  | [] => ([], [])
  | a :: r1 =>
      if a =? 93 then ([], r1) else
      match r1 with
      | [] => ([CChar a], [])
      | b :: r2 =>
          if a =? 92 then let '(items, rest) := class_items r2 in (CEsc b :: items, rest) else
          match r2 with
          | e :: r3 =>
              if b =? 45 then let '(items, rest) := class_items r3 in (CRange a e :: items, rest)
              else let '(items, rest) := class_items r1 in (CChar a :: items, rest)
          | [] => let '(items, rest) := class_items r1 in (CChar a :: items, rest)
          end
      end
  end.

Definition item_ok (nocase : bool) (c : Z) (i : citem) : bool :=
  match i with
  | CEsc x => x =? c
  | CRange a b => in_range nocase a b c
  | CChar x => eqc nocase x c
  end.

(** A class with its optional negation, after the opening bracket. *)
Definition class_ok (nocase : bool) (c : Z) (r : bytes) : bool * bytes :=
  let neg := hd 0 r =? 94 in
  let '(items, rest) := class_items (if neg then tail r else r) in
  (xorb neg (existsb (item_ok nocase c) items), rest).

(** [gmatch nocase pattern s]: the glob pattern matches the whole string. *)
Inductive gmatch (nocase : bool) : bytes -> bytes -> Prop :=
| gm_nil : gmatch nocase [] []
| gm_star_skip ps s : gmatch nocase ps s -> gmatch nocase (42 :: ps) s
| gm_star_take ps c s : gmatch nocase (42 :: ps) s -> gmatch nocase (42 :: ps) (c :: s)
| gm_any ps c s : gmatch nocase ps s -> gmatch nocase (63 :: ps) (c :: s)
| gm_class ps c s rest :
    class_ok nocase c ps = (true, rest) -> gmatch nocase rest s -> gmatch nocase (91 :: ps) (c :: s)
| gm_escape ps x c s :
    eqc nocase x c = true -> gmatch nocase ps s -> gmatch nocase (92 :: x :: ps) (c :: s)
| gm_char ps x c s :
    x ∉ [42; 63; 91] -> (x = 92 -> ps = []) -> eqc nocase x c = true ->
    gmatch nocase ps s -> gmatch nocase (x :: ps) (c :: s).

(** [at_pat pattern p r]: the null-terminated pattern has [r] left at index [p]. *)
Definition at_pat (pattern : bytes) (p : Z) (r : bytes) : Prop :=
  exists pre post, pattern = pre ++ r ++ 0 :: post /\ p = blen pre.

Lemma at_pat_cons pattern p c r :
  at_pat pattern p (c :: r) -> load8 pattern p = Some c /\ at_pat pattern (p + 1) r.
Proof.
  intros (pre & post & -> & ->). split; [by apply load8_app_mid|].
  exists (pre ++ [c]), post. rewrite <- app_assoc, blen_app. done.
Qed.

Lemma at_pat_nil pattern p : at_pat pattern p [] -> load8 pattern p = Some 0.
Proof. intros (pre & post & -> & ->). by apply load8_app_mid. Qed.

(** The character at the cursor is that of the pattern or the terminator. *)
Lemma at_pat_head pattern p r : at_pat pattern p r -> load8 pattern p = Some (hd 0 r).
Proof.
  destruct r; intros H; [by apply at_pat_nil|]. by apply at_pat_cons in H as [? _].
Qed.

Lemma blen_cons x (l : bytes) : blen (x :: l) = blen l + 1.
Proof. unfold blen. simpl. lia. Qed.

Lemma class_loop_spec fuel pattern p r sc nocase m :
  at_pat pattern p r -> (length r < fuel)%nat ->
  exists p', class_loop fuel pattern p (blen r) sc nocase m =
    Some (p', blen (snd (class_items r)) + 1,
          m || existsb (item_ok nocase sc) (fst (class_items r))) /\
    at_pat pattern (p' + 1) (snd (class_items r)) .
Proof.
  revert p r m. induction fuel as [|fuel IH]; intros p r m Hat Hf; [lia|].
  cbn [class_loop]. rewrite (at_pat_head _ _ _ Hat). cbn [mbind option_bind].
  destruct r as [|a r1].
  { exists (p - 1). cbn. rewrite orb_false_r. split; [done|]. by replace (p - 1 + 1) with p by lia. }
  apply at_pat_cons in Hat as [_ Hat]. cbn [hd class_items]. simpl in Hf.
  destruct (Z.eqb_spec a 93) as [->|Ha].
  { exists p. cbn. rewrite orb_false_r, blen_cons. done. }
  rewrite (proj2 (Z.eqb_neq (blen (a :: r1)) 0)) by (unfold blen; simpl; lia).
  destruct r1 as [|b r2].
  { change (blen [a]) with 1. change (2 <=? 1) with false. change (3 <=? 1) with false.
    rewrite andb_false_r. cbn [mbind option_bind].
    destruct (IH (p + 1) [] (m || eqc nocase a sc)) as (p' & E & Hp'); [done|simpl in *; lia|].
    exists p'. change (1 - 1) with (blen []). rewrite E. cbn. rewrite !orb_false_r. done. }
  pose proof (at_pat_cons _ _ _ _ Hat) as [Hb Hat2]. rewrite Hb. cbn [mbind option_bind].
  rewrite (proj2 (Z.leb_le 2 _)) by (unfold blen; simpl; lia). rewrite andb_true_r.
  simpl in Hf. destruct (Z.eqb_spec a 92) as [->|Hb2].
  { destruct (IH (p + 1 + 1) r2 (m || (b =? sc))) as (p' & E & Hp'); [done|lia|].
    exists p'. rewrite !blen_cons. replace (p + 2) with (p + 1 + 1) by lia.
    replace (blen r2 + 1 + 1 - 2) with (blen r2) by lia. rewrite E.
    destruct (class_items r2). cbn. rewrite orb_assoc. done. }
  assert (exists p', class_loop fuel pattern (p + 1) (blen (a :: b :: r2) - 1) sc nocase (m || eqc nocase a sc) =
    Some (p', blen (snd (class_items (b :: r2))) + 1,
          m || existsb (item_ok nocase sc) (CChar a :: fst (class_items (b :: r2)))) /\
    at_pat pattern (p' + 1) (snd (class_items (b :: r2)))) as Hplain.
  { destruct (IH (p + 1) (b :: r2) (m || eqc nocase a sc)) as (p' & E & Hp'); [done|simpl; lia|].
    exists p'. rewrite (blen_cons a). replace (blen (b :: r2) + 1 - 1) with (blen (b :: r2)) by lia.
    rewrite E. cbn [existsb item_ok]. rewrite orb_assoc. done. }
  destruct r2 as [|e r3].
  { rewrite (proj2 (Z.leb_gt 3 _)) by (unfold blen; simpl; lia). cbn [mbind option_bind].
    destruct (class_items [b]). exact Hplain. }
  rewrite (proj2 (Z.leb_le 3 _)) by (unfold blen; simpl; lia). cbn [mbind option_bind].
  destruct (Z.eqb_spec b 45) as [->|Hd].
  - pose proof (at_pat_cons _ _ _ _ Hat2) as [He Hat3].
    replace (p + 2) with (p + 1 + 1) by lia. rewrite He. cbn [mbind option_bind].
    destruct (IH (p + 1 + 1 + 1) r3 (m || in_range nocase a e sc)) as (p' & E & Hp'); [done|simpl in *; lia|].
    exists p'. replace (p + 3) with (p + 1 + 1 + 1) by lia. rewrite !blen_cons.
    replace (blen r3 + 1 + 1 + 1 - 3) with (blen r3) by lia. rewrite E.
    destruct (class_items r3). cbn. rewrite orb_assoc. done.
  - destruct (class_items (b :: e :: r3)). exact Hplain.
Qed.

(** The pattern's first item, other than a star, against one character: does it
    match, and what is left of the pattern. *)
Definition head_ok (nocase : bool) (sc c : Z) (r : bytes) : bool * bytes :=
  if c =? 63 then (true, r) else
  if c =? 91 then class_ok nocase sc r else
  match r with
  | x :: r' => if c =? 92 then (eqc nocase x sc, r') else (eqc nocase c sc, r)
  | [] => (eqc nocase c sc, [])
  end.

Lemma gmatch_head nocase c r sc s :
  c <> 42 ->
  gmatch nocase (c :: r) (sc :: s) <->
  fst (head_ok nocase sc c r) = true /\ gmatch nocase (snd (head_ok nocase sc c r)) s.
Proof.
  intros Hc. unfold head_ok. split.
  - inversion 1 as [| | |ps c' s' Hm|ps c' s' rest Hok Hm|ps x c' s' Hx Hm|ps x c' s' Hn H92 Hx Hm];
      simplify_eq/=; try done.
    + by rewrite Hok.
    + rewrite !elem_of_cons, elem_of_nil in Hn.
      rewrite !(proj2 (Z.eqb_neq _ _)) by naive_solver. destruct r as [|x' r']; [done|].
      destruct (Z.eqb_spec c 92) as [->|]; [|done]. by specialize (H92 eq_refl).
  - destruct (Z.eqb_spec c 63) as [->|]; [intros [_ ?]; by constructor|].
    destruct (Z.eqb_spec c 91) as [->|].
    { intros [Hok Hm]. eapply gm_class; [|exact Hm]. destruct (class_ok nocase sc r). simpl in *. by subst. }
    assert (c ∉ [42; 63; 91]) by (rewrite !elem_of_cons, elem_of_nil; tauto).
    destruct r as [|x r']; [intros [? ?]; by constructor|].
    destruct (Z.eqb_spec c 92) as [->|]; intros [? ?]; by constructor.
Qed.

Lemma class_items_length r : (length (snd (class_items r)) <= length r)%nat.
Proof.
  induction r as [r IH] using (induction_ltof1 _ (@length Z)). unfold ltof in IH.
  destruct r as [|a r1]; [simpl; lia|]. cbn [class_items].
  destruct (a =? 93); [simpl; lia|]. destruct r1 as [|b r2]; [simpl; lia|].
  pose proof (IH (b :: r2) ltac:(simpl; lia)) as IH1. pose proof (IH r2 ltac:(simpl; lia)) as IH2.
  destruct (a =? 92).
  { destruct (class_items r2). simpl in *. lia. }
  destruct r2 as [|e r3].
  { destruct (class_items [b]). simpl in *. lia. }
  pose proof (IH r3 ltac:(simpl; lia)) as IH3. destruct (b =? 45).
  - destruct (class_items r3). simpl in *. lia.
  - destruct (class_items (b :: e :: r3)). simpl in *. lia.
Qed.

Lemma head_ok_length nocase sc c r : (length (snd (head_ok nocase sc c r)) <= length r)%nat.
Proof.
  unfold head_ok, class_ok. destruct (c =? 63); [done|]. destruct (c =? 91).
  - pose proof (class_items_length (if hd 0 r =? 94 then tail r else r)) as H.
    destruct (class_items _). simpl in *. etrans; [exact H|].
    destruct (hd 0 r =? 94); [destruct r; simpl; lia|lia].
  - destruct r as [|x r]; [done|]. destruct (c =? 92); simpl; lia.
Qed.

Lemma match_one_spec pattern p c r sc nocase :
  at_pat pattern p (c :: r) -> c <> 42 ->
  exists p',
    match_one pattern p (blen (c :: r)) c sc nocase =
      Some (if fst (head_ok nocase sc c r)
            then Some (p', blen (snd (head_ok nocase sc c r)) + 1) else None) /\
    at_pat pattern (p' + 1) (snd (head_ok nocase sc c r)).
Proof.
  intros Hat Hc. pose proof (at_pat_cons _ _ _ _ Hat) as [Hc0 Hat1].
  unfold match_one, head_ok. destruct (Z.eqb_spec c 63) as [->|].
  { exists p. rewrite blen_cons. done. }
  destruct (Z.eqb_spec c 91) as [->|].
  - rewrite (at_pat_head _ _ _ Hat1). cbn [mbind option_bind]. unfold class_ok.
    replace (blen (91 :: r) - 1) with (blen r) by (rewrite blen_cons; lia).
    assert (exists q, (if hd 0 r =? 94 then (p + 1 + 1, blen r - 1) else (p + 1, blen r)) =
      (q, blen (if hd 0 r =? 94 then tail r else r)) /\
      at_pat pattern q (if hd 0 r =? 94 then tail r else r)) as (q & -> & Hq).
    { destruct (Z.eqb_spec (hd 0 r) 94) as [E|]; [|eauto].
      destruct r as [|x r]; simpl in E; [done|]. apply at_pat_cons in Hat1 as [_ ?].
      eexists. split; [|done]. rewrite blen_cons. simpl. f_equal. lia. }
    set (r' := if hd 0 r =? 94 then tail r else r) in *.
    destruct (class_loop_spec (S (Z.to_nat (blen r'))) pattern q r' sc nocase false Hq)
      as (p' & E & Hp'); [unfold blen; lia|].
    rewrite E. cbn [mbind option_bind]. exists p'. destruct (class_items r') as [items rest].
    cbn in *. split; [|done]. destruct (hd 0 r =? 94), (existsb (item_ok nocase sc) items); done.
  - destruct r as [|x r].
    { exists p. rewrite andb_false_r, Hc0. cbn. destruct (eqc nocase c sc); done. }
    pose proof (at_pat_cons _ _ _ _ Hat1) as [Hx Hat2].
    rewrite (proj2 (Z.leb_le 2 _)) by (unfold blen; simpl; lia). rewrite andb_true_r.
    destruct (c =? 92).
    + exists (p + 1). rewrite Hx. cbn [mbind option_bind fst snd]. rewrite !blen_cons.
      split; [|done]. destruct (eqc nocase x sc); [|done]. do 3 f_equal. lia.
    + exists p. rewrite Hc0. cbn [mbind option_bind fst snd]. rewrite (blen_cons c).
      destruct (eqc nocase c sc); done.
Qed.

Lemma gmatch_star nocase ps s :
  gmatch nocase (42 :: ps) s <-> exists s1 s2, s = s1 ++ s2 /\ gmatch nocase ps s2.
Proof.
  split.
  - remember (42 :: ps) as p eqn:E. intros H. induction H as [|ps' s H IH|ps' c s H IH| | | |ps' x c s Hx];
      simplify_eq.
    + by exists [], s.
    + destruct IH as (s1 & s2 & -> & Hm); [done|]. by exists (c :: s1), s2.
    + rewrite !elem_of_cons in Hx. tauto.
  - intros (s1 & s2 & -> & Hm). induction s1; by constructor.
Qed.

Lemma gmatch_star_star nocase ps s : gmatch nocase (42 :: 42 :: ps) s <-> gmatch nocase (42 :: ps) s.
Proof.
  rewrite gmatch_star. split; [|intros; by exists [], s].
  intros (s1 & s2 & -> & (s3 & s4 & -> & Hm)%gmatch_star). apply gmatch_star.
  exists (s1 ++ s3), s4. by rewrite app_assoc.
Qed.

Lemma gmatch_empty nocase c ps : c <> 42 -> ~ gmatch nocase (c :: ps) [].
Proof. intros Hc. inversion 1; done. Qed.

Lemma skip_stars_spec nocase fuel pattern p r :
  at_pat pattern p (42 :: r) -> (S (length r) < fuel)%nat ->
  exists p' r', skip_stars fuel pattern p (blen (42 :: r)) = Some (p', blen (42 :: r')) /\
    at_pat pattern (p' + 1) r' /\ hd 0 r' <> 42 /\ (length r' <= length r)%nat /\
    forall s, gmatch nocase (42 :: r) s <-> gmatch nocase (42 :: r') s.
Proof.
  revert p r. induction fuel as [|fuel IH]; intros p r Hat Hf; [lia|].
  apply at_pat_cons in Hat as [_ Hat]. cbn [skip_stars].
  rewrite (proj2 (Z.eqb_neq _ _)) by (unfold blen; simpl; lia).
  rewrite (at_pat_head _ _ _ Hat). cbn [mbind option_bind].
  destruct (Z.eqb_spec (hd 0 r) 42) as [E|]; [|exists p, r; split_and!; done || lia].
  destruct r as [|x r]; [done|]. simpl in E. subst x.
  destruct (IH (p + 1) r) as (p' & r' & E & Hp' & Hh & Hl & Hiff); [done|simpl in Hf; lia|].
  exists p', r'. rewrite (blen_cons 42 (42 :: r)).
  replace (blen (42 :: r) + 1 - 1) with (blen (42 :: r)) by lia.
  split_and!; [done..|simpl; lia|]. intros s. by rewrite gmatch_star_star.
Qed.

(** What remains after the trailing stars is empty exactly when the pattern
    matches the empty string. *)
Lemma trailing_stars_spec nocase fuel pattern p r :
  at_pat pattern p r -> (length r < fuel)%nat ->
  exists n, trailing_stars fuel pattern p (blen r) = Some n /\ (n = 0 <-> gmatch nocase r []).
Proof.
  revert p r. induction fuel as [|fuel IH]; intros p r Hat Hf; [lia|].
  cbn [trailing_stars]. rewrite (at_pat_head _ _ _ Hat). cbn [mbind option_bind].
  destruct r as [|x r].
  { eexists. split; [done|]. split; [constructor|done]. }
  apply at_pat_cons in Hat as [_ Hat]. simpl hd. destruct (Z.eqb_spec x 42) as [->|Hx].
  - destruct (IH (p + 1) r) as (n & E & Hn); [done|simpl in Hf; lia|].
    exists n. rewrite blen_cons. replace (blen r + 1 - 1) with (blen r) by lia. split; [done|].
    rewrite Hn, gmatch_star. split; [by exists [], []|].
    intros (s1 & s2 & Hs & Hm). symmetry in Hs. apply app_eq_nil in Hs as [-> ->]. done.
  - eexists. split; [done|]. split; [unfold blen; simpl; lia|]. intros Hm. by apply gmatch_empty in Hm.
Qed.

(** [at_str string s l]: the string has [l] left to match at index [s]. *)
Definition at_str (string : bytes) (s : Z) (l : bytes) : Prop :=
  exists pre post, string = pre ++ l ++ post /\ s = blen pre.

Lemma at_str_cons string s c l :
  at_str string s (c :: l) -> load8 string s = Some c /\ at_str string (s + 1) l.
Proof.
  intros (pre & post & -> & ->). split; [by apply load8_app_mid|].
  exists (pre ++ [c]), post. rewrite <- app_assoc, blen_app. done.
Qed.

Lemma star_loop_spec fuel rec string s l (P : bytes -> Prop) :
  (forall s l, at_str string s l -> l <> [] ->
     exists b, rec s (blen l) = Some b /\ (b = true <-> P l)) ->
  at_str string s l -> (length l < fuel)%nat ->
  exists b, star_loop fuel rec s (blen l) = Some b /\
    (b = true <-> exists s1 s2, l = s1 ++ s2 /\ s2 <> [] /\ P s2).
Proof.
  intros Hrec. revert s l. induction fuel as [|fuel IH]; intros s l Hat Hf; [lia|].
  cbn [star_loop]. destruct l as [|c l].
  { exists false. split; [done|]. split; [done|]. intros (s1 & s2 & Hs & Hn & _).
    symmetry in Hs. apply app_eq_nil in Hs as [_ ->]. done. }
  rewrite (proj2 (Z.eqb_neq _ _)) by (unfold blen; simpl; lia).
  destruct (Hrec s (c :: l) Hat) as (b & -> & Hb); [done|]. cbn [mbind option_bind].
  apply at_str_cons in Hat as [_ Hat]. destruct b.
  { exists true. split; [done|]. split; [|done]. intros _. exists [], (c :: l). split_and!; [done..|by apply Hb]. }
  destruct (IH (s + 1) l Hat) as (b & E & Hb'); [simpl in Hf; lia|].
  exists b. rewrite blen_cons. replace (blen l + 1 - 1) with (blen l) by lia. split; [done|].
  rewrite Hb'. split.
  - intros (s1 & s2 & -> & Hn & HP). by exists (c :: s1), s2.
  - intros ([|c' s1] & s2 & Hs & Hn & HP); simplify_eq/=; [|by exists s1, s2].
    by apply Hb in HP.
Qed.

Lemma match_loop_spec fuel pattern p r string s l nocase :
  at_pat pattern p r -> at_str string s l -> l <> [] -> (length r < fuel)%nat ->
  exists b, match_loop fuel pattern p (blen r) string s (blen l) nocase = Some b /\
    (b = true <-> gmatch nocase r l).
Proof.
  revert p r s l. induction fuel as [|fuel IH]; intros p r s l Hat Hs Hl Hf; [lia|].
  cbn [match_loop]. destruct l as [|sc l]; [done|].
  rewrite (proj2 (Z.eqb_neq (blen (sc :: l)) 0)) by (unfold blen; simpl; lia).
  rewrite orb_false_r, andb_false_r. destruct r as [|c r].
  { exists false. split; [done|]. split; [done|]. inversion 1. }
  rewrite (proj2 (Z.eqb_neq (blen (c :: r)) 0)) by (unfold blen; simpl; lia).
  rewrite (at_pat_head _ _ _ Hat). cbn [mbind option_bind hd]. simpl in Hf.
  destruct (Z.eqb_spec c 42) as [->|Hc].
  - destruct (skip_stars_spec nocase (S (Z.to_nat (blen (42 :: r)))) pattern p r Hat)
      as (p' & r' & -> & Hp' & Hh & Hlen & Hiff); [unfold blen; simpl; lia|].
    cbn [mbind option_bind]. pose proof (Hiff (sc :: l)) as Hi. rewrite (gmatch_star _ r') in Hi.
    destruct r' as [|x r'].
    { exists true. split; [done|]. split; [|done]. intros _. apply Hi. exists (sc :: l), [].
      rewrite app_nil_r. split; [done|constructor]. }
    rewrite (proj2 (Z.eqb_neq (blen (42 :: x :: r')) 1)) by (unfold blen; cbn [length]; lia).
    replace (blen (42 :: x :: r') - 1) with (blen (x :: r')) by (rewrite (blen_cons 42); lia).
    destruct (star_loop_spec (S (Z.to_nat (blen (sc :: l))))
      (fun s stringLen => match_loop fuel pattern (p' + 1) (blen (x :: r')) string s stringLen nocase)
      string s (sc :: l) (gmatch nocase (x :: r'))) as (b & E & Hb); [|done|unfold blen; simpl; lia|].
    { intros s' l' Hs' Hl'. apply IH; [done..|simpl in *; lia]. }
    exists b. split; [exact E|]. rewrite Hb, Hi. split.
    + intros (s1 & s2 & Hs12 & _ & Hm). eauto.
    + intros (s1 & s2 & Hs12 & Hm). exists s1, s2. split_and!; [done| |done].
      intros ->. by apply gmatch_empty in Hm.
  - apply at_str_cons in Hs as [-> Hs]. cbn [mbind option_bind].
    destruct (match_one_spec pattern p c r sc nocase Hat Hc) as (p' & -> & Hp').
    pose proof (gmatch_head nocase c r sc l Hc) as Hi. cbn [mbind option_bind].
    pose proof (head_ok_length nocase sc c r) as Hlen.
    destruct (head_ok nocase sc c r) as [ok rest]. cbn [fst snd] in Hp', Hlen, Hi |- *.
    destruct ok; [|exists false; split; [done|]; rewrite Hi; split; [done|by intros [? _]]].
    replace (blen rest + 1 - 1) with (blen rest) by lia. rewrite (blen_cons sc).
    replace (blen l + 1 - 1) with (blen l) by lia. destruct l as [|sc' l].
    + change (blen [] =? 0) with true. cbn iota.
      destruct (trailing_stars_spec nocase (S (Z.to_nat (blen rest))) pattern (p' + 1) rest Hp')
        as (n & -> & Hn); [unfold blen; lia|].
      exists (n =? 0). split; [done|]. rewrite Hi, <- Hn. lia.
    + rewrite (proj2 (Z.eqb_neq (blen (sc' :: l)) 0)) by (unfold blen; simpl; lia).
      destruct (IH (p' + 1) rest (s + 1) (sc' :: l)) as (b & -> & Hb); [done..|lia|].
      exists b. split; [done|]. rewrite Hb, Hi. tauto.
Qed.

(** C26: glob matching. On a null-terminated pattern, [stringmatchlen] terminates,
    reads only inside the two blocks, and decides the declarative meaning of the
    pattern for every non-empty string. *)
Theorem stringmatchlen_correct pat tail_ str rest nocase :
  str <> [] ->
  exists b, stringmatchlen (pat ++ 0 :: tail_) (blen pat) (str ++ rest) (blen str) nocase = Some b /\
    (b = true <-> gmatch nocase pat str).
Proof.
  intros Hs. unfold stringmatchlen. apply match_loop_spec; [by exists [], tail_|by exists [], rest|done|].
  unfold blen. lia.
Qed.

(** The empty string is the exception: no pattern but the empty one matches it,
    although a star means zero or more characters. *)
Theorem stringmatchlen_empty_string pat tail_ str nocase :
  stringmatchlen (pat ++ 0 :: tail_) (blen pat) str 0 nocase = Some (blen pat =? 0).
Proof. unfold stringmatchlen. cbn [match_loop]. rewrite Z.eqb_refl, orb_true_r, andb_true_r. done. Qed.

Lemma star_empty_divergence :
  gmatch false [42] [] /\ stringmatchlen [42; 0] 1 [0] 0 false = Some false.
Proof. split; [constructor; constructor|reflexivity]. Qed.

Lemma stringmatchlen_witness :
  bytes_of_string "hello" <> [] /\
  exists b, stringmatchlen (bytes_of_string "h[^a]*o" ++ [0]) 7 (bytes_of_string "hello" ++ []) 5 false = Some b /\
    (b = true <-> gmatch false (bytes_of_string "h[^a]*o") (bytes_of_string "hello")).
Proof.
  split; [discriminate|].
  apply (stringmatchlen_correct (bytes_of_string "h[^a]*o") [] (bytes_of_string "hello") [] false).
  discriminate.
Defined.

End Util.
