(* ===== verification/Sds.v ===== *)
(** * Dynamic strings ([sds.c], [sds.h])

    An sds string is a block of bytes behind a header whose fields have the width
    of the header's type.  The operations are modelled with the header fields at
    their widths and the block as a byte buffer; [content] is the byte string an
    sds stands for, and the operations refine operations on byte strings. *)

From Stdlib Require Import ZArith Lia.
From stdpp Require Import base option list numbers strings.
From S2P Require Import Prelude Util.

#[local] Open Scope Z_scope.

Module Sds.

(** ** The header *)

Inductive sds_type := SDS_TYPE_5 | SDS_TYPE_8 | SDS_TYPE_16 | SDS_TYPE_32 | SDS_TYPE_64.

#[export] Instance sds_type_eq_dec : EqDecision sds_type.
Proof. solve_decision. Defined.

(** The width of the length in the header. *)
Definition len_bits (t : sds_type) : Z :=
  match t with
  | SDS_TYPE_5 => 5 | SDS_TYPE_8 => 8 | SDS_TYPE_16 => 16 | SDS_TYPE_32 => 32 | SDS_TYPE_64 => 64
  end.

(** [s_buf] is the memory from the first byte of the string to the end of the
    block; [s_alloc] is the field of that name, which type 5 does not have. *)
Record sds := mk_sds {
  s_type : sds_type;
  s_len : Z;
  s_alloc : Z;
  s_buf : bytes;
}.

Definition sdsHdrSize (t : sds_type) : Z :=
  match t with
  | SDS_TYPE_5 => 1 | SDS_TYPE_8 => 3 | SDS_TYPE_16 => 5 | SDS_TYPE_32 => 9 | SDS_TYPE_64 => 17
  end.

Definition sdsReqType (string_size : Z) : sds_type :=
  if string_size <? 2 ^ 5 then SDS_TYPE_5 else
  if string_size <? 2 ^ 8 then SDS_TYPE_8 else
  if string_size <? 2 ^ 16 then SDS_TYPE_16 else
  if string_size <? 2 ^ 32 then SDS_TYPE_32 else SDS_TYPE_64.

Definition sdsTypeMaxSize (t : sds_type) : Z :=
  match t with
  | SDS_TYPE_5 => 2 ^ 5 - 1 | SDS_TYPE_8 => 2 ^ 8 - 1 | SDS_TYPE_16 => 2 ^ 16 - 1
  | SDS_TYPE_32 => 2 ^ 32 - 1 | SDS_TYPE_64 => u64 (-1)
  end.

Definition sdslen (s : sds) : Z := s_len s.

Definition sdsavail (s : sds) : Z :=
  match s_type s with SDS_TYPE_5 => 0 | _ => u64 (s_alloc s - s_len s) end.

Definition sdssetlen (newlen : Z) (s : sds) : sds :=
  mk_sds (s_type s) (wrapu (len_bits (s_type s)) newlen) (s_alloc s) (s_buf s).

Definition sdsinclen (inc : Z) (s : sds) : sds :=
  mk_sds (s_type s) (wrapu (len_bits (s_type s)) (s_len s + inc)) (s_alloc s) (s_buf s).

Definition sdsalloc (s : sds) : Z :=
  match s_type s with SDS_TYPE_5 => s_len s | _ => s_alloc s end.

Definition sdssetalloc (newlen : Z) (s : sds) : sds :=
  match s_type s with
  | SDS_TYPE_5 => s
  | t => mk_sds t (s_len s) (wrapu (len_bits t) newlen) (s_buf s)
  end.

Definition set_buf (b : bytes) (s : sds) : sds := mk_sds (s_type s) (s_len s) (s_alloc s) b.

(** [s[i] = c] and [memcpy(s+i, t, len)]. *)
Definition put (i c : Z) (s : sds) : option sds := b ← store8 (s_buf s) i c; Some (set_buf b s).
Definition put_bytes (i : Z) (t : bytes) (s : sds) : option sds := b ← store (s_buf s) i t; Some (set_buf b s).

(** ** Creation and growth *)

Definition SDS_MAX_PREALLOC : Z := 1024 * 1024.

(** What a new string is initialised with. *)
Inductive init := Init (b : bytes) | Null | SDS_NOINIT.

Section Alloc.

(** The allocator: the usable size of a block for a requested size, and the
    indeterminate bytes of fresh memory. *)
Context (usable : Z -> Z) (junk : nat -> Z).

(** The usable space after the header and before the terminator, as recorded. *)
Definition usable_of (t : sds_type) (n : Z) : Z :=
  Z.min (u64 (usable n - sdsHdrSize t - 1)) (sdsTypeMaxSize t).

(** A [None] result is a failed assertion. *)
Definition _sdsnewlen (i : init) (initlen : Z) : option sds :=
  let type := sdsReqType initlen in
  let type := if decide (type = SDS_TYPE_5 /\ initlen = 0) then SDS_TYPE_8 else type in
  let hdrlen := sdsHdrSize type in
  if negb (initlen <? u64 (initlen + hdrlen + 1)) then None else
  let req := u64 (hdrlen + initlen + 1) in
  let fresh := zrealloc junk [] (usable req - hdrlen) in
  fresh ← match i with
          | Null => store fresh 0 (replicate (Z.to_nat (initlen + 1)) 0)
          | _ => Some fresh
          end;
  let s := mk_sds type (wrapu (len_bits type) initlen) 0 fresh in
  let s := sdssetalloc (usable_of type req) s in
  s ← match i with
      | Init b => if initlen =? 0 then Some s else t ← load b 0 initlen; put_bytes 0 t s
      | _ => Some s
      end;
  put initlen 0 s.

Definition sdsnewlen (i : init) (initlen : Z) : option sds := _sdsnewlen i initlen.
Definition sdsempty : option sds := sdsnewlen (Init []) 0.
Definition sdsdup (s : sds) : option sds := sdsnewlen (Init (s_buf s)) (sdslen s).

Definition sdsclear (s : sds) : option sds := put 0 0 (sdssetlen 0 s).

Definition sdsMakeRoomFor (s : sds) (addlen : Z) : option sds :=
  let avail := sdsavail s in
  let oldtype := s_type s in
  if addlen <=? avail then Some s else
  let len := sdslen s in
  let reqlen := u64 (len + addlen) in
  if negb (len <? reqlen) then None else
  let newlen := if reqlen <? SDS_MAX_PREALLOC then reqlen * 2 else u64 (reqlen + SDS_MAX_PREALLOC) in
  let type := sdsReqType newlen in
  let type := if decide (type = SDS_TYPE_5) then SDS_TYPE_8 else type in
  let hdrlen := sdsHdrSize type in
  if negb (reqlen <? u64 (hdrlen + newlen + 1)) then None else
  let req := u64 (hdrlen + newlen + 1) in
  s ← (if decide (oldtype = type)
       then Some (set_buf (zrealloc junk (s_buf s) (usable req - hdrlen)) s)
       else
         old ← load (s_buf s) 0 (len + 1);
         b ← store (zrealloc junk [] (usable req - hdrlen)) 0 old;
         Some (sdssetlen len (mk_sds type 0 0 b)));
  Some (sdssetalloc (usable_of type req) s).

Definition sdsRemoveFreeSpace (s : sds) : option sds :=
  let len := sdslen s in
  let oldtype := s_type s in
  if sdsavail s =? 0 then Some s else
  let type := sdsReqType len in
  s ← (if decide (oldtype = type \/ (type <> SDS_TYPE_5 /\ type <> SDS_TYPE_8))
       then Some (set_buf (zrealloc junk (s_buf s) (len + 1)) s)
       else
         old ← load (s_buf s) 0 (len + 1);
         b ← store (zrealloc junk [] (len + 1)) 0 old;
         Some (sdssetlen len (mk_sds type 0 0 b)));
  Some (sdssetalloc len s).

Definition sdsAllocSize (s : sds) : Z := sdsHdrSize (s_type s) + sdsalloc s + 1.

Definition sdsIncrLen (s : sds) (incr : Z) : option sds :=
  let t := s_type s in
  let ok :=
    match t with
    | SDS_TYPE_5 => ((0 <? incr) && (s_len s + incr <? 32)) || ((incr <? 0) && (u32 (- incr) <=? s_len s))
    | SDS_TYPE_8 | SDS_TYPE_16 =>
        ((0 <=? incr) && (incr <=? s_alloc s - s_len s)) || ((incr <? 0) && (u32 (- incr) <=? s_len s))
    | SDS_TYPE_32 =>
        ((0 <=? incr) && (u32 incr <=? u32 (s_alloc s - s_len s))) || ((incr <? 0) && (u32 (- incr) <=? s_len s))
    | SDS_TYPE_64 =>
        ((0 <=? incr) && (u64 incr <=? u64 (s_alloc s - s_len s))) || ((incr <? 0) && (u64 (- incr) <=? s_len s))
    end in
  if negb ok then None else
  let s := sdssetlen (s_len s + incr) s in
  put (s_len s) 0 s.

Definition sdsgrowzero (s : sds) (len : Z) : option sds :=
  let curlen := sdslen s in
  if len <=? curlen then Some s else
  s ← sdsMakeRoomFor s (len - curlen);
  s ← put_bytes curlen (replicate (Z.to_nat (len - curlen + 1)) 0) s;
  Some (sdssetlen len s).

Definition sdscatlen (s : sds) (t : bytes) (len : Z) : option sds :=
  let curlen := sdslen s in
  s ← sdsMakeRoomFor s len;
  t ← load t 0 len;
  s ← put_bytes curlen t s;
  let s := sdssetlen (u64 (curlen + len)) s in
  put (u64 (curlen + len)) 0 s.

Definition sdscatsds (s t : sds) : option sds := sdscatlen s (s_buf t) (sdslen t).

Definition sdscpylen (s : sds) (t : bytes) (len : Z) : option sds :=
  s ← (if sdsalloc s <? len then sdsMakeRoomFor s (len - sdslen s) else Some s);
  t ← load t 0 len;
  s ← put_bytes 0 t s;
  s ← put len 0 s;
  Some (sdssetlen len s).

End Alloc.

(** ** Changes in place *)

(** [strchr(cset, c) != NULL]: the terminator of [cset] counts. *)
Definition strchr (cset : bytes) (c : Z) : bool := bool_decide (c ∈ cset) || (c =? 0).

Fixpoint trim_left (fuel : nat) (b : bytes) (cset : bytes) (sp end_ : Z) : option Z :=
  match fuel with
  | O => None
  | S fuel =>
      if sp <=? end_ then
        c ← load8 b sp;
        if strchr cset c then trim_left fuel b cset (sp + 1) end_ else Some sp
      else Some sp
  end.

Fixpoint trim_right (fuel : nat) (b : bytes) (cset : bytes) (sp ep : Z) : option Z :=
  match fuel with
  | O => None
  | S fuel =>
      if sp <? ep then
        c ← load8 b ep;
        if strchr cset c then trim_right fuel b cset sp (ep - 1) else Some ep
      else Some ep
  end.

Definition sdstrim (s : sds) (cset : bytes) : option sds :=
  let fuel := S (length (s_buf s)) in
  let end_ := sdslen s - 1 in
  sp ← trim_left fuel (s_buf s) cset 0 end_;
  ep ← trim_right fuel (s_buf s) cset sp end_;
  let len := if ep <? sp then 0 else ep - sp + 1 in
  b ← (if sp =? 0 then Some (s_buf s) else memmove (s_buf s) 0 sp len);
  s ← put len 0 (set_buf b s);
  Some (sdssetlen len s).

Definition sdssubstr (s : sds) (start len : Z) : option sds :=
  let oldlen := sdslen s in
  let '(start, len) := if oldlen <=? start then (0, 0) else (start, len) in
  let len := if oldlen - start <? len then oldlen - start else len in
  b ← (if len =? 0 then Some (s_buf s) else memmove (s_buf s) 0 start len);
  s ← put len 0 (set_buf b s);
  Some (sdssetlen len s).

Definition sdsrange (s : sds) (start end_ : Z) : option sds :=
  let len := sdslen s in
  if len =? 0 then Some s else
  let start := if start <? 0 then s64 (len + start) else start in
  let end_ := if end_ <? 0 then s64 (len + end_) else end_ in
  let newlen := if end_ <? start then 0 else u64 (end_ - start + 1) in
  sdssubstr s (u64 start) newlen.

(** ** Well-formed strings *)

Record wf (s : sds) : Prop := mk_wf {
  wf_len : 0 <= s_len s <= sdsalloc s;
  wf_max : sdsalloc s <= sdsTypeMaxSize (s_type s);
  wf_block : sdsalloc s + 1 <= blen (s_buf s);
  wf_term : s_buf s !! Z.to_nat (s_len s) = Some 0;
}.

(** The byte string an sds stands for. *)
Definition content (s : sds) : bytes := take (Z.to_nat (s_len s)) (s_buf s).

Lemma content_length s : wf s -> blen (content s) = s_len s.
Proof. intros [H1 H2 H3 H4]. unfold content, blen in *. rewrite length_take. lia. Qed.

Lemma type_max t : sdsTypeMaxSize t = 2 ^ len_bits t - 1.
Proof. by destruct t. Qed.

Lemma type_max_u64 t : sdsTypeMaxSize t < 2 ^ 64.
Proof. by destruct t. Qed.

Lemma set_len_small n s : 0 <= n <= sdsTypeMaxSize (s_type s) -> s_len (sdssetlen n s) = n.
Proof.
  intros Hn. cbn. apply wrapu_small. unfold is_u. rewrite type_max in Hn. lia.
Qed.

(** Setting the length after writing the block, with the terminator in place. *)
Lemma resized s b n :
  wf s -> length b = length (s_buf s) -> 0 <= n <= sdsalloc s -> b !! Z.to_nat n = Some 0 ->
  wf (sdssetlen n (set_buf b s)) /\ content (sdssetlen n (set_buf b s)) = take (Z.to_nat n) b.
Proof.
  intros [H1 H2 H3 H4] Hb Hn H0. assert (s_len (sdssetlen n (set_buf b s)) = n) as E by (apply set_len_small; cbn; lia).
  split; [|unfold content; rewrite E; done].
  assert (n <= sdsalloc (sdssetlen n (set_buf b s)) <= sdsalloc s) as Ha.
  { unfold sdsalloc in *. destruct (s_type s) eqn:Ht; cbn in *; rewrite ?Ht in *; lia. }
  split; rewrite ?E; [lia|cbn; lia|cbn; unfold blen in *; lia|done].
Qed.

Lemma put_Some i c s : 0 <= i < blen (s_buf s) -> put i c s = Some (set_buf (<[Z.to_nat i := c]> (s_buf s)) s).
Proof.
  intros Hi. unfold put, store8. rewrite store_in by (unfold blen in *; cbn; lia). cbn. do 2 f_equal.
  rewrite insert_take_drop by (unfold blen in *; lia). do 3 f_equal. lia.
Qed.

Lemma put_bytes_Some i t s : 0 <= i -> i + blen t <= blen (s_buf s) ->
  put_bytes i t s = Some (set_buf (take (Z.to_nat i) (s_buf s) ++ t ++ drop (Z.to_nat i + length t) (s_buf s)) s).
Proof. intros Hi Ht. unfold put_bytes. by rewrite store_in. Qed.

Lemma load_take (t : bytes) (n : Z) : 0 <= n <= blen t -> load t 0 n = Some (take (Z.to_nat n) t).
Proof. intros Hn. rewrite load_Some by lia. by rewrite drop_0. Qed.

(** Writing [t] after the first [i] bytes, and the terminator after it. *)
Lemma write_end s i t :
  wf s -> 0 <= i -> i + blen t <= sdsalloc s ->
  let b := take (Z.to_nat i) (s_buf s) ++ t ++ drop (Z.to_nat i + length t) (s_buf s) in
  let n := i + blen t in
  wf (sdssetlen n (set_buf (<[Z.to_nat n := 0]> b) s)) /\
  content (sdssetlen n (set_buf (<[Z.to_nat n := 0]> b) s)) = take (Z.to_nat i) (s_buf s) ++ t.
Proof.
  intros Hs Hi Ht b n. pose proof Hs as [H1 H2 H3 H4].
  assert (length b = length (s_buf s)) as Hlen.
  { subst b. rewrite !length_app, length_take, length_drop. unfold blen in *. lia. }
  destruct (resized s (<[Z.to_nat n := 0]> b) n) as [Hwf Hc]; try done.
  - by rewrite length_insert.
  - subst n. unfold blen in *. lia.
  - apply list_lookup_insert_eq. rewrite Hlen. subst n. unfold blen in *. lia.
  - split; [done|]. rewrite Hc, take_insert_ge by lia. subst b n. rewrite app_assoc.
    apply take_app_length'. rewrite length_app, length_take. unfold blen in *. lia.
Qed.

Section Spec.

(** A block has at least the size asked for, and less than the address space. *)
Context (usable : Z -> Z) (junk : nat -> Z).
Hypothesis Husable : forall n, 0 <= n < 2 ^ 63 -> n <= usable n < 2 ^ 64.

Lemma req_type n : 0 <= n < 2 ^ 64 -> n <= sdsTypeMaxSize (sdsReqType n).
Proof.
  intros Hn. unfold sdsReqType. repeat case_match; cbn; try lia.
  change (u64 (-1)) with (2 ^ 64 - 1). lia.
Qed.

Lemma hdr_size t : 1 <= sdsHdrSize t <= 17.
Proof. destruct t; cbn; lia. Qed.

(** The recorded size of a block for [n] bytes is at least [n], and the block
    holds it. *)
Lemma usable_of_spec t n :
  0 <= n <= sdsTypeMaxSize t -> n + 18 < 2 ^ 63 ->
  let req := u64 (sdsHdrSize t + n + 1) in
  req = sdsHdrSize t + n + 1 /\ n <= usable_of usable t req <= sdsTypeMaxSize t /\
  usable_of usable t req + 1 <= usable req - sdsHdrSize t.
Proof.
  intros Hn H64 req. pose proof (hdr_size t) as Hh.
  assert (req = sdsHdrSize t + n + 1) as E by (apply wrapu_small; unfold is_u; lia).
  split; [done|]. unfold usable_of. pose proof (Husable req) as Hu.
  rewrite wrapu_small by (unfold is_u; lia). lia.
Qed.

(** A fresh header of another type. *)
Lemma set_alloc_wf n s : s_type s <> SDS_TYPE_5 ->
  0 <= s_len s <= n -> n <= sdsTypeMaxSize (s_type s) -> n + 1 <= blen (s_buf s) ->
  s_buf s !! Z.to_nat (s_len s) = Some 0 ->
  wf (sdssetalloc n s) /\ content (sdssetalloc n s) = content s /\ s_len (sdssetalloc n s) = s_len s /\
  sdsavail (sdssetalloc n s) = n - s_len s.
Proof.
  intros Ht Hl Hm Hb H0. pose proof (type_max_u64 (s_type s)).
  assert (sdssetalloc n s = mk_sds (s_type s) (s_len s) n (s_buf s)) as ->.
  { assert (wrapu (len_bits (s_type s)) n = n) as E
      by (apply wrapu_small; unfold is_u; rewrite type_max in Hm; lia).
    unfold sdssetalloc. destruct (s_type s); [done|by rewrite E..]. }
  split_and!; try done.
  - split; unfold sdsalloc; cbn; destruct (s_type s); done || lia.
  - unfold sdsavail. cbn. rewrite wrapu_small by (unfold is_u; lia). by destruct (s_type s).
Qed.

Lemma zrealloc_lookup b n (i : nat) : (i < length b)%nat -> Z.of_nat i < n -> zrealloc junk b n !! i = b !! i.
Proof.
  intros Hi Hn. unfold zrealloc. rewrite lookup_app_l by (rewrite length_take; lia).
  by rewrite lookup_take_lt by lia.
Qed.

Lemma zrealloc_take b n (i : nat) : (i <= length b)%nat -> Z.of_nat i <= n -> take i (zrealloc junk b n) = take i b.
Proof.
  intros Hi Hn. unfold zrealloc. rewrite take_app_le by (rewrite length_take; lia).
  rewrite take_take. f_equal. lia.
Qed.

Lemma sdsMakeRoomFor_spec s addlen :
  wf s -> 0 <= addlen -> 2 * (s_len s + addlen) + 4 * SDS_MAX_PREALLOC < 2 ^ 64 ->
  exists s', sdsMakeRoomFor usable junk s addlen = Some s' /\ wf s' /\ content s' = content s /\
    s_len s' = s_len s /\ addlen <= sdsavail s'.
Proof.
  intros Hs Ha H64. pose proof Hs as [H1 H2 H3 H4]. unfold sdsMakeRoomFor, sdslen.
  destruct (Z.leb_spec addlen (sdsavail s)) as [|Hav]; [by exists s|].
  assert (0 < addlen) as Hpos. { destruct (decide (addlen = 0)); [|lia]. unfold sdsavail in Hav.
    destruct (s_type s); try lia; pose proof (Z.mod_pos_bound (s_alloc s - s_len s) (2 ^ 64)); unfold wrapu in *; lia. }
  unfold SDS_MAX_PREALLOC in *.
  rewrite (wrapu_small 64 (s_len s + addlen)) by (unfold is_u; lia).
  rewrite (proj2 (Z.ltb_lt _ _)) by lia. cbn [negb].
  set (newlen := if s_len s + addlen <? _ then _ else _).
  assert (s_len s + addlen <= newlen /\ newlen + 18 < 2 ^ 63) as [Hnew Hnew64].
  { subst newlen. case_match; [lia|]. rewrite wrapu_small by (unfold is_u; lia). lia. }
  clearbody newlen. set (type := if decide (sdsReqType newlen = SDS_TYPE_5) then SDS_TYPE_8 else sdsReqType newlen).
  assert (newlen <= sdsTypeMaxSize type /\ type <> SDS_TYPE_5) as [Hmax Ht5].
  { pose proof (req_type newlen). subst type. case_decide as Hd; [|split; [lia|done]].
    rewrite Hd in H. cbn in *. split; [lia|done]. }
  clearbody type. destruct (usable_of_spec type newlen) as (Hreq & Hu & Hub); [lia|lia|].
  set (req := u64 (sdsHdrSize type + newlen + 1)) in *. set (u := usable_of usable type req) in *.
  pose proof (hdr_size type). rewrite (proj2 (Z.ltb_lt _ _)) by lia. cbn [negb].
  case_decide as Hty.
  - rewrite bind_ret. eexists. split; [done|]. pose proof (zrealloc_length junk (s_buf s) (usable req - sdsHdrSize type)).
    assert (Z.of_nat (Z.to_nat (s_len s)) = s_len s) by lia.
    destruct (set_alloc_wf u (set_buf (zrealloc junk (s_buf s) (usable req - sdsHdrSize type)) s)) as (W & C & L & A); cbn.
    + congruence.
    + lia.
    + rewrite Hty. lia.
    + lia.
    + rewrite zrealloc_lookup by (unfold blen in *; lia). done.
    + split_and!; [done| |done|rewrite A; cbn; lia]. rewrite C. unfold content. cbn.
      apply zrealloc_take; unfold blen in *; lia.
  - rewrite load_take by lia. rewrite bind_ret.
    pose proof (zrealloc_length junk [] (usable req - sdsHdrSize type)) as Hz.
    assert (blen (take (Z.to_nat (s_len s + 1)) (s_buf s)) = s_len s + 1) as Htl.
    { unfold blen in *. rewrite length_take. lia. }
    rewrite store_0 by lia. rewrite bind_ret. eexists. split; [done|].
    set (b := take _ _ ++ drop _ _).
    assert (blen b = usable req - sdsHdrSize type) as Hb.
    { subst b. rewrite blen_app, Htl. unfold blen in *. rewrite length_drop, length_take. lia. }
    assert (s_len (sdssetlen (s_len s) (mk_sds type 0 0 b)) = s_len s) as E by (apply set_len_small; cbn; lia).
    destruct (set_alloc_wf u (sdssetlen (s_len s) (mk_sds type 0 0 b))) as (W & C & L & A);
      [done|rewrite E; lia|cbn; lia|cbn; lia| |].
    + rewrite E. cbn. subst b. rewrite lookup_app_l by (unfold blen in *; lia). by rewrite lookup_take_lt by lia.
    + rewrite E in *. split_and!; [done| |done|lia]. rewrite C. unfold content. rewrite E. cbn. subst b.
      rewrite take_app_le by (unfold blen in *; lia). rewrite take_take. f_equal. lia.
Qed.

Lemma avail_alloc s n : wf s -> 0 <= n <= sdsavail s -> s_len s + n <= sdsalloc s.
Proof.
  intros [H1 H2 H3 H4]. pose proof (type_max_u64 (s_type s)). unfold sdsavail, sdsalloc in *.
  destruct (s_type s); [lia|rewrite wrapu_small by (unfold is_u; lia); lia..].
Qed.

(** Sizes for which the arithmetic of [size_t] does not overflow. *)
Definition fits (n : Z) : Prop := 0 <= n /\ 2 * n + 4 * SDS_MAX_PREALLOC < 2 ^ 64.

Lemma alloc_u64 s n : wf s -> n <= sdsalloc s -> n < 2 ^ 64.
Proof. intros [H1 H2 H3 H4]. pose proof (type_max_u64 (s_type s)). lia. Qed.

Lemma set_buf_alloc u t l b : set_buf b (sdssetalloc u (mk_sds t l 0 b)) = sdssetalloc u (mk_sds t l 0 b).
Proof. unfold sdssetalloc. by destruct t. Qed.

(** A block with a new header, filled and terminated. *)
Lemma fresh_string type n u blk b :
  0 <= n <= u -> u <= sdsTypeMaxSize type -> u + 1 <= blen blk -> blen b = blen blk ->
  exists s, put n 0 (set_buf b (sdssetalloc u (mk_sds type (wrapu (len_bits type) n) 0 blk))) = Some s /\
    wf s /\ s_len s = n /\ content s = take (Z.to_nat n) b.
Proof.
  intros Hn Hu Hblk Hb. rewrite type_max in Hu. rewrite (wrapu_small _ n) by (unfold is_u; lia).
  assert (wrapu (len_bits type) u = u) as Eu by (apply wrapu_small; unfold is_u; lia).
  assert (exists a, sdssetalloc u (mk_sds type n 0 blk) = mk_sds type n a blk /\ (type = SDS_TYPE_5 \/ a = u)) as (a & -> & Ha).
  { unfold sdssetalloc. cbn. destruct type; eexists; (split; [reflexivity|]); auto. }
  rewrite put_Some by (cbn; lia). eexists. split; [done|].
  assert (n <= sdsalloc (mk_sds type n a blk) <= u) as Hal.
  { unfold sdsalloc. cbn. destruct Ha as [-> | ->]; [lia|destruct type; lia]. }
  split_and!; [split|done|]; unfold sdsalloc in *; cbn in *.
  - lia.
  - rewrite type_max. lia.
  - unfold blen in *. rewrite length_insert. lia.
  - apply list_lookup_insert_eq. unfold blen in *. lia.
  - unfold content. cbn. by rewrite take_insert_ge.
Qed.

Lemma sdsnewlen_spec i initlen :
  fits initlen -> (forall b, i = Init b -> initlen <= blen b) ->
  exists s, sdsnewlen usable junk i initlen = Some s /\ wf s /\ s_len s = initlen /\
    match i with
    | Init b => content s = take (Z.to_nat initlen) b
    | Null => content s = replicate (Z.to_nat initlen) 0
    | SDS_NOINIT => True
    end.
Proof.
  intros [H0 H64] Hi. unfold SDS_MAX_PREALLOC in *. unfold sdsnewlen, _sdsnewlen.
  set (type := if decide (sdsReqType initlen = SDS_TYPE_5 /\ initlen = 0) then SDS_TYPE_8 else sdsReqType initlen).
  assert (initlen <= sdsTypeMaxSize type) as Hmax.
  { pose proof (req_type initlen). subst type. case_decide as Hd; [cbn; lia|lia]. }
  clearbody type. pose proof (hdr_size type). destruct (usable_of_spec type initlen) as (Hreq & Hu & Hub); [lia|lia|].
  rewrite (wrapu_small 64 (initlen + sdsHdrSize type + 1)) by (unfold is_u; lia).
  rewrite (proj2 (Z.ltb_lt _ _)) by lia. cbn [negb].
  set (req := u64 (sdsHdrSize type + initlen + 1)) in *. set (u := usable_of usable type req) in *.
  pose proof (zrealloc_length junk [] (usable req - sdsHdrSize type)) as Hz.
  set (fresh := zrealloc junk [] (usable req - sdsHdrSize type)) in *. clearbody fresh.
  assert (0 <= initlen <= u /\ u <= sdsTypeMaxSize type /\ u + 1 <= blen fresh) as (Hn1 & Hn2 & Hn3) by lia.
  destruct i as [b| |].
  - rewrite bind_ret. specialize (Hi b eq_refl). destruct (Z.eqb_spec initlen 0) as [->|Hne].
    + rewrite bind_ret. destruct (fresh_string type 0 u fresh fresh) as (s & E & ? & ? & ?); [done..|]. exists s.
      rewrite set_buf_alloc in E. done.
    + rewrite load_take by lia. rewrite bind_ret.
      set (s0 := sdssetalloc u _). assert (s_buf s0 = fresh) as Es by (unfold s0, sdssetalloc; by destruct type).
      assert (blen (take (Z.to_nat initlen) b) = initlen) as Ht by (unfold blen in *; rewrite length_take; lia).
      rewrite put_bytes_Some by (rewrite ?Es; lia). rewrite bind_ret, Es, take_0. cbn [app].
      edestruct (fresh_string type initlen u fresh) as (s & E & ? & ? & Hc); [done..| |].
      2: { exists s. split; [exact E|]. split_and!; [done..|]. rewrite Hc. apply take_app_length'. unfold blen in *. lia. }
      rewrite blen_app, Ht. unfold blen in *. rewrite length_drop. lia.
  - set (z := replicate (Z.to_nat (initlen + 1)) 0).
    assert (blen z = initlen + 1) as Ez by (unfold blen, z; rewrite length_replicate; lia).
    rewrite store_0 by lia. rewrite !bind_ret.
    assert (blen (z ++ drop (length z) fresh) = blen fresh) as Eb.
    { rewrite blen_app. unfold blen in *. rewrite length_drop. lia. }
    destruct (fresh_string type initlen u (z ++ drop (length z) fresh) (z ++ drop (length z) fresh))
      as (s & E & ? & ? & Hc); [done|done|lia|done|]. exists s.
    rewrite set_buf_alloc in E. split_and!; [done..|].
    rewrite Hc, take_app_le by (unfold blen in *; lia). unfold z. rewrite take_replicate. f_equal. lia.
  - rewrite !bind_ret. destruct (fresh_string type initlen u fresh fresh) as (s & E & ? & ? & ?); [done..|]. exists s.
    by rewrite set_buf_alloc in E.
Qed.

(** Appending. *)
Lemma sdscatlen_spec s t len :
  wf s -> fits (s_len s + len) -> 0 <= len <= blen t ->
  exists s', sdscatlen usable junk s t len = Some s' /\ wf s' /\
    content s' = content s ++ take (Z.to_nat len) t.
Proof.
  intros Hs [H0 H64] Hlen. unfold sdscatlen, sdslen.
  destruct (sdsMakeRoomFor_spec s len Hs) as (s1 & -> & Hs1 & Hc1 & Hl1 & Hav); [lia|lia|].
  rewrite bind_ret, load_take, bind_ret by lia. pose proof (avail_alloc s1 len Hs1) as Hal.
  assert (blen (take (Z.to_nat len) t) = len) as Ht by (unfold blen in *; rewrite length_take; lia).
  pose proof Hs1 as [W1 W2 W3 W4]. unfold SDS_MAX_PREALLOC in *.
  rewrite (wrapu_small 64) by (unfold is_u; lia). rewrite put_bytes_Some by lia. rewrite bind_ret.
  destruct (write_end s1 (s_len s) (take (Z.to_nat len) t)) as [W C]; [done|lia|lia|]. rewrite Ht in W, C.
  rewrite put_Some.
  - eexists. split; [reflexivity|]. split; [exact W|]. rewrite <- Hc1. unfold content at 2. rewrite Hl1. exact C.
  - cbn. rewrite !blen_app. unfold blen in *. rewrite length_take, length_drop. lia.
Qed.

Lemma sdscpylen_spec s t len :
  wf s -> fits len -> 0 <= len <= blen t ->
  exists s', sdscpylen usable junk s t len = Some s' /\ wf s' /\ content s' = take (Z.to_nat len) t.
Proof.
  intros Hs [H0 H64] Hlen. unfold sdscpylen, sdslen. unfold SDS_MAX_PREALLOC in *.
  assert (exists s1, (if sdsalloc s <? len then sdsMakeRoomFor usable junk s (len - s_len s) else Some s) = Some s1 /\
    wf s1 /\ len <= sdsalloc s1) as (s1 & -> & Hs1 & Hal).
  { pose proof Hs as [W1 _ _ _]. destruct (Z.ltb_spec (sdsalloc s) len) as [Hlt|Hge]; [|by exists s].
    destruct (sdsMakeRoomFor_spec s (len - s_len s) Hs) as (s1 & -> & Hs1 & _ & Hl1 & Hav); [lia|unfold SDS_MAX_PREALLOC; lia|].
    exists s1. split_and!; [done..|]. pose proof (avail_alloc s1 (len - s_len s) Hs1). lia. }
  rewrite bind_ret, load_take, bind_ret by lia. pose proof Hs1 as [W1 W2 W3 W4].
  assert (blen (take (Z.to_nat len) t) = len) as Ht by (unfold blen in *; rewrite length_take; lia).
  rewrite put_bytes_Some by lia. rewrite bind_ret.
  destruct (write_end s1 0 (take (Z.to_nat len) t)) as [W C]; [done|lia|lia|].
  rewrite put_Some, bind_ret.
  - eexists. split; [reflexivity|]. rewrite Ht in *. cbn [Z.add] in *. rewrite take_0 in C. split; [exact W|exact C].
  - cbn. rewrite !blen_app. unfold blen in *. rewrite length_take, length_drop. lia.
Qed.

Lemma sdsgrowzero_spec s len :
  wf s -> 0 <= len -> fits (s_len s + len) ->
  exists s', sdsgrowzero usable junk s (s_len s + len) = Some s' /\ wf s' /\
    content s' = content s ++ replicate (Z.to_nat len) 0.
Proof.
  intros Hs Hlen [H0 H64]. unfold sdsgrowzero, sdslen. destruct (Z.leb_spec (s_len s + len) (s_len s)).
  { exists s. assert (len = 0) as -> by lia. cbn. by rewrite app_nil_r. }
  replace (s_len s + len - s_len s) with len by lia.
  destruct (sdsMakeRoomFor_spec s len Hs) as (s1 & -> & Hs1 & Hc1 & Hl1 & Hav); [lia|lia|].
  rewrite bind_ret. pose proof (avail_alloc s1 len Hs1) as Hal. pose proof Hs1 as [W1 W2 W3 W4].
  rewrite (Z2Nat.inj_add len 1), replicate_add by lia. change (replicate (Z.to_nat 1) 0) with [0].
  set (z := replicate (Z.to_nat len) 0). assert (blen z = len) as Hz by (unfold z, blen; rewrite length_replicate; lia).
  rewrite put_bytes_Some by (rewrite ?blen_app; change (blen [0]) with 1; lia). rewrite bind_ret.
  eexists. split; [reflexivity|]. set (b := take _ _ ++ _).
  destruct (resized s1 b (s_len s + len)) as [W C]; try done.
  - subst b. rewrite !length_app, length_take, length_drop. unfold blen in *. cbn. lia.
  - lia.
  - subst b. rewrite lookup_app_r by (rewrite length_take; lia). rewrite lookup_app_l by
      (rewrite length_take, length_app; unfold blen in *; cbn; lia).
    rewrite lookup_app_r by (rewrite length_take; unfold blen in *; lia).
    replace (Z.to_nat (s_len s + len) - _ - _)%nat with O by (rewrite length_take; unfold blen in *; lia). done.
  - split; [done|]. rewrite C. subst b. rewrite <- Hc1. unfold content. rewrite Hl1, <- app_assoc, app_assoc.
    apply take_app_length'. rewrite length_app, length_take. unfold blen in *. lia.
Qed.

Lemma sdsRemoveFreeSpace_spec s : wf s ->
  exists s', sdsRemoveFreeSpace junk s = Some s' /\ wf s' /\ content s' = content s /\ sdsavail s' = 0.
Proof.
  intros Hs. pose proof Hs as [W1 W2 W3 W4]. unfold sdsRemoveFreeSpace, sdslen.
  destruct (Z.eqb_spec (sdsavail s) 0) as [|Hav]; [by exists s|].
  pose proof (type_max_u64 (s_type s)). pose proof (req_type (s_len s)) as Hreq.
  assert (s_type s <> SDS_TYPE_5) as Ht5 by (intros E; unfold sdsavail in Hav; by rewrite E in Hav).
  case_decide as Hd.
  - rewrite bind_ret. eexists. split; [reflexivity|]. pose proof (zrealloc_length junk (s_buf s) (s_len s + 1)).
    destruct (set_alloc_wf (s_len s) (set_buf (zrealloc junk (s_buf s) (s_len s + 1)) s)) as (W & C & _ & A); cbn; try done.
    + lia.
    + lia.
    + lia.
    + rewrite zrealloc_lookup by (unfold blen in *; lia). done.
    + split_and!; [done| |cbn in A; lia]. rewrite C. unfold content. cbn. apply zrealloc_take; unfold blen in *; lia.
  - rewrite load_take by lia. rewrite bind_ret.
    pose proof (zrealloc_length junk [] (s_len s + 1)) as Hz.
    assert (blen (take (Z.to_nat (s_len s + 1)) (s_buf s)) = s_len s + 1) as Htl.
    { unfold blen in *. rewrite length_take. lia. }
    rewrite store_0 by lia. rewrite bind_ret. eexists. split; [reflexivity|].
    rewrite drop_ge, app_nil_r by (unfold blen in *; lia). set (b := take _ _) in *.
    set (s1 := sdssetlen _ _). assert (s_len s1 = s_len s) as E by (apply set_len_small; cbn; lia).
    assert (content s1 = content s) as Ec.
    { unfold content. rewrite E. cbn. subst b. rewrite take_take. f_equal. lia. }
    assert (s_buf s1 !! Z.to_nat (s_len s) = Some 0) as E0 by (cbn; subst b; by rewrite lookup_take_lt by lia).
    destruct (decide (sdsReqType (s_len s) = SDS_TYPE_5)) as [E5|].
    + assert (sdssetalloc (s_len s) s1 = s1) as -> by (unfold sdssetalloc; cbn; by rewrite E5).
      split_and!; [|done|unfold sdsavail; cbn; by rewrite E5].
      split; unfold sdsalloc; cbn in *; rewrite ?E5 in *; rewrite ?E; cbn in *; lia || done.
    + destruct (set_alloc_wf (s_len s) s1) as (W & C & _ & A);
        [done|rewrite E; lia|cbn; lia|cbn; lia|by rewrite E|]. split_and!; [done|congruence|lia].
Qed.

(** C33: growing strings. Creating, appending, overwriting and zero-extending never
    write outside their block, keep the header consistent at whatever type it
    needs, and do to the byte string what they say, as long as the sizes are far
    from the width of [size_t]. *)
Theorem sds_grow_correct s t len :
  wf s -> fits (s_len s + len) -> 0 <= len <= blen t ->
  (exists s', sdsnewlen usable junk (Init t) len = Some s' /\ wf s' /\ content s' = take (Z.to_nat len) t) /\
  (exists s', sdscatlen usable junk s t len = Some s' /\ wf s' /\ content s' = content s ++ take (Z.to_nat len) t) /\
  (exists s', sdscpylen usable junk s t len = Some s' /\ wf s' /\ content s' = take (Z.to_nat len) t) /\
  (exists s', sdsgrowzero usable junk s (s_len s + len) = Some s' /\ wf s' /\
     content s' = content s ++ replicate (Z.to_nat len) 0) /\
  (exists s', sdsRemoveFreeSpace junk s = Some s' /\ wf s' /\ content s' = content s /\
     sdsavail s' = 0).
Proof.
  intros Hs Hfit Hlen. pose proof Hfit as [H0 H64]. pose proof Hs as [W1 _ _ _]. split_and!.
  - destruct (sdsnewlen_spec (Init t) len) as (s' & ? & ? & _ & ?); [split; lia|intros b [= <-]; lia|by eauto].
  - by apply sdscatlen_spec.
  - apply sdscpylen_spec; [done|split; lia|done].
  - apply sdsgrowzero_spec; [done|lia|done].
  - by apply sdsRemoveFreeSpace_spec.
Qed.

End Spec.

(** ** Changes in place *)

Lemma memmove_0 b src n : 0 <= src -> 0 <= n -> src + n <= blen b ->
  exists b', memmove b 0 src n = Some b' /\ length b' = length b /\
    take (Z.to_nat n) b' = take (Z.to_nat n) (drop (Z.to_nat src) b).
Proof.
  intros Hs Hn Hb. destruct (memmove_Some b 0 src n) as (b' & E & Hl & Hi); [lia..|].
  exists b'. split_and!; [done..|]. apply list_eq. intros i. destruct (decide (i < Z.to_nat n)%nat).
  - rewrite !lookup_take_lt, lookup_drop, Hi, decide_True by lia. f_equal. lia.
  - by rewrite !lookup_take_ge by lia.
Qed.

(** Keeping [n] bytes from [i] on. *)
Lemma keep_range s (move : bool) i n :
  wf s -> 0 <= i -> 0 <= n -> i + n <= s_len s -> (move = false -> n = 0 \/ i = 0) ->
  exists s', (b ← (if move then memmove (s_buf s) 0 i n else Some (s_buf s));
              s ← put n 0 (set_buf b s); Some (sdssetlen n s)) = Some s' /\
    wf s' /\ content s' = take (Z.to_nat n) (drop (Z.to_nat i) (content s)).
Proof.
  intros Hs Hi Hn Hin Hm. pose proof Hs as [W1 W2 W3 W4].
  assert (exists b, (if move then memmove (s_buf s) 0 i n else Some (s_buf s)) = Some b /\ length b = length (s_buf s) /\
    take (Z.to_nat n) b = take (Z.to_nat n) (drop (Z.to_nat i) (s_buf s))) as (b & -> & Hl & Hb).
  { destruct move; [apply memmove_0; lia|]. eexists. split_and!; [done..|].
    destruct (Hm eq_refl) as [-> | ->]; [done|by rewrite drop_0]. }
  rewrite bind_ret, put_Some, bind_ret by (cbn; unfold blen in *; lia). eexists. split; [done|].
  destruct (resized s (<[Z.to_nat n := 0]> b) n) as [W C]; [done|by rewrite length_insert|lia| |].
  - apply list_lookup_insert_eq. unfold blen in *. lia.
  - split; [exact W|]. etrans; [exact C|]. rewrite take_insert_ge, Hb by lia. unfold content.
    rewrite !take_drop_commute, take_take. do 2 f_equal. lia.
Qed.

Lemma sdssubstr_spec s start len :
  wf s -> 0 <= start -> 0 <= len ->
  exists s', sdssubstr s start len = Some s' /\ wf s' /\
    content s' = take (Z.to_nat len) (drop (Z.to_nat start) (content s)).
Proof.
  intros Hs Hst Hlen. pose proof (content_length s Hs) as Hc. pose proof Hs as [W1 _ _ _].
  unfold sdssubstr, sdslen. destruct (Z.leb_spec (s_len s) start).
  - replace (s_len s - 0 <? 0) with false by lia. cbn -[put].
    destruct (keep_range s false 0 0) as (s' & E & W & C); [done|lia..|tauto|]. exists s'. split; [exact E|].
    split; [done|]. rewrite C, (drop_ge (content s) (Z.to_nat start)), take_nil by (unfold blen in *; lia). done.
  - set (n := if s_len s - start <? len then s_len s - start else len).
    assert (n = Z.min len (s_len s - start)) as En by (subst n; case_match; lia). clearbody n.
    destruct (keep_range s (negb (n =? 0)) start n) as (s' & E & W & C); [done|lia..| |].
    + destruct (Z.eqb_spec n 0); [by left|done].
    + exists s'. split; [rewrite <- E; by destruct (n =? 0)|]. split; [done|]. rewrite C.
      apply list_eq. intros k. destruct (decide (k < Z.to_nat n)%nat).
      * by rewrite !lookup_take_lt by lia.
      * rewrite lookup_take_ge by lia. symmetry. destruct (decide (k < Z.to_nat len)%nat).
        -- rewrite lookup_take_lt, lookup_drop by lia. apply lookup_ge_None. unfold blen in *. lia.
        -- by rewrite lookup_take_ge by lia.
Qed.

(** Substrings by signed indexes. [sdsrange] keeps exactly the bytes from
    [start] to [end], counted from the end when negative, as far as they exist; a
    start before the beginning of the string gives the empty string. *)
Theorem sdsrange_correct s start end_ :
  wf s -> s_len s < 2 ^ 62 -> - 2 ^ 62 <= start < 2 ^ 62 -> - 2 ^ 62 <= end_ < 2 ^ 62 ->
  let from := if start <? 0 then s_len s + start else start in
  let to := if end_ <? 0 then s_len s + end_ else end_ in
  exists s', sdsrange s start end_ = Some s' /\ wf s' /\
    content s' = if from <? 0 then [] else take (Z.to_nat (to - from + 1)) (drop (Z.to_nat from) (content s)).
Proof.
  intros Hs Hlen Hst Hen from to. pose proof (content_length s Hs) as Hc. pose proof Hs as [W1 _ _ _].
  unfold sdsrange, sdslen. destruct (Z.eqb_spec (s_len s) 0) as [E0|Hne].
  { exists s. split_and!; [done..|]. assert (content s = []) as -> by (apply length_zero_iff_nil; unfold blen in *; lia).
    rewrite drop_nil, take_nil. by case_match. }
  assert ((if start <? 0 then s64 (s_len s + start) else start) = from) as ->.
  { subst from. case_match; [apply wraps_small; zwidth; lia|done]. }
  assert ((if end_ <? 0 then s64 (s_len s + end_) else end_) = to) as ->.
  { subst to. case_match; [apply wraps_small; zwidth; lia|done]. }
  assert (- 2 ^ 62 <= from < 2 ^ 63 /\ - 2 ^ 62 <= to < 2 ^ 63) as [Hf Ht] by (subst from to; split; case_match; lia).
  clearbody from to. set (n := if to <? from then 0 else _).
  assert (n = Z.max 0 (to - from + 1)) as En by (subst n; case_match; [|rewrite wrapu_small by (unfold is_u; lia)]; lia).
  clearbody n. destruct (Z.ltb_spec from 0) as [Hneg|Hpos].
  - destruct (sdssubstr_spec s (u64 from) n) as (s' & E & W & C); [done|apply wrapu_range; lia|lia|].
    exists s'. split_and!; [done..|]. rewrite C, drop_ge, take_nil; [done|].
    assert (u64 from = from + 2 ^ 64) as -> by (unfold wrapu; rewrite <- (Z.mod_add _ 1) by lia; apply Z.mod_small; lia).
    unfold blen in *. lia.
  - rewrite (wrapu_small 64 from) by (unfold is_u; lia). destruct (sdssubstr_spec s from n) as (s' & E & W & C); [done|lia..|].
    exists s'. split_and!; [done..|]. rewrite C. f_equal. lia.
Qed.

(** ** Trimming *)

Lemma trim_left_spec fuel b cset sp end_ :
  0 <= sp <= end_ + 1 -> end_ < blen b -> (Z.to_nat (end_ + 1 - sp) < fuel)%nat ->
  exists r, trim_left fuel b cset sp end_ = Some r /\ sp <= r <= end_ + 1 /\
    (forall i : nat, sp <= Z.of_nat i < r -> exists c, b !! i = Some c /\ strchr cset c = true) /\
    (r <= end_ -> exists c, b !! Z.to_nat r = Some c /\ strchr cset c = false).
Proof.
  revert sp. induction fuel as [|fuel IH]; intros sp Hsp Hb Hf; [lia|]. cbn [trim_left].
  destruct (Z.leb_spec sp end_); [|exists sp; split_and!; [done|lia|lia|intros; lia|intros; lia]].
  destruct (lookup_lt_is_Some_2 b (Z.to_nat sp)) as [c Hc]; [unfold blen in *; lia|].
  rewrite (load8_Some b sp c) by (done || lia). rewrite bind_ret. destruct (strchr cset c) eqn:Es.
  - destruct (IH (sp + 1)) as (r & -> & Hr & Hall & Hend); [lia..|]. exists r. split_and!; [done|lia|lia| |done].
    intros i Hi. destruct (decide (Z.of_nat i = sp)); [|apply Hall; lia]. exists c. split; [|done].
    by replace i with (Z.to_nat sp) by lia.
  - exists sp. split_and!; [done|lia|lia|intros; lia|eauto].
Qed.

Lemma trim_right_spec fuel b cset sp ep :
  0 <= sp -> ep < blen b -> (Z.to_nat (ep - sp) < fuel)%nat ->
  exists r, trim_right fuel b cset sp ep = Some r /\ r <= ep /\ (sp <= ep -> sp <= r) /\
    (forall i : nat, Z.max (r + 1) sp <= Z.of_nat i <= ep -> exists c, b !! i = Some c /\ strchr cset c = true) /\
    (sp < r -> exists c, b !! Z.to_nat r = Some c /\ strchr cset c = false).
Proof.
  revert ep. induction fuel as [|fuel IH]; intros ep Hsp Hb Hf; [lia|]. cbn [trim_right].
  destruct (Z.ltb_spec sp ep); [|exists ep; split_and!; [done|lia|lia|intros; lia|intros; lia]].
  destruct (lookup_lt_is_Some_2 b (Z.to_nat ep)) as [c Hc]; [unfold blen in *; lia|].
  rewrite (load8_Some b ep c) by (done || lia). rewrite bind_ret. destruct (strchr cset c) eqn:Es.
  - destruct (IH (ep - 1)) as (r & -> & Hr & Hle & Hall & Hend); [lia..|]. exists r. split_and!; [done|lia|lia| |done].
    intros i Hi. destruct (decide (Z.of_nat i = ep)); [|apply Hall; lia]. exists c. split; [|done].
    by replace i with (Z.to_nat ep) by lia.
  - exists ep. split_and!; [done|lia|lia|intros; lia|eauto].
Qed.

(** Trimming. [sdstrim] removes the longest prefix and suffix made of
    characters of [cset] or null bytes, which [strchr] also finds in [cset]. *)
Theorem sdstrim_correct s cset :
  wf s -> exists s' l r, sdstrim s cset = Some s' /\ wf s' /\ content s = l ++ content s' ++ r /\
    Forall (fun c => strchr cset c = true) (l ++ r) /\
    (forall c, head (content s') = Some c -> strchr cset c = false) /\
    (forall c, last (content s') = Some c -> strchr cset c = false).
Proof.
  intros Hs. pose proof (content_length s Hs) as Hc. pose proof Hs as [W1 W2 W3 W4]. unfold sdstrim, sdslen.
  destruct (trim_left_spec (S (length (s_buf s))) (s_buf s) cset 0 (s_len s - 1)) as (sp & -> & Hsp & Hl & Hfirst);
    [lia|lia|unfold blen in *; lia|]. rewrite bind_ret.
  destruct (trim_right_spec (S (length (s_buf s))) (s_buf s) cset sp (s_len s - 1)) as (ep & -> & Hep & Hle & Hr & Hlast);
    [lia|lia|unfold blen in *; lia|]. rewrite bind_ret.
  set (n := if ep <? sp then 0 else ep - sp + 1).
  assert (0 <= n /\ sp + n <= s_len s) as [Hn Hsn] by (subst n; case_match; lia).
  assert (forall i : nat, Z.of_nat i < s_len s -> content s !! i = s_buf s !! i) as Hlk
    by (intros i Hi; unfold content; by rewrite lookup_take_lt by lia).
  destruct (keep_range s (negb (sp =? 0)) sp n) as (s' & E & W & C); [done|lia..| |].
  { destruct (Z.eqb_spec sp 0); [by right|done]. }
  exists s', (take (Z.to_nat sp) (content s)), (drop (Z.to_nat (sp + n)) (content s)).
  split; [rewrite <- E; by destruct (sp =? 0)|]. split; [done|]. rewrite C.
  split; [|split; [|split]].
  - rewrite Z2Nat.inj_add, <- drop_drop, take_drop, take_drop by lia. done.
  - apply Forall_app. split; apply Forall_lookup; intros i c Hi.
    + apply lookup_take_Some in Hi as [Hi Hlt]. rewrite Hlk in Hi by lia.
      destruct (Hl i) as (c' & Hc' & Hs'); [lia|]. congruence.
    + rewrite lookup_drop in Hi. pose proof (lookup_lt_Some _ _ _ Hi) as Hlt. unfold blen in *.
      rewrite Hlk in Hi by lia. destruct (Hr (Z.to_nat (sp + n) + i)%nat) as (c' & Hc' & Hs'); [|congruence].
      subst n. case_match; lia.
  - intros c Hd. rewrite head_lookup, lookup_take_Some, lookup_drop in Hd. destruct Hd as [Hd H0].
    rewrite Nat.add_0_r in Hd. rewrite Hlk in Hd by lia. destruct Hfirst as (c' & Hc' & Hs'); [lia|congruence].
  - intros c Hd. rewrite last_lookup, length_take, length_drop, lookup_take_Some, lookup_drop in Hd.
    destruct Hd as [Hd H0]. unfold blen in *. assert (ep = sp + n - 1) as Eep by (subst n; case_match; lia).
    replace (Z.to_nat sp + _)%nat with (Z.to_nat ep) in Hd by lia. rewrite Hlk in Hd by lia.
    destruct (decide (sp < ep)).
    + destruct Hlast as (c' & Hc' & Hs'); [done|congruence].
    + destruct Hfirst as (c' & Hc' & Hs'); [lia|]. replace ep with sp in Hd by lia. congruence.
Qed.

(** ** Witnesses *)

Definition demo_sds (b : bytes) : sds := mk_sds SDS_TYPE_8 (blen b) (blen b) (b ++ [0]).

Lemma demo_sds_wf b : blen b <= 255 -> wf (demo_sds b) /\ content (demo_sds b) = b.
Proof.
  intros Hb. pose proof (blen_nonneg b). unfold content, demo_sds. split; [split; unfold sdsalloc|]; cbn [s_type s_len s_alloc s_buf].
  - lia.
  - exact Hb.
  - rewrite blen_app. reflexivity.
  - unfold blen. rewrite Nat2Z.id. by apply list_lookup_middle.
  - unfold blen. rewrite Nat2Z.id. by apply take_app_length'.
Qed.

Lemma sds_grow_witness :
  exists s', sdscatlen (fun n => n) (fun _ => 0) (demo_sds [1; 2]) [3; 4] 2 = Some s' /\ content s' = [1; 2; 3; 4].
Proof.
  destruct (sds_grow_correct (fun n => n) (fun _ => 0) ltac:(lia) (demo_sds [1; 2]) [3; 4] 2)
    as (_ & (s' & E & _ & C) & _);
    [by apply demo_sds_wf|split; vm_compute; congruence|split; vm_compute; congruence|].
  exists s'. split; [exact E|exact C].
Defined.

Lemma sdsrange_witness : exists s', sdsrange (demo_sds [1; 2; 3]) (-2) (-1) = Some s' /\ content s' = [2; 3].
Proof.
  destruct (sdsrange_correct (demo_sds [1; 2; 3]) (-2) (-1)) as (s' & E & _ & C);
    [by apply demo_sds_wf|by vm_compute; congruence|lia|lia|]. exists s'. split; [exact E|exact C].
Defined.

Lemma sdstrim_witness : exists s' l r, sdstrim (demo_sds [32; 7; 0]) [32] = Some s' /\ [32; 7; 0] = l ++ content s' ++ r.
Proof.
  destruct (sdstrim_correct (demo_sds [32; 7; 0]) [32]) as (s' & l & r & E & _ & C & _); [by apply demo_sds_wf|].
  exists s', l, r. split; [exact E|exact C].
Defined.

End Sds.
