(* ===== verification/Sdstext.v ===== *)
(** * Splitting, joining and quoting ([sds.c])

    The text operations of the string library, on the byte strings sds values
    stand for: quoting and the splitting of command lines, which are inverse to
    each other, and splitting and joining with a separator. *)

From Stdlib Require Import ZArith Lia.
From stdpp Require Import base option list numbers strings.
From S2P Require Import Prelude Util.

#[local] Open Scope Z_scope.

Module Sdstext.
Import Util.

(** [isspace] and [isprint] of the C locale. *)
Definition isspace (c : Z) : bool := (c =? 32) || ((9 <=? c) && (c <=? 13)).
Definition isprint (c : Z) : bool := (32 <=? c) && (c <=? 126).

(** ** Quoting *)

(** A digit of [%02x]. *)
Definition hex_digit (n : Z) : Z := if n <? 10 then 48 + n else 87 + n.

Definition catrepr_char (c : Z) : bytes :=
  if (c =? 92) || (c =? 34) then [92; c]
  else if c =? 10 then [92; 110]
  else if c =? 13 then [92; 114]
  else if c =? 9 then [92; 116]
  else if c =? 7 then [92; 97]
  else if c =? 8 then [92; 98]
  else if isprint c then [c]
  else [92; 120; hex_digit (c / 16); hex_digit (c mod 16)].

Fixpoint catrepr_loop (s p : bytes) : bytes :=
  match p with
  | [] => s
  | c :: p => catrepr_loop (s ++ catrepr_char c) p
  end.

Definition sdscatrepr (s p : bytes) : bytes := catrepr_loop (s ++ [34]) p ++ [34].

Definition is_hex_digit (c : Z) : bool :=
  ((48 <=? c) && (c <=? 57)) || ((97 <=? c) && (c <=? 102)) || ((65 <=? c) && (c <=? 70)).

Definition hex_digit_to_int (c : Z) : Z :=
  if (48 <=? c) && (c <=? 57) then c - 48
  else if (c =? 97) || (c =? 65) then 10
  else if (c =? 98) || (c =? 66) then 11
  else if (c =? 99) || (c =? 67) then 12
  else if (c =? 100) || (c =? 68) then 13
  else if (c =? 101) || (c =? 69) then 14
  else if (c =? 102) || (c =? 70) then 15
  else 0.

(** ** Splitting a line into arguments

    A pointer into the line is the memory from it on, the terminator included: a
    read past it has no value. *)

(** [a && b], where [b] is only evaluated, and so only reads, when [a] holds. *)
Definition and_then (a : bool) (b : option bool) : option bool := if a then b else Some false.

Definition is_hex_escape (p : bytes) : option bool :=
  c ← p !! 0%nat;
  and_then (c =? 92)
    (c1 ← p !! 1%nat; and_then (c1 =? 120)
      (c2 ← p !! 2%nat; and_then (is_hex_digit c2)
        (c3 ← p !! 3%nat; Some (is_hex_digit c3)))).

(** A backslash followed by something. *)
Definition is_escape (p : bytes) : option bool :=
  c ← p !! 0%nat; and_then (c =? 92) (c1 ← p !! 1%nat; Some (negb (c1 =? 0))).

Definition unescape (c : Z) : Z :=
  if c =? 110 then 10 else if c =? 114 then 13 else if c =? 116 then 9
  else if c =? 98 then 8 else if c =? 97 then 7 else c.

(** A closing quote must be followed by a space or by nothing. *)
Definition bad_close (p : bytes) : option bool :=
  c1 ← p !! 1%nat; Some (negb (c1 =? 0) && negb (isspace c1)).

(** What one turn of the token loop does before advancing: [goto err], or the new
    pointer, token and quoting state. *)
Inductive turn :=
| Bail
| Go (done : bool) (p current : bytes) (inq insq : bool).

Definition turn_inq (p current : bytes) : option turn :=
  c ← p !! 0%nat;
  hex ← is_hex_escape p;
  if (hex : bool) then
    c2 ← p !! 2%nat; c3 ← p !! 3%nat;
    Some (Go false (drop 3 p) (current ++ [u8 (hex_digit_to_int c2 * 16 + hex_digit_to_int c3)]) true false)
  else
  esc ← is_escape p;
  if (esc : bool) then
    c1 ← p !! 1%nat; Some (Go false (drop 1 p) (current ++ [unescape c1]) true false)
  else if c =? 34 then
    bad ← bad_close p;
    if (bad : bool) then Some Bail else Some (Go true p current true false)
  else if c =? 0 then Some Bail
  else Some (Go false p (current ++ [c]) true false).

Definition turn_insq (p current : bytes) : option turn :=
  c ← p !! 0%nat;
  esc ← and_then (c =? 92) (c1 ← p !! 1%nat; Some (c1 =? 39));
  if (esc : bool) then Some (Go false (drop 1 p) (current ++ [39]) false true)
  else if c =? 39 then
    bad ← bad_close p;
    if (bad : bool) then Some Bail else Some (Go true p current false true)
  else if c =? 0 then Some Bail
  else Some (Go false p (current ++ [c]) false true).

Definition turn_plain (p current : bytes) : option turn :=
  c ← p !! 0%nat;
  if (c =? 32) || (c =? 10) || (c =? 13) || (c =? 9) || (c =? 0) then Some (Go true p current false false)
  else if c =? 34 then Some (Go false p current true false)
  else if c =? 39 then Some (Go false p current false true)
  else Some (Go false p (current ++ [c]) false false).

(** [if ( *p) p++] *)
Definition advance (p : bytes) : option bytes :=
  c ← p !! 0%nat; Some (if c =? 0 then p else drop 1 p).

Definition token_turn (p current : bytes) (inq insq : bool) : option turn :=
  if inq then turn_inq p current else if insq then turn_insq p current else turn_plain p current.

(** The token loop; [Some None] is [goto err]. *)
Fixpoint token_loop (fuel : nat) (p current : bytes) (inq insq : bool) : option (option (bytes * bytes)) :=
  match fuel with
  | O => None
  | S fuel =>
      t ← token_turn p current inq insq;
      match t with
      | Bail => Some None
      | Go done p current inq insq =>
          p ← advance p;
          if (done : bool) then Some (Some (p, current)) else token_loop fuel p current inq insq
      end
  end.

Fixpoint skip_blanks (p : bytes) : option bytes :=
  match p with
  | [] => None
  | c :: p' => if negb (c =? 0) && isspace c then skip_blanks p' else Some p
  end.

Fixpoint args_loop (fuel : nat) (p : bytes) (vector : list bytes) : option (option (list bytes)) :=
  match fuel with
  | O => None
  | S fuel =>
      p ← skip_blanks p;
      c ← p !! 0%nat;
      if negb (c =? 0) then
        t ← token_loop (S (length p)) p [] false false;
        match t with
        | None => Some None
        | Some (p, current) => args_loop fuel p (vector ++ [current])
        end
      else Some (Some vector)
  end.

(** [line] is the memory of the C string with its terminator; the result is the
    vector of arguments, or [Some None] for [NULL]. *)
Definition sdssplitargs (line : bytes) : option (option (list bytes)) :=
  args_loop (S (length line)) line [].

(** ** Splitting and joining with a separator *)

(** [memcmp(a+i, b, n) == 0] *)
Definition memeq (a : bytes) (i : Z) (b : bytes) : option bool :=
  x ← load a i (blen b); Some (bool_decide (x = b)).

Definition is_sep (s sep : bytes) (j : Z) : option bool :=
  fast ← and_then (blen sep =? 1) (c ← load8 s j; c0 ← load8 sep 0; Some (c =? c0));
  if (fast : bool) then Some true else memeq s j sep.

Fixpoint split_loop (fuel : nat) (s sep : bytes) (j start : Z) (tokens : list bytes) : option (list bytes) :=
  match fuel with
  | O => None
  | S fuel =>
      if j <? blen s - (blen sep - 1) then
        hit ← is_sep s sep j;
        if (hit : bool) then
          tok ← load s start (j - start);
          split_loop fuel s sep (j + blen sep) (j + blen sep) (tokens ++ [tok])
        else split_loop fuel s sep (j + 1) start tokens
      else
        tok ← load s start (blen s - start);
        Some (tokens ++ [tok])
  end.

(** [Some None] is [NULL]. *)
Definition sdssplitlen (s sep : bytes) : option (option (list bytes)) :=
  if blen sep <? 1 then Some None else
  if blen s =? 0 then Some (Some [])
  else toks ← split_loop (S (length s)) s sep 0 0 []; Some (Some toks).

Fixpoint join_loop (join : bytes) (argv : list bytes) (sep : bytes) : bytes :=
  match argv with
  | [] => join
  | a :: rest =>
      let join := join ++ a in
      join_loop (match rest with [] => join | _ => join ++ sep end) rest sep
  end.

Definition sdsjoinsds (argv : list bytes) (sep : bytes) : bytes := join_loop [] argv sep.

Fixpoint map_char (c : Z) (from to : bytes) : Z :=
  match from, to with
  | f :: from, t :: to => if c =? f then t else map_char c from to
  | _, _ => c
  end.

Definition sdsmapchars (s from to : bytes) : bytes := (fun c => map_char c from to) <$> s.

(** ** Safety and termination of the line splitter *)

(** A pointer into a C string: a terminator is ahead of it. *)
Definition cstr (p : bytes) : Prop := 0 ∈ p.

Lemma cstr_head p : cstr p -> exists c p', p = c :: p' /\ (c <> 0 -> cstr p').
Proof.
  unfold cstr. destruct p as [|c p]; [by intros ?%elem_of_nil|].
  intros H. exists c, p. split; [done|]. apply elem_of_cons in H. naive_solver.
Qed.

Lemma advance_cstr p :
  cstr p -> exists p', advance p = Some p' /\ cstr p' /\
    (length p' <= length p)%nat /\ (p !! 0%nat <> Some 0 -> (length p' < length p)%nat).
Proof.
  intros Hp. destruct (cstr_head p Hp) as (c & q & -> & Hq). unfold advance. cbn.
  destruct (Z.eqb_spec c 0) as [->|Hc].
  - exists (0 :: q). split_and!; [done|done|cbn; lia|]. intros H. by destruct H.
  - exists q. rewrite ?drop_0. split_and!; [done|by apply Hq|cbn; lia|cbn; lia].
Qed.

(** What a turn does to the pointer: it stays on a character of the string, and
    only the end of the token leaves it on the terminator. *)
Definition turn_ok (p : bytes) (t : turn) : Prop :=
  match t with
  | Bail => True
  | Go done p' _ _ _ => cstr p' /\ (length p' <= length p)%nat /\ (done = false -> p' !! 0%nat <> Some 0)
  end.

Lemma is_hex_digit_nonzero c : is_hex_digit c = true -> c <> 0.
Proof. intros H ->. done. Qed.

Lemma turn_inq_ok p cur : cstr p -> exists t, turn_inq p cur = Some t /\ turn_ok p t.
Proof.
  intros Hp. destruct (cstr_head p Hp) as (c & q & -> & Hq).
  unfold turn_inq, is_hex_escape, is_escape, and_then. cbn.
  destruct (Z.eqb_spec c 92) as [->|Hn]; cbn.
  - destruct (cstr_head q) as (c1 & q1 & -> & Hq1); [by apply Hq|]. cbn.
    destruct (Z.eqb_spec c1 120) as [->|Hx]; cbn.
    + destruct (cstr_head q1) as (c2 & q2 & -> & Hq2); [by apply Hq1|]. cbn.
      destruct (is_hex_digit c2) eqn:E2; cbn.
      * destruct (cstr_head q2) as (c3 & q3 & -> & Hq3); [by apply Hq2, is_hex_digit_nonzero|]. cbn.
        destruct (is_hex_digit c3) eqn:E3; cbn.
        -- eexists. split; [done|]. cbn. rewrite ?drop_0. apply is_hex_digit_nonzero in E2, E3.
           split_and!; [by apply Hq2|cbn; lia|by intros _ [= ->]].
        -- eexists. split; [done|]. cbn. rewrite ?drop_0. split_and!; [by apply Hq|cbn; lia|done].
      * eexists. split; [done|]. cbn. rewrite ?drop_0. split_and!; [by apply Hq|cbn; lia|done].
    + destruct (Z.eqb_spec c1 0) as [->|H1]; cbn; (eexists; split; [done|]); cbn; rewrite ?drop_0.
      * split_and!; [done|cbn; lia|done].
      * split_and!; [by apply Hq|cbn; lia|by intros _ [= ->]].
  - destruct (Z.eqb_spec c 34) as [->|H34].
    + destruct (cstr_head q) as (c1 & q1 & -> & _); [by apply Hq|]. cbn.
      destruct (negb _ && _); cbn; eexists; (split; [done|]); cbn; [done|].
      split_and!; [done|cbn; lia|done].
    + destruct (Z.eqb_spec c 0) as [->|H0]; cbn; eexists; (split; [done|]); cbn; [done|].
      split_and!; [done|cbn; lia|by intros _ [= ->]].
Qed.

Lemma turn_insq_ok p cur : cstr p -> exists t, turn_insq p cur = Some t /\ turn_ok p t.
Proof.
  intros Hp. destruct (cstr_head p Hp) as (c & q & -> & Hq). unfold turn_insq, and_then. cbn.
  destruct (Z.eqb_spec c 92) as [->|Hn]; cbn.
  - destruct (cstr_head q) as (c1 & q1 & -> & Hq1); [by apply Hq|]. cbn.
    destruct (Z.eqb_spec c1 39) as [->|H1]; cbn; (eexists; split; [done|]); cbn; rewrite ?drop_0.
    + split_and!; [by apply Hq|cbn; lia|done].
    + split_and!; [done|cbn; lia|done].
  - destruct (Z.eqb_spec c 39) as [->|H34].
    + destruct (cstr_head q) as (c1 & q1 & -> & _); [by apply Hq|]. cbn.
      destruct (negb _ && _); cbn; eexists; (split; [done|]); cbn; [done|].
      split_and!; [done|cbn; lia|done].
    + destruct (Z.eqb_spec c 0) as [->|H0]; cbn; eexists; (split; [done|]); cbn; [done|].
      split_and!; [done|cbn; lia|by intros _ [= ->]].
Qed.

Lemma turn_plain_ok p cur :
  cstr p -> exists t, turn_plain p cur = Some t /\ turn_ok p t /\
    (forall p' cur' a b, t = Go true p' cur' a b -> p' = p /\ exists c, p !! 0%nat = Some c /\ (c = 0 \/ isspace c = true)).
Proof.
  intros Hp. destruct (cstr_head p Hp) as (c & q & -> & Hq). unfold turn_plain. cbn.
  destruct (_ || (c =? 0)) eqn:E.
  - eexists. split_and!; [done|split_and!; [done|cbn; lia|done]|].
    intros ???? [= <- <- <- <-]. split; [done|]. exists c. split; [done|].
    unfold isspace. destruct (Z.eqb_spec c 0); [by left|right]. lia.
  - assert (c <> 0) by lia.
    destruct (c =? 34); [|destruct (c =? 39)]; (eexists; split_and!; [done|split_and!; [done|cbn; lia|by intros _ [= ->]]|done]).
Qed.

Lemma token_turn_ok p cur inq insq : cstr p -> exists t, token_turn p cur inq insq = Some t /\ turn_ok p t.
Proof.
  intros Hp. unfold token_turn. destruct inq; [by apply turn_inq_ok|].
  destruct insq; [by apply turn_insq_ok|]. destruct (turn_plain_ok p cur Hp) as (t & ? & ? & _). eauto.
Qed.

(** The token loop ends inside the string. *)
Lemma token_loop_ok fuel p cur inq insq :
  cstr p -> (length p < fuel)%nat ->
  exists r, token_loop fuel p cur inq insq = Some r /\
    forall p' cur', r = Some (p', cur') -> cstr p' /\ (length p' <= length p)%nat.
Proof.
  revert p cur inq insq. induction fuel as [|fuel IH]; intros p cur inq insq Hp Hf; [lia|]. cbn [token_loop].
  destruct (token_turn_ok p cur inq insq Hp) as (t & -> & Ht). rewrite bind_ret.
  destruct t as [|dn p1 cur1 a b]; [eexists; split; [done|by intros ?? [=]]|].
  destruct Ht as (H1 & Hl1 & Hd). destruct (advance_cstr p1 H1) as (p2 & -> & H2 & Hl2 & Hlt). rewrite bind_ret.
  destruct dn.
  - eexists. split; [done|]. intros ?? [= <- <-]. split; [done|lia].
  - specialize (Hlt (Hd eq_refl)). destruct (IH p2 cur1 a b) as (r & -> & Hr); [done|cbn; lia|].
    eexists. split; [done|]. intros p' cur' E. destruct (Hr _ _ E). split; [done|lia].
Qed.

(** A token that starts on a character other than a space uses it up. *)
Lemma token_start fuel c q cur :
  cstr (c :: q) -> c <> 0 -> isspace c = false -> (S (length q) < fuel)%nat ->
  exists r, token_loop fuel (c :: q) cur false false = Some r /\
    forall p' cur', r = Some (p', cur') -> cstr p' /\ (length p' <= length q)%nat.
Proof.
  intros Hp Hc Hs Hf. destruct fuel as [|fuel]; [lia|]. cbn [token_loop]. unfold token_turn.
  destruct (turn_plain_ok (c :: q) cur Hp) as (t & -> & Ht & Hd). rewrite bind_ret.
  destruct t as [|dn p1 cur1 a b]; [eexists; split; [done|by intros ?? [=]]|].
  destruct Ht as (H1 & Hl1 & Hn). destruct dn.
  - destruct (Hd _ _ _ _ eq_refl) as (_ & x & [= <-] & [?|?]); [done|congruence].
  - destruct (advance_cstr p1 H1) as (p2 & -> & H2 & Hl2 & Hlt). rewrite bind_ret.
    specialize (Hlt (Hn eq_refl)). cbn in Hl1.
    destruct (token_loop_ok fuel p2 cur1 a b) as (r & -> & Hr); [done|cbn; lia|].
    eexists. split; [done|]. intros p' cur' E. destruct (Hr _ _ E). split; [done|lia].
Qed.

Lemma skip_blanks_ok p :
  cstr p -> exists c q, skip_blanks p = Some (c :: q) /\ cstr (c :: q) /\ (c <> 0 -> isspace c = false) /\
    (length q < length p)%nat.
Proof.
  induction p as [|c p IH]; intros Hp; [by apply elem_of_nil in Hp|]. cbn [skip_blanks].
  destruct (Z.eqb_spec c 0) as [->|Hc]; cbn [negb andb].
  - exists 0, p. split_and!; [done|done|done|cbn; lia].
  - destruct (isspace c) eqn:E.
    + destruct IH as (c' & q & ? & ? & ? & ?); [by apply elem_of_cons in Hp as [|]|].
      exists c', q. split_and!; try done. cbn. lia.
    + exists c, p. split_and!; [done|done|done|cbn; lia].
Qed.

Lemma args_loop_ok fuel p vector :
  cstr p -> (length p < fuel)%nat -> is_Some (args_loop fuel p vector).
Proof.
  revert p vector. induction fuel as [|fuel IH]; intros p vector Hp Hf; [lia|]. cbn [args_loop].
  destruct (skip_blanks_ok p Hp) as (c & q & -> & Hq & Hs & Hl). rewrite bind_ret. cbn [lookup list_lookup mbind option_bind].
  destruct (Z.eqb_spec c 0) as [->|Hc]; [by eauto|]. cbn [negb].
  destruct (token_start (S (length (c :: q))) c q [] Hq Hc (Hs Hc)) as (r & -> & Hr); [cbn; lia|]. rewrite bind_ret.
  destruct r as [[p' cur']|]; [|by eauto]. destruct (Hr _ _ eq_refl). apply IH; [done|lia].
Qed.

(** ** Quoting and splitting are inverse *)

Lemma catrepr_loop_app s p : catrepr_loop s p = s ++ concat (catrepr_char <$> p).
Proof.
  revert s. induction p as [|c p IH]; intros s; cbn; [by rewrite app_nil_r|]. by rewrite IH, <- app_assoc.
Qed.

Lemma hex_digit_ok n : 0 <= n < 16 -> is_hex_digit (hex_digit n) = true /\ hex_digit_to_int (hex_digit n) = n.
Proof.
  intros H. assert (Hn : n ∈ seqZ 0 16) by (apply elem_of_seqZ; lia). clear H. revert n Hn.
  apply Forall_forall. change (seqZ 0 16) with [0; 1; 2; 3; 4; 5; 6; 7; 8; 9; 10; 11; 12; 13; 14; 15].
  repeat (apply Forall_cons; split; [split; reflexivity|]). by apply Forall_nil.
Qed.

(** The turn on a quoted character reads it back; [rest] is what follows it. *)
Lemma turn_repr c rest cur :
  is_byte c -> exists p', turn_inq (catrepr_char c ++ rest) cur = Some (Go false p' (cur ++ [c]) true false) /\
    advance p' = Some rest.
Proof.
  intros Hc. unfold catrepr_char, is_byte in *.
  destruct ((c =? 92) || (c =? 34)) eqn:E1.
  { assert (c = 92 \/ c = 34) as [-> | ->] by lia; eexists; split; reflexivity. }
  destruct (Z.eqb_spec c 10) as [->|]; [eexists; split; reflexivity|].
  destruct (Z.eqb_spec c 13) as [->|]; [eexists; split; reflexivity|].
  destruct (Z.eqb_spec c 9) as [->|]; [eexists; split; reflexivity|].
  destruct (Z.eqb_spec c 7) as [->|]; [eexists; split; reflexivity|].
  destruct (Z.eqb_spec c 8) as [->|]; [eexists; split; reflexivity|].
  unfold turn_inq, is_hex_escape, is_escape, and_then, advance.
  destruct (isprint c) eqn:Ep; cbn -[u8].
  - unfold isprint in Ep. replace (c =? 92) with false by lia. cbn.
    replace (c =? 34) with false by lia. replace (c =? 0) with false by lia.
    eexists. split; [done|]. cbn. replace (c =? 0) with false by lia. by rewrite ?drop_0.
  - destruct (hex_digit_ok (c / 16)) as [-> Hh]; [Z.div_mod_to_equations; lia|]. cbn -[u8].
    destruct (hex_digit_ok (c mod 16)) as [El Hl]; [Z.div_mod_to_equations; lia|]. rewrite El. cbn -[u8].
    rewrite Hh, Hl. eexists. split.
    + do 4 f_equal. rewrite wrapu_small by (unfold is_u; Z.div_mod_to_equations; lia). Z.div_mod_to_equations; lia.
    + cbn. destruct (Z.eqb_spec (hex_digit (c mod 16)) 0) as [Ez|]; [by rewrite Ez in El|]. by rewrite ?drop_0.
Qed.

Lemma catrepr_length a : (length a <= length (concat (catrepr_char <$> a)))%nat.
Proof.
  induction a as [|c a IH]; cbn; [lia|]. rewrite length_app.
  assert (1 <= length (catrepr_char c))%nat; [|lia]. unfold catrepr_char. repeat case_match; cbn; lia.
Qed.

Definition ends_token (rest : bytes) : Prop := exists x r, rest = x :: r /\ (x = 0 \/ isspace x = true).

Lemma token_repr fuel a rest cur :
  Forall is_byte a -> ends_token rest -> (length a < fuel)%nat ->
  token_loop fuel (concat (catrepr_char <$> a) ++ 34 :: rest) cur true false = Some (Some (rest, cur ++ a)).
Proof.
  intros Ha (x & r & -> & Hx). revert cur fuel. induction Ha as [|c a Hc Ha IH]; intros cur [|fuel] Hf; cbn in Hf; try lia.
  - cbn [token_loop token_turn fmap list_fmap concat app]. unfold turn_inq, is_hex_escape, is_escape, bad_close, and_then.
    cbn [lookup list_lookup mbind option_bind Z.eqb Pos.eqb].
    assert (negb (x =? 0) && negb (isspace x) = false) as ->.
    { destruct Hx as [->|Hx]; [done|]. rewrite Hx. by destruct (x =? 0). }
    cbn. by rewrite ?drop_0, app_nil_r.
  - cbn [token_loop token_turn fmap list_fmap concat]. rewrite <- app_assoc.
    destruct (turn_repr c (concat (catrepr_char <$> a) ++ 34 :: x :: r) cur Hc) as (p' & -> & Hp').
    rewrite bind_ret, Hp', bind_ret, IH by lia. by rewrite <- app_assoc.
Qed.

(** The line of quoted arguments. *)
Definition quote_line (args : list bytes) : bytes := sdsjoinsds (sdscatrepr [] <$> args) [32].

Lemma join_loop_app join argv sep : join_loop join argv sep = join ++ join_loop [] argv sep.
Proof.
  revert join. induction argv as [|a argv IH]; intros join; cbn; [by rewrite app_nil_r|].
  rewrite IH, (IH (match argv with [] => _ | _ => _ end)), app_assoc. f_equal.
  destruct argv; cbn; by rewrite ?app_assoc.
Qed.

Lemma join_cons a b argv sep : sdsjoinsds (a :: b :: argv) sep = a ++ sep ++ sdsjoinsds (b :: argv) sep.
Proof.
  unfold sdsjoinsds. change (join_loop [] (a :: b :: argv) sep) with (join_loop (a ++ sep) (b :: argv) sep).
  by rewrite join_loop_app, <- app_assoc.
Qed.

Lemma quote_cons a args :
  quote_line (a :: args) = 34 :: concat (catrepr_char <$> a) ++ 34 :: match args with [] => [] | _ => 32 :: quote_line args end.
Proof.
  assert (Hr : sdscatrepr [] a = 34 :: concat (catrepr_char <$> a) ++ [34]).
  { unfold sdscatrepr. by rewrite catrepr_loop_app. }
  unfold quote_line. destruct args as [|b args]; cbn [fmap list_fmap].
  - cbn. by rewrite Hr.
  - rewrite join_cons, Hr. cbn. by rewrite <- app_assoc.
Qed.

Lemma quote_line_length args : (length args <= length (quote_line args))%nat.
Proof.
  induction args as [|a args IH]; [cbn; lia|]. rewrite quote_cons. cbn. rewrite length_app.
  destruct args; cbn in *; lia.
Qed.

Lemma args_loop_quoted args fuel vector :
  Forall (Forall is_byte) args -> (length args < fuel)%nat ->
  args_loop fuel (quote_line args ++ [0]) vector = Some (Some (vector ++ args)) /\
  args_loop fuel (32 :: quote_line args ++ [0]) vector = Some (Some (vector ++ args)).
Proof.
  intros Ha. revert fuel vector. induction Ha as [|a args Ha _ IH]; intros [|fuel] vector Hf; cbn in Hf; try lia.
  { rewrite app_nil_r. done. }
  assert (Hone : args_loop (S fuel) (quote_line (a :: args) ++ [0]) vector = Some (Some (vector ++ a :: args))).
  { rewrite quote_cons. cbn [app args_loop skip_blanks]. cbn [Z.eqb Pos.eqb negb andb isspace orb Z.leb Z.compare Pos.compare Pos.compare_cont].
    rewrite bind_ret. cbn [lookup list_lookup mbind option_bind Z.eqb Pos.eqb negb].
    cbn [token_loop token_turn turn_plain lookup list_lookup mbind option_bind Z.eqb Pos.eqb orb advance drop].
    rewrite drop_0, <- app_assoc. cbn [app].
    assert (Hend : ends_token (match args with [] => [] | _ => 32 :: quote_line args end ++ [0])).
    { destruct args; eexists _, _; (split; [cbn; reflexivity|auto]). }
    rewrite (token_repr _ a _ _ Ha Hend).
    2: { cbn [length]. rewrite length_app. pose proof (catrepr_length a). lia. }
    rewrite bind_ret. cbn [app].
    destruct (IH fuel (vector ++ [a])) as [H1 H2]; [lia|]. rewrite <- app_assoc in H1, H2.
    destruct args; [exact H1|exact H2]. }
  split; [exact Hone|exact Hone].
Qed.

(** C34: quoted command lines. Splitting a command line stays inside the string and
    ends on every input; on arguments quoted by [sdscatrepr] and joined by spaces,
    whatever bytes they hold, it gives the arguments back. *)
Theorem sdssplitargs_correct line args :
  is_Some (sdssplitargs (line ++ [0])) /\
  (Forall (Forall is_byte) args -> sdssplitargs (quote_line args ++ [0]) = Some (Some args)).
Proof.
  split.
  - apply args_loop_ok; [|lia]. apply elem_of_app. right. constructor.
  - intros Ha. apply args_loop_quoted; [done|]. rewrite length_app. pose proof (quote_line_length args). lia.
Qed.

(** ** Splitting with a separator *)

Definition occurs (sep s : bytes) (j : Z) : Prop := load s j (blen sep) = Some sep.

(** The parts of [s] between the occurrences of [sep], found from the left. *)
Inductive parts (sep : bytes) : list bytes -> bytes -> Prop :=
| parts_last t : (forall j, ~ occurs sep t j) -> parts sep [t] t
| parts_cons t toks s :
    (forall j, j < blen t -> ~ occurs sep (t ++ sep) j) ->
    parts sep toks s -> parts sep (t :: toks) (t ++ sep ++ s).

Lemma occurs_iff sep s j : occurs sep s j <-> exists a b, s = a ++ sep ++ b /\ blen a = j.
Proof.
  unfold occurs. split.
  - unfold load. case_decide as Hd; [|done]. intros [= E]. exists (take (Z.to_nat j) s), (drop (Z.to_nat j + length sep) s).
    unfold blen in *. rewrite length_take. split; [|lia].
    rewrite <- (take_drop (Z.to_nat j) s) at 1. f_equal. rewrite Nat2Z.id in E. rewrite <- E at 1.
    rewrite <- drop_drop. by rewrite take_drop.
  - intros (a & b & -> & <-). unfold blen. rewrite load_Some by (unfold blen; rewrite ?length_app; lia).
    by rewrite !Nat2Z.id, drop_app_length, take_app_length.
Qed.

Lemma occurs_app_l sep s t j : occurs sep s j -> occurs sep (s ++ t) j.
Proof.
  rewrite !occurs_iff. intros (a & b & -> & <-). exists a, (b ++ t). by rewrite <- !app_assoc.
Qed.

Lemma occurs_app_r sep s t j : occurs sep t j -> occurs sep (s ++ t) (blen s + j).
Proof.
  rewrite !occurs_iff. intros (a & b & -> & <-). exists (s ++ a), b. by rewrite <- !app_assoc, blen_app.
Qed.

Lemma occurs_drop sep s k j : 0 <= k <= blen s -> occurs sep (drop (Z.to_nat k) s) j -> occurs sep s (k + j).
Proof.
  intros Hk H. rewrite <- (take_drop (Z.to_nat k) s).
  assert (Hl : blen (take (Z.to_nat k) s) = k) by (unfold blen in *; rewrite length_take; lia).
  rewrite <- Hl at 3. by apply occurs_app_r.
Qed.

(** An occurrence that ends inside a prefix is one of the prefix. *)
Lemma occurs_prefix sep s t j : occurs sep (s ++ t) j -> j + blen sep <= blen s -> occurs sep s j.
Proof.
  rewrite !occurs_iff. intros (a & b & E & <-) Hl. unfold blen in Hl.
  assert (Hs : s = take (length s) (a ++ sep ++ b)) by by rewrite <- E, take_app_length.
  rewrite app_assoc, take_app, take_ge in Hs by (rewrite length_app; lia).
  rewrite <- app_assoc in Hs. by eexists a, _.
Qed.

Lemma parts_inj sep s toks toks' :
  0 < blen sep -> parts sep toks s -> parts sep toks' s -> toks = toks'.
Proof.
  intros Hsep H. revert toks'. induction H as [t Ht|t toks s Ht H IH]; intros toks' H'.
  - inversion H' as [|t' toks1 s1 Ht' _]; [done|]. subst.
    destruct (Ht (blen t')). apply occurs_iff. by exists t', s1.
  - inversion H' as [t' Ht'|t' toks1 s1 Ht' H1]; subst.
    { destruct (Ht' (blen t)). apply occurs_iff. by exists t, s. }
    assert (Hlt : forall (a b : bytes) c d, a ++ sep ++ c = b ++ sep ++ d ->
      (forall j, j < blen b -> ~ occurs sep (b ++ sep) j) -> ~ blen a < blen b).
    { intros a b c d E Hb Hl. apply (Hb (blen a) Hl). apply (occurs_prefix sep _ d).
      - rewrite <- app_assoc, <- E. apply occurs_iff. by exists a, c.
      - rewrite blen_app. lia. }
    match goal with E : _ ++ sep ++ _ = _ ++ sep ++ _ |- _ => rename E into E' end.
    pose proof (Hlt _ _ _ _ E' Ht). pose proof (Hlt _ _ _ _ (eq_sym E') Ht').
    apply app_inj_1 in E' as [<- E']; [|unfold blen in *; lia]. apply app_inv_head in E' as <-.
    f_equal. by apply IH.
Qed.

Lemma join_parts sep toks s : parts sep toks s -> sdsjoinsds toks sep = s /\ toks <> [].
Proof.
  induction 1 as [t Ht|t toks s Ht H IH]; [by cbn|]. destruct IH as [<- Hn]. split; [|done].
  destruct toks as [|b toks]; [done|]. apply join_cons.
Qed.

Lemma is_sep_ok s sep j :
  0 < blen sep -> 0 <= j -> j + blen sep <= blen s ->
  exists b, is_sep s sep j = Some b /\ (b = true <-> occurs sep s j).
Proof.
  intros Hsep Hj Hl. unfold is_sep, memeq.
  destruct (load s j (blen sep)) as [x|] eqn:Hx; [|rewrite load_Some in Hx by lia; done].
  assert (Hgen : exists b, (Some x ≫= fun y => Some (bool_decide (y = sep))) = Some b /\ (b = true <-> occurs sep s j)).
  { eexists. split; [done|]. rewrite bool_decide_eq_true. unfold occurs. rewrite Hx. naive_solver. }
  unfold and_then. destruct (Z.eqb_spec (blen sep) 1) as [E|]; [|rewrite bind_ret; exact Hgen].
  destruct sep as [|c0 [|? ?]]; unfold blen in E; cbn in E; try lia.
  assert (Hc : exists c, load8 s j = Some c /\ x = [c]).
  { pose proof (load_length _ _ _ _ Hx) as Hlx. destruct x as [|c [|? ?]]; unfold blen in Hlx; cbn in Hlx; try lia.
    exists c. split; [|done]. apply load8_Some; [done|].
    rewrite load_Some in Hx by lia. injection Hx as Hx. change (Z.to_nat (blen [c0])) with 1%nat in Hx.
    assert (Hd : take 1 (drop (Z.to_nat j) s) !! 0%nat = Some c) by by rewrite Hx.
    rewrite lookup_take_lt, lookup_drop, Nat.add_0_r in Hd by lia. done. }
  destruct Hc as (c & -> & Hc). change (load8 [c0] 0) with (Some c0). rewrite !bind_ret.
  destruct (Z.eqb_spec c c0) as [->|]; [|exact Hgen].
  eexists. split; [done|]. unfold occurs. rewrite Hx, Hc. done.
Qed.

Lemma cut_at_sep (s sep a rest : bytes) start :
  s = a ++ sep ++ rest -> 0 <= start -> start <= blen a ->
  let t := take (Z.to_nat (blen a - start)) (drop (Z.to_nat start) s) in
  a = take (Z.to_nat start) s ++ t /\ drop (Z.to_nat start) s = t ++ sep ++ drop (Z.to_nat (blen a + blen sep)) s.
Proof.
  intros Es H0 Hl t. assert (Ha : a = take (Z.to_nat start) s ++ t).
  { subst t. rewrite Es. unfold blen in *. rewrite !take_app_le, drop_app_le by lia.
    replace (Z.to_nat (Z.of_nat (length a) - start)) with (length a - Z.to_nat start)%nat by lia.
    rewrite take_app_le by (rewrite length_drop; lia).
    rewrite (take_ge (drop _ _)) by (rewrite length_drop; lia). by rewrite take_drop. }
  split; [done|]. rewrite Es at 1. rewrite Ha at 1. rewrite <- !app_assoc.
  assert (length (take (Z.to_nat start) s) = Z.to_nat start).
  { rewrite length_take, Es, length_app. unfold blen in Hl. lia. }
  rewrite drop_app_length' by done. do 2 f_equal.
  rewrite Es, app_assoc, drop_app_length'; [done|]. rewrite length_app. unfold blen. lia.
Qed.

Lemma split_loop_ok fuel s sep j start tokens :
  0 < blen sep -> 0 <= start -> start <= j -> j <= blen s -> blen s < j + Z.of_nat fuel ->
  (forall i, start <= i < j -> ~ occurs sep s i) ->
  exists toks, split_loop fuel s sep j start tokens = Some (tokens ++ toks) /\ parts sep toks (drop (Z.to_nat start) s).
Proof.
  intros Hsep. revert j start tokens. induction fuel as [|fuel IH]; intros j start tokens H0 Hj Hs Hf Hno; [lia|].
  cbn [split_loop]. destruct (Z.ltb_spec j (blen s - (blen sep - 1))) as [Hlt|Hge].
  - destruct (is_sep_ok s sep j) as (b & -> & Hb); [lia..|]. rewrite bind_ret. destruct b.
    + destruct (proj1 (occurs_iff _ _ _) (proj1 Hb eq_refl)) as (a & rest & Es & Ea).
      rewrite load_Some, bind_ret by lia.
      destruct (cut_at_sep s sep a rest start Es) as (Ha & Hdrop); [lia..|]. rewrite Ea in Ha, Hdrop.
      revert Ha Hdrop. set (t := take _ (drop _ _)). intros Ha Hdrop.
      destruct (IH (j + blen sep) (j + blen sep) (tokens ++ [t])) as (toks & -> & Hp); [lia..|intros i ?; lia|].
      exists (t :: toks). rewrite <- app_assoc. split; [done|]. rewrite Hdrop. constructor; [|done].
      intros i Hi Hocc. assert (0 <= i) by (unfold occurs, load in Hocc; case_decide; [lia|done]).
      apply (Hno (start + i)).
      { rewrite <- Ea, Ha, blen_app. unfold blen at 1. rewrite length_take. unfold blen in *. lia. }
      apply occurs_drop; [lia|]. rewrite Hdrop, app_assoc. by apply occurs_app_l.
    + destruct (IH (j + 1) start tokens) as (toks & -> & Hp); [lia..| |by exists toks].
      intros i Hi. destruct (decide (i = j)) as [->|]; [naive_solver|]. apply Hno. lia.
  - rewrite load_Some, bind_ret by lia. eexists. split; [done|].
    rewrite take_ge by (rewrite length_drop; unfold blen; lia). constructor.
    intros i Hi. assert (0 <= i /\ i + blen sep <= blen (drop (Z.to_nat start) s)) as [? Hil].
    { unfold occurs, load in Hi. case_decide; [lia|done]. }
    unfold blen in Hil. rewrite length_drop in Hil.
    apply (Hno (start + i)); [unfold blen in *; lia|]. apply occurs_drop; [lia|done].
Qed.

(** Splitting with a separator. [sdssplitlen] stays inside the string and ends;
    on a non-empty string the tokens are exactly the parts between the occurrences
    of the separator, and joining them gives the string back. *)
Theorem sdssplitlen_correct s sep :
  0 < blen sep ->
  exists toks, sdssplitlen s sep = Some (Some toks) /\ sdsjoinsds toks sep = s /\
    (s <> [] -> forall toks', toks' = toks <-> parts sep toks' s).
Proof.
  intros Hsep. unfold sdssplitlen. destruct (Z.ltb_spec (blen sep) 1); [lia|].
  destruct (Z.eqb_spec (blen s) 0) as [E|E].
  - destruct s; [|unfold blen in E; cbn in E; lia]. exists []. split_and!; [done|done|done].
  - destruct (split_loop_ok (S (length s)) s sep 0 0 []) as (toks & -> & Hp); [done|lia|lia|unfold blen; lia|unfold blen; lia|intros; lia|].
    rewrite bind_ret. exists toks. change (drop (Z.to_nat 0) s) with s in Hp.
    destruct (join_parts _ _ _ Hp). split_and!; [done|done|]. intros _ toks'. split; [by intros ->|].
    intros Hp'. by eapply parts_inj.
Qed.

(** [a--b] splits into [a] and [b]. *)
Lemma sdssplitlen_witness :
  exists toks, sdssplitlen [97; 45; 45; 98] [45; 45] = Some (Some toks) /\ sdsjoinsds toks [45; 45] = [97; 45; 45; 98].
Proof.
  destruct (sdssplitlen_correct [97; 45; 45; 98] [45; 45]) as (toks & H & J & _); [done|]. by exists toks.
Defined.

Lemma sdssplitargs_witness :
  Forall (Forall is_byte) [[]; [0; 32; 255]] /\
  sdssplitargs (quote_line [[]; [0; 32; 255]] ++ [0]) = Some (Some [[]; [0; 32; 255]]).
Proof.
  assert (H : Forall (Forall is_byte) [[]; [0; 32; 255]]) by (repeat constructor; unfold is_byte; lia).
  split; [exact H|]. exact (proj2 (sdssplitargs_correct [] [[]; [0; 32; 255]]) H).
Defined.

(** ** [strtoll] *)

(** The value of the digits that follow [v], and how many there are. *)
Fixpoint strtoll_digits (p : bytes) (v n : Z) : Z * Z :=
  match p with
  | c :: p => if is_digit c then strtoll_digits p (10 * v + (c - 48)) (n + 1) else (v, n)
  | [] => (v, n)
  end.

Fixpoint count_spaces (p : bytes) : Z :=
  match p with c :: p => if isspace c then count_spaces p + 1 else 0 | [] => 0 end.

(** [strtoll(p, &end, 10)]: the value, which saturates, and the index of [end], which is
    the start when there is no number. *)
Definition strtoll (p : bytes) : Z * Z :=
  let sp := count_spaces p in
  let q := drop (Z.to_nat sp) p in
  let '(neg, k) := match q with
                   | c :: _ => if c =? 45 then (true, 1) else if c =? 43 then (false, 1) else (false, 0)
                   | [] => (false, 0)
                   end in
  let '(v, n) := strtoll_digits (drop (Z.to_nat k) q) 0 0 in
  if n =? 0 then (0, 0) else
  (Z.max INT64_MIN (Z.min INT64_MAX (if neg : bool then - v else v)), sp + k + n).

Lemma strtoll_digits_dval ds v n : Forall (fun c => is_digit c = true) ds -> strtoll_digits ds v n = (dval v ds, n + blen ds).
Proof.
  intros H. revert v n. induction H as [|c ds Hc _ IH]; intros v n; cbn [strtoll_digits]; [by rewrite Z.add_0_r|].
  rewrite Hc, IH. f_equal. blia.
Qed.

Lemma strtoll_range p : is_s 64 (fst (strtoll p)).
Proof.
  unfold strtoll. destruct (match _ with _ :: _ => _ | [] => _ end) as [neg k]. destruct (strtoll_digits _ _ _) as [v n].
  destruct (n =? 0); cbn; zlia.
Qed.

Lemma strtoll_sdec v : is_s 64 v -> fst (strtoll (sdec v)) = v.
Proof.
  intros Hv. destruct (proj1 (sdec_shapes v (sdec v)) eq_refl) as [[-> ->]|(c & ds & -> & Hc & Hd & Hval)]; [done|].
  assert (Hsc : isspace c = false) by (unfold isspace; lia). assert (Hdig : is_digit c = true) by (apply is_digit_spec; lia).
  assert (Hds : strtoll_digits (c :: ds) 0 0 = (Z.abs v, 1 + blen ds)).
  { cbn [strtoll_digits]. rewrite Hdig, strtoll_digits_dval by done. by replace (10 * 0 + (c - 48)) with (c - 48) by lia; rewrite Hval. }
  unfold strtoll. destruct (Z.ltb_spec v 0); cbn [app count_spaces].
  - change (isspace 45) with false. cbn iota. change (drop (Z.to_nat 0) (45 :: c :: ds)) with (45 :: c :: ds). cbn iota beta.
    change (45 =? 45) with true. cbn iota. change (drop (Z.to_nat 1) (45 :: c :: ds)) with (c :: ds). rewrite Hds, (proj2 (Z.eqb_neq _ 0)) by blia.
    cbn [fst]. zlia.
  - rewrite Hsc. change (drop (Z.to_nat 0) (c :: ds)) with (c :: ds). cbn iota beta. rewrite (proj2 (Z.eqb_neq c 45)), (proj2 (Z.eqb_neq c 43)) by lia.
    cbn iota. change (drop (Z.to_nat 0) (c :: ds)) with (c :: ds). rewrite Hds, (proj2 (Z.eqb_neq _ 0)) by blia. cbn [fst]. zlia.
Qed.

(** ** [sdsfromlonglong] *)

(** The digits of [v], least significant first, after what is already written. *)
Fixpoint ll2str_loop (fuel : nat) (v : Z) (s : bytes) : option bytes :=
  match fuel with
  | O => None
  | S fuel =>
      let s := s ++ [48 + v mod 10] in
      let v := v / 10 in
      if v =? 0 then Some s else ll2str_loop fuel v s
  end.

(** No value where the negation overflows. *)
Definition sdsll2str (value : Z) : option bytes :=
  if value =? INT64_MIN then None else
  s ← ll2str_loop 20 (if value <? 0 then - value else value) [];
  Some (reverse (if value <? 0 then s ++ [45] else s)).

Definition sdsfromlonglong (value : Z) : option bytes := sdsll2str value.

Lemma ll2str_loop_udec fuel v s : 0 <= v < 10 ^ Z.of_nat fuel -> (0 < fuel)%nat -> ll2str_loop fuel v s = Some (s ++ reverse (udec v)).
Proof.
  revert v s. induction fuel as [|fuel IH]; intros v s Hv Hf; [lia|]. cbn [ll2str_loop].
  pose proof (Z.div_mod v 10 ltac:(done)) as Hdm. pose proof (Z.mod_pos_bound v 10 ltac:(done)) as Hmb.
  destruct (Z.eqb_spec (v / 10) 0) as [E|E].
  - rewrite udec_small by lia. by replace (v mod 10) with v by lia.
  - assert (Hb : 10 <= v) by lia. rewrite Nat2Z.inj_succ, Z.pow_succ_r in Hv by lia.
    rewrite IH; [|split; [apply Z.div_pos; lia|apply Z.div_lt_upper_bound; lia]|].
    + by rewrite (udec_big v), reverse_app, <- app_assoc.
    + destruct fuel; [cbn in Hv; lia|lia].
Qed.

Lemma sdsfromlonglong_sdec v : is_s 64 v -> v <> INT64_MIN -> sdsfromlonglong v = Some (sdec v).
Proof.
  intros Hv Hm. unfold sdsfromlonglong, sdsll2str, sdec. rewrite (proj2 (Z.eqb_neq _ _)) by done.
  destruct (Z.ltb_spec v 0); rewrite ll2str_loop_udec by zlia; cbn [mbind option_bind app].
  - by rewrite reverse_app, reverse_involutive.
  - by rewrite reverse_involutive.
Qed.

(** The end of the number is not past the first null byte. *)
Lemma strtoll_digits_end p rest v n : 0 <= snd (strtoll_digits (p ++ 0 :: rest) v n) - n <= blen p.
Proof.
  revert v n. induction p as [|c p IH]; intros v n; cbn [app strtoll_digits snd]; [change (is_digit 0) with false; cbn [snd]; blia|].
  destruct (is_digit c); [specialize (IH (10 * v + (c - 48)) (n + 1)); blia|cbn [snd]; blia].
Qed.

Lemma count_spaces_end p rest : 0 <= count_spaces (p ++ 0 :: rest) <= blen p.
Proof. induction p as [|c p IH]; cbn [app count_spaces]; [done|]. destruct (isspace c); blia. Qed.

Lemma strtoll_end p rest : 0 <= snd (strtoll (p ++ 0 :: rest)) <= blen p.
Proof.
  unfold strtoll. pose proof (count_spaces_end p rest) as Hs. set (sp := count_spaces _) in *.
  rewrite drop_app_le by blia. set (q := drop (Z.to_nat sp) p).
  assert (Hq : blen p = sp + blen q) by (unfold q; blia).
  destruct q as [|c q].
  - cbn [app]. cbn iota. change (0 =? 45) with false. change (0 =? 43) with false. cbn iota. change (strtoll_digits (drop (Z.to_nat 0) (0 :: rest)) 0 0) with (0, 0). cbn [snd Z.eqb]. blia.
  - cbn [app]. destruct (c =? 45); [|destruct (c =? 43)].
    1, 2: change (drop (Z.to_nat 1) (c :: q ++ 0 :: rest)) with (q ++ 0 :: rest); pose proof (strtoll_digits_end q rest 0 0) as Hd;
      destruct (strtoll_digits _ 0 0) as [v n]; cbn [snd] in Hd; destruct (n =? 0); cbn [snd]; blia.
    change (drop (Z.to_nat 0) (c :: q ++ 0 :: rest)) with ((c :: q) ++ 0 :: rest). pose proof (strtoll_digits_end (c :: q) rest 0 0) as Hd.
    destruct (strtoll_digits _ 0 0) as [v n]; cbn [snd] in Hd. destruct (n =? 0); cbn [snd]; blia.
Qed.

End Sdstext.
