(* ===== verification/Resp.v ===== *)
(** * Client connections and the request protocol ([networking.c], [aof.c])

    How bytes that arrive on a connection become commands, and how replies and
    propagated commands become bytes.  The query buffer is the byte string its sds
    stands for; commands are executed by whatever implements the interface
    [CommandServer]. *)

From Stdlib Require Import ZArith Lia.
From stdpp Require Import base option list numbers strings gmap finite relations.
From S2P Require Import Prelude Util Sds Sdstext.

#[local] Open Scope Z_scope.

Module Resp.
Import Util Sdstext.

(** ** Clients *)

Inductive client_flag :=
| CLIENT_SLAVE | CLIENT_MASTER | CLIENT_MONITOR | CLIENT_MULTI | CLIENT_BLOCKED
| CLIENT_CLOSE_AFTER_REPLY | CLIENT_LUA | CLIENT_ASKING | CLIENT_CLOSE_ASAP
| CLIENT_MASTER_FORCE_REPLY | CLIENT_PUBSUB | CLIENT_REPLY_OFF | CLIENT_REPLY_SKIP_NEXT
| CLIENT_REPLY_SKIP | CLIENT_MODULE | CLIENT_PENDING_READ | CLIENT_PENDING_COMMAND
| CLIENT_TRACKING_CACHING | CLIENT_PROTOCOL_ERROR.

#[export] Instance client_flag_eq_dec : EqDecision client_flag.
Proof. solve_decision. Defined.

#[export] Program Instance client_flag_finite : Finite client_flag := {|
  enum := [CLIENT_SLAVE; CLIENT_MASTER; CLIENT_MONITOR; CLIENT_MULTI; CLIENT_BLOCKED;
    CLIENT_CLOSE_AFTER_REPLY; CLIENT_LUA; CLIENT_ASKING; CLIENT_CLOSE_ASAP;
    CLIENT_MASTER_FORCE_REPLY; CLIENT_PUBSUB; CLIENT_REPLY_OFF; CLIENT_REPLY_SKIP_NEXT;
    CLIENT_REPLY_SKIP; CLIENT_MODULE; CLIENT_PENDING_READ; CLIENT_PENDING_COMMAND;
    CLIENT_TRACKING_CACHING; CLIENT_PROTOCOL_ERROR] |}.
Next Obligation. by apply (bool_decide_unpack _); vm_compute. Qed.
Next Obligation. intros []; by apply (bool_decide_unpack _); vm_compute. Qed.

(** The command of the last request, as far as [resetClient] looks at it. *)
Inductive command_proc := askingCommand | clientCommand | otherCommand.

#[export] Instance command_proc_eq_dec : EqDecision command_proc.
Proof. solve_decision. Defined.

(** A block of the reply list; [None] is the placeholder of a deferred length. *)
Record clientReplyBlock := mk_block { b_size : Z; b_buf : bytes }.

(** What commands see and change of a client. *)
Record session := mk_session {
  flags : gset client_flag;
  cmd : option command_proc;
  authenticated : bool;
  conn : bool;
  resp : Z;
  buf : bytes;
  reply : list (option clientReplyBlock);
}.

(** The state of the request parser. *)
Record pstate := mk_pstate {
  querybuf : bytes;
  qb_pos : Z;
  reqtype : Z;
  multibulklen : Z;
  bulklen : Z;
  argv : list bytes;
  argv_len_sum : Z;
}.

(** The replication state of a connection to a master. *)
Record repl := mk_repl {
  reploff : Z;
  read_reploff : Z;
  pending_querybuf : bytes;
  repl_ack_time : Z;
}.

Record client := mk_client { cs : session; cp : pstate; cr : repl }.

Definition PROTO_REQ_INLINE : Z := 1.
Definition PROTO_REQ_MULTIBULK : Z := 2.
Definition PROTO_IOBUF_LEN : Z := 1024 * 16.
Definition PROTO_REPLY_CHUNK_BYTES : Z := 16 * 1024.
Definition PROTO_INLINE_MAX_SIZE : Z := 1024 * 64.
Definition PROTO_MBULK_BIG_ARG : Z := 1024 * 32.
Definition OBJ_SHARED_BULKHDR_LEN : Z := 32.

Definition crlf : bytes := [13; 10].

(** [c->flags & (f1|f2|...)] *)
Definition has (s : session) (fs : list client_flag) : bool := bool_decide (Exists (.∈ flags s) fs).

Definition set_flags (f : gset client_flag) (s : session) : session :=
  mk_session f (cmd s) (authenticated s) (conn s) (resp s) (buf s) (reply s).
Definition add_flag (f : client_flag) (s : session) : session := set_flags (flags s ∪ {[f]}) s.
Definition del_flag (f : client_flag) (s : session) : session := set_flags (flags s ∖ {[f]}) s.
Definition set_out (b : bytes) (r : list (option clientReplyBlock)) (s : session) : session :=
  mk_session (flags s) (cmd s) (authenticated s) (conn s) (resp s) b r.

Inductive verdict := C_OK | C_ERR.

#[export] Instance verdict_eq_dec : EqDecision verdict.
Proof. solve_decision. Defined.

Record config := mk_config {
  proto_max_bulk_len : Z;
  client_max_querybuf_len : Z;
  default_user_nopass : bool;
  default_user_disabled : bool;
  gopher_enabled : bool;
  io_threads_active : bool;
  io_threads_do_reads : bool;
  processing_while_blocked : bool;
  lua_timedout : bool;
  unixtime : Z;
}.

(** What the command layer promises to the connection layer: to execute a command
    in a session, with the result of [processCommand] and whether the client was
    freed on the way, and to forward the master's stream to the sub-replicas. *)
Class CommandServer (W : Type) := {
  processCommand : W -> session -> list bytes -> W * session * verdict * bool;
  replicationFeedSlavesFromMasterStream : W -> bytes -> W;
}.

Section Networking.

Context (server : config).

(** The space the allocator really gives for a reply block of the given size, and
    whether the output buffers exceed the limit of the client's class. *)
Context (block_usable : Z -> Z) (obuf_limit_reached : session -> bool).

Definition authRequired (s : session) : bool :=
  (negb (default_user_nopass server) || default_user_disabled server) && negb (authenticated s).

Inductive client_type := CLIENT_TYPE_NORMAL | CLIENT_TYPE_SLAVE | CLIENT_TYPE_PUBSUB | CLIENT_TYPE_MASTER.

Definition getClientType (s : session) : client_type :=
  if has s [CLIENT_MASTER] then CLIENT_TYPE_MASTER else
  if has s [CLIENT_SLAVE] && negb (has s [CLIENT_MONITOR]) then CLIENT_TYPE_SLAVE else
  if has s [CLIENT_PUBSUB] then CLIENT_TYPE_PUBSUB else CLIENT_TYPE_NORMAL.

Definition freeClientAsync (s : session) : session :=
  if has s [CLIENT_CLOSE_ASAP] || has s [CLIENT_LUA] then s else add_flag CLIENT_CLOSE_ASAP s.

(** ** Replies *)

Definition prepareClientToWrite (s : session) : verdict :=
  if has s [CLIENT_LUA; CLIENT_MODULE] then C_OK else
  if has s [CLIENT_CLOSE_ASAP] then C_ERR else
  if has s [CLIENT_REPLY_OFF; CLIENT_REPLY_SKIP] then C_ERR else
  if has s [CLIENT_MASTER] && negb (has s [CLIENT_MASTER_FORCE_REPLY]) then C_ERR else
  if negb (conn s) then C_ERR else C_OK.

Definition _addReplyToBuffer (s : session) (p : bytes) : verdict * session :=
  let available := PROTO_REPLY_CHUNK_BYTES - blen (buf s) in
  if has s [CLIENT_CLOSE_AFTER_REPLY] then (C_OK, s) else
  match reply s with
  | _ :: _ => (C_ERR, s)
  | [] => if available <? blen p then (C_ERR, s) else (C_OK, set_out (buf s ++ p) (reply s) s)
  end.

(** Fills the last block, if it is not a placeholder, and returns what is left. *)
Definition fill_tail (r : list (option clientReplyBlock)) (p : bytes) : list (option clientReplyBlock) * bytes :=
  match last r with
  | Some (Some tail) =>
      let avail := b_size tail - blen (b_buf tail) in
      let copy := if blen p <=? avail then blen p else avail in
      (take (length r - 1) r ++ [Some (mk_block (b_size tail) (b_buf tail ++ take (Z.to_nat copy) p))],
       drop (Z.to_nat copy) p)
  | _ => (r, p)
  end.

Definition _addReplyProtoToList (s : session) (p : bytes) : session :=
  if has s [CLIENT_CLOSE_AFTER_REPLY] then s else
  let (r, rest) := fill_tail (reply s) p in
  match rest with
  | [] => set_out (buf s) r s
  | _ =>
      let size := if blen rest <? PROTO_REPLY_CHUNK_BYTES then PROTO_REPLY_CHUNK_BYTES else blen rest in
      let s := set_out (buf s) (r ++ [Some (mk_block (block_usable size) rest)]) s in
      if obuf_limit_reached s then freeClientAsync s else s
  end.

Definition addReplyProto (s : session) (p : bytes) : session :=
  match prepareClientToWrite s with
  | C_ERR => s
  | C_OK =>
      match _addReplyToBuffer s p with
      | (C_OK, s) => s
      | (C_ERR, s) => _addReplyProtoToList s p
      end
  end.

Definition addReplyErrorLength (s : session) (err : bytes) : session :=
  let s := match err with 45 :: _ => s | _ => addReplyProto s (bytes_of_string "-ERR ") end in
  addReplyProto (addReplyProto s err) crlf.

(** The error counters of [afterErrorReply] are statistics. *)
Definition addReplyError (s : session) (err : bytes) : session := addReplyErrorLength s err.

(** The shared headers of [createSharedObjects]. *)
Definition shared_hdr (prefix ll : Z) : bytes := prefix :: udec ll ++ crlf.
Definition OBJ_SHARED_HDR_STRLEN (len : Z) : Z := if len <? 10 then 4 else 5.

Definition addReplyLongLongWithPrefix (s : session) (ll prefix : Z) : option session :=
  let opt_hdr := (ll <? OBJ_SHARED_BULKHDR_LEN) && (0 <=? ll) in
  if opt_hdr && ((prefix =? 42) || (prefix =? 36) || (prefix =? 37) || (prefix =? 126)) then
    h ← load (shared_hdr prefix ll) 0 (OBJ_SHARED_HDR_STRLEN ll);
    Some (addReplyProto s h)
  else
    let b := prefix :: replicate 127 0 in
    r ← ll2string (drop 1 b) 127 ll;
    let b := prefix :: snd r in
    b ← store8 b (fst r + 1) 13;
    b ← store8 b (fst r + 2) 10;
    h ← load b 0 (fst r + 3);
    Some (addReplyProto s h).

Definition addReplyLongLong (s : session) (ll : Z) : option session :=
  if ll =? 0 then Some (addReplyProto s (bytes_of_string ":0" ++ crlf))
  else if ll =? 1 then Some (addReplyProto s (bytes_of_string ":1" ++ crlf))
  else addReplyLongLongWithPrefix s ll 58.

Definition addReplyAggregateLen (s : session) (length prefix : Z) : option session :=
  if length <? 0 then None else addReplyLongLongWithPrefix s length prefix.

Definition addReplyArrayLen (s : session) (length : Z) : option session := addReplyAggregateLen s length 42.

Definition addReplyMapLen (s : session) (length : Z) : option session :=
  let prefix := if resp s =? 2 then 42 else 37 in
  let length := if resp s =? 2 then length * 2 else length in
  addReplyAggregateLen s length prefix.

Definition addReplySetLen (s : session) (length : Z) : option session :=
  addReplyAggregateLen s length (if resp s =? 2 then 42 else 126).

Definition addReplyNull (s : session) : session :=
  if resp s =? 2 then addReplyProto s (bytes_of_string "$-1" ++ crlf)
  else addReplyProto s (bytes_of_string "_" ++ crlf).

Definition addReplyBool (s : session) (b : bool) : session :=
  if resp s =? 2 then addReplyProto s ((if b then bytes_of_string ":1" else bytes_of_string ":0") ++ crlf)
  else addReplyProto s ((if b then bytes_of_string "#t" else bytes_of_string "#f") ++ crlf).

Definition addReplyNullArray (s : session) : session :=
  if resp s =? 2 then addReplyProto s (bytes_of_string "*-1" ++ crlf)
  else addReplyProto s (bytes_of_string "_" ++ crlf).

Definition addReplyBulkCBuffer (s : session) (p : bytes) : option session :=
  s ← addReplyLongLongWithPrefix s (blen p) 36;
  Some (addReplyProto (addReplyProto s p) crlf).

Definition addReplyStatusLength (s : session) (p : bytes) : session :=
  addReplyProto (addReplyProto (addReplyProto s (bytes_of_string "+")) p) crlf.

(** ** Parsing requests *)

(** [strchr(p, c)], as an index from [p]: the search ends at the first null byte,
    which is at the latest the terminator of the buffer. *)
Fixpoint strchr (p : bytes) (c : Z) : option Z :=
  match p with
  | [] => None
  | x :: p => if x =? c then Some 0 else if x =? 0 then None else i ← strchr p c; Some (i + 1)
  end.

Definition set_pos (pos : Z) (p : pstate) : pstate :=
  mk_pstate (querybuf p) pos (reqtype p) (multibulklen p) (bulklen p) (argv p) (argv_len_sum p).
Definition set_querybuf (b : bytes) (pos : Z) (p : pstate) : pstate :=
  mk_pstate b pos (reqtype p) (multibulklen p) (bulklen p) (argv p) (argv_len_sum p).
Definition set_bulklen (n : Z) (p : pstate) : pstate :=
  mk_pstate (querybuf p) (qb_pos p) (reqtype p) (multibulklen p) n (argv p) (argv_len_sum p).
Definition set_multibulklen (n : Z) (p : pstate) : pstate :=
  mk_pstate (querybuf p) (qb_pos p) (reqtype p) n (bulklen p) (argv p) (argv_len_sum p).
Definition set_argv (a : list bytes) (sum : Z) (p : pstate) : pstate :=
  mk_pstate (querybuf p) (qb_pos p) (reqtype p) (multibulklen p) (bulklen p) a sum.
Definition set_reqtype (t : Z) (p : pstate) : pstate :=
  mk_pstate (querybuf p) (qb_pos p) t (multibulklen p) (bulklen p) (argv p) (argv_len_sum p).

(** The memory from [c->querybuf + c->qb_pos] on, and its length. *)
Definition unread (p : pstate) : bytes := drop (Z.to_nat (qb_pos p)) (querybuf p).
Definition avail (p : pstate) : Z := blen (querybuf p) - qb_pos p.

Definition setProtocolError (s : session) : session :=
  add_flag CLIENT_PROTOCOL_ERROR (add_flag CLIENT_CLOSE_AFTER_REPLY s).

Definition fail_with (msg : string) (s : session) : session :=
  setProtocolError (addReplyError s (bytes_of_string msg)).

(** The message names the character found; a null byte ends the formatted text. *)
Definition expected_dollar (c : Z) : bytes :=
  sdsmapchars (bytes_of_string "Protocol error: expected '$', got '" ++ if c =? 0 then [] else [c; 39]) crlf [32; 32].

(** How the reading of a header ends: the function returns, the loop is left to
    wait for more data, or the parse goes on. *)
Inductive flow :=
| Return (v : verdict) (p : pstate) (s : session)
| Break (p : pstate)
| Next (p : pstate).

(** [*<count>\r\n] *)
Definition multibulk_header (p : pstate) (s : session) : option flow :=
  if negb (multibulklen p =? 0) then Some (Next p) else
  match argv p with _ :: _ => None | [] =>
  match strchr (unread p) 13 with
  | None =>
      if PROTO_INLINE_MAX_SIZE <? avail p
      then Some (Return C_ERR p (fail_with "Protocol error: too big mbulk count string" s))
      else Some (Return C_ERR p s)
  | Some newline =>
      if avail p - 2 <? newline then Some (Return C_ERR p s) else
      c ← load8 (querybuf p) (qb_pos p);
      if negb (c =? 42) then None else
      r ← string2ll (drop 1 (unread p)) (newline - 1);
      match r with
      | None => Some (Return C_ERR p (fail_with "Protocol error: invalid multibulk length" s))
      | Some ll =>
          if 1024 * 1024 <? ll then Some (Return C_ERR p (fail_with "Protocol error: invalid multibulk length" s))
          else if (10 <? ll) && authRequired s then
            Some (Return C_ERR p (fail_with "Protocol error: unauthenticated multibulk length" s))
          else
          let p := set_pos (qb_pos p + newline + 2) p in
          if ll <=? 0 then Some (Return C_OK p s)
          else Some (Next (set_argv [] 0 (set_multibulklen ll p)))
      end
  end
  end.

(** A big argument is moved to the start of the buffer when nothing else follows. *)
Definition align_big_arg (ll : Z) (p : pstate) : pstate :=
  if (PROTO_MBULK_BIG_ARG <=? ll) && (avail p <=? u64 (ll + 2)) then set_querybuf (unread p) 0 p else p.

(** [$<length>\r\n] *)
Definition bulk_header (p : pstate) (s : session) : option flow :=
  if negb (bulklen p =? -1) then Some (Next p) else
  match strchr (unread p) 13 with
  | None =>
      if PROTO_INLINE_MAX_SIZE <? avail p
      then Some (Return C_ERR p (fail_with "Protocol error: too big bulk count string" s))
      else Some (Break p)
  | Some newline =>
      if avail p - 2 <? newline then Some (Break p) else
      c ← load8 (querybuf p) (qb_pos p);
      if negb (c =? 36) then Some (Return C_ERR p (setProtocolError (addReplyErrorLength s (expected_dollar c)))) else
      r ← string2ll (drop 1 (unread p)) (newline - 1);
      match r with
      | None => Some (Return C_ERR p (fail_with "Protocol error: invalid bulk length" s))
      | Some ll =>
          if (ll <? 0) || (negb (has s [CLIENT_MASTER]) && (proto_max_bulk_len server <? ll))
          then Some (Return C_ERR p (fail_with "Protocol error: invalid bulk length" s))
          else if (16384 <? ll) && authRequired s
          then Some (Return C_ERR p (fail_with "Protocol error: unauthenticated bulk length" s))
          else Some (Next (set_bulklen ll (align_big_arg ll (set_pos (qb_pos p + newline + 2) p))))
      end
  end.

(** The argument itself; the last two bytes of its space are not looked at. *)
Definition bulk_argument (p : pstate) : option flow :=
  if avail p <? u64 (s64 (bulklen p + 2)) then Some (Break p) else
  if (qb_pos p =? 0) && (PROTO_MBULK_BIG_ARG <=? bulklen p) && (blen (querybuf p) =? u64 (s64 (bulklen p + 2))) then
    a ← load (querybuf p) 0 (blen (querybuf p) - 2);
    Some (Next (set_multibulklen (multibulklen p - 1) (set_bulklen (-1)
      (set_querybuf [] 0 (set_argv (argv p ++ [a]) (argv_len_sum p + bulklen p) p)))))
  else
    a ← load (querybuf p) (qb_pos p) (bulklen p);
    Some (Next (set_multibulklen (multibulklen p - 1) (set_bulklen (-1)
      (set_pos (qb_pos p + bulklen p + 2) (set_argv (argv p ++ [a]) (argv_len_sum p + bulklen p) p))))).

Fixpoint bulk_loop (fuel : nat) (p : pstate) (s : session) : option (verdict * pstate * session) :=
  if multibulklen p =? 0 then Some (C_OK, p, s) else
  match fuel with
  | O => None
  | S fuel =>
      f ← bulk_header p s;
      match f with
      | Return v p s => Some (v, p, s)
      | Break p => Some (C_ERR, p, s)
      | Next p =>
          f ← bulk_argument p;
          match f with
          | Return v p s => Some (v, p, s)
          | Break p => Some (C_ERR, p, s)
          | Next p => bulk_loop fuel p s
          end
      end
  end.

Definition processMultibulkBuffer (p : pstate) (s : session) : option (verdict * pstate * session) :=
  f ← multibulk_header p s;
  match f with
  | Return v p s => Some (v, p, s)
  | Break p => Some (C_ERR, p, s)
  | Next p =>
      if multibulklen p <=? 0 then None
      else bulk_loop (Z.to_nat (multibulklen p)) p s
  end.

Definition processInlineBuffer (c : client) : option (verdict * client) :=
  let p := cp c in let s := cs c in
  match strchr (unread p) 10 with
  | None =>
      if PROTO_INLINE_MAX_SIZE <? avail p
      then Some (C_ERR, mk_client (fail_with "Protocol error: too big inline request" s) p (cr c))
      else Some (C_ERR, c)
  | Some newline =>
      cr_before ← and_then (negb (newline =? 0)) (x ← load8 (unread p) (newline - 1); Some (x =? 13));
      let '(querylen, linefeed_chars) := if (cr_before : bool) then (newline - 1, 2) else (newline, 1) in
      aux ← load (unread p) 0 querylen;
      args ← sdssplitargs (aux ++ [0]);
      match args with
      | None => Some (C_ERR, mk_client (fail_with "Protocol error: unbalanced quotes in request" s) p (cr c))
      | Some args =>
          let r := match querylen, getClientType s with
                   | 0, CLIENT_TYPE_SLAVE =>
                       mk_repl (reploff (cr c)) (read_reploff (cr c)) (pending_querybuf (cr c)) (unixtime server)
                   | _, _ => cr c
                   end in
          if negb (querylen =? 0) && has s [CLIENT_MASTER] then Some (C_ERR, mk_client (setProtocolError s) p r) else
          let p := set_pos (qb_pos p + querylen + linefeed_chars) p in
          let p := match args with
                   | [] => set_argv [] (argv_len_sum p) p
                   | _ => set_argv args (fold_left Z.add (blen <$> args) 0) p
                   end in
          Some (C_OK, mk_client s p r)
      end
  end.

(** ** Executing requests *)

Definition reset_flags (s : session) : session :=
  let prevcmd := cmd s in
  let s := mk_session (flags s) None (authenticated s) (conn s) (resp s) (buf s) (reply s) in
  let s := if negb (has s [CLIENT_MULTI]) && bool_decide (prevcmd <> Some askingCommand)
           then del_flag CLIENT_ASKING s else s in
  let s := if negb (has s [CLIENT_MULTI]) && bool_decide (prevcmd <> Some clientCommand)
           then del_flag CLIENT_TRACKING_CACHING s else s in
  let s := del_flag CLIENT_REPLY_SKIP s in
  if has s [CLIENT_REPLY_SKIP_NEXT] then del_flag CLIENT_REPLY_SKIP_NEXT (add_flag CLIENT_REPLY_SKIP s) else s.

Definition reset_parse (p : pstate) : pstate := mk_pstate (querybuf p) (qb_pos p) 0 0 (-1) [] 0.

Definition resetClient (c : client) : client := mk_client (reset_flags (cs c)) (reset_parse (cp c)) (cr c).

Context {W : Type} `{!CommandServer W}.

Definition commandProcessed (w : W) (c : client) : W * client :=
  if has (cs c) [CLIENT_BLOCKED] then (w, c) else
  let c := resetClient c in
  let r := cr c in
  let prev_offset := reploff r in
  let off := if has (cs c) [CLIENT_MASTER] && negb (has (cs c) [CLIENT_MULTI])
             then read_reploff r - blen (querybuf (cp c)) + qb_pos (cp c) else reploff r in
  let r := mk_repl off (read_reploff r) (pending_querybuf r) (repl_ack_time r) in
  if has (cs c) [CLIENT_MASTER] then
    let applied := off - prev_offset in
    if applied =? 0 then (w, mk_client (cs c) (cp c) r) else
    let w := replicationFeedSlavesFromMasterStream w (take (Z.to_nat applied) (pending_querybuf r)) in
    (w, mk_client (cs c) (cp c) (mk_repl off (read_reploff r) (drop (Z.to_nat applied) (pending_querybuf r)) (repl_ack_time r)))
  else (w, mk_client (cs c) (cp c) r).

(** The flag is set when the client is no longer valid. *)
Definition processCommandAndResetClient (w : W) (c : client) : W * client * bool :=
  let '(w, s, v, dead) := processCommand w (cs c) (argv (cp c)) in
  let c := mk_client s (cp c) (cr c) in
  let (w, c) := match v with C_OK => commandProcessed w c | C_ERR => (w, c) end in
  (w, c, dead).

Definition processPendingCommandsAndResetClient (w : W) (c : client) : W * client * bool :=
  if has (cs c) [CLIENT_PENDING_COMMAND]
  then processCommandAndResetClient w (mk_client (del_flag CLIENT_PENDING_COMMAND (cs c)) (cp c) (cr c))
  else (w, c, false).

(** Conditions under which no more input of the client is processed. *)
Definition input_blocked (s : session) : bool :=
  has s [CLIENT_BLOCKED] || has s [CLIENT_PENDING_COMMAND] ||
  (lua_timedout server && has s [CLIENT_MASTER]) ||
  has s [CLIENT_CLOSE_AFTER_REPLY; CLIENT_CLOSE_ASAP].

(** The request type is determined by the first byte of a request. *)
Definition find_reqtype (p : pstate) : option pstate :=
  if reqtype p =? 0 then
    c ← load8 (querybuf p) (qb_pos p);
    Some (set_reqtype (if c =? 42 then PROTO_REQ_MULTIBULK else PROTO_REQ_INLINE) p)
  else Some p.

(** The next request. *)
Definition process_request (c : client) : option (verdict * client) :=
  if reqtype (cp c) =? PROTO_REQ_INLINE then processInlineBuffer c
  else if reqtype (cp c) =? PROTO_REQ_MULTIBULK then
    r ← processMultibulkBuffer (cp c) (cs c);
    let '(v, p, s) := r in Some (v, mk_client s p (cr c))
  else None.

(** In Gopher mode an inline request that is empty or a path is not a command. *)
Definition is_gopher (c : client) : bool :=
  (reqtype (cp c) =? PROTO_REQ_INLINE) && gopher_enabled server && negb (io_threads_do_reads server) &&
  match argv (cp c) with
  | [] => true
  | [a] => match a with 47 :: _ => true | _ => false end
  | _ => false
  end.

(** The Gopher reply itself is a parameter. *)
Context (processGopherRequest : client -> session).

(** [true] when the client died; its buffer is then left alone. *)
Fixpoint input_loop (fuel : nat) (w : W) (c : client) : option (W * client * bool) :=
  if negb (qb_pos (cp c) <? blen (querybuf (cp c))) then Some (w, c, false) else
  if input_blocked (cs c) then Some (w, c, false) else
  match fuel with
  | O => None
  | S fuel =>
      p ← find_reqtype (cp c);
      r ← process_request (mk_client (cs c) p (cr c));
      let (v, c) := (r : verdict * client) in
      match v with C_ERR => Some (w, c, false) | C_OK =>
      if is_gopher c then
        let c := resetClient (mk_client (processGopherRequest c) (cp c) (cr c)) in
        Some (w, mk_client (add_flag CLIENT_CLOSE_AFTER_REPLY (cs c)) (cp c) (cr c), false)
      else
      match argv (cp c) with
      | [] => input_loop fuel w (resetClient c)
      | _ =>
          if has (cs c) [CLIENT_PENDING_READ]
          then Some (w, mk_client (add_flag CLIENT_PENDING_COMMAND (cs c)) (cp c) (cr c), false)
          else
          let '(w, c, dead) := processCommandAndResetClient w c in
          if (dead : bool) then Some (w, c, true) else input_loop fuel w c
      end
      end
  end.

Definition trim_querybuf (p : pstate) : pstate :=
  if qb_pos p =? 0 then p else set_querybuf (unread p) 0 p.

(** The client in the result is [None] when it was freed. *)
Definition processInputBuffer (w : W) (c : client) : option (W * option client) :=
  r ← input_loop (S (length (querybuf (cp c)))) w c;
  let '(w, c, dead) := (r : W * client * bool) in
  Some (w, if (dead : bool) then None else Some (mk_client (cs c) (trim_querybuf (cp c)) (cr c))).

(** ** Reading from the connection *)

Definition postponeClientRead (s : session) : option session :=
  if io_threads_active server && io_threads_do_reads server && negb (processing_while_blocked server) &&
     negb (has s [CLIENT_MASTER; CLIENT_SLAVE; CLIENT_PENDING_READ; CLIENT_BLOCKED])
  then Some (add_flag CLIENT_PENDING_READ s) else None.

(** How much is asked of the connection: not beyond the end of a big argument. *)
Definition read_length (p : pstate) : Z :=
  if (reqtype p =? PROTO_REQ_MULTIBULK) && negb (multibulklen p =? 0) && negb (bulklen p =? -1)
     && (PROTO_MBULK_BIG_ARG <=? bulklen p)
  then
    let remaining := s64 (u64 (s64 (bulklen p + 2)) - blen (querybuf p)) in
    if (0 <? remaining) && (remaining <? PROTO_IOBUF_LEN) then remaining else PROTO_IOBUF_LEN
  else PROTO_IOBUF_LEN.

(** What a read from the connection gives. *)
Inductive conn_read := ReadAgain | ReadError | ReadClosed | ReadData (data : bytes).

Definition readQueryFromClient (w : W) (c : client) (ev : conn_read) : option (W * option client) :=
  match postponeClientRead (cs c) with
  | Some s => Some (w, Some (mk_client s (cp c) (cr c)))
  | None =>
      match ev with
      | ReadAgain => Some (w, Some c)
      | ReadError | ReadClosed => Some (w, Some (mk_client (freeClientAsync (cs c)) (cp c) (cr c)))
      | ReadData data =>
          let master := has (cs c) [CLIENT_MASTER] in
          let r := cr c in
          let r := if master then mk_repl (reploff r) (read_reploff r + blen data) (pending_querybuf r ++ data) (repl_ack_time r) else r in
          let p := set_querybuf (querybuf (cp c) ++ data) (qb_pos (cp c)) (cp c) in
          if client_max_querybuf_len server <? blen (querybuf p)
          then Some (w, Some (mk_client (freeClientAsync (cs c)) p r))
          else processInputBuffer w (mk_client (cs c) p r)
      end
  end.

End Networking.

(** ** Propagated commands ([aof.c]) *)

(** [<prefix><number>\r\n] in a buffer of 32 bytes. *)
Definition cat_header (dst : bytes) (prefix n : Z) : option bytes :=
  let b := prefix :: replicate 31 0 in
  r ← ll2string (drop 1 b) 31 n;
  let len := 1 + fst r in
  b ← store8 (prefix :: snd r) len 13;
  b ← store8 b (len + 1) 10;
  h ← load b 0 (len + 2);
  Some (dst ++ h).

Fixpoint cat_args (dst : bytes) (argv : list bytes) : option bytes :=
  match argv with
  | [] => Some dst
  | o :: argv =>
      dst ← cat_header dst 36 (blen o);
      cat_args ((dst ++ o) ++ crlf) argv
  end.

Definition catAppendOnlyGenericCommand (dst : bytes) (argv : list bytes) : option bytes :=
  dst ← cat_header dst 42 (Z.of_nat (length argv));
  cat_args dst argv.

(** ** The parser on arbitrary input *)

Lemma has_true s fs : has s fs = true <-> exists f, f ∈ fs /\ f ∈ flags s.
Proof. unfold has. rewrite bool_decide_eq_true, Exists_exists. naive_solver. Qed.

Lemma has_false s fs : has s fs = false <-> forall f, f ∈ fs -> f ∉ flags s.
Proof. rewrite <- not_true_iff_false, has_true. naive_solver. Qed.

Lemma strchr_Some p c i :
  strchr p c = Some i -> 0 <= i < blen p /\ exists a b, p = a ++ c :: b /\ blen a = i /\ c ∉ a.
Proof.
  revert i. induction p as [|x p IH]; intros i; cbn [strchr]; [done|].
  destruct (Z.eqb_spec x c) as [->|Hx].
  - intros [= <-]. split; [unfold blen; cbn; lia|]. exists [], p. split_and!; [done|done|by apply not_elem_of_nil].
  - destruct (x =? 0); [done|]. destruct (strchr p c) as [j|]; [|done]. intros [= <-].
    destruct (IH j eq_refl) as (Hj & a & b & -> & Ha & Hn). split; [unfold blen in *; cbn; lia|].
    exists (x :: a), b. split_and!; [done|unfold blen in *; cbn; lia|]. apply not_elem_of_cons. split; [congruence|done].
Qed.

(** A flag that stops the processing of input for good or until the client is reset. *)
Definition stopped (s : session) : bool :=
  has s [CLIENT_BLOCKED; CLIENT_PENDING_COMMAND; CLIENT_CLOSE_AFTER_REPLY; CLIENT_CLOSE_ASAP].

(** A parser state between two requests or inside one. *)
Record wfp (p : pstate) : Prop := {
  wf_pos : 0 <= qb_pos p <= blen (querybuf p);
  wf_size : blen (querybuf p) < 2 ^ 62;
  wf_multi : 0 <= multibulklen p;
  wf_bulk : -1 <= bulklen p < 2 ^ 63;
  wf_idle : multibulklen p = 0 -> argv p = [] /\ bulklen p = -1;
  wf_type : reqtype p = 0 \/ reqtype p = PROTO_REQ_INLINE \/ reqtype p = PROTO_REQ_MULTIBULK;
  wf_busy : 0 < multibulklen p -> reqtype p = PROTO_REQ_MULTIBULK;
  wf_star : reqtype p = PROTO_REQ_MULTIBULK -> multibulklen p = 0 -> exists t, unread p = 42 :: t;
}.

Definition wfc (c : client) : Prop :=
  0 <= qb_pos (cp c) <= blen (querybuf (cp c)) /\ blen (querybuf (cp c)) < 2 ^ 62 /\
  (stopped (cs c) = false -> wfp (cp c)).

(** Input is consumed from the front. *)
Definition adv (p p' : pstate) : Prop := exists k, unread p = k ++ unread p'.

Lemma adv_refl p : adv p p.
Proof. by exists []. Qed.

Lemma adv_trans p1 p2 p3 : adv p1 p2 -> adv p2 p3 -> adv p1 p3.
Proof. intros [k E] [k' E']. exists (k ++ k'). by rewrite E, E', app_assoc. Qed.

Lemma unread_length p : 0 <= qb_pos p <= blen (querybuf p) -> blen (unread p) = avail p.
Proof. unfold unread, avail, blen. rewrite length_drop. lia. Qed.

Lemma unread_skip p n : 0 <= qb_pos p -> 0 <= n -> unread (set_pos (qb_pos p + n) p) = drop (Z.to_nat n) (unread p).
Proof. intros. unfold unread. cbn. rewrite drop_drop. f_equal. lia. Qed.

Lemma adv_skip p n : 0 <= qb_pos p -> 0 <= n -> adv p (set_pos (qb_pos p + n) p).
Proof. intros. exists (take (Z.to_nat n) (unread p)). by rewrite unread_skip, take_drop. Qed.

Lemma load8_unread p x t : 0 <= qb_pos p -> unread p = x :: t -> load8 (querybuf p) (qb_pos p) = Some x.
Proof.
  intros Hp E. apply load8_Some; [done|]. unfold unread in E.
  rewrite <- (Nat.add_0_r (Z.to_nat (qb_pos p))), <- lookup_drop, E. done.
Qed.

Lemma fail_stopped s : stopped (setProtocolError s) = true.
Proof.
  apply has_true. exists CLIENT_CLOSE_AFTER_REPLY. unfold setProtocolError, add_flag, set_flags. cbn.
  split; [set_solver|set_solver].
Qed.

Section Safety.

Context (server : config) (block_usable : Z -> Z) (obuf_limit_reached : session -> bool).

(** The first line of what is unread, once it is complete. *)
Lemma header_line p newline :
  0 <= qb_pos p <= blen (querybuf p) -> strchr (unread p) 13 = Some newline -> newline <= avail p - 2 ->
  exists x t, unread p = x :: t /\ load8 (querybuf p) (qb_pos p) = Some x /\
    (x <> 13 -> 0 <= newline - 1 <= blen (drop 1 (unread p))) /\
    0 <= qb_pos p + newline + 2 <= blen (querybuf p) /\ 0 <= newline.
Proof.
  intros Hp Hn Hl. destruct (strchr_Some _ _ _ Hn) as (Hb & a & b & E & Ha & Hna).
  destruct (unread p) as [|x t] eqn:Eu; [by destruct a|]. exists x, t. unfold avail in Hl.
  split_and!; [done|by apply (load8_unread p x t); [lia|]| |lia..].
  intros Hx. destruct a as [|y a]; [by injection E|]. injection E as -> ->.
  unfold blen in *. cbn [drop length] in *. rewrite drop_0, length_app. cbn. lia.
Qed.

(** A state inside a multi bulk request. *)
Definition wfl (p : pstate) : Prop :=
  0 <= qb_pos p <= blen (querybuf p) /\ blen (querybuf p) < 2 ^ 62 /\ 0 <= multibulklen p /\
  -1 <= bulklen p < 2 ^ 63 /\ reqtype p = PROTO_REQ_MULTIBULK.

Lemma wfl_wfp p : wfl p -> 0 < multibulklen p -> wfp p.
Proof. intros (? & ? & ? & ? & ?) ?. constructor; try done; try lia; auto. Qed.

Lemma wfp_wfl p : wfp p -> reqtype p = PROTO_REQ_MULTIBULK -> wfl p.
Proof. intros [] ?. done. Qed.

(** [p'] is [p] after consuming some input. *)
Definition moved (p p' : pstate) : Prop :=
  wfl p' /\ adv p p' /\ avail p' <= avail p /\ blen (querybuf p') <= blen (querybuf p).

Lemma moved_trans p1 p2 p3 : moved p1 p2 -> moved p2 p3 -> moved p1 p3.
Proof.
  intros (? & ? & ? & ?) (? & ? & ? & ?). split_and!; [done|by eapply adv_trans|lia|lia].
Qed.

Lemma moved_refl p : wfl p -> moved p p.
Proof. intros. split_and!; [done|apply adv_refl|lia|lia]. Qed.

Lemma adv_ext p p' q : adv p p' -> unread q = unread p' -> adv p q.
Proof. intros [k E] E'. exists k. by rewrite E'. Qed.

Lemma multibulk_header_ok p s :
  wfp p -> reqtype p = PROTO_REQ_MULTIBULK ->
  exists f, multibulk_header server block_usable obuf_limit_reached p s = Some f /\
    match f with
    | Return C_ERR p' s' => p' = p /\ (s' = s \/ stopped s' = true)
    | Return C_OK p' s' => s' = s /\ moved p p' /\ avail p' < avail p /\ argv p' = [] /\ multibulklen p' = 0
    | Break _ => False
    | Next p' => moved p p' /\ 0 < multibulklen p' /\ (0 < multibulklen p \/ argv p' = [] /\ bulklen p' = -1)
    end.
Proof.
  intros Hw Ht. pose proof (wfp_wfl p Hw Ht) as Hwl. pose proof Hwl as (Hpos & Hsz & Hmn & Hbk & _).
  unfold multibulk_header. destruct (Z.eqb_spec (multibulklen p) 0) as [Hm|Hm]; cbn [negb].
  2: { eexists. split; [done|]. split_and!; [by apply moved_refl|lia|left; lia]. }
  destruct (wf_idle p Hw Hm) as [Ha Hb]. rewrite Ha. destruct (wf_star p Hw Ht Hm) as [t0 Et].
  destruct (strchr (unread p) 13) as [newline|] eqn:En.
  2: { case_match; eexists; (split; [done|]); (split; [done|]); [right; apply fail_stopped|by left]. }
  destruct (Z.ltb_spec (avail p - 2) newline); [eexists; split; [done|by split; [|left]]|].
  destruct (header_line p newline) as (x & t & E & -> & Hl & Hnew & Hn); [done|done|lia|].
  rewrite Et in E. injection E as <- <-. rewrite bind_ret. cbn [Z.eqb Pos.eqb negb].
  destruct (string2ll_spec (drop 1 (unread p)) (newline - 1)) as (r & -> & Hr); [by apply Hl|]. rewrite bind_ret.
  destruct r as [ll|]; [|eexists; split; [done|split; [done|right; apply fail_stopped]]].
  destruct (1024 * 1024 <? ll) eqn:Hbig; [eexists; split; [done|split; [done|right; apply fail_stopped]]|].
  destruct (_ && authRequired _ _); [eexists; split; [done|split; [done|right; apply fail_stopped]]|].
  assert (Hadv : adv p (set_pos (qb_pos p + newline + 2) p)).
  { replace (qb_pos p + newline + 2) with (qb_pos p + (newline + 2)) by lia. apply adv_skip; lia. }
  assert (Hav : avail (set_pos (qb_pos p + newline + 2) p) < avail p) by (unfold avail; cbn; lia).
  destruct (Z.leb_spec ll 0); eexists; (split; [done|]).
  - split_and!; try done. split_and!; [|done|lia|cbn; lia]. unfold wfl. cbn. split_and!; done || lia.
  - split_and!; [|cbn; lia|right; by cbn]. split_and!; [|by eapply adv_ext|unfold avail in *; cbn in *; lia|cbn; lia].
    unfold wfl. cbn. split_and!; try done; try lia.
Qed.

Lemma align_big_arg_moved ll p :
  wfl p -> moved p (align_big_arg ll p) /\ unread (align_big_arg ll p) = unread p /\
    multibulklen (align_big_arg ll p) = multibulklen p /\ argv (align_big_arg ll p) = argv p /\
    reqtype (align_big_arg ll p) = reqtype p /\ avail (align_big_arg ll p) = avail p.
Proof.
  intros Hw. pose proof Hw as (Hpos & Hsz & Hm & Hb & Ht).
  pose proof (unread_length p Hpos) as Hl. unfold align_big_arg. destruct (_ && _).
  2: { split_and!; try done. by apply moved_refl. }
  assert (Hu : unread (set_querybuf (unread p) 0 p) = unread p) by apply drop_0.
  assert (avail (set_querybuf (unread p) 0 p) = avail p) by (unfold avail at 1; cbn; lia).
  unfold avail in Hl. split_and!; try done. split_and!; [|by exists []; rewrite Hu|lia|cbn; lia].
  unfold wfl. cbn. split_and!; try done; lia.
Qed.

Lemma bulk_header_ok p s :
  wfl p -> 0 < multibulklen p ->
  exists f, bulk_header server block_usable obuf_limit_reached p s = Some f /\
    match f with
    | Return C_ERR p' s' => p' = p /\ (s' = s \/ stopped s' = true)
    | Return C_OK _ _ => False
    | Break p' => p' = p
    | Next p' => moved p p' /\ multibulklen p' = multibulklen p /\ argv p' = argv p /\ 0 <= bulklen p'
    end.
Proof.
  intros Hw Hm. pose proof Hw as (Hpos & Hsz & _ & Hbk & Ht). unfold bulk_header.
  destruct (Z.eqb_spec (bulklen p) (-1)) as [Hb|Hb]; cbn [negb].
  2: { eexists. split; [done|]. split_and!; try done; [by apply moved_refl|lia]. }
  destruct (strchr (unread p) 13) as [newline|] eqn:En.
  2: { case_match; eexists; (split; [done|]); [|done]. split; [done|]. right. apply fail_stopped. }
  destruct (Z.ltb_spec (avail p - 2) newline); [by eexists|].
  destruct (header_line p newline) as (x & t & E & -> & Hl & Hnew & Hn); [done|done|lia|]. rewrite bind_ret.
  destruct (Z.eqb_spec x 36) as [->|]; cbn [negb]; [|eexists; split; [done|split; [done|right; apply fail_stopped]]].
  destruct (string2ll_spec (drop 1 (unread p)) (newline - 1)) as (r & -> & Hr); [by apply Hl|]. rewrite bind_ret.
  destruct r as [ll|]; [|eexists; split; [done|split; [done|right; apply fail_stopped]]].
  destruct (Hr ll) as [Hr1 _]. destruct (Hr1 eq_refl) as [Hll _].
  destruct (Z.ltb_spec ll 0); cbn [orb]; [eexists; split; [done|split; [done|right; apply fail_stopped]]|].
  destruct (_ && (_ <? ll)); [eexists; split; [done|split; [done|right; apply fail_stopped]]|].
  destruct (_ && authRequired _ _); [eexists; split; [done|split; [done|right; apply fail_stopped]]|].
  eexists. split; [done|]. set (p1 := set_pos (qb_pos p + newline + 2) p).
  assert (Hm1 : moved p p1).
  { split_and!; [unfold wfl; cbn; split_and!; done || lia| |unfold avail; cbn; lia|cbn; lia].
    unfold p1. replace (qb_pos p + newline + 2) with (qb_pos p + (newline + 2)) by lia. apply adv_skip; lia. }
  destruct (align_big_arg_moved ll p1) as (Hm2 & Hu2 & Hmb & Ha & Hty & Hav); [apply Hm1|].
  pose proof (moved_trans _ _ _ Hm1 Hm2) as ((? & ? & ? & ? & ?) & Hadv & Hav2 & Hle).
  cbn. rewrite Hmb, Ha. split_and!; try done. split_and!; [|by eapply adv_ext|done|done].
  unfold wfl. cbn. split_and!; try done; zlia.
Qed.

Lemma bulk_argument_ok p :
  wfl p -> 0 < multibulklen p -> 0 <= bulklen p ->
  exists f, bulk_argument p = Some f /\
    match f with
    | Return _ _ _ => False
    | Break p' => p' = p
    | Next p' => moved p p' /\ avail p' < avail p /\ multibulklen p' = multibulklen p - 1 /\ bulklen p' = -1 /\
        exists a, argv p' = argv p ++ [a]
    end.
Proof.
  intros Hw Hm Hb. pose proof Hw as (Hpos & Hsz & _ & Hbk & Ht). unfold bulk_argument.
  destruct (Z.ltb_spec (avail p) (u64 (s64 (bulklen p + 2)))) as [|Hge]; [by eexists|].
  assert (Hfit : bulklen p + 2 < 2 ^ 63).
  { destruct (decide (bulklen p + 2 < 2 ^ 63)); [done|]. unfold wrapu, wraps, avail in Hge. zwidth.
    Z.div_mod_to_equations. lia. }
  rewrite wraps_small, wrapu_small in * by zlia.
  destruct ((qb_pos p =? 0) && _ && _) eqn:E.
  - apply andb_true_iff in E as [[E1 E2]%andb_true_iff E3]. rewrite load_Some by lia. eexists. split; [done|].
    cbn. change (blen []) with 0. split_and!; try done; [|unfold avail; cbn; change (blen []) with 0; lia|by eexists].
    split_and!; [|exists (unread p); cbn; by rewrite app_nil_r|unfold avail|]; unfold wfl; cbn; change (blen []) with 0;
      split_and?; done || lia.
  - unfold avail in Hge. rewrite load_Some by lia. eexists. split; [done|].
    cbn. split_and!; try done; [|unfold avail; cbn; lia|by eexists].
    split_and!; [|eapply (adv_ext p (set_pos (qb_pos p + (bulklen p + 2)) p)); [apply adv_skip; lia|]|unfold avail; cbn; lia|cbn; lia].
    + unfold wfl. cbn. split_and!; done || lia.
    + unfold unread. cbn. do 2 f_equal. lia.
Qed.

(** What a request parser leaves behind. *)
Definition parsed (p : pstate) (s : session) (v : verdict) (p' : pstate) (s' : session) : Prop :=
  moved p p' /\
  match v with
  | C_OK => s' = s /\ avail p' < avail p /\ multibulklen p' = 0
  | C_ERR => stopped s' = true \/ s' = s /\ wfp p'
  end.

Lemma bulk_loop_ok fuel p s :
  wfl p -> 0 < multibulklen p -> (Z.to_nat (multibulklen p) <= fuel)%nat ->
  exists v p' s', bulk_loop server block_usable obuf_limit_reached fuel p s = Some (v, p', s') /\ parsed p s v p' s'.
Proof.
  revert p. induction fuel as [|fuel IH]; intros p Hw Hm Hf; [lia|]. cbn [bulk_loop].
  destruct (Z.eqb_spec (multibulklen p) 0); [lia|].
  destruct (bulk_header_ok p s Hw Hm) as (f & -> & Hf1). rewrite bind_ret.
  destruct f as [[] p1 s1|p1|p1]; [done|..].
  { destruct Hf1 as [-> Hs]. eexists _, _, _. split; [done|]. split; [by apply moved_refl|].
    destruct Hs as [->|]; [right|by left]. split; [done|by apply wfl_wfp]. }
  { subst p1. eexists _, _, _. split; [done|]. split; [by apply moved_refl|]. right. split; [done|by apply wfl_wfp]. }
  destruct Hf1 as (Hm1 & Hmb & _ & Hb). pose proof Hm1 as (Hw1 & _).
  destruct (bulk_argument_ok p1) as (f & -> & Hf2); [done|lia|done|]. rewrite bind_ret.
  destruct f as [|p2|p2]; [done|..].
  { subst p2. eexists _, _, _. split; [done|]. split; [done|]. right. split; [done|apply wfl_wfp; [done|lia]]. }
  destruct Hf2 as (Hm2 & Hav & Hmb2 & _). pose proof (moved_trans _ _ _ Hm1 Hm2) as Hm12.
  assert (avail p2 < avail p) by (destruct Hm1 as (_ & _ & ? & _); lia).
  destruct (decide (multibulklen p2 = 0)) as [E|].
  - exists C_OK, p2, s. split; [destruct fuel; cbn [bulk_loop]; by rewrite E|]. split; [done|]. done.
  - destruct (IH p2) as (v & p' & s' & -> & Hp & Hv); [apply Hm2|destruct Hm2 as ((?&?&?&?)&_); lia|lia|].
    eexists _, _, _. split; [done|]. split; [by eapply moved_trans|]. destruct v; [|done].
    destruct Hv as (? & ? & ?). split_and!; done || lia.
Qed.

Lemma processMultibulkBuffer_ok p s :
  wfp p -> reqtype p = PROTO_REQ_MULTIBULK ->
  exists v p' s', processMultibulkBuffer server block_usable obuf_limit_reached p s = Some (v, p', s') /\ parsed p s v p' s'.
Proof.
  intros Hw Ht. pose proof (wfp_wfl p Hw Ht) as Hwl. unfold processMultibulkBuffer.
  destruct (multibulk_header_ok p s Hw Ht) as (f & -> & Hf). rewrite bind_ret.
  destruct f as [[] p1 s1|p1|p1]; [..|done|].
  - destruct Hf as (-> & Hm & Ha & _ & Hz). by eexists _, _, _.
  - destruct Hf as [-> Hs]. eexists _, _, _. split; [done|]. split; [by apply moved_refl|]. naive_solver.
  - destruct Hf as (Hm & Hp & _). rewrite (proj2 (Z.leb_gt _ _)) by lia.
    destruct (bulk_loop_ok (Z.to_nat (multibulklen p1)) p1 s) as (v & p' & s' & -> & Hm' & Hv); [apply Hm|done|lia|].
    eexists _, _, _. split; [done|]. split; [by eapply moved_trans|]. destruct v; [|done].
    destruct Hv as (? & ? & ?). destruct Hm as (_ & _ & ? & _). split_and!; done || lia.
Qed.

(** Consuming input, for any kind of request. *)
Definition consumed (p p' : pstate) : Prop :=
  0 <= qb_pos p' <= blen (querybuf p') /\ blen (querybuf p') < 2 ^ 62 /\ adv p p' /\ avail p' <= avail p.

Lemma moved_consumed p p' : moved p p' -> consumed p p'.
Proof. intros ((? & ? & _) & ? & ? & _). done. Qed.

Lemma consumed_refl p : wfp p -> consumed p p.
Proof. intros []. split_and!; try done; try lia. apply adv_refl. Qed.

Lemma consumed_trans p1 p2 p3 : consumed p1 p2 -> consumed p2 p3 -> consumed p1 p3.
Proof. intros (? & ? & ? & ?) (? & ? & ? & ?). split_and!; [lia|lia|lia|by eapply adv_trans|lia]. Qed.

(** What processing a request does. *)
Definition request_ok (c : client) (v : verdict) (c' : client) : Prop :=
  consumed (cp c) (cp c') /\
  match v with
  | C_OK => avail (cp c') < avail (cp c)
  | C_ERR => stopped (cs c') = true \/ wfp (cp c')
  end.

Lemma strchr_line p c newline :
  strchr p c = Some newline -> newline <> 0 -> exists x, load8 p (newline - 1) = Some x.
Proof.
  intros H Hz. destruct (strchr_Some _ _ _ H) as (Hb & _).
  destruct (lookup_lt_is_Some_2 p (Z.to_nat (newline - 1))) as [x Hx]; [unfold blen in Hb; lia|].
  exists x. apply load8_Some; [lia|done].
Qed.

Lemma processInlineBuffer_ok c :
  wfp (cp c) -> exists v c', processInlineBuffer server block_usable obuf_limit_reached c = Some (v, c') /\ request_ok c v c'.
Proof.
  intros Hw. pose proof (wf_pos _ Hw) as Hpos. unfold processInlineBuffer.
  destruct (strchr (unread (cp c)) 10) as [newline|] eqn:En.
  2: { destruct (_ <? _); eexists _, _; (split; [done|]); (split; [by apply consumed_refl|]).
       - left. apply fail_stopped.
       - by right. }
  destruct (strchr_Some _ _ _ En) as (Hb & _). rewrite unread_length in Hb by done.
  assert (Hcr : exists b : bool, and_then (negb (newline =? 0)) (x ← load8 (unread (cp c)) (newline - 1); Some (x =? 13)) = Some b
    /\ (b = true -> newline <> 0)).
  { unfold and_then. destruct (Z.eqb_spec newline 0) as [->|Hz]; cbn [negb]; [by exists false|].
    destruct (strchr_line _ _ _ En Hz) as [x ->]. by eexists. }
  destruct Hcr as (b & -> & Hz). rewrite bind_ret.
  assert (Hq : exists querylen lf, (if b then (newline - 1, 2) else (newline, 1)) = (querylen, lf) /\
    0 <= querylen /\ 0 < lf /\ querylen + lf = newline + 1).
  { destruct b; eexists _, _; (split; [done|]); [|lia]. specialize (Hz eq_refl). lia. }
  destruct Hq as (querylen & lf & -> & Hq0 & Hlf & Hqs).
  rewrite load_Some, bind_ret by (rewrite ?unread_length by done; lia). set (aux := take _ _).
  destruct (args_loop_ok (S (length (aux ++ [0]))) (aux ++ [0]) []) as [args Ha]; [|lia|].
  { apply elem_of_app. right. constructor. }
  unfold sdssplitargs. rewrite Ha, bind_ret. destruct args as [args|].
  2: { eexists _, _. split; [done|]. split; [by apply consumed_refl|]. left. apply fail_stopped. }
  destruct (negb (querylen =? 0) && _).
  { eexists _, _. split; [done|]. split; [by apply consumed_refl|]. left. apply fail_stopped. }
  eexists _, _. split; [done|]. unfold request_ok. cbn [cp].
  set (p1 := set_pos _ (cp c)).
  assert (Hc1 : consumed (cp c) p1 /\ avail p1 < avail (cp c)).
  { unfold p1. replace (qb_pos (cp c) + querylen + lf) with (qb_pos (cp c) + (newline + 1)) by lia.
    unfold avail in *. split; [|cbn; lia].
    split_and!; [cbn; lia|cbn; lia|apply Hw|apply adv_skip; lia|unfold avail; cbn; lia]. }
  destruct Hc1 as [(? & ? & Hadv & ?) ?].
  destruct args; unfold consumed, avail in *; cbn in *; (split; [|done]); (split_and!; try done; try lia); by eapply adv_ext.
Qed.

Lemma find_reqtype_ok p :
  wfp p -> qb_pos p < blen (querybuf p) ->
  exists p', find_reqtype p = Some p' /\ wfp p' /\ reqtype p' <> 0 /\ consumed p p' /\ avail p' = avail p.
Proof.
  intros Hw Hlt. unfold find_reqtype. destruct (Z.eqb_spec (reqtype p) 0) as [E|E].
  2: { exists p. split_and!; try done. by apply consumed_refl. }
  pose proof (wf_pos _ Hw) as Hpos. pose proof (unread_length p Hpos) as Hl. unfold avail in Hl.
  destruct (unread p) as [|x t] eqn:Eu; [change (blen []) with 0 in Hl; lia|].
  rewrite (load8_unread p x t), bind_ret by (done || lia). eexists. split; [done|].
  assert (Hm : multibulklen p = 0).
  { destruct (decide (0 < multibulklen p)) as [H|]; [apply (wf_busy _ Hw) in H; rewrite E in H; done|].
    pose proof (wf_multi _ Hw). lia. }
  split_and!; [|by destruct (x =? 42)| |done].
  - destruct Hw. constructor; cbn; try done; [by destruct (x =? 42); auto|lia|].
    intros Hty _. destruct (Z.eqb_spec x 42) as [->|]; [|done]. by exists t.
  - destruct Hw. split_and!; cbn; try done; try lia. by exists [].
Qed.

Lemma process_request_ok c :
  wfp (cp c) -> reqtype (cp c) <> 0 ->
  exists v c', process_request server block_usable obuf_limit_reached c = Some (v, c') /\ request_ok c v c'.
Proof.
  intros Hw Ht. unfold process_request. destruct (Z.eqb_spec (reqtype (cp c)) PROTO_REQ_INLINE).
  { by apply processInlineBuffer_ok. }
  destruct (Z.eqb_spec (reqtype (cp c)) PROTO_REQ_MULTIBULK) as [E|]; [|destruct (wf_type _ Hw) as [|[|]]; done].
  destruct (processMultibulkBuffer_ok (cp c) (cs c) Hw E) as (v & p' & s' & -> & Hm & Hv). rewrite bind_ret.
  eexists _, _. split; [done|]. split; [by apply moved_consumed|]. destruct v; cbn; naive_solver.
Qed.

Lemma reset_wfp p : 0 <= qb_pos p <= blen (querybuf p) -> blen (querybuf p) < 2 ^ 62 -> wfp (reset_parse p).
Proof. intros. constructor; cbn; try done; lia. Qed.

Context {W : Type} `{!CommandServer W} (processGopherRequest : client -> session).

(** A command that is refused without freeing the client, as [QUIT] is, leaves the
    connection closing. *)
Hypothesis refused_stops : forall (w : W) s a w' s',
  processCommand w s a = (w', s', C_ERR, false) -> stopped s' = true.

Lemma commandProcessed_parse (w : W) c :
  cp (snd (commandProcessed w c)) = cp c /\ stopped (cs (snd (commandProcessed w c))) = true \/
  cp (snd (commandProcessed w c)) = reset_parse (cp c).
Proof.
  unfold commandProcessed. destruct (has (cs c) [CLIENT_BLOCKED]) eqn:E.
  - left. split; [done|]. cbn. apply has_true in E as (f & Hf & Hin). apply has_true. exists f. set_solver.
  - right. by repeat case_match.
Qed.

Lemma execute_ok (w : W) c :
  0 <= qb_pos (cp c) <= blen (querybuf (cp c)) -> blen (querybuf (cp c)) < 2 ^ 62 ->
  exists w' c' dead, processCommandAndResetClient w c = (w', c', dead) /\
    (dead = false -> wfc c' /\ unread (cp c') = unread (cp c) /\ avail (cp c') = avail (cp c)).
Proof.
  intros Hpos Hsz. unfold processCommandAndResetClient.
  destruct (processCommand w (cs c) (argv (cp c))) as [[[w1 s1] v] dead] eqn:E. destruct v.
  - destruct (commandProcessed w1 _) as [w2 c2] eqn:Ec. eexists _, _, _. split; [done|]. intros ->.
    pose proof (commandProcessed_parse w1 (mk_client s1 (cp c) (cr c))) as Hc. rewrite Ec in Hc. cbn in Hc.
    destruct Hc as [[Hcp Hst] | Hcp]; (split_and!; [|by rewrite Hcp..]); unfold wfc; rewrite Hcp; (split_and!; try (cbn; lia)).
    + congruence.
    + intros _. by apply reset_wfp.
  - eexists _, _, _. split; [done|]. intros ->. apply refused_stops in E. split_and!; [|done..].
    unfold wfc. cbn. split_and!; try lia. congruence.
Qed.

Lemma input_loop_ok fuel (w : W) c :
  wfc c -> avail (cp c) < Z.of_nat fuel ->
  exists w' c' dead, input_loop server block_usable obuf_limit_reached processGopherRequest fuel w c = Some (w', c', dead) /\
    (dead = false -> wfc c' /\ adv (cp c) (cp c')).
Proof.
  revert w c. induction fuel as [|fuel IH]; intros w c Hw Hf; cbn [input_loop];
    (destruct (Z.ltb_spec (qb_pos (cp c)) (blen (querybuf (cp c)))) as [Hlt|]; cbn [negb];
     [|eexists _, _, _; split; [done|]; intros _; split; [done|apply adv_refl]]).
  { unfold avail in Hf. lia. }
  destruct (input_blocked server (cs c)) eqn:Hblk; [eexists _, _, _; split; [done|]; intros _; split; [done|apply adv_refl]|].
  assert (Hst : stopped (cs c) = false).
  { unfold input_blocked in Hblk. apply orb_false_iff in Hblk as [[[H1 H2]%orb_false_iff _]%orb_false_iff H3].
    rewrite has_false in H1, H2, H3. apply has_false. set_solver. }
  destruct Hw as (_ & _ & Hw). specialize (Hw Hst).
  destruct (find_reqtype_ok (cp c) Hw Hlt) as (p1 & -> & Hw1 & Ht1 & Hc1 & Hav1). rewrite bind_ret.
  destruct (process_request_ok (mk_client (cs c) p1 (cr c)) Hw1 Ht1) as (v & c2 & -> & Hc2 & Hv). rewrite bind_ret.
  pose proof (consumed_trans _ _ _ Hc1 Hc2) as (Hpos & Hsz & Hadv & _). cbn in Hv.
  destruct v; [|eexists _, _, _; split; [done|]; intros _; split; [|done]; split; [done|]; split; [done|]; by destruct Hv; [congruence|]].
  destruct (is_gopher server c2).
  { eexists _, _, _. split; [done|]. intros _. split; [|done]. split; [done|]. split; [done|]. intros _. by apply reset_wfp. }
  destruct (argv (cp c2)) eqn:Ea.
  - destruct (IH w (resetClient c2)) as (w' & c' & dead & -> & Hd).
    + split; [done|]. split; [done|]. intros _. by apply reset_wfp.
    + unfold avail in *. cbn. lia.
    + eexists _, _, _. split; [done|]. intros E. destruct (Hd E) as [? Ha]. split; [done|].
      eapply adv_trans; [exact Hadv|exact Ha].
  - destruct (has (cs c2) [CLIENT_PENDING_READ]).
    { eexists _, _, _. split; [done|]. intros _. split; [|done]. split; [done|]. split; [done|]. intros H.
      apply has_false with (f := CLIENT_PENDING_COMMAND) in H; [|set_solver]. destruct H. cbn. set_solver. }
    destruct (execute_ok w c2 Hpos Hsz) as (w3 & c3 & dead & -> & Hd3).
    destruct dead; [by eexists _, _, _|]. destruct (Hd3 eq_refl) as (Hw3 & Hu3 & Hav3).
    destruct (IH w3 c3) as (w' & c' & dead & -> & Hd); [done|lia|].
    eexists _, _, _. split; [done|]. intros E. destruct (Hd E) as [? Ha]. split; [done|].
    eapply adv_trans; [|exact Ha]. by eapply adv_ext.
Qed.

Definition append_input (data : bytes) (p : pstate) : pstate := set_querybuf (querybuf p ++ data) (qb_pos p) p.

Lemma unread_append p data :
  0 <= qb_pos p <= blen (querybuf p) -> unread (append_input data p) = unread p ++ data.
Proof. intros. unfold unread. cbn. rewrite drop_app_le; [done|]. unfold blen in *. lia. Qed.

Lemma wfc_append s p r data :
  wfc (mk_client s p r) -> blen (querybuf p) + blen data < 2 ^ 62 ->
  forall s' r', (stopped s' = false -> stopped s = false) -> wfc (mk_client s' (append_input data p) r').
Proof.
  intros (Hpos & Hsz & Hw) Hb s' r' Hs. cbn in *. pose proof (blen_nonneg data).
  split; [cbn; rewrite blen_app; lia|]. split; [cbn; rewrite blen_app; lia|]. intros H'. cbn in *.
  pose proof (unread_append p data Hpos) as Hu. destruct (Hw (Hs H')).
  constructor; try done; rewrite ?Hu; cbn in *; rewrite ?blen_app; try lia.
  intros Ht Hm. destruct (wf_star0 Ht Hm) as [t ->]. by eexists.
Qed.

Lemma add_flag_stopped f s : stopped (add_flag f s) = false -> stopped s = false.
Proof.
  unfold stopped. rewrite !has_false. intros H g Hg Hin. apply (H g Hg). cbn. set_solver.
Qed.

Lemma free_stopped s : stopped (freeClientAsync s) = false -> stopped s = false.
Proof. unfold freeClientAsync. destruct (_ || _); [done|apply add_flag_stopped]. Qed.

Lemma processInputBuffer_ok (w : W) c :
  wfc c -> exists w' oc, processInputBuffer server block_usable obuf_limit_reached processGopherRequest w c = Some (w', oc) /\
    forall c', oc = Some c' -> wfc c' /\ qb_pos (cp c') = 0 /\ adv (cp c) (cp c').
Proof.
  intros Hw. unfold processInputBuffer.
  destruct (input_loop_ok (S (length (querybuf (cp c)))) w c Hw) as (w1 & c1 & dead & -> & Hd).
  { destruct Hw as (? & _). unfold avail, blen in *. lia. }
  rewrite bind_ret. eexists _, _. split; [done|]. intros c' E. destruct dead; [done|]. injection E as <-.
  destruct (Hd eq_refl) as [(Hpos & Hsz & Hw1) Hadv]. unfold trim_querybuf.
  destruct (Z.eqb_spec (qb_pos (cp c1)) 0) as [E0|]; cbn; [by destruct c1|].
  pose proof (unread_length _ Hpos) as Hl. unfold avail in Hl.
  assert (Hu : unread (set_querybuf (unread (cp c1)) 0 (cp c1)) = unread (cp c1)) by apply drop_0.
  split_and!; [|done|by eapply adv_ext]. split; [cbn; lia|]. split; [cbn; lia|].
  intros Hs. specialize (Hw1 Hs). destruct Hw1. constructor; try done; rewrite ?Hu; cbn; try done; lia.
Qed.

(** What a read event adds to the query buffer. *)
Definition arrived (s : session) (ev : conn_read) : bytes :=
  match postponeClientRead server s, ev with None, ReadData d => d | _, _ => [] end.

(** C16: arbitrary input. From any state of the request parser that input can lead
    to, and whatever arrives on the connection, reading and processing it stays
    inside the query buffer, fails no assertion and ends; the client is again in
    such a state, and what is left in its buffer is the rest of the input. *)
Theorem readQueryFromClient_safe (w : W) c ev :
  wfc c -> blen (querybuf (cp c)) + blen (arrived (cs c) ev) < 2 ^ 62 ->
  exists w' oc,
    readQueryFromClient server block_usable obuf_limit_reached processGopherRequest w c ev = Some (w', oc) /\
    forall c', oc = Some c' -> wfc c' /\ exists k, unread (cp c) ++ arrived (cs c) ev = k ++ unread (cp c').
Proof.
  intros Hw Hsz. unfold readQueryFromClient, arrived in *.
  assert (Hkeep : forall s', (stopped s' = false -> stopped (cs c) = false) -> wfc (mk_client s' (cp c) (cr c))).
  { intros s' Hs. destruct Hw as (? & ? & Hw). split; [done|]. split; [done|]. auto. }
  destruct (postponeClientRead server (cs c)) as [s'|] eqn:Ep.
  { eexists _, _. split; [done|]. intros c' [= <-]. split; [apply Hkeep|by exists []; rewrite app_nil_r].
    unfold postponeClientRead in Ep. destruct (_ && _); [|done]. injection Ep as <-. apply add_flag_stopped. }
  destruct ev as [| | |data].
  1-3: eexists _, _; (split; [done|]); intros c' [= <-]; (split; [|by exists []; rewrite app_nil_r]);
    first [done|apply Hkeep, free_stopped].
  fold (append_input data (cp c)). destruct c as [s p r0]; cbn [cs cp cr] in *.
  match goal with |- context [mk_client s (append_input data p) ?x] => generalize x; intros r end. pose proof (wfc_append s p r0 data Hw Hsz) as Happ.
  pose proof (unread_append p data (proj1 Hw)) as Hu.
  destruct (_ <? _).
  { eexists _, _. split; [done|]. intros c' [= <-]. split; [apply Happ, free_stopped|exists []; by rewrite <- Hu]. }
  destruct (processInputBuffer_ok w (mk_client s (append_input data p) r)) as (w' & oc & -> & Hoc); [by apply Happ|].
  eexists _, _. split; [done|]. intros c' E. destruct (Hoc c' E) as (? & _ & k & Hk). split; [done|].
  exists k. by rewrite <- Hu.
Qed.

End Safety.

(** ** Encoded commands *)

Definition header (x n : Z) : bytes := x :: sdec n ++ crlf.
Definition bulk (a : bytes) : bytes := header 36 (blen a) ++ a ++ crlf.
Definition encode (argv : list bytes) : bytes := header 42 (Z.of_nat (length argv)) ++ concat (bulk <$> argv).

(** A header is built in any buffer that has room for the longest number. *)
Lemma build_header k x n :
  is_s 64 n -> (23 <= k)%nat ->
  (r ← ll2string (replicate k 0) (Z.of_nat k) n;
   b ← store8 (x :: snd r) (1 + fst r) 13;
   b ← store8 b (1 + fst r + 1) 10;
   load b 0 (1 + fst r + 2)) = Some (header x n).
Proof.
  intros Hn Hk. rewrite ll2string_spec; [|done|unfold blen; rewrite length_replicate; lia].
  pose proof (sdec_length_bound n Hn) as Hb. rewrite (proj2 (Z.ltb_lt _ _)) by lia. rewrite bind_ret. cbn [fst snd].
  unfold header. set (d := sdec n) in *. rewrite drop_replicate.
  assert (Ht : exists t, replicate (k - S (length d)) 0 = 0 :: t).
  { unfold blen in Hb. destruct (k - S (length d))%nat eqn:E; [lia|]. by eexists. }
  destruct Ht as [t ->].
  change (x :: d ++ 0 :: 0 :: t) with ((x :: d) ++ 0 :: 0 :: t). rewrite store8_mid by (unfold blen; cbn; lia). rewrite bind_ret.
  replace ((x :: d) ++ 13 :: 0 :: t) with ((x :: d ++ [13]) ++ 0 :: t) by (cbn; by rewrite <- app_assoc).
  rewrite store8_mid by (unfold blen; cbn; rewrite length_app; cbn; lia). rewrite bind_ret.
  replace ((x :: d ++ [13]) ++ 10 :: t) with ((x :: d ++ crlf) ++ t) by (cbn; by rewrite <- !app_assoc).
  apply load_prefix. unfold blen. cbn. rewrite length_app. cbn. lia.
Qed.

Lemma cat_header_ok dst x n : is_s 64 n -> cat_header dst x n = Some (dst ++ header x n).
Proof.
  intros Hn. unfold cat_header. pose proof (build_header 31 x n Hn ltac:(lia)) as H.
  cbn [drop]. rewrite drop_0. change (Z.of_nat 31) with 31 in H. destruct (ll2string _ 31 n) as [r|]; [|done].
  rewrite !bind_ret in *. destruct (store8 (x :: snd r) _ _) as [b1|]; [|done]. rewrite bind_ret in *.
  destruct (store8 b1 _ _) as [b2|]; [|done]. rewrite bind_ret in *. by rewrite H.
Qed.

Lemma cat_args_ok dst argv :
  Forall (fun a => blen a < 2 ^ 63) argv -> cat_args dst argv = Some (dst ++ concat (bulk <$> argv)).
Proof.
  intros H. revert dst. induction H as [|a argv Ha H IH]; intros dst; cbn [cat_args fmap list_fmap concat]; [by rewrite app_nil_r|].
  rewrite cat_header_ok by (pose proof (blen_nonneg a); zlia). rewrite bind_ret, IH. unfold bulk at 2. by rewrite <- !app_assoc.
Qed.

Lemma catAppendOnlyGenericCommand_ok dst argv :
  Forall (fun a => blen a < 2 ^ 63) argv -> Z.of_nat (length argv) < 2 ^ 63 ->
  catAppendOnlyGenericCommand dst argv = Some (dst ++ encode argv).
Proof.
  intros H Hl. unfold catAppendOnlyGenericCommand. rewrite cat_header_ok by zlia.
  rewrite bind_ret, cat_args_ok by done. unfold encode. by rewrite <- app_assoc.
Qed.

Lemma header_length x n : blen (header x n) = blen (sdec n) + 3.
Proof. unfold header, blen. cbn. rewrite length_app. cbn. lia. Qed.

Lemma sdec_chars v : Forall (fun c => 45 <= c <= 57) (sdec v).
Proof.
  destruct (proj1 (sdec_shapes v (sdec v)) eq_refl) as [[_ ->]|(c & ds & -> & Hc & Hds & _)].
  { constructor; [lia|constructor]. }
  apply Forall_app. split; [destruct (v <? 0); constructor; [lia|constructor]|].
  constructor; [lia|]. eapply Forall_impl; [exact Hds|]. cbn. intros x Hx. apply is_digit_spec in Hx. lia.
Qed.

Lemma strchr_app (a b : bytes) c : c ∉ a -> 0 ∉ a -> strchr (a ++ c :: b) c = Some (blen a).
Proof.
  induction a as [|x a IH]; intros Hc H0; cbn.
  - by rewrite Z.eqb_refl.
  - apply not_elem_of_cons in Hc as [Hxc Hc], H0 as [Hx0 H0].
    rewrite (proj2 (Z.eqb_neq x c)), (proj2 (Z.eqb_neq x 0)), IH by congruence.
    unfold blen. cbn. f_equal. lia.
Qed.

(** The shapes of what is unread when a piece [h] is expected next. *)
Lemma expect_piece (u rest h tail : bytes) :
  u ++ rest = h ++ tail ->
  (exists u', u = h ++ u' /\ u' ++ rest = tail) \/ (rest <> [] /\ blen u < blen h /\ exists h', h = u ++ h').
Proof.
  intros E. apply app_eq_app in E as [k [[-> ->]|[-> ->]]].
  - left. by exists k.
  - destruct k as [|x k].
    + left. exists []. rewrite app_nil_r. split; [by rewrite app_nil_r|done].
    + right. split_and!; [done| |by eexists]. rewrite blen_app. unfold blen. cbn. lia.
Qed.

(** Reading a header that is complete, or finding that it is not. *)
Lemma header_read p x n rest tail :
  0 <= qb_pos p <= blen (querybuf p) -> is_s 64 n -> x <> 0 -> x <> 13 ->
  unread p ++ rest = header x n ++ tail ->
  (exists u', unread p = header x n ++ u' /\ u' ++ rest = tail /\
     strchr (unread p) 13 = Some (1 + blen (sdec n)) /\ 1 + blen (sdec n) <= avail p - 2 /\
     load8 (querybuf p) (qb_pos p) = Some x /\
     string2ll (drop 1 (unread p)) (1 + blen (sdec n) - 1) = Some (Some n)) \/
  (rest <> [] /\ avail p < 23 /\
   match strchr (unread p) 13 with None => True | Some newline => avail p - 2 < newline end).
Proof.
  intros Hpos Hn Hx0 Hx13 E. pose proof (sdec_length_bound n Hn) as Hb. pose proof (sdec_chars n) as Hch.
  rewrite Forall_forall in Hch. pose proof (unread_length p Hpos) as Hl.
  assert (Hnot : forall y, y = 0 \/ y = 13 -> y ∉ x :: sdec n).
  { intros y Hy Hin. apply elem_of_cons in Hin as [->|Hin]; [by destruct Hy|]. specialize (Hch y Hin). lia. }
  destruct (expect_piece _ _ _ _ E) as [(u' & Hu & Ht)|(Hr & Hs & h' & Hh)].
  - left. exists u'. rewrite Hu in Hl. rewrite blen_app, header_length in Hl. pose proof (blen_nonneg u').
    assert (Eu : unread p = (x :: sdec n) ++ 13 :: 10 :: u') by (rewrite Hu; unfold header, crlf; cbn; by rewrite <- app_assoc).
    split_and!; [done|done| |lia|by apply (load8_unread p x (sdec n ++ 13 :: 10 :: u')); [lia|]|].
    + rewrite Eu, strchr_app by (apply Hnot; auto). f_equal. unfold blen. cbn. lia.
    + rewrite Eu. cbn [app drop]. rewrite drop_0. replace (1 + blen (sdec n) - 1) with (blen (sdec n)) by lia.
      destruct (string2ll_spec (sdec n ++ 13 :: 10 :: u') (blen (sdec n))) as (r & -> & Hr).
      { rewrite blen_app. unfold blen. lia. }
      f_equal. apply Hr. split; [done|]. unfold blen. by rewrite Nat2Z.id, take_app_length.
  - right. rewrite header_length in Hs. split_and!; [done|lia|].
    destruct (strchr (unread p) 13) as [nl|] eqn:En; [|done].
    destruct (strchr_Some _ _ _ En) as (_ & a & b & Ea & <- & Hna).
    assert (blen a < blen (sdec n) + 1 \/ blen (sdec n) + 1 <= blen a) as [Hlt|] by lia; [exfalso|].
    + assert (Hin : (x :: sdec n) !! length a = Some 13).
      { rewrite <- (lookup_app_l (x :: sdec n) crlf) by (unfold blen in Hlt; cbn; lia).
        change ((x :: sdec n) ++ crlf) with (header x n). rewrite Hh, Ea, <- app_assoc. cbn. by apply list_lookup_middle. }
      apply list_elem_of_lookup_2 in Hin. by apply (Hnot 13) in Hin; auto.
    + lia.
Qed.

(** ** Delivery of pipelined commands *)

Definition stream (cmds : list (list bytes)) : bytes := concat (encode <$> cmds).

(** The point the parser has reached in a stream of commands: [todo] are the
    commands not yet executed and the last argument is what the parser expects. *)
Inductive at_point (p : pstate) : list (list bytes) -> bytes -> Prop :=
| at_start todo :
    multibulklen p = 0 -> bulklen p = -1 -> argv p = [] ->
    reqtype p = 0 \/ reqtype p = PROTO_REQ_MULTIBULK /\ todo <> [] ->
    at_point p todo (stream todo)
| at_arg a more todo :
    multibulklen p = Z.of_nat (length (a :: more)) -> bulklen p = -1 -> reqtype p = PROTO_REQ_MULTIBULK ->
    at_point p ((argv p ++ a :: more) :: todo) (concat (bulk <$> a :: more) ++ stream todo)
| at_bulk a more todo :
    multibulklen p = Z.of_nat (length (a :: more)) -> bulklen p = blen a -> reqtype p = PROTO_REQ_MULTIBULK ->
    at_point p ((argv p ++ a :: more) :: todo) ((a ++ crlf) ++ concat (bulk <$> more) ++ stream todo).

Definition okb (p : pstate) : Prop := 0 <= qb_pos p <= blen (querybuf p) /\ blen (querybuf p) < 2 ^ 62.

Lemma unread_at p p' h u' :
  0 <= qb_pos p -> querybuf p' = querybuf p -> qb_pos p' = qb_pos p + blen h -> unread p = h ++ u' -> unread p' = u'.
Proof.
  intros Hp Hq Hq' E. unfold unread in *. rewrite Hq, Hq'. replace (Z.to_nat (qb_pos p + blen h)) with (Z.to_nat (qb_pos p) + length h)%nat
    by (unfold blen; lia). by rewrite <- drop_drop, E, drop_app_length.
Qed.

Section Delivery.

Context (server : config) (block_usable : Z -> Z) (obuf_limit_reached : session -> bool).
Context {W : Type} `{!CommandServer W} (processGopherRequest : client -> session).

(** Whether the peer is our master. *)
Context (master : bool).

Definition arg_ok (a : bytes) : Prop :=
  (master = true \/ blen a <= proto_max_bulk_len server) /\ blen a + PROTO_IOBUF_LEN + 32 <= client_max_querybuf_len server.

Definition cmd_ok (c : list bytes) : Prop := 1 <= Z.of_nat (length c) <= 1024 * 1024 /\ Forall arg_ok c.

(** Sessions whose input is processed at once. *)
Definition serving (s : session) : Prop :=
  stopped s = false /\ has s [CLIENT_PENDING_READ] = false /\ authRequired server s = false /\ has s [CLIENT_MASTER] = master.

Hypothesis querybuf_limit : PROTO_IOBUF_LEN + 32 <= client_max_querybuf_len server < 2 ^ 61.

Lemma bulk_argument_deliver p a more rest tail :
  okb p -> multibulklen p = Z.of_nat (length (a :: more)) -> bulklen p = blen a -> reqtype p = PROTO_REQ_MULTIBULK -> arg_ok a ->
  unread p ++ rest = (a ++ crlf) ++ tail ->
  (exists p', bulk_argument p = Some (Next p') /\ okb p' /\ argv p' = argv p ++ [a] /\
     multibulklen p' = Z.of_nat (length more) /\ bulklen p' = -1 /\ reqtype p' = PROTO_REQ_MULTIBULK /\ unread p' ++ rest = tail) \/
  (bulk_argument p = Some (Break p) /\ rest <> [] /\ avail p < blen a + 2).
Proof.
  intros [Hpos Hsz] Hm Hb Ht [_ Ha] E. pose proof (unread_length p Hpos) as Hl. pose proof (blen_nonneg a).
  unfold PROTO_IOBUF_LEN in *. cbn [length] in Hm. unfold bulk_argument. rewrite Hb.
  rewrite wraps_small, wrapu_small by zlia. assert (Hc : blen (a ++ crlf) = blen a + 2) by (rewrite blen_app; unfold blen; cbn; lia).
  destruct (expect_piece _ _ _ _ E) as [(u' & Hu & Ht')|(Hr & Hs & _)].
  2: { right. rewrite (proj2 (Z.ltb_lt _ _)) by lia. split_and!; [done|done|lia]. }
  left. rewrite Hu, blen_app, Hc in Hl. pose proof (blen_nonneg u'). rewrite (proj2 (Z.ltb_ge _ _)) by lia. unfold avail in Hl.
  destruct ((qb_pos p =? 0) && _ && _) eqn:Eo.
  - apply andb_true_iff in Eo as [[E1 E2]%andb_true_iff E3].
    assert (u' = []) as -> by (destruct u'; [done|unfold blen in *; cbn in *; lia]).
    assert (Hq : querybuf p = a ++ crlf).
    { unfold unread in Hu. apply Z.eqb_eq in E1. rewrite E1, app_nil_r in Hu. exact Hu. }
    assert (Hload : load (querybuf p) 0 (blen (querybuf p) - 2) = Some a) by (rewrite Hq, Hc; apply load_prefix; lia).
    rewrite Hload, bind_ret.
    eexists. split; [done|]. split_and!; try done; cbn; lia.
  - assert (Hload : load (querybuf p) (qb_pos p) (blen a) = Some a).
    { rewrite load_Some by lia. fold (unread p). rewrite Hu, <- app_assoc. unfold blen. by rewrite Nat2Z.id, take_app_length. }
    rewrite Hload, bind_ret. eexists. split; [done|]. split_and!; try done; try (cbn; lia); [split; cbn; lia|].
    rewrite (unread_at p _ (a ++ crlf) u'); [done|lia|done|cbn; lia|done].
Qed.

Lemma bulk_header_deliver p s a rest tail :
  okb p -> bulklen p = -1 -> serving s -> arg_ok a -> unread p ++ rest = header 36 (blen a) ++ tail ->
  (exists p', bulk_header server block_usable obuf_limit_reached p s = Some (Next p') /\ okb p' /\ argv p' = argv p /\
     multibulklen p' = multibulklen p /\ bulklen p' = blen a /\ reqtype p' = reqtype p /\ unread p' ++ rest = tail) \/
  (bulk_header server block_usable obuf_limit_reached p s = Some (Break p) /\ rest <> [] /\ avail p < 23).
Proof.
  intros [Hpos Hsz] Hb (_ & _ & Hauth & Hmas) [Hmax Ha] E. pose proof (blen_nonneg a). unfold PROTO_IOBUF_LEN in *.
  unfold bulk_header. rewrite Hb. cbn [Z.eqb Pos.eqb negb].
  destruct (header_read p 36 (blen a) rest tail) as [(u' & Hu & Ht & -> & Hn & -> & Hs)|(Hr & Hv & Hn)]; try done; [zlia|..].
  - left. rewrite (proj2 (Z.ltb_ge _ _)) by lia. rewrite bind_ret. cbn [Z.eqb Pos.eqb negb]. rewrite Hs, bind_ret.
    rewrite (proj2 (Z.ltb_ge (blen a) 0)) by lia. rewrite Hauth, andb_false_r, Hmas. cbn [orb].
    replace (negb master && (proto_max_bulk_len server <? blen a)) with false
      by (destruct Hmax as [->|]; [done|]; rewrite (proj2 (Z.ltb_ge _ _)) by lia; by rewrite andb_false_r).
    eexists. split; [done|]. set (p1 := set_pos _ p).
    assert (Hu1 : unread p1 = u').
    { apply (unread_at p p1 (header 36 (blen a))); [lia|done|rewrite header_length; cbn; lia|done]. }
    pose proof (blen_nonneg (sdec (blen a))).
    assert (Hpos1 : 0 <= qb_pos p1 <= blen (querybuf p1)) by (unfold avail in Hn; cbn; lia).
    pose proof (unread_length p1 Hpos1) as Hl1. unfold avail in Hl1.
    unfold align_big_arg. destruct (_ && _); (split_and!; try done; try (cbn; lia)).
    + split; cbn; [split; lia|cbn in *; lia].
    + unfold unread at 1. cbn. by rewrite drop_0, Hu1.
    + change (unread (set_bulklen (blen a) p1)) with (unread p1). by rewrite Hu1.
  - right. split_and!; [|done|lia]. destruct (strchr _ _) as [nl|]; [by rewrite (proj2 (Z.ltb_lt _ _)) by lia|].
    unfold PROTO_INLINE_MAX_SIZE. by rewrite (proj2 (Z.ltb_ge _ _)) by lia.
Qed.

(** The parser waits inside [todo] for more input. *)
Definition waiting (p : pstate) (todo : list (list bytes)) (rest : bytes) : Prop :=
  okb p /\ at_point p todo (unread p ++ rest) /\ rest <> [] /\ avail p + PROTO_IOBUF_LEN <= client_max_querybuf_len server.

(** A command is complete. *)
Definition complete (p : pstate) (cmd : list bytes) (todo : list (list bytes)) (rest : bytes) : Prop :=
  okb p /\ argv p = cmd /\ reqtype p = PROTO_REQ_MULTIBULK /\ unread p ++ rest = stream todo.

Definition outcome (s : session) (cmd : list bytes) (todo : list (list bytes)) (rest : bytes)
    (r : option (verdict * pstate * session)) : Prop :=
  (exists p', r = Some (C_OK, p', s) /\ complete p' cmd todo rest) \/
  (exists p', r = Some (C_ERR, p', s) /\ waiting p' (cmd :: todo) rest).

(** One turn of the loop over the arguments. *)
Lemma bulk_one_deliver p s a more rest todo :
  okb p -> serving s -> arg_ok a -> reqtype p = PROTO_REQ_MULTIBULK -> multibulklen p = Z.of_nat (length (a :: more)) ->
  (bulklen p = -1 /\ unread p ++ rest = concat (bulk <$> a :: more) ++ stream todo) \/
  (bulklen p = blen a /\ unread p ++ rest = (a ++ crlf) ++ concat (bulk <$> more) ++ stream todo) ->
  (exists p1 p2, bulk_header server block_usable obuf_limit_reached p s = Some (Next p1) /\ bulk_argument p1 = Some (Next p2) /\
     okb p2 /\ argv p2 = argv p ++ [a] /\ multibulklen p2 = Z.of_nat (length more) /\ bulklen p2 = -1 /\
     reqtype p2 = PROTO_REQ_MULTIBULK /\ unread p2 ++ rest = concat (bulk <$> more) ++ stream todo) \/
  (exists p1, bulk_header server block_usable obuf_limit_reached p s = Some (Next p1) /\ bulk_argument p1 = Some (Break p1) /\
     waiting p1 ((argv p ++ a :: more) :: todo) rest) \/
  (bulk_header server block_usable obuf_limit_reached p s = Some (Break p) /\ waiting p ((argv p ++ a :: more) :: todo) rest).
Proof.
  intros Hok Hs Ha Ht Hm Hst.
  assert (Hhdr : (exists p1, bulk_header server block_usable obuf_limit_reached p s = Some (Next p1) /\ okb p1 /\ argv p1 = argv p /\
      multibulklen p1 = multibulklen p /\ bulklen p1 = blen a /\ reqtype p1 = reqtype p /\
      unread p1 ++ rest = (a ++ crlf) ++ concat (bulk <$> more) ++ stream todo) \/
    (bulk_header server block_usable obuf_limit_reached p s = Some (Break p) /\ waiting p ((argv p ++ a :: more) :: todo) rest)).
  { destruct Hst as [[Hb Hu]|[Hb Hu]].
    - assert (Hu' := Hu). cbn [fmap list_fmap concat] in Hu. unfold bulk at 1 in Hu. rewrite <- !app_assoc in Hu.
      destruct (bulk_header_deliver p s a rest _ Hok Hb Hs Ha Hu) as [(p1 & ? & ? & ? & ? & ? & ? & Hu1)|(? & ? & ?)].
      + left. exists p1. split_and!; try done. by rewrite Hu1, <- app_assoc.
      + right. split; [done|]. split_and!; [apply Hok..|rewrite Hu'; by constructor|done|unfold PROTO_IOBUF_LEN in *; lia].
    - left. exists p. split_and!; try done; try apply Hok. unfold bulk_header. rewrite Hb.
      pose proof (blen_nonneg a). by rewrite (proj2 (Z.eqb_neq _ _)) by lia. }
  destruct Hhdr as [(p1 & Eh & Hok1 & Hav1 & Hm1 & Hb1 & Ht1 & Hu1)|]; [|by right; right].
  rewrite Hm in Hm1. rewrite Ht in Ht1.
  destruct (bulk_argument_deliver p1 a more rest _ Hok1 Hm1 Hb1 Ht1 Ha Hu1) as [(p2 & ? & ? & Ha2 & ? & ? & ? & ?)|(Eb & Hr & Hv)].
  - left. exists p1, p2. rewrite <- Hav1. split_and!; try done; by destruct Hok1.
  - right. left. exists p1. split_and!; [done|done|]. split; [done|]. split; [rewrite Hu1, <- Hav1; by constructor|].
    split; [done|]. destruct Ha as [_ ?]. lia.
Qed.

Lemma bulk_loop_deliver more a p s fuel todo rest :
  okb p -> serving s -> Forall arg_ok (a :: more) -> reqtype p = PROTO_REQ_MULTIBULK ->
  multibulklen p = Z.of_nat (length (a :: more)) -> (length (a :: more) <= fuel)%nat ->
  (bulklen p = -1 /\ unread p ++ rest = concat (bulk <$> a :: more) ++ stream todo) \/
  (bulklen p = blen a /\ unread p ++ rest = (a ++ crlf) ++ concat (bulk <$> more) ++ stream todo) ->
  outcome s (argv p ++ a :: more) todo rest (bulk_loop server block_usable obuf_limit_reached fuel p s).
Proof.
  revert a p fuel. induction more as [|b more IH]; intros a p [|fuel] Hok Hs Ha Ht Hm Hf Hst; cbn [length] in Hf; try lia;
    (apply Forall_cons in Ha as [Ha Hmore]); cbn [bulk_loop]; rewrite (proj2 (Z.eqb_neq (multibulklen p) 0)) by (cbn in Hm; lia);
    (destruct (bulk_one_deliver p s a _ rest todo Hok Hs Ha Ht Hm Hst)
      as [(p1 & p2 & -> & Ea & Hok2 & Hav2 & Hm2 & Hb2 & Ht2 & Hu2)|[(p1 & -> & Ea & Hw)|[-> Hw]]]; rewrite ?bind_ret, ?Ea, ?bind_ret;
     [|right; by eexists|right; by eexists]).
  - left. exists p2. split; [destruct fuel; cbn [bulk_loop]; by rewrite Hm2|]. by rewrite <- Hav2.
  - replace (argv p ++ a :: b :: more) with (argv p2 ++ b :: more) by (rewrite Hav2; by rewrite <- app_assoc).
    apply IH; try done; [cbn [length]; lia|]. by left.
Qed.

(** A complete command leaves less input than it found. *)
Lemma stream_cons c cmds : stream (c :: cmds) = encode c ++ stream cmds.
Proof. done. Qed.

Lemma processMultibulkBuffer_deliver p s cmd todo rest :
  okb p -> serving s -> cmd_ok cmd -> reqtype p = PROTO_REQ_MULTIBULK -> at_point p (cmd :: todo) (unread p ++ rest) ->
  outcome s cmd todo rest (processMultibulkBuffer server block_usable obuf_limit_reached p s).
Proof.
  intros Hok Hs [Hlen Hargs] Ht Hat. pose proof Hok as [Hpos Hsz]. unfold processMultibulkBuffer, multibulk_header.
  remember (cmd :: todo) as all eqn:Eall. remember (unread p ++ rest) as strm eqn:Est.
  destruct Hat as [all Hm Hb Ha _|a more todo' Hm Hb _|a more todo' Hm Hb _]; subst.
  - rewrite Hm, Ha. cbn [Z.eqb negb]. rewrite stream_cons in Est. unfold encode in Est. rewrite <- app_assoc in Est.
    destruct (header_read p 42 (Z.of_nat (length cmd)) rest _ Hpos ltac:(zlia) ltac:(done) ltac:(done) (eq_sym Est))
      as [(u' & Hu & Hu' & -> & Hn & -> & Hst)|(Hr & Hv & Hn)].
    + rewrite (proj2 (Z.ltb_ge _ _)) by lia. rewrite !bind_ret. cbn [Z.eqb Pos.eqb negb]. rewrite Hst, bind_ret.
      rewrite (proj2 (Z.ltb_ge _ (Z.of_nat (length cmd)))) by lia.
      destruct Hs as (Hs1 & Hs2 & Hauth & Hmas). rewrite Hauth, andb_false_r, (proj2 (Z.leb_gt _ _)) by lia.
      rewrite bind_ret. cbn [multibulklen set_argv set_multibulklen]. rewrite (proj2 (Z.leb_gt _ _)) by lia.
      destruct cmd as [|a more]; [cbn in Hlen; lia|].
      set (p1 := set_argv _ _ _). change (a :: more) with (argv p1 ++ a :: more) at 1.
      assert (Hu1 : unread p1 = u').
      { apply (unread_at p p1 (header 42 (Z.of_nat (length (a :: more))))); [lia|done|rewrite header_length; cbn [p1 qb_pos set_argv set_multibulklen set_pos]; lia|done]. }
      pose proof (blen_nonneg (sdec (Z.of_nat (length (a :: more))))). unfold avail in Hn.
      apply bulk_loop_deliver; try done; [|lia|left; split; [done|by rewrite Hu1]].
      split; [|done]. cbn [p1 qb_pos querybuf set_argv set_multibulklen set_pos]. lia.
    + right. exists p. unfold PROTO_IOBUF_LEN in *. split.
      * destruct (strchr _ _) as [nl|]; [by rewrite (proj2 (Z.ltb_lt _ _)) by lia|].
        unfold PROTO_INLINE_MAX_SIZE. by rewrite (proj2 (Z.ltb_ge _ _)) by lia.
      * split; [done|]. split; [|split; [done|unfold PROTO_IOBUF_LEN; lia]].
        rewrite <- Est. unfold encode. rewrite app_assoc. change (at_point p (cmd :: todo) (stream (cmd :: todo))).
        constructor; try done. by right.
  - injection Eall as <- ->. rewrite (proj2 (Z.eqb_neq (multibulklen p) 0)) by (cbn in Hm; lia). cbn [negb].
    rewrite bind_ret, (proj2 (Z.leb_gt _ _)) by (cbn in Hm; lia). apply Forall_app in Hargs as [_ Hargs].
    apply bulk_loop_deliver; try done; [lia|by left].
  - injection Eall as <- ->. rewrite (proj2 (Z.eqb_neq (multibulklen p) 0)) by (cbn in Hm; lia). cbn [negb].
    rewrite bind_ret, (proj2 (Z.leb_gt _ _)) by (cbn in Hm; lia). apply Forall_app in Hargs as [_ Hargs].
    apply bulk_loop_deliver; try done; [lia|by right].
Qed.

(** ** The connection as a whole *)

Lemma del_flag_other f g s : f <> g -> f ∈ flags (del_flag g s) <-> f ∈ flags s.
Proof. intros Hf. cbn. rewrite elem_of_difference, elem_of_singleton. naive_solver. Qed.

Lemma add_flag_other f g s : f <> g -> f ∈ flags (add_flag g s) <-> f ∈ flags s.
Proof. intros Hf. cbn. rewrite elem_of_union, elem_of_singleton. naive_solver. Qed.

Lemma reset_flags_keep s f :
  f ∉ [CLIENT_ASKING; CLIENT_TRACKING_CACHING; CLIENT_REPLY_SKIP; CLIENT_REPLY_SKIP_NEXT] ->
  f ∈ flags (reset_flags s) <-> f ∈ flags s.
Proof.
  intros Hf. rewrite !not_elem_of_cons in Hf. destruct Hf as (H1 & H2 & H3 & H4 & _). unfold reset_flags.
  repeat case_match; rewrite ?del_flag_other, ?add_flag_other, ?del_flag_other by done; done.
Qed.

Lemma reset_flags_has s fs :
  Forall (fun f => f ∉ [CLIENT_ASKING; CLIENT_TRACKING_CACHING; CLIENT_REPLY_SKIP; CLIENT_REPLY_SKIP_NEXT]) fs ->
  has (reset_flags s) fs = has s fs.
Proof.
  intros Hfs. rewrite Forall_forall in Hfs. destruct (has s fs) eqn:E.
  - apply has_true in E as (f & Hf & Hin). apply has_true. exists f. split; [done|]. by apply reset_flags_keep; [apply Hfs|].
  - apply has_false. intros f Hf. rewrite reset_flags_keep by by apply Hfs. by eapply has_false.
Qed.

Ltac other_flags := by apply (bool_decide_unpack _); vm_compute.

Lemma reset_serving s : serving s -> serving (reset_flags s).
Proof.
  intros (H1 & H2 & H3 & H4). split_and!.
  - unfold stopped. rewrite reset_flags_has; [done|other_flags].
  - rewrite reset_flags_has; [done|other_flags].
  - unfold authRequired, reset_flags in *. by repeat case_match.
  - rewrite reset_flags_has; [done|other_flags].
Qed.

(** What executing a command means: its effect on the server and the session, and
    for a command from our master, the part of the stream forwarded to the
    sub-replicas, which is everything not yet forwarded, except inside [MULTI]. *)
Definition serve (st : W * session * bytes) (a : list bytes) : W * session * bytes :=
  let '(w, s, unapplied) := st in
  let '(w, s, _, _) := processCommand w s a in
  let s := reset_flags s in
  let unapplied := unapplied ++ encode a in
  if has s [CLIENT_MASTER] then
    if has s [CLIENT_MULTI] then (w, s, unapplied)
    else (replicationFeedSlavesFromMasterStream w unapplied, s, [])
  else (w, s, []).

(** The replication state of the connection to a master. *)
Definition repl_ok (r : repl) (unapplied : bytes) (todo : list (list bytes)) (rest : bytes) : Prop :=
  master = true ->
  pending_querybuf r ++ rest = unapplied ++ stream todo /\ read_reploff r = reploff r + blen (pending_querybuf r).

Context (cmds : list (list bytes)).

Hypothesis cmds_ok : Forall cmd_ok cmds.
Hypothesis not_timedout : lua_timedout server && master = false.
Hypothesis executes : forall w s a, serving s -> a ∈ cmds ->
  exists w' s', processCommand w s a = (w', s', C_OK, false) /\ serving s'.

Lemma execute_deliver w c unapplied todo rest :
  serving (cs c) -> argv (cp c) ∈ cmds -> okb (cp c) -> unread (cp c) ++ rest = stream todo ->
  repl_ok (cr c) unapplied (argv (cp c) :: todo) rest ->
  exists w' c' unapplied', processCommandAndResetClient w c = (w', c', false) /\
    serve (w, cs c, unapplied) (argv (cp c)) = (w', cs c', unapplied') /\
    serving (cs c') /\ cp c' = reset_parse (cp c) /\ repl_ok (cr c') unapplied' todo rest.
Proof.
  intros Hs Hin [Hpos _] Hu Hr. destruct (executes w (cs c) (argv (cp c)) Hs Hin) as (w1 & s1 & E & Hs1).
  unfold processCommandAndResetClient, serve. rewrite E. unfold commandProcessed. cbn [cs cp cr resetClient].
  assert (has s1 [CLIENT_BLOCKED] = false) as ->.
  { destruct Hs1 as (H & _). apply has_false. intros f Hf. apply (proj1 (has_false _ _) H f). set_solver. }
  pose proof (reset_serving s1 Hs1) as Hs2. revert Hs2. generalize (reset_flags s1).
  intros s2 Hs2. pose proof Hs2 as (_ & _ & _ & Hmas). rewrite Hmas.
  destruct master eqn:Em; [|eexists _, _, _; split; [done|]; split_and!; try done; unfold repl_ok; congruence].
  destruct (Hr Em) as [Hp Hoff]. rewrite stream_cons in Hp.
  assert (Hpend : pending_querybuf (cr c) = (unapplied ++ encode (argv (cp c))) ++ unread (cp c)).
  { apply (app_inv_tail rest). rewrite Hp, <- Hu. by rewrite <- !app_assoc. }
  destruct (has s2 [CLIENT_MULTI]); cbn [andb negb].
  - rewrite Z.sub_diag. cbn [Z.eqb]. eexists _, _, _. split_and!; try done. intros _. cbn. rewrite Hp. by rewrite <- app_assoc.
  - cbn [querybuf qb_pos reset_parse reploff pending_querybuf].
    assert (Happ : read_reploff (cr c) - blen (querybuf (cp c)) + qb_pos (cp c) - reploff (cr c) =
      blen (unapplied ++ encode (argv (cp c)))).
    { rewrite Hoff, Hpend, (blen_app (unapplied ++ _) _), (unread_length _ Hpos). unfold avail. lia. }
    assert (0 < blen (unapplied ++ encode (argv (cp c)))).
    { rewrite blen_app. unfold encode, header, blen. cbn. lia. }
    rewrite Happ, (proj2 (Z.eqb_neq _ _)) by lia. rewrite Hpend.
    assert (Hlen : Z.to_nat (blen (unapplied ++ encode (argv (cp c)))) = length (unapplied ++ encode (argv (cp c))))
      by (unfold blen; lia). rewrite Hlen, take_app_length, drop_app_length.
    eexists _, _, _. split_and!; try done. intros _. cbn. split; [by rewrite Hu|].
    rewrite (unread_length _ Hpos). unfold avail. lia.
Qed.

Lemma at_point_length p cmd todo strm : at_point p (cmd :: todo) strm -> blen (stream todo) < blen strm.
Proof.
  intros H. inversion H; subst; rewrite ?stream_cons, ?blen_app.
  - pose proof (blen_nonneg (concat (bulk <$> cmd))). unfold encode. rewrite blen_app, header_length. pose proof (blen_nonneg (sdec (Z.of_nat (length cmd)))). lia.
  - cbn [fmap list_fmap concat]. unfold bulk at 1. rewrite !blen_app, header_length.
    pose proof (blen_nonneg (sdec (blen a))). pose proof (blen_nonneg a). pose proof (blen_nonneg crlf).
    pose proof (blen_nonneg (concat (bulk <$> more))). lia.
  - pose proof (blen_nonneg a). pose proof (blen_nonneg (concat (bulk <$> more))). change (blen crlf) with 2. lia.
Qed.

Lemma at_point_reqtype p cmd todo rest :
  okb p -> at_point p (cmd :: todo) (unread p ++ rest) -> 0 < avail p ->
  exists p', find_reqtype p = Some p' /\ reqtype p' = PROTO_REQ_MULTIBULK /\ okb p' /\ unread p' = unread p /\
    at_point p' (cmd :: todo) (unread p ++ rest).
Proof.
  intros Hok Hat Hav. unfold find_reqtype. destruct (Z.eqb_spec (reqtype p) 0) as [E|E].
  - pose proof Hok as [Hpos _]. pose proof (unread_length p Hpos) as Hl.
    remember (cmd :: todo) as all. remember (unread p ++ rest) as strm eqn:Est.
    destruct Hat as [all Hm Hb Ha _|? ? ? ? ? Hty|? ? ? ? ? Hty]; [|rewrite E in Hty; done..]. subst all.
    destruct (unread p) as [|x t] eqn:Eu; [change (blen []) with 0 in Hl; lia|]. injection Est as <- Est.
    rewrite (load8_unread p 42 t), bind_ret by (done || lia). eexists. split; [done|]. split_and!; [done|apply Hok..|done|].
    apply at_start; try done. by right.
  - exists p. split_and!; try done; try apply Hok. inversion Hat; subst; try done. by destruct H4 as [?|[? _]].
Qed.

Lemma serving_input s : serving s -> input_blocked server s = false.
Proof.
  intros (H1 & _ & _ & Hm). unfold input_blocked. rewrite Hm, not_timedout, orb_false_r.
  pose proof (proj1 (has_false _ _) H1) as Hall.
  apply orb_false_iff. split; [apply orb_false_iff; split|]; apply has_false; intros f Hf; apply Hall; set_solver.
Qed.

(** What the processing of the buffered input amounts to. *)
Definition processed (w : W) (c : client) (unapplied : bytes) (todo : list (list bytes)) (rest : bytes) (w' : W) (c' : client) : Prop :=
  exists finished todo' unapplied', todo = finished ++ todo' /\
    fold_left serve finished (w, cs c, unapplied) = (w', cs c', unapplied') /\
    serving (cs c') /\ okb (cp c') /\ at_point (cp c') todo' (unread (cp c') ++ rest) /\
    repl_ok (cr c') unapplied' todo' rest /\ avail (cp c') + PROTO_IOBUF_LEN <= client_max_querybuf_len server /\
    (rest = [] -> todo' = []).

(** One turn of the loop over the buffered commands. *)
Lemma input_step_deliver cmd todo fuel w c unapplied rest :
  okb (cp c) -> serving (cs c) -> cmd ∈ cmds ->
  at_point (cp c) (cmd :: todo) (unread (cp c) ++ rest) -> repl_ok (cr c) unapplied (cmd :: todo) rest -> 0 < avail (cp c) ->
  let loop := input_loop server block_usable obuf_limit_reached processGopherRequest in
  (exists p', loop (S fuel) w c = Some (w, mk_client (cs c) p' (cr c), false) /\ waiting p' (cmd :: todo) rest) \/
  (exists w' c' unapplied', loop (S fuel) w c = loop fuel w' c' /\
     serve (w, cs c, unapplied) cmd = (w', cs c', unapplied') /\ serving (cs c') /\ okb (cp c') /\
     at_point (cp c') todo (unread (cp c') ++ rest) /\ repl_ok (cr c') unapplied' todo rest /\ avail (cp c') < avail (cp c)).
Proof.
  intros Hok Hs Hcmd Hat Hr Hav loop. pose proof Hok as [Hpos Hsz]. pose proof (proj1 (Forall_forall _ _) cmds_ok cmd Hcmd) as Hcok.
  unfold loop. cbn [input_loop]. unfold avail in Hav. rewrite (proj2 (Z.ltb_lt _ _)) by lia.
  rewrite serving_input by done. cbn [negb].
  destruct (at_point_reqtype (cp c) cmd todo rest Hok Hat) as (p1 & -> & Ht1 & Hok1 & Hu1 & Hat1); [unfold avail; lia|].
  rewrite bind_ret. unfold process_request. cbn [cp cs cr]. rewrite Ht1. cbn [Z.eqb Pos.eqb PROTO_REQ_INLINE PROTO_REQ_MULTIBULK].
  rewrite <- Hu1 in Hat1.
  destruct (processMultibulkBuffer_deliver p1 (cs c) cmd todo rest Hok1 Hs Hcok Ht1 Hat1)
    as [(p2 & -> & Hok2 & Ha2 & Ht2 & Hu2)|(p2 & -> & Hw)]; rewrite bind_ret, bind_ret; [right|left; by exists p2].
  unfold is_gopher. cbn [cp cs]. rewrite Ht2. cbn [Z.eqb Pos.eqb PROTO_REQ_INLINE PROTO_REQ_MULTIBULK andb].
  destruct (argv p2) as [|a0 l0] eqn:Eargv; [subst cmd; destruct Hcok as [? _]; cbn in *; lia|].
  assert (has (cs c) [CLIENT_PENDING_READ] = false) as -> by apply Hs.
  destruct (execute_deliver w (mk_client (cs c) p2 (cr c)) unapplied todo rest) as (w3 & c3 & ua3 & -> & Hsv & Hs3 & Hcp3 & Hr3);
    cbn [cp cs cr]; try done; [by rewrite Eargv, Ha2|by rewrite Eargv, Ha2|].
  cbn [cp cs cr] in Hsv, Hcp3. rewrite Eargv, Ha2 in Hsv.
  assert (Hu3 : unread (cp c3) = unread p2) by by rewrite Hcp3.
  assert (Hok3 : okb (cp c3)) by by rewrite Hcp3.
  exists w3, c3, ua3. split_and!; try done; try apply Hok3.
  - rewrite Hu3, Hu2, Hcp3. apply at_start; try done. by left.
  - apply at_point_length in Hat. apply (f_equal blen) in Hu2. rewrite <- Hu3 in Hu2. rewrite blen_app in *.
    rewrite <- (unread_length _ (proj1 Hok3)), <- (unread_length _ Hpos). lia.
Qed.

Lemma input_loop_deliver todo fuel w c unapplied rest :
  okb (cp c) -> serving (cs c) -> (forall a, a ∈ todo -> a ∈ cmds) ->
  at_point (cp c) todo (unread (cp c) ++ rest) -> repl_ok (cr c) unapplied todo rest -> avail (cp c) < Z.of_nat fuel ->
  exists w' c', input_loop server block_usable obuf_limit_reached processGopherRequest fuel w c = Some (w', c', false) /\
    processed w c unapplied todo rest w' c'.
Proof.
  revert fuel w c unapplied. induction todo as [|cmd todo IH]; intros fuel w c unapplied Hok Hs Hsub Hat Hr Hf;
    pose proof Hok as [Hpos Hsz]; pose proof (unread_length _ Hpos) as Hl.
  - inversion Hat as [? Hm Hb Ha Hty Et Est| |]. subst. cbn in Est.
    destruct (unread (cp c)) as [|? ?] eqn:Eu; [|done]. cbn in Est. subst rest. change (blen []) with 0 in Hl.
    exists w, c. split; [destruct fuel; cbn [input_loop]; unfold avail in Hl; by rewrite (proj2 (Z.ltb_ge _ _)) by lia|].
    exists [], [], unapplied. split_and!; try done; [|lia]. rewrite Eu. by apply at_start.
  - destruct (decide (avail (cp c) = 0)) as [Hz|Hz].
    { exists w, c. split; [destruct fuel; cbn [input_loop]; unfold avail in Hz; by rewrite (proj2 (Z.ltb_ge _ _)) by lia|].
      exists [], (cmd :: todo), unapplied. split_and!; try done; [lia|]. intros ->. apply at_point_length in Hat.
      rewrite app_nil_r in Hat. pose proof (blen_nonneg (stream todo)). lia. }
    assert (Hav : 0 < avail (cp c)) by (unfold avail in *; lia). destruct fuel as [|fuel]; [lia|].
    destruct (input_step_deliver cmd todo fuel w c unapplied rest Hok Hs (Hsub cmd ltac:(by left)) Hat Hr Hav)
      as [(p' & -> & Hok' & Hat' & Hne & Hsm)|(w1 & c1 & ua1 & -> & Hsv & Hs1 & Hok1 & Hat1 & Hr1 & Hav1)].
    + exists w, (mk_client (cs c) p' (cr c)). split; [done|]. exists [], (cmd :: todo), unapplied.
      split_and!; try done; apply Hok'.
    + destruct (IH fuel w1 c1 ua1) as (w' & c' & -> & fin & todo' & ua' & -> & Hfold & Hrest); try done; [|lia|].
      { intros a Ha. apply Hsub. by right. }
      exists w', c'. split; [done|]. exists (cmd :: fin), todo', ua'. split; [done|]. split; [|done].
      cbn [fold_left]. by rewrite Hsv.
Qed.

Lemma at_point_ext p p' todo strm :
  multibulklen p' = multibulklen p -> bulklen p' = bulklen p -> argv p' = argv p -> reqtype p' = reqtype p ->
  at_point p todo strm -> at_point p' todo strm.
Proof.
  intros Hm Hb Ha Ht H. destruct H as [todo ? ? ? ?|a more todo ? ? ?|a more todo ? ? ?]; rewrite <- ?Ha; constructor; congruence.
Qed.

(** A connection at rest between two reads, [rest] being what the peer still sends. *)
Definition conn_ok (start : W * session * bytes) (w : W) (c : client) (rest : bytes) : Prop :=
  exists finished todo unapplied, cmds = finished ++ todo /\
    fold_left serve finished start = (w, cs c, unapplied) /\ serving (cs c) /\
    qb_pos (cp c) = 0 /\ at_point (cp c) todo (querybuf (cp c) ++ rest) /\ repl_ok (cr c) unapplied todo rest /\
    blen (querybuf (cp c)) + PROTO_IOBUF_LEN <= client_max_querybuf_len server /\ (rest = [] -> todo = []).

Hypothesis no_io_threads : io_threads_do_reads server = false.

Lemma read_deliver start w c data rest :
  conn_ok start w c (data ++ rest) -> data <> [] -> blen data <= read_length (cp c) ->
  exists w' c', readQueryFromClient server block_usable obuf_limit_reached processGopherRequest w c (ReadData data) = Some (w', Some c') /\
    conn_ok start w' c' rest.
Proof.
  intros (fin & todo & ua & Hc & Hfold & Hs & Hpos & Hat & Hr & Hsm & _) Hne Hlen.
  assert (Hdl : blen data <= PROTO_IOBUF_LEN) by (unfold read_length in Hlen; repeat case_match; lia).
  unfold readQueryFromClient, postponeClientRead. rewrite no_io_threads, andb_false_r. cbn [andb].
  fold (append_input data (cp c)). cbn [querybuf append_input set_querybuf].
  rewrite (proj2 (Z.ltb_ge _ _)) by (rewrite blen_app; lia).
  match goal with |- context [mk_client (cs c) (append_input data (cp c)) ?x] => set (r := x) end.
  set (p1 := append_input data (cp c)).
  assert (Hq1 : querybuf p1 = querybuf (cp c) ++ data) by done.
  assert (Hu1 : unread p1 = querybuf p1) by (unfold unread; cbn; by rewrite Hpos).
  assert (Hat1 : at_point p1 todo (unread p1 ++ rest)).
  { rewrite Hu1, Hq1, <- app_assoc. by apply (at_point_ext (cp c)). }
  assert (Hr1 : repl_ok r ua todo rest).
  { intros Hm. destruct (Hr Hm) as [Hp Hoff]. assert (Hmas : has (cs c) [CLIENT_MASTER] = true) by (rewrite <- Hm; apply Hs).
    unfold r. rewrite Hmas. cbn. rewrite <- app_assoc, blen_app. split; [done|lia]. }
  assert (Hok1 : okb p1) by (split; [cbn; rewrite blen_app; unfold blen; lia|rewrite Hq1, blen_app; lia]).
  unfold processInputBuffer. cbn [cp].
  destruct (input_loop_deliver todo (S (length (querybuf p1))) w (mk_client (cs c) p1 r) ua rest)
    as (w' & c' & -> & fin' & todo' & ua' & -> & Hfold' & Hs' & [Hpos' Hsz'] & Hat' & Hr' & Hsm' & Hz); try done.
  { intros a Ha. rewrite Hc. apply elem_of_app. by right. }
  { unfold avail, blen. cbn. rewrite Hpos. lia. }
  rewrite bind_ret. eexists _, _. split; [done|]. exists (fin ++ fin'), todo', ua'. cbn [cp cs cr] in *.
  rewrite <- (unread_length _ Hpos') in Hsm'.
  assert (Htrim : qb_pos (trim_querybuf (cp c')) = 0 /\ querybuf (trim_querybuf (cp c')) = unread (cp c')).
  { unfold trim_querybuf, unread. destruct (Z.eqb_spec (qb_pos (cp c')) 0) as [E0|]; [by rewrite E0|done]. }
  destruct Htrim as [-> ->]. split_and!; try done.
  - by rewrite <- app_assoc.
  - by rewrite fold_left_app, Hfold.
  - eapply at_point_ext; [..|exact Hat']; unfold trim_querybuf; by destruct (_ =? 0).
Qed.

End Delivery.

(** The concatenation of encoded commands, as the append only file and the
    replication stream accumulate it. *)
Fixpoint cat_commands (dst : bytes) (cmds : list (list bytes)) : option bytes :=
  match cmds with
  | [] => Some dst
  | a :: cmds => dst ← catAppendOnlyGenericCommand dst a; cat_commands dst cmds
  end.

Section Connection.

Context (server : config) (block_usable : Z -> Z) (obuf_limit_reached : session -> bool).
Context {W : Type} `{!CommandServer W} (processGopherRequest : client -> session).

(** The connection delivers the next bytes, in pieces of any size up to what is
    asked for. *)
Inductive delivery : W * client * bytes -> W * client * bytes -> Prop :=
| deliver w c data rest w' c' :
    data <> [] -> blen data <= read_length (cp c) ->
    readQueryFromClient server block_usable obuf_limit_reached processGopherRequest w c (ReadData data) = Some (w', Some c') ->
    delivery (w, c, data ++ rest) (w', c', rest).

(** A client as [createClient] leaves it. *)
Definition fresh (c : client) : Prop :=
  cp c = mk_pstate [] 0 0 0 (-1) [] 0 /\ pending_querybuf (cr c) = [] /\ read_reploff (cr c) = reploff (cr c).

Lemma cat_commands_ok (master : bool) dst cmds :
  client_max_querybuf_len server < 2 ^ 61 -> Forall (cmd_ok server master) cmds -> cat_commands dst cmds = Some (dst ++ stream cmds).
Proof.
  intros Hmax H. revert dst. induction H as [|a cmds [Hl Ha] _ IH]; intros dst; cbn [cat_commands]; [by rewrite app_nil_r|].
  rewrite catAppendOnlyGenericCommand_ok, bind_ret, IH; [by rewrite stream_cons, app_assoc| |lia].
  eapply Forall_impl; [exact Ha|]. cbn. intros x [_ Hx]. unfold PROTO_IOBUF_LEN in Hx. lia.
Qed.

(** C7: pipelined commands. Whatever commands a peer encodes and sends, one after
    the other, and however the bytes are cut into reads, the server executes
    exactly those commands, in order and once, as soon as their last byte is there;
    for a connection to a master, what it forwards to its own replicas is exactly
    the part of the stream that it has executed. *)
Theorem commands_delivered (master : bool) (cmds : list (list bytes)) w0 c0 :
  PROTO_IOBUF_LEN + 32 <= client_max_querybuf_len server < 2 ^ 61 ->
  Forall (cmd_ok server master) cmds ->
  lua_timedout server && master = false -> io_threads_do_reads server = false ->
  (forall w s a, serving server master s -> a ∈ cmds ->
     exists w' s', processCommand w s a = (w', s', C_OK, false) /\ serving server master s') ->
  fresh c0 -> serving server master (cs c0) ->
  exists input, cat_commands [] cmds = Some input /\
  forall w c rest, rtc delivery (w0, c0, input) (w, c, rest) ->
    (exists finished todo unapplied, cmds = finished ++ todo /\
       fold_left serve finished (w0, cs c0, []) = (w, cs c, unapplied) /\
       (rest = [] -> todo = [] /\ (master = true -> read_reploff (cr c) = reploff (cr c) + blen unapplied))) /\
    (forall data rest', rest = data ++ rest' -> data <> [] -> blen data <= read_length (cp c) ->
       exists w' c', delivery (w, c, rest) (w', c', rest')).
Proof.
  intros Hlim Hok Hlua Hio Hexec (Hp & Hpend & Hoff) Hs. exists (stream cmds).
  split; [by apply (cat_commands_ok master); [lia|]|]. intros w c rest Hrun.
  assert (Hinv : conn_ok server master cmds (w0, cs c0, []) w c rest).
  { pose (Inv := fun st : W * client * bytes => let '(w, c, r) := st in conn_ok server master cmds (w0, cs c0, []) w c r).
    change (Inv (w, c, rest)). eapply (rtc_ind_r Inv); [..|exact Hrun].
    - exists [], cmds, []. rewrite Hp. split_and!; try done; cbn.
      + apply at_start; try done. by left.
      + intros _. by rewrite Hpend, Hoff, Z.add_0_r.
      + change (blen []) with 0. lia.
      + destruct cmds; [done|]. done.
    - intros st st' _ Hstep Hst. destruct Hstep as [w1 c1 data r1 w2 c2 Hne Hlen E].
      destruct (read_deliver server block_usable obuf_limit_reached processGopherRequest master Hlim cmds Hok Hlua Hexec Hio
        _ w1 c1 data r1 Hst Hne Hlen) as (w' & c' & E' & Hc'). rewrite E in E'. by injection E' as -> ->. }
  split.
  - destruct Hinv as (fin & todo & ua & Hc & Hf & _ & _ & _ & Hr & _ & Hz). exists fin, todo, ua. split_and!; try done.
    intros Hrest. split; [by apply Hz|]. intros Hm. destruct (Hr Hm) as [Hpq Ho].
    rewrite Hrest, (Hz Hrest), !app_nil_r in Hpq. by rewrite <- Hpq.
  - intros data rest' -> Hne Hlen.
    destruct (read_deliver server block_usable obuf_limit_reached processGopherRequest master Hlim cmds Hok Hlua Hexec Hio
      _ w c data rest' Hinv Hne Hlen) as (w' & c' & E & _). exists w', c'. by constructor.
Qed.

End Connection.

(** ** Replies *)

Section Replies.

Context (block_usable : Z -> Z) (obuf_limit_reached : session -> bool).

(** The allocator gives at least what is asked for, and the client's class has no
    limit on its output buffers, as is the default for normal clients. *)
Hypothesis usable_enough : forall n, n <= block_usable n.
Hypothesis no_limit : forall s, obuf_limit_reached s = false.

(** The bytes that will be written to the client. *)
Definition blocks (r : list (option clientReplyBlock)) : bytes := concat (b_buf <$> omap id r).
Definition out (s : session) : bytes := buf s ++ blocks (reply s).

Definition out_ok (s : session) : Prop :=
  Forall (fun o => match o with Some b => blen (b_buf b) <= b_size b | None => True end) (reply s).

(** A session replies are queued for. *)
Definition writable (s : session) : Prop :=
  prepareClientToWrite s = C_OK /\ has s [CLIENT_CLOSE_AFTER_REPLY] = false /\ out_ok s.

(** [s'] is [s] with [p] queued. *)
Definition queued (s : session) (p : bytes) (s' : session) : Prop :=
  out s' = out s ++ p /\ writable s' /\ resp s' = resp s.

Lemma set_out_writable s b r :
  writable s -> out_ok (set_out b r s) -> writable (set_out b r s).
Proof. intros (H1 & H2 & _) H. split_and!; done. Qed.

Lemma blocks_app r r' : blocks (r ++ r') = blocks r ++ blocks r'.
Proof. unfold blocks. by rewrite omap_app, fmap_app, concat_app. Qed.

Lemma fill_tail_ok r p r' rest :
  Forall (fun o => match o with Some b => blen (b_buf b) <= b_size b | None => True end) r ->
  fill_tail r p = (r', rest) ->
  blocks r' ++ rest = blocks r ++ p /\
  Forall (fun o => match o with Some b => blen (b_buf b) <= b_size b | None => True end) r'.
Proof.
  intros Hr. unfold fill_tail. destruct (last r) as [[tail|]|] eqn:El; [|by intros [= <- <-]..].
  apply last_Some in El as [r0 ->]. apply Forall_app in Hr as [Hr0 Ht]. rewrite Forall_singleton in Ht.
  intros [= <- <-]. rewrite length_app. cbn [length]. rewrite Nat.add_sub, take_app_length. split.
  - rewrite !blocks_app. unfold blocks at 2 4. cbn. rewrite !app_nil_r, <- !app_assoc. by rewrite take_drop.
  - apply Forall_app. split; [done|]. apply Forall_singleton. cbn. rewrite blen_app.
    destruct (Z.leb_spec (blen p) (b_size tail - blen (b_buf tail))); unfold blen in *; rewrite length_take; lia.
Qed.

Lemma addReplyProto_queued s p : writable s -> queued s p (addReplyProto block_usable obuf_limit_reached s p).
Proof.
  intros Hw. pose proof Hw as (Hprep & Hca & Hok). unfold addReplyProto, _addReplyToBuffer. rewrite Hprep, Hca.
  assert (Hlist : queued s p (_addReplyProtoToList block_usable obuf_limit_reached s p)).
  { unfold _addReplyProtoToList. rewrite Hca. destruct (fill_tail (reply s) p) as [r rest] eqn:Ef.
    destruct (fill_tail_ok _ _ _ _ Hok Ef) as [Hb Hr]. destruct rest as [|x rest].
    - rewrite app_nil_r in Hb. split; [|by split; [apply set_out_writable|]]. unfold out. cbn [buf reply set_out]. by rewrite Hb, app_assoc.
    - rewrite no_limit. split; [|split; [apply set_out_writable; [done|]|done]].
      + unfold out. cbn [buf reply set_out]. rewrite blocks_app, <- app_assoc, <- Hb. unfold blocks at 2. cbn. by rewrite app_nil_r.
      + unfold out_ok. cbn [reply set_out]. apply Forall_app. split; [done|]. apply Forall_singleton. cbn [b_buf b_size].
        etrans; [|apply usable_enough]. destruct (Z.ltb_spec (blen (x :: rest)) PROTO_REPLY_CHUNK_BYTES); lia. }
  destruct (reply s) eqn:Er; [|exact Hlist]. destruct (_ <? _); [exact Hlist|].
  split; [|split; [apply set_out_writable; [done|constructor]|done]].
  unfold out. cbn. rewrite Er. unfold blocks. cbn. by rewrite !app_nil_r.
Qed.

Lemma queued_trans s p s1 q s2 : queued s p s1 -> queued s1 q s2 -> queued s (p ++ q) s2.
Proof. intros (H1 & _ & R1) (H2 & W2 & R2). split; [by rewrite H2, H1, app_assoc|]. split; [done|congruence]. Qed.

Lemma shared_hdr_length ll : 0 <= ll < OBJ_SHARED_BULKHDR_LEN -> OBJ_SHARED_HDR_STRLEN ll = blen (udec ll) + 3.
Proof.
  unfold OBJ_SHARED_BULKHDR_LEN, OBJ_SHARED_HDR_STRLEN. intros H. destruct (Z.ltb_spec ll 10).
  - by rewrite udec_small by lia.
  - rewrite udec_pair by lia. done.
Qed.

Lemma addReplyLongLongWithPrefix_ok s ll x :
  writable s -> is_s 64 ll ->
  exists s', addReplyLongLongWithPrefix block_usable obuf_limit_reached s ll x = Some s' /\ queued s (header x ll) s'.
Proof.
  intros Hw Hll. unfold addReplyLongLongWithPrefix. destruct (_ && (_ || _)) eqn:E.
  - apply andb_true_iff in E as [E _]. assert (Hr : 0 <= ll < OBJ_SHARED_BULKHDR_LEN) by lia.
    assert (Eh : shared_hdr x ll = header x ll).
    { unfold shared_hdr, header, sdec. by rewrite (proj2 (Z.ltb_ge ll 0)) by lia. }
    rewrite <- (app_nil_r (shared_hdr x ll)), load_prefix, Eh, bind_ret.
    + eexists. split; [done|]. by apply addReplyProto_queued.
    + rewrite shared_hdr_length, Eh, header_length by done. unfold sdec. by rewrite (proj2 (Z.ltb_ge ll 0)) by lia.
  - pose proof (build_header 127 x ll Hll ltac:(lia)) as H. cbn [drop]. rewrite drop_0. change (Z.of_nat 127) with 127 in H.
    destruct (ll2string _ 127 ll) as [r|]; [|done]. rewrite !bind_ret in *.
    replace (fst r + 1) with (1 + fst r) by lia. replace (fst r + 2) with (1 + fst r + 1) by lia.
    replace (fst r + 3) with (1 + fst r + 2) by lia.
    destruct (store8 (x :: snd r) _ _) as [b1|]; [|done]. cbn [mbind option_bind] in H |- *.
    destruct (store8 b1 _ _) as [b2|]; [|done]. cbn [mbind option_bind] in H |- *. rewrite H. cbn [mbind option_bind].
    eexists. split; [done|]. by apply addReplyProto_queued.
Qed.

Lemma addReplyBulkCBuffer_ok s p :
  writable s -> blen p < 2 ^ 63 ->
  exists s', addReplyBulkCBuffer block_usable obuf_limit_reached s p = Some s' /\ queued s (bulk p) s'.
Proof.
  intros Hw Hp. unfold addReplyBulkCBuffer. pose proof (blen_nonneg p).
  destruct (addReplyLongLongWithPrefix_ok s (blen p) 36 Hw) as (s1 & -> & Q1); [zlia|]. rewrite bind_ret.
  eexists. split; [done|]. pose proof (addReplyProto_queued s1 p (proj1 (proj2 Q1))) as Q2.
  pose proof (addReplyProto_queued _ crlf (proj1 (proj2 Q2))) as Q3. unfold bulk.
  eapply queued_trans; [exact Q1|]. by eapply queued_trans.
Qed.

(** The bulk strings of an array reply, one after the other. *)
Fixpoint addReplyBulks (s : session) (l : list bytes) : option session :=
  match l with
  | [] => Some s
  | p :: l => s ← addReplyBulkCBuffer block_usable obuf_limit_reached s p; addReplyBulks s l
  end.

Lemma addReplyBulks_ok l s :
  writable s -> Forall (fun p => blen p < 2 ^ 63) l ->
  exists s', addReplyBulks s l = Some s' /\ queued s (concat (bulk <$> l)) s'.
Proof.
  intros Hw Hl. revert s Hw. induction Hl as [|p l Hp _ IH]; intros s Hw; cbn [addReplyBulks].
  - exists s. split; [done|]. split; [by rewrite app_nil_r|done].
  - destruct (addReplyBulkCBuffer_ok s p Hw Hp) as (s1 & -> & Q1). rewrite bind_ret.
    destruct (IH s1 (proj1 (proj2 Q1))) as (s2 & -> & Q2). exists s2. split; [done|]. by eapply queued_trans.
Qed.

(** C36: replies. Whether they come from the shared headers or are printed, fit the
    static buffer or spill into reply blocks, replies appear in the output in the
    order they were added and in their encoding: an integer reply, an array header
    followed by bulk strings (which is the encoding of a command), and the lengths
    of maps and sets in the version of the protocol the client speaks. *)
Theorem replies_encoded s ll (l : list bytes) :
  writable s -> is_s 64 ll -> Forall (fun p => blen p < 2 ^ 63) l -> Z.of_nat (length l) < 2 ^ 62 ->
  (exists s', addReplyLongLong block_usable obuf_limit_reached s ll = Some s' /\ queued s (header 58 ll) s') /\
  (exists s1 s2, addReplyArrayLen block_usable obuf_limit_reached s (Z.of_nat (length l)) = Some s1 /\
     addReplyBulks s1 l = Some s2 /\ queued s (encode l) s2) /\
  (exists s', addReplyMapLen block_usable obuf_limit_reached s (Z.of_nat (length l)) = Some s' /\
     queued s (if resp s =? 2 then header 42 (2 * Z.of_nat (length l)) else header 37 (Z.of_nat (length l))) s') /\
  (exists s', addReplySetLen block_usable obuf_limit_reached s (Z.of_nat (length l)) = Some s' /\
     queued s (header (if resp s =? 2 then 42 else 126) (Z.of_nat (length l))) s').
Proof.
  intros Hw Hll Hl Hlen. unfold addReplyArrayLen, addReplyMapLen, addReplySetLen, addReplyAggregateLen. split; [|split; [|split]].
  - unfold addReplyLongLong. destruct (Z.eqb_spec ll 0) as [->|]; [eexists; split; [done|by apply addReplyProto_queued]|].
    destruct (Z.eqb_spec ll 1) as [->|]; [eexists; split; [done|by apply addReplyProto_queued]|].
    by apply addReplyLongLongWithPrefix_ok.
  - rewrite (proj2 (Z.ltb_ge (Z.of_nat (length l)) 0)) by lia.
    destruct (addReplyLongLongWithPrefix_ok s (Z.of_nat (length l)) 42 Hw) as (s1 & -> & Q1); [zlia|].
    destruct (addReplyBulks_ok l s1 (proj1 (proj2 Q1)) Hl) as (s2 & Eb & Q2). exists s1, s2. split; [done|]. split; [exact Eb|].
    exact (queued_trans _ _ _ _ _ Q1 Q2).
  - destruct (resp s =? 2); rewrite ?(Z.mul_comm 2), (proj2 (Z.ltb_ge _ 0)) by lia;
      apply addReplyLongLongWithPrefix_ok; try done; zlia.
  - rewrite (proj2 (Z.ltb_ge (Z.of_nat (length l)) 0)) by lia. apply addReplyLongLongWithPrefix_ok; [done|zlia].
Qed.

End Replies.

(** ** A concrete server *)

(** Records the commands executed and the stream forwarded. *)
#[export] Instance log_server : CommandServer (list (list bytes) * bytes) := {|
  processCommand := fun w s a => ((fst w ++ [a], snd w), s, C_OK, false);
  replicationFeedSlavesFromMasterStream := fun w b => (fst w, snd w ++ b);
|}.

Definition demo_config : config := mk_config (512 * 1024 * 1024) (1024 * 1024 * 1024) true false false false false false false 0.
Definition demo_session (f : gset client_flag) : session := mk_session f None false true 2 [] [].
Definition demo_client (f : gset client_flag) : client :=
  mk_client (demo_session f) (mk_pstate [] 0 0 0 (-1) [] 0) (mk_repl 100 100 [] 0).
Definition demo_cmds : list (list bytes) := [[[80; 73; 78; 71]]; [[71; 69; 84]; [107; 13; 10]]].

Lemma demo_serving : serving demo_config true (demo_session {[CLIENT_MASTER]}).
Proof. by vm_compute. Qed.

Lemma demo_cmds_ok : Forall (cmd_ok demo_config true) demo_cmds.
Proof.
  repeat (constructor || (apply Forall_cons; split)); try done; try (by left); vm_compute; congruence.
Qed.

Lemma commands_delivered_witness :
  exists input, cat_commands [] demo_cmds = Some input /\
  forall w c, rtc (delivery demo_config id (fun _ => false) cs) (([], []), demo_client {[CLIENT_MASTER]}, input) (w, c, []) ->
    w = (demo_cmds, input) /\ reploff (cr c) = read_reploff (cr c).
Proof.
  destruct (commands_delivered demo_config id (fun _ => false) cs true demo_cmds ([], []) (demo_client {[CLIENT_MASTER]}))
    as (input & Hin & H).
  - split; vm_compute; congruence.
  - exact demo_cmds_ok.
  - done.
  - done.
  - intros w s a Hs _. by eexists _, _.
  - done.
  - exact demo_serving.
  - exists input. split; [exact Hin|]. intros w c Hrun.
    destruct (H w c [] Hrun) as [(fin & todo & ua & Hc & Hf & Hz) _]. destruct (Hz eq_refl) as [-> Ho].
    rewrite app_nil_r in Hc. subst fin. vm_compute in Hin. injection Hin as <-.
    pose proof (f_equal (fun st => fst (fst st)) Hf) as Hw. pose proof (f_equal snd Hf) as Hua. cbn [fst snd] in Hw, Hua.
    split; [rewrite <- Hw; by vm_compute|]. rewrite (Ho eq_refl), <- Hua. vm_compute (blen _). lia.
Defined.

Lemma readQueryFromClient_witness :
  exists w' oc, readQueryFromClient demo_config id (fun _ => false) cs ([], []) (demo_client ∅)
      (ReadData [42; 49; 13; 10; 36; 45]) = Some (w', oc) /\ forall c', oc = Some c' -> wfc c'.
Proof.
  assert (Hstop : forall (w : list (list bytes) * bytes) s a w' s', processCommand w s a = (w', s', C_ERR, false) -> stopped s' = true).
  { intros w s a w' s' E. cbn in E. congruence. }
  destruct (readQueryFromClient_safe demo_config id (fun _ => false) cs Hstop
    ([], []) (demo_client ∅) (ReadData [42; 49; 13; 10; 36; 45])) as (w' & oc & E & H).
  - split; [cbn; change (blen []) with 0; lia|]. split; [done|]. intros _.
    apply (reset_wfp (mk_pstate [] 0 0 0 (-1) [] 0)); [cbn; change (blen []) with 0; lia|done].
  - done.
  - exists w', oc. split; [exact E|]. intros c' Hc. exact (proj1 (H c' Hc)).
Defined.

Lemma replies_encoded_witness :
  exists s1 s2, addReplyArrayLen id (fun _ => false) (demo_session ∅) 1 = Some s1 /\
    addReplyBulks id (fun _ => false) s1 [[97]] = Some s2 /\ queued (demo_session ∅) (encode [[97]]) s2.
Proof.
  apply (replies_encoded id (fun _ => false) (fun n => Z.le_refl n) (fun _ => eq_refl) (demo_session ∅) 5 [[97]]).
  - split_and!; [by vm_compute..|constructor].
  - zlia.
  - repeat constructor.
  - done.
Defined.

End Resp.
