(* ===== verification/Replication.v ===== *)
(** * Replication ([replication.c])

    The replication backlog as a ring buffer, the feeding of the backlog and of the
    replicas, the replication IDs and the two sides of a partial
    resynchronization.  Replicas are clients of [Resp]; the stream they are sent is
    their queued output. *)

From Stdlib Require Import ZArith Lia.
From stdpp Require Import base option list numbers strings gmap.
From S2P Require Import Prelude Util Resp.

#[local] Open Scope Z_scope.

Module Replication.
Import Util Resp.

(** ** State *)

(** The replication backlog; [bl_mem] is [NULL] when there is none. *)
Record backlog := mk_backlog {
  bl_mem : option bytes;
  bl_size : Z;
  bl_histlen : Z;
  bl_idx : Z;
  bl_off : Z;
}.

Definition CONFIG_RUN_ID_SIZE : Z := 40.
Definition CONFIG_REPL_BACKLOG_MIN_SIZE : Z := 1024 * 16.
Definition LONG_STR_SIZE : Z := 21.

(** Replication IDs and offsets of an instance. *)
Record ids := mk_ids {
  replid : bytes;
  replid2 : bytes;
  second_replid_offset : Z;
  master_repl_offset : Z;
}.

(** What an instance knows of its master: the ID and the processed offset of the
    client structure that stands for it. *)
Record mlink := mk_mlink { m_replid : bytes; m_reploff : Z }.

Record upstream := mk_upstream {
  masterhost : bool;
  master : option mlink;
  cached_master : option mlink;
  master_replid : bytes;
  master_initial_offset : Z;
}.

Inductive replstate :=
  SLAVE_STATE_WAIT_BGSAVE_START | SLAVE_STATE_WAIT_BGSAVE_END | SLAVE_STATE_SEND_BULK | SLAVE_STATE_ONLINE.

#[export] Instance replstate_eq_dec : EqDecision replstate.
Proof. solve_decision. Defined.

(** A replica attached to this instance; [r_wire] is what was written to its
    connection directly, ahead of the queued output. *)
Record replica := mk_replica {
  r_session : session;
  r_rdbonly : bool;
  r_pre_psync : bool;
  r_psync2 : bool;
  r_state : replstate;
  r_ack_off : Z;
  r_ack_time : Z;
  r_initial_offset : Z;
  r_wire : bytes;
}.

Record server := mk_server {
  sv_ids : ids;
  sv_backlog : backlog;
  sv_up : upstream;
  sv_slaves : list replica;
  sv_slaveseldb : Z;
}.

Definition set_ids (i : ids) (s : server) : server :=
  mk_server i (sv_backlog s) (sv_up s) (sv_slaves s) (sv_slaveseldb s).
Definition set_backlog (b : backlog) (s : server) : server :=
  mk_server (sv_ids s) b (sv_up s) (sv_slaves s) (sv_slaveseldb s).
Definition set_up (u : upstream) (s : server) : server :=
  mk_server (sv_ids s) (sv_backlog s) u (sv_slaves s) (sv_slaveseldb s).
Definition set_slaves (l : list replica) (s : server) : server :=
  mk_server (sv_ids s) (sv_backlog s) (sv_up s) l (sv_slaveseldb s).
Definition set_slaveseldb (d : Z) (s : server) : server :=
  mk_server (sv_ids s) (sv_backlog s) (sv_up s) (sv_slaves s) d.
Definition set_offset (o : Z) (i : ids) : ids := mk_ids (replid i) (replid2 i) (second_replid_offset i) o.
Definition set_session (x : session) (r : replica) : replica :=
  mk_replica x (r_rdbonly r) (r_pre_psync r) (r_psync2 r) (r_state r) (r_ack_off r) (r_ack_time r) (r_initial_offset r) (r_wire r).

Section Master.

(** The allocator's indeterminate bytes, and the reply buffers of [Resp]. *)
Context (junk : nat -> Z) (block_usable : Z -> Z) (obuf_limit_reached : session -> bool) (unixtime : Z).

Definition zmalloc (n : Z) : bytes := zrealloc junk [] n.

(** ** The backlog *)

Definition createReplicationBacklog (s : server) : option server :=
  match bl_mem (sv_backlog s) with
  | Some _ => None
  | None =>
      let size := bl_size (sv_backlog s) in
      Some (set_backlog (mk_backlog (Some (zmalloc size)) size 0 0 (master_repl_offset (sv_ids s) + 1)) s)
  end.

Definition resizeReplicationBacklog (newsize : Z) (s : server) : server :=
  let newsize := if newsize <? CONFIG_REPL_BACKLOG_MIN_SIZE then CONFIG_REPL_BACKLOG_MIN_SIZE else newsize in
  let b := sv_backlog s in
  if bl_size b =? newsize then s else
  match bl_mem b with
  | None => set_backlog (mk_backlog None newsize (bl_histlen b) (bl_idx b) (bl_off b)) s
  | Some _ => set_backlog (mk_backlog (Some (zmalloc newsize)) newsize 0 0 (master_repl_offset (sv_ids s) + 1)) s
  end.

Definition freeReplicationBacklog (s : server) : option server :=
  match sv_slaves s with
  | _ :: _ => None
  | [] =>
      let b := sv_backlog s in
      Some (set_backlog (mk_backlog None (bl_size b) (bl_histlen b) (bl_idx b) (bl_off b)) s)
  end.

(** The copy loop: memory, index and history length. *)
Fixpoint feed_loop (fuel : nat) (m : bytes) (size idx histlen : Z) (p : bytes) : option (bytes * Z * Z) :=
  if blen p =? 0 then Some (m, idx, histlen) else
  match fuel with
  | O => None
  | S fuel =>
      let thislen := size - idx in
      let thislen := if blen p <? thislen then blen p else thislen in
      m ← store m idx (take (Z.to_nat thislen) p);
      let idx := idx + thislen in
      let idx := if idx =? size then 0 else idx in
      feed_loop fuel m size idx (histlen + thislen) (drop (Z.to_nat thislen) p)
  end.

(** [None] without a backlog: the copy goes through a null pointer. *)
Definition feedReplicationBacklog (p : bytes) (s : server) : option server :=
  let b := sv_backlog s in
  let offset := master_repl_offset (sv_ids s) + blen p in
  m ← bl_mem b;
  r ← feed_loop (length p) m (bl_size b) (bl_idx b) (bl_histlen b) p;
  let '(m, idx, histlen) := r in
  let histlen := if bl_size b <? histlen then bl_size b else histlen in
  Some (set_ids (set_offset offset (sv_ids s))
    (set_backlog (mk_backlog (Some m) (bl_size b) histlen idx (offset - histlen + 1)) s)).

(** ** Feeding the replicas *)

Definition canFeedReplicaReplBuffer (r : replica) : bool :=
  if r_rdbonly r then false
  else negb (bool_decide (r_state r = SLAVE_STATE_WAIT_BGSAVE_START)).

(** An operation on the output of every replica that can be fed. *)
Fixpoint feed_replicas (f : session -> option session) (l : list replica) : option (list replica) :=
  match l with
  | [] => Some []
  | r :: l =>
      r' ← (if canFeedReplicaReplBuffer r then x ← f (r_session r); Some (set_session x r) else Some r);
      l' ← feed_replicas f l;
      Some (r' :: l')
  end.

Definition select_prefix : bytes := bytes_of_string "*2" ++ crlf ++ bytes_of_string "$6" ++ crlf ++ bytes_of_string "SELECT" ++ crlf ++ [36].

(** [*2\r\n$6\r\nSELECT\r\n$<len>\r\n<id>\r\n], shared or printed. *)
Definition select_command (dictid : Z) : option bytes :=
  r ← ll2string (replicate (Z.to_nat LONG_STR_SIZE) 0) LONG_STR_SIZE dictid;
  d ← load (snd r) 0 (fst r);
  Some (select_prefix ++ udec (fst r) ++ crlf ++ d ++ crlf).

(** [<prefix><n>\r\n] fed from the buffer of [LONG_STR_SIZE+3] bytes. *)
Definition feed_header (prefix n : Z) (s : server) : option server :=
  r ← ll2string (replicate 23 0) 23 n;
  b ← store8 (prefix :: snd r) (fst r + 1) 13;
  b ← store8 b (fst r + 2) 10;
  h ← load b 0 (fst r + 3);
  feedReplicationBacklog h s.

Fixpoint feed_args (argv : list bytes) (s : server) : option server :=
  match argv with
  | [] => Some s
  | o :: argv =>
      s ← feed_header 36 (blen o) s;
      s ← feedReplicationBacklog o s;
      s ← feedReplicationBacklog crlf s;
      feed_args argv s
  end.

Definition reply_command (argv : list bytes) (x : session) : option session :=
  x ← addReplyArrayLen block_usable obuf_limit_reached x (Z.of_nat (length argv));
  addReplyBulks block_usable obuf_limit_reached x argv.

Definition has_backlog (s : server) : bool := match bl_mem (sv_backlog s) with Some _ => true | None => false end.

Definition feed_select (dictid : Z) (s : server) : option server :=
  if sv_slaveseldb s =? dictid then Some s else
  sel ← select_command dictid;
  s ← (if has_backlog s then feedReplicationBacklog sel s else Some s);
  l ← feed_replicas (fun x => Some (addReplyProto block_usable obuf_limit_reached x sel)) (sv_slaves s);
  Some (set_slaves l s).

Definition replicationFeedSlaves (dictid : Z) (argv : list bytes) (s : server) : option server :=
  if masterhost (sv_up s) then Some s else
  match has_backlog s, sv_slaves s with
  | false, [] => Some s
  | false, _ => None
  | true, _ =>
      s ← feed_select dictid s;
      let s := set_slaveseldb dictid s in
      s ← feed_header 42 (Z.of_nat (length argv)) s;
      s ← feed_args argv s;
      l ← feed_replicas (reply_command argv) (sv_slaves s);
      Some (set_slaves l s)
  end.

Definition replicationFeedSlavesFromMasterStream (p : bytes) (s : server) : option server :=
  s ← (if has_backlog s then feedReplicationBacklog p s else Some s);
  l ← feed_replicas (fun x => Some (addReplyProto block_usable obuf_limit_reached x p)) (sv_slaves s);
  Some (set_slaves l s).

(** ** Partial resynchronization, the master's side *)

Fixpoint backlog_loop (fuel : nat) (m : bytes) (size j len : Z) (x : session) : option session :=
  if len =? 0 then Some x else
  match fuel with
  | O => None
  | S fuel =>
      let thislen := if size - j <? len then size - j else len in
      d ← load m j thislen;
      backlog_loop fuel m size 0 (len - thislen) (addReplyProto block_usable obuf_limit_reached x d)
  end.

(** The output with the bytes from [offset] on, and how many there are. *)
Definition addReplyReplicationBacklog (b : backlog) (x : session) (offset : Z) : option (session * Z) :=
  if bl_histlen b =? 0 then Some (x, 0) else
  m ← bl_mem b;
  let skip := offset - bl_off b in
  let j := Z.rem (bl_idx b + (bl_size b - bl_histlen b)) (bl_size b) in
  let j := Z.rem (j + skip) (bl_size b) in
  let len := bl_histlen b - skip in
  x ← backlog_loop 2 m (bl_size b) j len x;
  Some (x, bl_histlen b - skip).

(** [strcasecmp(a, b) == 0] *)
Definition strcaseeq (a b : bytes) : bool := bool_decide (tolower <$> a = tolower <$> b).

Definition continue_reply (psync2 : bool) (id : bytes) : bytes :=
  if psync2 then bytes_of_string "+CONTINUE " ++ id ++ crlf else bytes_of_string "+CONTINUE" ++ crlf.

(** [write_ok] tells whether the write of the reply to the connection succeeds. *)
Definition masterTryPartialResynchronization (write_ok : bool) (s : server) (c : replica) (master_replid : bytes) (psync_offset : Z)
    : option (verdict * server) :=
  let i := sv_ids s in
  let b := sv_backlog s in
  if negb (strcaseeq master_replid (replid i)) &&
     (negb (strcaseeq master_replid (replid2 i)) || (second_replid_offset i <? psync_offset))
  then Some (C_ERR, s) else
  if negb (has_backlog s) || (psync_offset <? bl_off b) || (bl_off b + bl_histlen b <? psync_offset)
  then Some (C_ERR, s) else
  let x := add_flag CLIENT_SLAVE (r_session c) in
  if write_ok then
    r ← addReplyReplicationBacklog b x psync_offset;
    Some (C_OK, set_slaves (sv_slaves s ++
      [mk_replica (fst r) (r_rdbonly c) (r_pre_psync c) (r_psync2 c) SLAVE_STATE_ONLINE (r_ack_off c) unixtime
         (r_initial_offset c) (r_wire c ++ continue_reply (r_psync2 c) (replid i))]) s)
  else
    Some (C_OK, set_slaves (sv_slaves s ++
      [mk_replica (freeClientAsync x) (r_rdbonly c) (r_pre_psync c) (r_psync2 c) SLAVE_STATE_ONLINE (r_ack_off c) unixtime
         (r_initial_offset c) (r_wire c)]) s).

(** ** Full resynchronization, the master's side *)

(** [+FULLRESYNC <id> <offset>\r\n] *)
Definition fullresync_reply (id : bytes) (offset : Z) : bytes :=
  bytes_of_string "+FULLRESYNC " ++ id ++ [32] ++ sdec offset ++ crlf.

(** The replica is set up at the given offset; the flag is the result. *)
Definition replicationSetupSlaveForFullResync (write_ok : bool) (s : server) (c : replica) (offset : Z) : server * replica * verdict :=
  let c := mk_replica (r_session c) (r_rdbonly c) (r_pre_psync c) (r_psync2 c) SLAVE_STATE_WAIT_BGSAVE_END
             (r_ack_off c) (r_ack_time c) offset (r_wire c) in
  let s := set_slaveseldb (-1) s in
  if r_pre_psync c then (s, c, C_OK) else
  if write_ok then
    (s, mk_replica (r_session c) (r_rdbonly c) (r_pre_psync c) (r_psync2 c) (r_state c) (r_ack_off c) (r_ack_time c)
          offset (r_wire c ++ fullresync_reply (replid (sv_ids s)) offset), C_OK)
  else (s, set_session (freeClientAsync (r_session c)) c, C_ERR).

(** ** Replication IDs *)

(** [newid] stands for the characters [getRandomHexChars] produces. *)
Definition changeReplicationId (newid : bytes) (i : ids) : ids :=
  mk_ids newid (replid2 i) (second_replid_offset i) (master_repl_offset i).

Definition clearReplicationId2 (i : ids) : ids :=
  mk_ids (replid i) (replicate (Z.to_nat CONFIG_RUN_ID_SIZE) 48) (-1) (master_repl_offset i).

Definition shiftReplicationId (newid : bytes) (i : ids) : ids :=
  changeReplicationId newid (mk_ids (replid i) (replid i) (master_repl_offset i + 1) (master_repl_offset i)).

(** The start of a full resynchronization: a backlog created from scratch comes
    with a new ID, since there is no valid past history. *)
Definition sync_create_backlog (newid : bytes) (s : server) : option server :=
  if (length (sv_slaves s) =? 1)%nat && negb (has_backlog s)
  then createReplicationBacklog (set_ids (clearReplicationId2 (changeReplicationId newid (sv_ids s))) s)
  else Some s.

(** [replicationCron] on a master without replicas for longer than the limit. *)
Definition expire_backlog (time_limit no_slaves_since : Z) (newid : bytes) (s : server) : option server :=
  match sv_slaves s with
  | [] =>
      if negb (time_limit =? 0) && has_backlog s && negb (masterhost (sv_up s)) && (time_limit <? unixtime - no_slaves_since)
      then freeReplicationBacklog (set_ids (clearReplicationId2 (changeReplicationId newid (sv_ids s))) s)
      else Some s
  | _ => Some s
  end.

(** ** The replica's side *)

Inductive psync_result :=
  PSYNC_WRITE_ERROR | PSYNC_WAIT_REPLY | PSYNC_CONTINUE | PSYNC_FULLRESYNC | PSYNC_NOT_SUPPORTED | PSYNC_TRY_LATER.

(** The request: the command sent, after which the initial offset is invalid;
    [send_ok] tells whether the command could be written. *)
Definition psync_request (failover send_ok : bool) (u : upstream) : psync_result * list bytes * upstream :=
  let u := mk_upstream (masterhost u) (master u) (cached_master u) (master_replid u) (-1) in
  let '(psync_replid, psync_offset) :=
    match cached_master u with
    | Some m => (m_replid m, sdec (s64 (m_reploff m + 1)))
    | None => (bytes_of_string "?", bytes_of_string "-1")
    end in
  let cmd := [bytes_of_string "PSYNC"; psync_replid; psync_offset] ++ (if failover then [bytes_of_string "FAILOVER"] else []) in
  (if send_ok then PSYNC_WAIT_REPLY else PSYNC_WRITE_ERROR, cmd, u).

Definition replicationDiscardCachedMaster (u : upstream) : upstream :=
  mk_upstream (masterhost u) (master u) None (master_replid u) (master_initial_offset u).

(** [None]: there is no cached master to resurrect. *)
Definition replicationResurrectCachedMaster (u : upstream) : option upstream :=
  m ← cached_master u;
  Some (mk_upstream (masterhost u) (Some m) None (master_replid u) (master_initial_offset u)).

(** [strncmp(reply, s, strlen(s)) == 0] *)
Definition starts_with (reply s : bytes) : bool := bool_decide (take (length s) reply = s).

(** [+FULLRESYNC <id> <offset>]: the ID and offset, when well formed. *)
Definition parse_fullresync (reply : bytes) : option (bytes * Z) :=
  a ← strchr reply 32;
  let replid := drop (Z.to_nat (a + 1)) reply in
  n ← strchr replid 32;
  if n =? CONFIG_RUN_ID_SIZE
  then Some (take (Z.to_nat n) replid, fst (Sdstext.Sdstext.strtoll (drop (Z.to_nat (n + 1)) replid))) else None.

(** The length of the rest of the line after [+CONTINUE]. *)
Fixpoint line_length (p : bytes) : Z :=
  match p with
  | c :: p => if (c =? 13) || (c =? 10) || (c =? 0) then 0 else line_length p + 1
  | [] => 0
  end.

(** A changed ID becomes ours, the old one valid up to the current offset; our
    replicas have to be told. *)
Definition accept_new_id (new : bytes) (m : mlink) (s : server) : server :=
  if bool_decide (new = m_replid m) then s else
  let i := sv_ids s in
  let u := sv_up s in
  let s := set_ids (mk_ids new (m_replid m) (master_repl_offset i + 1) (master_repl_offset i)) s in
  let s := set_up (mk_upstream (masterhost u) (master u) (Some (mk_mlink new (m_reploff m))) (master_replid u) (master_initial_offset u)) s in
  set_slaves [] s.

(** The reply, without its line terminator. *)
Definition psync_reply (reply : bytes) (s : server) : option (psync_result * server) :=
  if blen reply =? 0 then Some (PSYNC_WAIT_REPLY, s) else
  let u := sv_up s in
  if starts_with reply (bytes_of_string "+FULLRESYNC") then
    let u := match parse_fullresync reply with
             | Some (id, offset) => mk_upstream (masterhost u) (master u) (cached_master u) id offset
             | None => mk_upstream (masterhost u) (master u) (cached_master u) [] (master_initial_offset u)
             end in
    Some (PSYNC_FULLRESYNC, set_up (replicationDiscardCachedMaster u) s)
  else if starts_with reply (bytes_of_string "+CONTINUE") then
    s ← (if line_length (drop 9 reply) - 1 =? CONFIG_RUN_ID_SIZE
         then m ← cached_master u; Some (accept_new_id (take (Z.to_nat CONFIG_RUN_ID_SIZE) (drop 10 reply)) m s)
         else Some s);
    u ← replicationResurrectCachedMaster (sv_up s);
    let s := set_up u s in
    s ← (if has_backlog s then Some s else createReplicationBacklog s);
    Some (PSYNC_CONTINUE, s)
  else if starts_with reply (bytes_of_string "-NOMASTERLINK") || starts_with reply (bytes_of_string "-LOADING")
  then Some (PSYNC_TRY_LATER, s)
  else Some (PSYNC_NOT_SUPPORTED, set_up (replicationDiscardCachedMaster u) s).

(** The end of a full resynchronization, once the data set is loaded. *)
Definition replicationCreateMasterClient (u : upstream) : upstream :=
  mk_upstream (masterhost u) (Some (mk_mlink (master_replid u) (master_initial_offset u))) (cached_master u)
    (master_replid u) (master_initial_offset u).

Definition finish_full_resync (s : server) : option server :=
  let u := replicationCreateMasterClient (sv_up s) in
  m ← master u;
  let i := clearReplicationId2 (mk_ids (m_replid m) (replid2 (sv_ids s)) (second_replid_offset (sv_ids s)) (m_reploff m)) in
  let s := set_ids i (set_up u s) in
  if has_backlog s then Some s else createReplicationBacklog s.

(** Before the transfer the replicas are disconnected and the backlog freed. *)
Definition start_full_resync (s : server) : option server := freeReplicationBacklog (set_slaves [] s).

(** ** Changes of role *)

Definition replicationCacheMaster (u : upstream) : option upstream :=
  m ← master u;
  match cached_master u with
  | Some _ => None
  | None => Some (mk_upstream (masterhost u) None (Some m) (master_replid u) (master_initial_offset u))
  end.

Definition replicationCacheMasterUsingMyself (s : server) : server :=
  let u := sv_up s in
  let i := sv_ids s in
  set_up (mk_upstream (masterhost u) None (Some (mk_mlink (replid i) (master_repl_offset i))) (master_replid u)
    (master_repl_offset i)) s.

(** Freeing the client of the master: it is cached, unless it broke the protocol or
    is blocked. *)
Definition free_master (cacheable : bool) (u : upstream) : option upstream :=
  match master u with
  | None => Some u
  | Some _ =>
      if cacheable then replicationCacheMaster u
      else Some (mk_upstream (masterhost u) None (cached_master u) (master_replid u) (master_initial_offset u))
  end.

Definition replicationSetMaster (cacheable : bool) (s : server) : option server :=
  let u := sv_up s in
  let was_master := negb (masterhost u) in
  u ← free_master cacheable u;
  let s := set_slaves [] (set_up (mk_upstream true (master u) (cached_master u) (master_replid u) (master_initial_offset u)) s) in
  Some (if was_master then replicationCacheMasterUsingMyself (set_up (replicationDiscardCachedMaster (sv_up s)) s) else s).

Definition replicationUnsetMaster (cacheable : bool) (newid : bytes) (s : server) : option server :=
  let u := sv_up s in
  if negb (masterhost u) then Some s else
  u ← free_master cacheable (mk_upstream false (master u) (cached_master u) (master_replid u) (master_initial_offset u));
  let s := set_up (replicationDiscardCachedMaster u) s in
  let s := set_ids (shiftReplicationId newid (sv_ids s)) s in
  Some (set_slaveseldb (-1) (set_slaves [] s)).

(** ** Synchronous replication *)

Definition replicationCountAcksByOffset (l : list replica) (offset : Z) : Z :=
  Z.of_nat (length (filter (fun r => r_state r = SLAVE_STATE_ONLINE /\ offset <= r_ack_off r) l)).

End Master.

(** A client blocked in [WAIT]; the number of replicas is an [int]. *)
Record waiter := mk_waiter { w_id : Z; w_reploffset : Z; w_numreplicas : Z }.

(** The waiting clients in order: those released with their reply, and the rest. *)
Fixpoint release_waiters (slaves : list replica) (l : list waiter) (last_offset last_numreplicas : Z) : list (waiter * Z) * list waiter :=
  match l with
  | [] => ([], [])
  | c :: l =>
      if negb (last_offset =? 0) && (w_reploffset c <=? last_offset) && (w_numreplicas c <=? last_numreplicas) then
        let (out, rest) := release_waiters slaves l last_offset last_numreplicas in
        ((c, last_numreplicas) :: out, rest)
      else
        let numreplicas := replicationCountAcksByOffset slaves (w_reploffset c) in
        if w_numreplicas c <=? numreplicas then
          let (out, rest) := release_waiters slaves l (w_reploffset c) numreplicas in
          ((c, numreplicas) :: out, rest)
        else
          let (out, rest) := release_waiters slaves l last_offset last_numreplicas in
          (out, c :: rest)
  end.

Inductive wait_outcome : Type :=
  | WaitRefused
  | WaitReply (ackreplicas : Z)
  | WaitBlocked.

(** [WAIT] with its parsed arguments: refused by a replica, answered, or the client
    queued first.  The [long] argument is stored in an [int]. *)
Definition waitCommand (masterhost multi : bool) (slaves : list replica) (l : list waiter) (id woff numreplicas : Z)
    : wait_outcome * list waiter :=
  if masterhost then (WaitRefused, l) else
  let ackreplicas := replicationCountAcksByOffset slaves woff in
  if (numreplicas <=? ackreplicas) || multi then (WaitReply ackreplicas, l)
  else (WaitBlocked, mk_waiter id woff (s32 numreplicas) :: l).

Definition processClientsWaitingReplicas (slaves : list replica) (l : list waiter) : list (waiter * Z) * list waiter :=
  release_waiters slaves l 0 0.

Definition replicationGetSlaveOffset (u : upstream) : Z :=
  let offset := if masterhost u then
                  match master u, cached_master u with
                  | Some m, _ => m_reploff m
                  | None, Some m => m_reploff m
                  | None, None => 0
                  end
                else 0 in
  if offset <? 0 then 0 else offset.

(** ** The ring buffer *)

(** The last [n] elements. *)
Definition lastn {A} (n : nat) (l : list A) : list A := drop (length l - n) l.

Lemma lastn_length {A} n (l : list A) : length (lastn n l) = (n `min` length l)%nat.
Proof. unfold lastn. rewrite length_drop. lia. Qed.

Lemma lastn_short {A} n (l : list A) : (length l <= n)%nat -> lastn n l = l.
Proof. intros. unfold lastn. by replace (length l - n)%nat with O by lia. Qed.

Lemma lastn_lookup {A} n (l : list A) k : lastn n l !! k = l !! (length l - n + k)%nat.
Proof. apply lookup_drop. Qed.

Lemma lastn_app {A} n (l c : list A) : lastn n (lastn n l ++ c) = lastn n (l ++ c).
Proof.
  apply list_eq. intros k. rewrite !lastn_lookup, !length_app, lastn_length.
  destruct (decide (n <= length l)%nat).
  2: { by rewrite (lastn_short n l), Nat.min_r by lia. }
  rewrite Nat.min_l by lia. unfold lastn at 1.
  destruct (decide (n + length c - n + k < n)%nat).
  - rewrite !lookup_app_l by (rewrite ?length_drop; lia). rewrite lookup_drop. f_equal. lia.
  - rewrite !lookup_app_r by (rewrite ?length_drop; lia). rewrite length_drop. f_equal. lia.
Qed.

Lemma lastn_suffix {A} n (l : list A) : lastn n l `suffix_of` l.
Proof. exists (take (length l - n) l). unfold lastn. by rewrite take_drop. Qed.

(** The memory [m] with write index [idx] holds [h], the oldest byte first. *)
Definition ring (m : bytes) (idx : Z) (h : bytes) : Prop :=
  0 <= idx < blen m /\ blen h <= blen m /\
  forall k : nat, (k < length h)%nat -> m !! Z.to_nat ((idx - blen h + Z.of_nat k) mod blen m) = h !! k.

Lemma mod_wrap x n : - n <= x < n -> x mod n = if x <? 0 then x + n else x.
Proof.
  intros. destruct (Z.ltb_spec x 0); [|by rewrite Z.mod_small by lia].
  symmetry. apply Z.mod_unique_pos with (q := -1); lia.
Qed.

Definition wrap_idx (size i : Z) : Z := if i =? size then 0 else i.

Lemma ring_write m idx h c m' :
  ring m idx h -> blen c <= blen m - idx -> store m idx c = Some m' ->
  ring m' (wrap_idx (blen m) (idx + blen c)) (lastn (length m) (h ++ c)).
Proof.
  intros (Hi & Hh & Hm) Hc Hs. pose proof (store_length _ _ _ _ Hs) as Hl.
  assert (blen m' = blen m) as Hb by (unfold blen; lia).
  assert (Hidx : forall z, (wrap_idx (blen m) (idx + blen c) - z) mod blen m = (idx + blen c - z) mod blen m).
  { intros z. unfold wrap_idx. case_match; [|done]. apply Z.eqb_eq in H. rewrite H.
    replace (0 - z) with (blen m - z + (-1) * blen m) by lia. apply Z_mod_plus_full. }
  split; [rewrite Hb; unfold wrap_idx, blen in *; case_match; lia|].
  split; [unfold blen in *; rewrite lastn_length; lia|].
  intros k Hk. rewrite lastn_length, length_app in Hk. rewrite lastn_lookup, length_app.
  set (t := (length h + length c - length m + k)%nat).
  replace (wrap_idx (blen m) (idx + blen c) - blen (lastn (length m) (h ++ c)) + Z.of_nat k)
    with (wrap_idx (blen m) (idx + blen c) - (blen h + blen c - Z.of_nat t))
    by (unfold t, blen in *; rewrite lastn_length, length_app; lia).
  rewrite Hb, Hidx. replace (idx + blen c - (blen h + blen c - Z.of_nat t)) with (idx - blen h + Z.of_nat t) by lia.
  rewrite (store_lookup _ _ _ _ _ Hs). unfold t, blen in *.
  destruct (decide (length h <= t)%nat) as [Ht|Ht]; unfold t in Ht.
  - rewrite Z.mod_small by lia. rewrite decide_True by lia. rewrite lookup_app_r by lia. f_equal. lia.
  - rewrite lookup_app_l by lia. rewrite <- Hm by lia.
    rewrite !mod_wrap by lia. destruct (_ <? 0) eqn:Hx; (rewrite decide_False; [done|]); rewrite ?Z.ltb_lt, ?Z.ltb_ge in Hx; lia.
Qed.

Lemma ring_load m idx h skip n :
  ring m idx h -> 0 <= skip -> 0 <= n -> skip + n <= blen h ->
  (idx - blen h + skip) mod blen m + n <= blen m ->
  load m ((idx - blen h + skip) mod blen m) n = Some (take (Z.to_nat n) (drop (Z.to_nat skip) h)).
Proof.
  intros (Hi & Hh & Hm) Hs Hn Hsn Hj. rewrite <- load_Some by lia.
  assert (Hpos : 0 <= (idx - blen h + skip) mod blen m) by (apply Z.mod_pos_bound; lia).
  apply load_shift; [lia..|]. intros k Hk. rewrite <- Hm by (unfold blen in *; lia). f_equal.
  rewrite Nat2Z.inj_add, Z2Nat.id by lia.
  set (x := idx - blen h + skip) in *.
  replace (idx - blen h + (skip + Z.of_nat k)) with (x + Z.of_nat k) by (unfold x; lia).
  rewrite Z.add_mod by lia. rewrite (Z.mod_small (Z.of_nat k)) by (pose proof (Z.mod_pos_bound x (blen m)); lia).
  rewrite (Z.mod_small (_ + Z.of_nat k)) by lia. lia.
Qed.

(** The backlog holds the end [h] of the stream that ends at [offset]. *)
Definition backlog_is (b : backlog) (offset : Z) (h : bytes) : Prop :=
  exists m, bl_mem b = Some m /\ bl_size b = blen m /\ ring m (bl_idx b) h /\ bl_histlen b = blen h /\
    bl_off b = offset - blen h + 1.

Lemma feed_loop_ok p : forall fuel m idx h histlen,
  ring m idx h -> (length p <= fuel)%nat ->
  exists m' idx', feed_loop fuel m (blen m) idx histlen p = Some (m', idx', histlen + blen p) /\
    length m' = length m /\ ring m' idx' (lastn (length m) (h ++ p)).
Proof.
  intros fuel. revert p. induction fuel as [|fuel IH]; intros p m idx h histlen Hr Hf.
  - destruct p; [|cbn in Hf; lia]. exists m, idx. cbn. change (blen []) with 0. rewrite Z.add_0_r, app_nil_r.
    rewrite lastn_short by (destruct Hr as (_ & ? & _); unfold blen in *; lia). done.
  - cbn [feed_loop]. destruct (Z.eqb_spec (blen p) 0) as [Hp|Hp].
    { destruct p; [|done]. exists m, idx. change (blen []) with 0. rewrite Z.add_0_r, app_nil_r.
      rewrite lastn_short by (destruct Hr as (_ & ? & _); unfold blen in *; lia). done. }
    pose proof Hr as (Hi & _ & _). fold (wrap_idx (blen m)).
    set (t := if blen p <? blen m - idx then _ else _).
    assert (0 < t <= blen p /\ t <= blen m - idx) as [Ht Ht'].
    { unfold t. destruct (Z.ltb_spec (blen p) (blen m - idx)); unfold blen in *; lia. }
    assert (blen (take (Z.to_nat t) p) = t) as Hlt by (unfold blen in *; rewrite length_take; lia).
    destruct (store_Some m idx (take (Z.to_nat t) p)) as [m1 Hm1]; [lia..|].
    rewrite Hm1. cbn [mbind option_bind]. pose proof (store_length _ _ _ _ Hm1) as Hl1.
    apply (ring_write _ _ _ _ _ Hr) in Hm1; [|lia]. rewrite Hlt in Hm1.
    replace (blen m) with (blen m1) in Hm1 |- * by (unfold blen; lia).
    destruct (IH (drop (Z.to_nat t) p) m1 _ _ (histlen + t) Hm1) as (m' & idx' & He & Hl & Hr').
    { rewrite length_drop. unfold blen in *. lia. }
    exists m', idx'. unfold wrap_idx in He. rewrite He. split; [|split; [lia|]].
    + do 2 f_equal. unfold blen in *. rewrite length_drop. lia.
    + rewrite Hl1, lastn_app, <- app_assoc, take_drop in Hr'. done.
Qed.

Lemma feedReplicationBacklog_ok p s h :
  backlog_is (sv_backlog s) (master_repl_offset (sv_ids s)) h ->
  exists b, feedReplicationBacklog p s = Some (set_ids (set_offset (master_repl_offset (sv_ids s) + blen p) (sv_ids s)) (set_backlog b s)) /\
    bl_size b = bl_size (sv_backlog s) /\
    backlog_is b (master_repl_offset (sv_ids s) + blen p) (lastn (Z.to_nat (bl_size b)) (h ++ p)).
Proof.
  intros (m & Hm & Hs & Hr & Hl & Ho). unfold feedReplicationBacklog. rewrite Hm, Hs, Hl. cbn [mbind option_bind].
  destruct (feed_loop_ok p (length p) m (bl_idx (sv_backlog s)) h (blen h) Hr) as (m' & idx' & He & Hl' & Hr'); [done|].
  rewrite He. cbn [mbind option_bind].
  replace (if blen m <? _ then _ else _) with (blen (lastn (length m) (h ++ p))).
  2: { destruct Hr as (_ & ? & _). destruct (Z.ltb_spec (blen m) (blen h + blen p)); unfold blen in *;
       rewrite lastn_length, length_app; lia. }
  eexists. split; [reflexivity|]. cbn [bl_size]. split; [done|]. replace (Z.to_nat (blen m)) with (length m) by (unfold blen; lia).
  exists m'. cbn [bl_mem bl_size bl_histlen bl_idx bl_off]. split_and!; try done. unfold blen. lia.
Qed.

(** ** Feeding *)

Section Feeding.

Context (block_usable : Z -> Z) (obuf_limit_reached : session -> bool).
Hypothesis usable_enough : forall n, n <= block_usable n.
Hypothesis no_limit : forall s, obuf_limit_reached s = false.

(** [s'] is [s] with [p] appended to the stream the backlog holds the end of. *)
Definition fed (s : server) (h p : bytes) (s' : server) : Prop :=
  backlog_is (sv_backlog s') (master_repl_offset (sv_ids s')) (lastn (Z.to_nat (bl_size (sv_backlog s))) (h ++ p)) /\
  bl_size (sv_backlog s') = bl_size (sv_backlog s) /\
  sv_ids s' = set_offset (master_repl_offset (sv_ids s) + blen p) (sv_ids s) /\ sv_up s' = sv_up s.

Lemma fed_trans s h p s1 q s2 :
  fed s h p s1 -> fed s1 (lastn (Z.to_nat (bl_size (sv_backlog s))) (h ++ p)) q s2 -> fed s h (p ++ q) s2.
Proof.
  intros (B1 & Z1 & I1 & U1) (B2 & Z2 & I2 & U2). rewrite Z1, lastn_app, <- app_assoc in B2.
  split; [done|]. split; [congruence|]. split; [|congruence].
  rewrite I2, I1, blen_app. unfold set_offset. cbn. f_equal. lia.
Qed.

Lemma fed_nil s h : backlog_is (sv_backlog s) (master_repl_offset (sv_ids s)) h -> fed s h [] s.
Proof.
  intros (m & ? & Hs & Hr & ?). split; [|split; [done|split; [|done]]].
  - exists m. rewrite app_nil_r, lastn_short; [done|]. destruct Hr as (_ & ? & _). rewrite Hs. unfold blen in *. lia.
  - change (blen []) with 0. rewrite Z.add_0_r. by destruct (sv_ids s).
Qed.

Lemma feed_fed p s h :
  backlog_is (sv_backlog s) (master_repl_offset (sv_ids s)) h ->
  exists s', feedReplicationBacklog p s = Some s' /\ fed s h p s' /\
    sv_slaves s' = sv_slaves s /\ sv_slaveseldb s' = sv_slaveseldb s.
Proof.
  intros H. destruct (feedReplicationBacklog_ok p s h H) as (b & -> & Hb & Hl).
  eexists. split; [reflexivity|]. split; [|done]. split; [|done]. cbn. by rewrite <- Hb.
Qed.

Lemma feed_header_ok x n s : is_s 64 n -> feed_header x n s = feedReplicationBacklog (header x n) s.
Proof.
  intros Hn. unfold feed_header. pose proof (build_header 23 x n Hn ltac:(lia)) as H. change (Z.of_nat 23) with 23 in H.
  destruct (ll2string _ 23 n) as [r|]; [|done]. cbn [mbind option_bind] in H |- *.
  replace (fst r + 1) with (1 + fst r) by lia. replace (fst r + 2) with (1 + fst r + 1) by lia.
  replace (fst r + 3) with (1 + fst r + 2) by lia.
  destruct (store8 (x :: snd r) _ _) as [b1|]; [|done]. cbn [mbind option_bind] in H |- *.
  destruct (store8 b1 _ _) as [b2|]; [|done]. cbn [mbind option_bind] in H |- *. by rewrite H.
Qed.

Lemma feed_args_ok argv s h :
  backlog_is (sv_backlog s) (master_repl_offset (sv_ids s)) h -> Forall (fun a => blen a < 2 ^ 63) argv ->
  exists s', feed_args argv s = Some s' /\ fed s h (concat (bulk <$> argv)) s' /\
    sv_slaves s' = sv_slaves s /\ sv_slaveseldb s' = sv_slaveseldb s.
Proof.
  intros Hb Ha. revert s h Hb. induction Ha as [|a argv Ha _ IH]; intros s h Hb; cbn [feed_args fmap list_fmap concat].
  - exists s. split; [done|]. split; [by apply fed_nil|done].
  - rewrite feed_header_ok by (pose proof (blen_nonneg a); zlia).
    destruct (feed_fed (header 36 (blen a)) s h Hb) as (s1 & -> & F1 & L1 & D1). cbn [mbind option_bind].
    destruct (feed_fed a s1 _ (proj1 F1)) as (s2 & -> & F2 & L2 & D2). cbn [mbind option_bind].
    destruct (feed_fed crlf s2 _ (proj1 F2)) as (s3 & -> & F3 & L3 & D3). cbn [mbind option_bind].
    destruct (IH s3 _ (proj1 F3)) as (s4 & -> & F4 & L4 & D4). exists s4. split; [done|].
    split; [|split; congruence]. unfold bulk at 1. rewrite <- !app_assoc.
    eapply fed_trans; [exact F1|]. eapply fed_trans; [exact F2|]. eapply fed_trans; [exact F3|exact F4].
Qed.

(** Every replica that can be fed has [p] queued, the others are as they were. *)
Definition replicas_fed (p : bytes) (l l' : list replica) : Prop :=
  Forall2 (fun r r' =>
    if canFeedReplicaReplBuffer r then exists x, r' = set_session x r /\ queued (r_session r) p x else r' = r) l l'.

Definition replicas_writable (l : list replica) : Prop :=
  Forall (fun r => canFeedReplicaReplBuffer r = true -> writable (r_session r)) l.

Lemma feed_replicas_ok f p l :
  (forall x, writable x -> exists x', f x = Some x' /\ queued x p x') -> replicas_writable l ->
  exists l', feed_replicas f l = Some l' /\ replicas_fed p l l'.
Proof.
  intros Hf. induction 1 as [|r l Hr _ (l' & E & IH)]; cbn [feed_replicas]; [by exists []; split; [|constructor]|].
  destruct (canFeedReplicaReplBuffer r) eqn:Ec.
  - destruct (Hf (r_session r)) as (x & -> & Hq); [auto|]. cbn [mbind option_bind]. rewrite E. cbn.
    eexists. split; [done|]. constructor; [|done]. rewrite Ec. by exists x.
  - cbn [mbind option_bind]. rewrite E. cbn. eexists. split; [done|]. constructor; [by rewrite Ec|done].
Qed.

Lemma canFeed_set_session x r : canFeedReplicaReplBuffer (set_session x r) = canFeedReplicaReplBuffer r.
Proof. done. Qed.

Lemma replicas_fed_writable p l l' : replicas_fed p l l' -> replicas_writable l -> replicas_writable l'.
Proof.
  induction 1 as [|r r' l l' Hr _ IH]; intros Hw; [constructor|]. apply Forall_cons in Hw as [Hw Hl].
  constructor; [|by apply IH]. destruct (canFeedReplicaReplBuffer r) eqn:E; [|subst; congruence].
  destruct Hr as (x & -> & Hq). intros _. apply Hq.
Qed.

Lemma replicas_fed_trans p q l l1 l2 : replicas_fed p l l1 -> replicas_fed q l1 l2 -> replicas_fed (p ++ q) l l2.
Proof.
  intros H. revert l2. induction H as [|r r1 l l1 Hr _ IH]; intros l2 H2; inversion H2; subst; constructor; [|by apply IH].
  destruct (canFeedReplicaReplBuffer r) eqn:E.
  - destruct Hr as (x & -> & Hq). rewrite canFeed_set_session, E in *. destruct H1 as (z & -> & Hz). exists z.
    split; [done|]. by eapply queued_trans.
  - subst. by rewrite E in *.
Qed.

Lemma replicas_fed_nil l : replicas_writable l -> replicas_fed [] l l.
Proof.
  induction 1 as [|r l Hr _ IH]; constructor; [|done]. destruct (canFeedReplicaReplBuffer r) eqn:E; [|done].
  exists (r_session r). split; [by destruct r|]. split; [by rewrite app_nil_r|]. auto.
Qed.

Lemma reply_command_ok argv x :
  Forall (fun p => blen p < 2 ^ 63) argv -> Z.of_nat (length argv) < 2 ^ 63 -> writable x ->
  exists x', reply_command block_usable obuf_limit_reached argv x = Some x' /\ queued x (encode argv) x'.
Proof.
  intros Ha Hl Hw. unfold reply_command, addReplyArrayLen, addReplyAggregateLen.
  rewrite (proj2 (Z.ltb_ge (Z.of_nat (length argv)) 0)) by lia.
  destruct (addReplyLongLongWithPrefix_ok _ _ usable_enough no_limit x (Z.of_nat (length argv)) 42 Hw) as (s1 & -> & Q1); [zlia|].
  destruct (addReplyBulks_ok _ _ usable_enough no_limit argv s1 (proj1 (proj2 Q1)) Ha) as (s2 & Eb & Q2).
  exists s2. split; [exact Eb|]. exact (queued_trans _ _ _ _ _ Q1 Q2).
Qed.

Lemma select_command_ok d : is_s 32 d -> select_command d = Some (encode [bytes_of_string "SELECT"; sdec d]).
Proof.
  intros Hd. assert (Hd' : is_s 64 d) by zlia. unfold select_command.
  rewrite ll2string_spec; [|done|done]. pose proof (sdec_length_bound d Hd') as Hb.
  rewrite (proj2 (Z.ltb_lt _ _)) by (unfold LONG_STR_SIZE; lia). cbn [mbind option_bind fst snd].
  rewrite load_prefix by done. cbn [mbind option_bind]. f_equal. unfold encode, bulk, header. cbn [length fmap list_fmap concat].
  replace (sdec (blen (sdec d))) with (udec (blen (sdec d))).
  2: { unfold sdec at 2. by rewrite (proj2 (Z.ltb_ge _ 0)) by apply blen_nonneg. }
  rewrite app_nil_r. unfold select_prefix. cbn. by rewrite <- ?app_assoc.
Qed.

(** What a call propagates: the database is selected when it is not the one the
    stream is at. *)
Definition propagated (s : server) (dictid : Z) (argv : list bytes) : bytes :=
  (if sv_slaveseldb s =? dictid then [] else encode [bytes_of_string "SELECT"; sdec dictid]) ++ encode argv.

Lemma has_backlog_is b o h s : backlog_is b o h -> sv_backlog s = b -> has_backlog s = true.
Proof. intros (m & Hm & _) <-. unfold has_backlog. by rewrite Hm. Qed.

Lemma feed_select_ok d s h :
  backlog_is (sv_backlog s) (master_repl_offset (sv_ids s)) h -> is_s 32 d -> replicas_writable (sv_slaves s) ->
  let p := if sv_slaveseldb s =? d then [] else encode [bytes_of_string "SELECT"; sdec d] in
  exists s', feed_select block_usable obuf_limit_reached d s = Some s' /\ fed s h p s' /\ replicas_fed p (sv_slaves s) (sv_slaves s').
Proof.
  intros Hb Hd Hw. unfold feed_select. destruct (sv_slaveseldb s =? d).
  - exists s. split; [done|]. split; [by apply fed_nil|by apply replicas_fed_nil].
  - rewrite select_command_ok by done. cbn [mbind option_bind]. erewrite has_backlog_is by done.
    destruct (feed_fed (encode [bytes_of_string "SELECT"; sdec d]) s h Hb) as (s1 & -> & F1 & L1 & D1). cbn [mbind option_bind].
    destruct (feed_replicas_ok (fun x => Some (addReplyProto block_usable obuf_limit_reached x (encode [bytes_of_string "SELECT"; sdec d])))
      (encode [bytes_of_string "SELECT"; sdec d]) (sv_slaves s1)) as (l & -> & Hl).
    { intros x Hx. eexists. split; [done|]. by apply addReplyProto_queued. }
    { by rewrite L1. }
    cbn. eexists. split; [done|]. split; [exact F1|]. cbn. by rewrite <- L1.
Qed.

Lemma replicationFeedSlaves_ok d argv s h :
  masterhost (sv_up s) = false ->
  backlog_is (sv_backlog s) (master_repl_offset (sv_ids s)) h -> is_s 32 d -> replicas_writable (sv_slaves s) ->
  Forall (fun p => blen p < 2 ^ 63) argv -> Z.of_nat (length argv) < 2 ^ 63 ->
  exists s', replicationFeedSlaves block_usable obuf_limit_reached d argv s = Some s' /\
    fed s h (propagated s d argv) s' /\ replicas_fed (propagated s d argv) (sv_slaves s) (sv_slaves s') /\ sv_slaveseldb s' = d.
Proof.
  intros Hm Hb Hd Hw Ha Hl. unfold replicationFeedSlaves. rewrite Hm. erewrite has_backlog_is by done.
  destruct (feed_select_ok d s h Hb Hd Hw) as (s1 & -> & F1 & L1). cbn [mbind option_bind].
  rewrite feed_header_ok by zlia.
  destruct (feed_fed (header 42 (Z.of_nat (length argv))) (set_slaveseldb d s1) _ (proj1 F1)) as (s2 & -> & F2 & L2 & D2). cbn [mbind option_bind].
  destruct (feed_args_ok argv s2 _ (proj1 F2) Ha) as (s3 & -> & F3 & L3 & D3). cbn [mbind option_bind].
  assert (E3 : sv_slaves s3 = sv_slaves s1) by (rewrite L3, L2; done). rewrite E3.
  destruct (feed_replicas_ok (reply_command block_usable obuf_limit_reached argv) (encode argv) (sv_slaves s1)) as (l & -> & H3).
  { intros x Hx. by apply reply_command_ok. }
  { by eapply replicas_fed_writable. }
  cbn. eexists. split; [done|]. split; [|split; [by eapply replicas_fed_trans|cbn; rewrite D3, D2; done]].
  eapply fed_trans; [exact F1|]. pose proof (fed_trans _ _ _ _ _ _ F2 F3) as F23. exact F23.
Qed.

Lemma backlog_index idx hist size skip :
  0 <= idx -> 0 <= hist <= size -> 0 < size -> 0 <= skip ->
  Z.rem (Z.rem (idx + (size - hist)) size + skip) size = (idx - hist + skip) mod size.
Proof.
  intros. rewrite (Z.rem_mod_nonneg (_ + (_ - _))) by lia.
  rewrite Z.rem_mod_nonneg by (pose proof (Z.mod_pos_bound (idx + (size - hist)) size); lia).
  rewrite Zplus_mod_idemp_l. replace (idx + (size - hist) + skip) with (idx - hist + skip + 1 * size) by lia.
  apply Z_mod_plus_full.
Qed.

(** The two parts of a reply that crosses the end of the memory are contiguous in the
    stream. *)
Lemma backlog_loop_ok m idx h x skip :
  ring m idx h -> writable x -> 0 <= skip <= blen h ->
  exists x', backlog_loop block_usable obuf_limit_reached 2 m (blen m) ((idx - blen h + skip) mod blen m) (blen h - skip) x = Some x' /\
    queued x (drop (Z.to_nat skip) h) x'.
Proof.
  intros Hr Hw Hskip. pose proof Hr as (Hi & Hhm & _).
  pose proof (ring_load m idx h skip) as L. set (j := (_ + skip) mod _) in *.
  assert (Hj : 0 <= j < blen m) by (apply Z.mod_pos_bound; lia).
  cbn [backlog_loop]. destruct (Z.eqb_spec (blen h - skip) 0) as [E0|E0].
  { eexists. split; [done|]. rewrite drop_ge by (unfold blen in *; lia). split; [by rewrite app_nil_r|done]. }
  destruct (Z.ltb_spec (blen m - j) (blen h - skip)) as [Hlt|Hge].
  - assert (E2 : (idx - blen h + (skip + (blen m - j))) mod blen m = 0).
    { replace (idx - blen h + (skip + (blen m - j))) with ((idx - blen h + skip) - j + 1 * blen m) by lia.
      rewrite Z_mod_plus_full. unfold j. by rewrite Zminus_mod_idemp_r, Z.sub_diag. }
    pose proof (ring_load m idx h (skip + (blen m - j)) (blen h - skip - (blen m - j))) as L2. rewrite E2 in L2.
    rewrite L by (try done; lia). cbn [mbind option_bind].
    rewrite (proj2 (Z.eqb_neq _ 0)) by lia. rewrite (proj2 (Z.ltb_ge _ _)) by lia.
    rewrite L2 by (try done; lia). cbn [mbind option_bind]. rewrite Z.sub_diag. cbn [Z.eqb]. eexists. split; [done|].
    set (d1 := take (Z.to_nat (blen m - j)) (drop (Z.to_nat skip) h)).
    replace (drop (Z.to_nat skip) h) with (d1 ++ drop (Z.to_nat (blen m - j)) (drop (Z.to_nat skip) h)) by apply take_drop.
    rewrite drop_drop. pose proof (addReplyProto_queued _ _ usable_enough no_limit x d1 Hw) as Q1.
    eapply queued_trans; [exact Q1|]. rewrite (take_ge (drop (Z.to_nat (_ + _)) h)) by (rewrite length_drop; unfold blen in *; lia).
    rewrite Z2Nat.inj_add by lia. apply addReplyProto_queued; try done. apply Q1.
  - rewrite L by (try done; lia). cbn [mbind option_bind].
    rewrite Z.sub_diag. cbn [Z.eqb]. eexists. split; [done|]. rewrite take_ge by (rewrite length_drop; unfold blen in *; lia).
    by apply addReplyProto_queued.
Qed.

Lemma addReplyReplicationBacklog_ok b o h x offset :
  backlog_is b o h -> writable x -> bl_off b <= offset <= bl_off b + bl_histlen b ->
  exists x', addReplyReplicationBacklog block_usable obuf_limit_reached b x offset = Some (x', o + 1 - offset) /\
    queued x (drop (Z.to_nat (offset - bl_off b)) h) x'.
Proof.
  intros (m & Hm & Hs & Hr & Hh & Ho) Hw Hoff. unfold addReplyReplicationBacklog. rewrite Hm, Hs, Hh in *. cbn [mbind option_bind].
  destruct (Z.eqb_spec (blen h) 0) as [E|E].
  { assert (h = []) as -> by (unfold blen in E; by destruct h). exists x. split; [do 2 f_equal; lia|]. rewrite drop_nil.
    split; [by rewrite app_nil_r|done]. }
  pose proof Hr as (Hi & Hhm & _). set (skip := offset - bl_off b) in *. assert (0 <= skip <= blen h) by lia.
  rewrite backlog_index by lia. destruct (backlog_loop_ok m (bl_idx b) h x skip Hr Hw) as (x' & -> & Hq); [lia|].
  replace (o + 1 - offset) with (blen h - skip) by lia. by exists x'.
Qed.

(** The stream does not depend on the replicas. *)
Lemma feed_select_fed d s h s' :
  backlog_is (sv_backlog s) (master_repl_offset (sv_ids s)) h -> is_s 32 d ->
  feed_select block_usable obuf_limit_reached d s = Some s' ->
  fed s h (if sv_slaveseldb s =? d then [] else encode [bytes_of_string "SELECT"; sdec d]) s'.
Proof.
  intros Hb Hd. unfold feed_select. destruct (sv_slaveseldb s =? d); [intros [= <-]; by apply fed_nil|].
  rewrite select_command_ok by done. cbn [mbind option_bind]. erewrite has_backlog_is by done.
  destruct (feed_fed (encode [bytes_of_string "SELECT"; sdec d]) s h Hb) as (s1 & -> & F1 & L1 & D1). cbn [mbind option_bind].
  destruct (feed_replicas _ _) as [l|]; [|done]. cbn. intros [= <-]. exact F1.
Qed.

Lemma replicationFeedSlaves_fed d argv s h s' :
  masterhost (sv_up s) = false ->
  backlog_is (sv_backlog s) (master_repl_offset (sv_ids s)) h -> is_s 32 d ->
  Forall (fun p => blen p < 2 ^ 63) argv -> Z.of_nat (length argv) < 2 ^ 63 ->
  replicationFeedSlaves block_usable obuf_limit_reached d argv s = Some s' -> fed s h (propagated s d argv) s'.
Proof.
  intros Hm Hb Hd Ha Hl. unfold replicationFeedSlaves. rewrite Hm. erewrite has_backlog_is by done.
  destruct (feed_select _ _ d s) as [s1|] eqn:E1; [|done]. apply (feed_select_fed _ _ h) in E1 as F1; [|done..]. cbn [mbind option_bind].
  rewrite feed_header_ok by zlia.
  destruct (feed_fed (header 42 (Z.of_nat (length argv))) (set_slaveseldb d s1) _ (proj1 F1)) as (s2 & -> & F2 & _). cbn [mbind option_bind].
  destruct (feed_args_ok argv s2 _ (proj1 F2) Ha) as (s3 & -> & F3 & _). cbn [mbind option_bind].
  destruct (feed_replicas _ (sv_slaves s3)) as [l|]; [|done]. cbn. intros [= <-].
  eapply fed_trans; [exact F1|]. pose proof (fed_trans _ _ _ _ _ _ F2 F3) as F23. exact F23.
Qed.

Lemma replicationFeedSlavesFromMasterStream_fed p s h s' :
  backlog_is (sv_backlog s) (master_repl_offset (sv_ids s)) h ->
  replicationFeedSlavesFromMasterStream block_usable obuf_limit_reached p s = Some s' -> fed s h p s'.
Proof.
  intros Hb. unfold replicationFeedSlavesFromMasterStream. erewrite has_backlog_is by done.
  destruct (feed_fed p s h Hb) as (s1 & -> & F1 & _). cbn [mbind option_bind].
  destruct (feed_replicas _ (sv_slaves s1)) as [l|]; [|done]. cbn. intros [= <-]. exact F1.
Qed.

(** A sequence of writes, each in its database. *)
Fixpoint feed_commands (cmds : list (Z * list bytes)) (s : server) : option server :=
  match cmds with
  | [] => Some s
  | (d, argv) :: cmds => s ← replicationFeedSlaves block_usable obuf_limit_reached d argv s; feed_commands cmds s
  end.

(** The commands a replica has to execute, starting in database [db]. *)
Fixpoint with_selects (db : Z) (cmds : list (Z * list bytes)) : list (list bytes) :=
  match cmds with
  | [] => []
  | (d, argv) :: cmds =>
      (if db =? d then [] else [[bytes_of_string "SELECT"; sdec d]]) ++ argv :: with_selects d cmds
  end.

(** C13: propagation of writes. A sequence of writes on a master, each in its database,
    appends one and the same stream of bytes to the replication backlog and to the
    output of every replica that is fed, and leaves the other replicas untouched:
    the encoding of the commands, with a SELECT wherever the database changes. The
    offset advances by exactly its length, and the backlog holds the end of
    everything ever fed, as much as its size allows. *)
Theorem propagation_consistent cmds s h :
  masterhost (sv_up s) = false ->
  backlog_is (sv_backlog s) (master_repl_offset (sv_ids s)) h -> replicas_writable (sv_slaves s) ->
  Forall (fun c => is_s 32 (fst c) /\ Forall (fun p => blen p < 2 ^ 63) (snd c) /\ Z.of_nat (length (snd c)) < 2 ^ 63) cmds ->
  exists s', feed_commands cmds s = Some s' /\
    fed s h (stream (with_selects (sv_slaveseldb s) cmds)) s' /\
    replicas_fed (stream (with_selects (sv_slaveseldb s) cmds)) (sv_slaves s) (sv_slaves s').
Proof.
  intros Hm Hb Hw Hc. revert s h Hm Hb Hw. induction Hc as [|[d argv] cmds (Hd & Ha & Hl) _ IH]; intros s h Hm Hb Hw.
  { exists s. split; [done|]. split; [by apply fed_nil|by apply replicas_fed_nil]. }
  destruct (replicationFeedSlaves_ok d argv s h Hm Hb Hd Hw Ha Hl) as (s1 & E1 & F1 & R1 & D1).
  assert (Hm1 : masterhost (sv_up s1) = false) by (destruct F1 as (_ & _ & _ & ->); done).
  destruct (IH s1 _ Hm1 (proj1 F1)) as (s2 & E2 & F2 & R2); [by eapply replicas_fed_writable|].
  exists s2. cbn [feed_commands]. rewrite E1. cbn [mbind option_bind]. split; [done|].
  assert (Es : stream (with_selects (sv_slaveseldb s) ((d, argv) :: cmds)) = propagated s d argv ++ stream (with_selects d cmds)).
  { unfold propagated. cbn [with_selects]. by destruct (sv_slaveseldb s =? d); cbn [app]; rewrite !stream_cons, <- ?app_assoc. }
  rewrite Es, D1 in *. split; [by eapply fed_trans|by eapply replicas_fed_trans].
Qed.

(** The decision of the master on a PSYNC, and what it then sends. *)
Definition psync_ok (i : ids) (b : backlog) (id : bytes) (offset : Z) : bool :=
  (strcaseeq id (replid i) || strcaseeq id (replid2 i) && (offset <=? second_replid_offset i)) &&
  (bl_off b <=? offset) && (offset <=? bl_off b + bl_histlen b).

Lemma masterTry_ok unixtime s h c id offset :
  backlog_is (sv_backlog s) (master_repl_offset (sv_ids s)) h -> writable (add_flag CLIENT_SLAVE (r_session c)) ->
  psync_ok (sv_ids s) (sv_backlog s) id offset = true ->
  exists r, masterTryPartialResynchronization block_usable obuf_limit_reached unixtime true s c id offset =
      Some (C_OK, set_slaves (sv_slaves s ++ [r]) s) /\
    r_wire r = r_wire c ++ continue_reply (r_psync2 c) (replid (sv_ids s)) /\ r_state r = SLAVE_STATE_ONLINE /\
    queued (add_flag CLIENT_SLAVE (r_session c)) (drop (Z.to_nat (offset - bl_off (sv_backlog s))) h) (r_session r).
Proof.
  intros Hb Hw Hok. unfold psync_ok in Hok. apply andb_true_iff in Hok as [Hok H2]. apply andb_true_iff in Hok as [Hid H1].
  apply Z.leb_le in H1, H2. unfold masterTryPartialResynchronization.
  replace (negb (strcaseeq id (replid (sv_ids s))) && _) with false.
  2: { destruct (strcaseeq id (replid (sv_ids s))); [done|]. cbn in *. apply andb_true_iff in Hid as [-> ?]. cbn. lia. }
  erewrite has_backlog_is by done. cbn [negb orb].
  rewrite (proj2 (Z.ltb_ge offset _)), (proj2 (Z.ltb_ge _ offset)) by lia. cbn [orb].
  destruct (addReplyReplicationBacklog_ok _ _ _ _ offset Hb Hw) as (x & -> & Hq); [lia|]. cbn [mbind option_bind fst].
  eexists. split; [reflexivity|]. done.
Qed.

Lemma masterTry_refused unixtime write_ok s c id offset :
  has_backlog s = false \/ psync_ok (sv_ids s) (sv_backlog s) id offset = false ->
  masterTryPartialResynchronization block_usable obuf_limit_reached unixtime write_ok s c id offset = Some (C_ERR, s).
Proof.
  unfold masterTryPartialResynchronization, psync_ok. intros H.
  destruct (negb _ && _) eqn:E; [done|]. destruct H as [->|H]; [done|].
  destruct (negb (has_backlog s) || _ || _) eqn:E2; [done|]. exfalso.
  destruct (strcaseeq id (replid _)), (strcaseeq id (replid2 _)); cbn in *; lia.
Qed.

End Feeding.

Definition demo_replica : replica := mk_replica (demo_session {[CLIENT_SLAVE]}) false false true SLAVE_STATE_ONLINE 0 0 0 [].

Definition demo_server : server :=
  mk_server (mk_ids (replicate 40 97) (replicate 40 48) (-1) 10) (mk_backlog (Some (replicate 16 0)) 16 0 5 11)
    (mk_upstream false None None [] (-1)) [demo_replica] 0.

Lemma demo_backlog : backlog_is (sv_backlog demo_server) (master_repl_offset (sv_ids demo_server)) [].
Proof.
  exists (replicate 16 0). split; [done|]. split; [done|]. split; [|done]. split; [done|]. split; [done|].
  intros k Hk. cbn in Hk. lia.
Qed.

Lemma propagation_consistent_witness :
  exists s', feed_commands id (fun _ => false) [(0, [[97]]); (3, [[98]; [99]])] demo_server = Some s' /\
    fed demo_server [] (stream [[[97]]; [bytes_of_string "SELECT"; [51]]; [[98]; [99]]]) s' /\
    replicas_fed (stream [[[97]]; [bytes_of_string "SELECT"; [51]]; [[98]; [99]]]) [demo_replica] (sv_slaves s').
Proof.
  apply (propagation_consistent id (fun _ => false) (fun n => Z.le_refl n) (fun _ => eq_refl) [(0, [[97]]); (3, [[98]; [99]])] demo_server []).
  - done.
  - exact demo_backlog.
  - repeat constructor; by vm_compute.
  - repeat constructor; cbn; zlia.
Defined.

(** ** The replies to PSYNC *)

(** The form of the IDs [getRandomHexChars] gives. *)
Definition good_id (y : bytes) : Prop :=
  length y = 40%nat /\ Forall (fun c => 48 <= c <= 57 \/ 97 <= c <= 102) y.

Lemma good_id_lower y : good_id y -> tolower <$> y = y.
Proof.
  intros [_ H]. induction H as [|c y Hc _ IH]; [done|]. cbn. f_equal; [|done]. unfold tolower.
  destruct ((65 <=? c) && (c <=? 90)) eqn:E; [lia|done].
Qed.

Lemma strcaseeq_good x y : good_id x -> good_id y -> strcaseeq x y = bool_decide (x = y).
Proof. intros Hx Hy. unfold strcaseeq. by rewrite !good_id_lower. Qed.

Lemma line_length_good y : Forall (fun c => 48 <= c <= 57 \/ 97 <= c <= 102) y -> line_length y = blen y.
Proof.
  induction 1 as [|c y Hc _ IH]; [done|]. cbn [line_length]. destruct (_ || _) eqn:E; [lia|]. rewrite IH. unfold blen. cbn. lia.
Qed.

Lemma psync_reply_continue junk y m s :
  good_id y -> cached_master (sv_up s) = Some m -> has_backlog s = true ->
  exists u, replicationResurrectCachedMaster (sv_up (accept_new_id y m s)) = Some u /\
    psync_reply junk (bytes_of_string "+CONTINUE " ++ y) s = Some (PSYNC_CONTINUE, set_up u (accept_new_id y m s)).
Proof.
  intros [Hl Hy] Hm Hb. assert (exists m', cached_master (sv_up (accept_new_id y m s)) = Some m') as [m' Hm'].
  { unfold accept_new_id. case_bool_decide; [by exists m|cbn; eauto]. }
  eexists. split; [unfold replicationResurrectCachedMaster; rewrite Hm'; reflexivity|].
  unfold psync_reply. rewrite (proj2 (Z.eqb_neq _ 0)) by (unfold blen; cbn; lia).
  change (starts_with (bytes_of_string "+CONTINUE " ++ y) (bytes_of_string "+FULLRESYNC")) with false.
  change (starts_with (bytes_of_string "+CONTINUE " ++ y) (bytes_of_string "+CONTINUE")) with true.
  change (drop 9 (bytes_of_string "+CONTINUE " ++ y)) with (32 :: y). change (drop 10 (bytes_of_string "+CONTINUE " ++ y)) with (drop 0 y).
  cbn [line_length]. rewrite line_length_good by done. unfold blen. rewrite Hl, drop_0, take_ge by (unfold CONFIG_RUN_ID_SIZE; lia).
  rewrite Hm. cbn. change (Z.of_nat 40 + 1 - 1 =? CONFIG_RUN_ID_SIZE) with true. cbn. unfold replicationResurrectCachedMaster. rewrite Hm'. cbn.
  replace (has_backlog _) with true; [done|]. unfold accept_new_id. by case_bool_decide.
Qed.

Lemma psync_reply_full junk y offset s :
  good_id y -> 0 <= offset <= INT64_MAX ->
  psync_reply junk (bytes_of_string "+FULLRESYNC " ++ y ++ [32] ++ sdec offset) s =
    Some (PSYNC_FULLRESYNC, set_up (mk_upstream (masterhost (sv_up s)) (master (sv_up s)) None y offset) s).
Proof.
  intros [Hl Hy] Ho. unfold psync_reply.
  rewrite (proj2 (Z.eqb_neq _ 0)) by (unfold blen; cbn; lia).
  set (reply := bytes_of_string "+FULLRESYNC " ++ y ++ [32] ++ sdec offset).
  change (starts_with reply (bytes_of_string "+FULLRESYNC")) with true. cbn iota.
  replace (parse_fullresync reply) with (Some (y, offset)); [done|].
  unfold parse_fullresync. change (strchr reply 32) with (Some 11). cbn [mbind option_bind].
  change (drop (Z.to_nat (11 + 1)) reply) with (drop 0 (y ++ [32] ++ sdec offset)). rewrite drop_0.
  assert (Hc : forall c, c = 32 \/ c = 0 -> c ∉ y).
  { intros c Hc Hin. rewrite Forall_forall in Hy. apply Hy in Hin. lia. }
  cbn [app]. rewrite strchr_app by (apply Hc; lia). cbn [mbind option_bind]. unfold blen. rewrite Hl. cbn [Z.of_nat].
  change (Z.of_nat 40 =? CONFIG_RUN_ID_SIZE) with true. cbn iota. rewrite Nat2Z.id, <- Hl, take_app_length.
  replace (Z.to_nat (Z.of_nat (length y) + 1)) with (length y + 1)%nat by lia. rewrite <- drop_drop, drop_app_length. cbn [drop].
  by rewrite drop_0, Sdstext.Sdstext.strtoll_sdec by zlia.
Qed.

(** ** Synchronous replication *)

Lemma acks_antitone l o o' : o <= o' -> replicationCountAcksByOffset l o' <= replicationCountAcksByOffset l o.
Proof.
  intros Ho. unfold replicationCountAcksByOffset. induction l as [|r l IH]; [done|].
  rewrite !filter_cons. repeat case_decide; cbn [length]; try lia. naive_solver lia.
Qed.

(** The remembered result is one that some count gave. *)
Lemma release_waiters_ok slaves l : forall last n,
  (last = 0 \/ n <= replicationCountAcksByOffset slaves last) ->
  let ready c := bool_decide (w_numreplicas c <= replicationCountAcksByOffset slaves (w_reploffset c)) in
  (release_waiters slaves l last n).1.*1 = filter (fun c => ready c = true) l /\
  (release_waiters slaves l last n).2 = filter (fun c => ready c = false) l /\
  Forall (fun x => w_numreplicas (fst x) <= snd x <= replicationCountAcksByOffset slaves (w_reploffset (fst x)))
    (release_waiters slaves l last n).1.
Proof.
  cbn zeta. induction l as [|c l IH]; intros last n Hn; [done|]. cbn [release_waiters].
  set (cnt := replicationCountAcksByOffset slaves (w_reploffset c)). rewrite !filter_cons.
  destruct (negb (last =? 0) && _ && _) eqn:E.
  - apply andb_true_iff in E as [E E3]. apply andb_true_iff in E as [E1 E2]. apply negb_true_iff, Z.eqb_neq in E1. apply Z.leb_le in E2, E3.
    destruct Hn as [?|Hn]; [done|]. pose proof (acks_antitone slaves _ _ E2) as Ha. fold cnt in Ha.
    destruct (IH last n (or_intror Hn)) as (I1 & I2 & I3). destruct (release_waiters slaves l last n) as [o rest]. cbn in *.
    rewrite bool_decide_true by (unfold cnt in *; lia). rewrite decide_True, decide_False by done.
    split; [by f_equal|]. split; [done|]. constructor; [cbn; unfold cnt in *; lia|done].
  - clear E. destruct (Z.leb_spec (w_numreplicas c) cnt) as [Hc|Hc].
    + destruct (IH (w_reploffset c) cnt (or_intror (Z.le_refl _))) as (I1 & I2 & I3).
      destruct (release_waiters slaves l _ cnt) as [o rest]. cbn in *.
      rewrite bool_decide_true by done. rewrite decide_True, decide_False by done.
      split; [by f_equal|]. split; [done|]. constructor; [cbn; unfold cnt in *; lia|done].
    + destruct (IH last n Hn) as (I1 & I2 & I3). destruct (release_waiters slaves l last n) as [o rest]. cbn in *.
      rewrite bool_decide_false by (unfold cnt in *; lia). rewrite decide_False, decide_True by done.
      split; [done|]. split; [by f_equal|done].
Qed.

(** C35: WAIT. A replica refuses it. On a master, a client calling WAIT is answered at
    once, with the number of replicas that acknowledged its last write, exactly when
    there are as many of them as it asked for (or in a transaction); otherwise it joins
    the blocked clients, and it waits for the number it asked for if this fits an [int],
    for its low 32 bits otherwise. A pass over the blocked clients releases, in their
    order, exactly those whose last write as many online replicas have acknowledged as
    they wait for, each with a number of replicas that is enough and that have really
    acknowledged it, although the pass reuses earlier counts; the others stay blocked,
    in their order. *)
Theorem wait_correct slaves l id woff numreplicas :
  let acks := replicationCountAcksByOffset slaves in
  let ready c := bool_decide (w_numreplicas c <= acks (w_reploffset c)) in
  (forall multi, waitCommand true multi slaves l id woff numreplicas = (WaitRefused, l)) /\
  (forall multi, waitCommand false multi slaves l id woff numreplicas =
     if bool_decide (numreplicas <= acks woff) || multi then (WaitReply (acks woff), l)
     else (WaitBlocked, mk_waiter id woff (s32 numreplicas) :: l)) /\
  (is_s 32 numreplicas -> acks woff < numreplicas ->
     waitCommand false false slaves l id woff numreplicas = (WaitBlocked, mk_waiter id woff numreplicas :: l)) /\
  (processClientsWaitingReplicas slaves l).1.*1 = filter (fun c => ready c = true) l /\
  (processClientsWaitingReplicas slaves l).2 = filter (fun c => ready c = false) l /\
  (forall x n, (x, n) ∈ (processClientsWaitingReplicas slaves l).1 ->
     w_numreplicas x <= n <= acks (w_reploffset x)).
Proof.
  cbn zeta. split_and!.
  - done.
  - intros multi. unfold waitCommand.
    destruct (Z.leb_spec numreplicas (replicationCountAcksByOffset slaves woff)); [by rewrite bool_decide_true|].
    by rewrite bool_decide_false by lia.
  - intros Hi Hlt. unfold waitCommand. by rewrite (proj2 (Z.leb_gt _ _)), wraps_small by (done || lia).
  - by destruct (release_waiters_ok slaves l 0 0) as (H1 & _); [left|].
  - by destruct (release_waiters_ok slaves l 0 0) as (_ & H2 & _); [left|].
  - destruct (release_waiters_ok slaves l 0 0) as (_ & _ & H3); [by left|].
    intros x n Hx. rewrite Forall_forall in H3. by apply (H3 (x, n)).
Qed.

(** A client that waits for 2^32 replicas is blocked, since there are not as many, but
    the number is stored as 0, and the next pass releases it. *)
Lemma wait_truncated slaves id woff : Z.of_nat (length slaves) < 2 ^ 32 ->
  let c := mk_waiter id woff 0 in
  waitCommand false false slaves [] id woff (2 ^ 32) = (WaitBlocked, [c]) /\
  processClientsWaitingReplicas slaves [c] = ([(c, replicationCountAcksByOffset slaves woff)], []).
Proof.
  intros Hl. assert (0 <= replicationCountAcksByOffset slaves woff < 2 ^ 32) as Hb.
  { unfold replicationCountAcksByOffset. pose proof (length_filter (fun r => r_state r = SLAVE_STATE_ONLINE /\ woff <= r_ack_off r) slaves). lia. }
  cbn zeta. unfold waitCommand, processClientsWaitingReplicas. cbn [release_waiters w_numreplicas w_reploffset].
  rewrite (proj2 (Z.leb_gt _ _)) by lia. cbn [orb negb Z.eqb andb].
  by rewrite (proj2 (Z.leb_le _ _)) by lia.
Qed.

End Replication.
