(* ===== verification/ReplicationWorld.v ===== *)
(** * A group of replicating instances

    Instances of [Replication] connected to each other: writes, the delivery of the
    replication stream, lost links, changes of role, expiry of the backlog, partial
    and full resynchronization.  Every transition runs the functions of
    [Replication] on the instances it concerns.  Each instance carries its data set
    as the sequence of bytes of replication stream it results from, and a replica's
    connection carries the bytes sent and not yet processed. *)

From Stdlib Require Import ZArith Lia.
From stdpp Require Import base option list numbers strings gmap fin_maps functions relations.
From S2P Require Import Prelude Util Resp Replication.

#[local] Open Scope Z_scope.

Module ReplicationWorld.
Import Util Resp Replication.

(** An instance. [conn] is the link to its master: the bytes in flight, and the
    instance that goes on feeding it, none once that side has closed it. *)
Record node := mk_node {
  srv : server;
  data : bytes;
  conn : option (bytes * option nat);
}.

Notation world := (gmap nat node).

(** Shorthands for the state of an instance. *)
Definition n_id (n : node) : bytes := replid (sv_ids (srv n)).
Definition n_id2 (n : node) : bytes := replid2 (sv_ids (srv n)).
Definition n_second (n : node) : Z := second_replid_offset (sv_ids (srv n)).
Definition n_off (n : node) : Z := master_repl_offset (sv_ids (srv n)).
Definition n_slave (n : node) : bool := masterhost (sv_up (srv n)).
Definition n_backlog (n : node) : bool := has_backlog (srv n).

Definition set_conn (c : option (bytes * option nat)) (n : node) : node := mk_node (srv n) (data n) c.

(** Instance [j] closes the links of its replicas: what is in flight may still arrive. *)
Definition detach (j : nat) (n : node) : node :=
  match conn n with
  | Some (q, Some k) => if decide (k = j) then set_conn (Some (q, None)) n else n
  | _ => n
  end.

(** Instance [j] sends [p] to its replicas. *)
Definition push (j : nat) (p : bytes) (n : node) : node :=
  match conn n with
  | Some (q, Some k) => if decide (k = j) then set_conn (Some (q ++ p, Some k)) n else n
  | _ => n
  end.

(** An ID no instance has: [getRandomHexChars] gives 160 random bits. *)
Definition fresh (w : world) (y : bytes) : Prop :=
  good_id y /\ forall i n, w !! i = Some n -> n_id n <> y /\ n_id2 n <> y.

(** The master client after [k] more bytes of the stream were processed. *)
Definition advance (m : mlink) (k : Z) (u : upstream) : upstream :=
  mk_upstream (masterhost u) (Some (mk_mlink (m_replid m) (m_reploff m + k))) (cached_master u) (master_replid u) (master_initial_offset u).

Section World.

Context (junk : nat -> Z) (block_usable : Z -> Z) (obuf_limit_reached : session -> bool) (unixtime : Z).
Hypothesis usable_enough : forall n, n <= block_usable n.
Hypothesis no_limit : forall s, obuf_limit_reached s = false.

Inductive step (w : world) : world -> Prop :=
  (** A write on a master that has a backlog. *)
  | step_write j n d argv s' :
      w !! j = Some n -> n_slave n = false -> n_backlog n = true ->
      is_s 32 d -> Forall (fun p => blen p < 2 ^ 63) argv -> Z.of_nat (length argv) < 2 ^ 63 ->
      replicationFeedSlaves block_usable obuf_limit_reached d argv (srv n) = Some s' ->
      master_repl_offset (sv_ids s') < INT64_MAX ->
      step w (<[j := mk_node s' (data n ++ propagated (srv n) d argv) (conn n)]> (push j (propagated (srv n) d argv) <$> w))
  (** Writes on a master that has none: the data set changes, the offset does not. *)
  | step_local j n d' :
      w !! j = Some n -> n_slave n = false -> n_backlog n = false ->
      step w (<[j := mk_node (srv n) d' (conn n)]> w)
  (** A replica processes bytes it received and proxies them. *)
  | step_apply i n m p q a s' :
      w !! i = Some n -> conn n = Some (p ++ q, a) -> master (sv_up (srv n)) = Some m ->
      replicationFeedSlavesFromMasterStream block_usable obuf_limit_reached p (srv n) = Some s' ->
      step w (<[i := mk_node (set_up (advance m (blen p) (sv_up s')) s') (data n ++ p) (Some (q, a))]> (push i p <$> w))
  (** A replica loses the link to its master. *)
  | step_drop i n cacheable u :
      w !! i = Some n -> n_slave n = true -> free_master cacheable (sv_up (srv n)) = Some u ->
      step w (<[i := mk_node (set_up u (srv n)) (data n) None]> w)
  (** An instance frees replicas, and the link of one of them is closed. *)
  | step_shed j n l' :
      w !! j = Some n -> l' `sublist_of` sv_slaves (srv n) ->
      step w (<[j := mk_node (set_slaves l' (srv n)) (data n) (conn n)]> w)
  | step_close k m q j :
      w !! k = Some m -> conn m = Some (q, Some j) ->
      step w (<[k := set_conn (Some (q, None)) m]> w)
  | step_promote i n cacheable y s' :
      w !! i = Some n -> n_slave n = true -> fresh w y -> replicationUnsetMaster cacheable y (srv n) = Some s' ->
      step w (<[i := mk_node s' (data n) None]> (detach i <$> w))
  | step_demote i n cacheable s' :
      w !! i = Some n -> replicationSetMaster cacheable (srv n) = Some s' ->
      step w (<[i := mk_node s' (data n) None]> (detach i <$> w))
  | step_resize i n size :
      w !! i = Some n ->
      step w (<[i := mk_node (resizeReplicationBacklog junk size (srv n)) (data n) (conn n)]> w)
  (** The backlog expires on a master nobody is connected to. *)
  | step_expire j n y limit since s' :
      w !! j = Some n -> fresh w y -> (forall k m q, w !! k = Some m -> conn m <> Some (q, Some j)) ->
      expire_backlog unixtime limit since y (srv n) = Some s' ->
      step w (<[j := mk_node s' (data n) (conn n)]> w)
  (** Replica [i] sends PSYNC to [j], which accepts. *)
  | step_psync i j ni nj c cmd id offtxt offset u sj r reply si :
      w !! i = Some ni -> w !! j = Some nj -> i <> j ->
      n_slave ni = true -> master (sv_up (srv ni)) = None ->
      (n_slave nj = true -> is_Some (master (sv_up (srv nj)))) ->
      psync_request false true (sv_up (srv ni)) = (PSYNC_WAIT_REPLY, [cmd; id; offtxt], u) ->
      string2ll offtxt (blen offtxt) = Some (Some offset) ->
      writable (add_flag CLIENT_SLAVE (r_session c)) -> out (r_session c) = [] -> r_wire c = [] -> r_psync2 c = true ->
      masterTryPartialResynchronization block_usable obuf_limit_reached unixtime true (srv nj) c id offset = Some (C_OK, sj) ->
      last (sv_slaves sj) = Some r -> r_wire r = reply ++ crlf ->
      psync_reply junk reply (set_up u (srv ni)) = Some (PSYNC_CONTINUE, si) ->
      step w (<[i := mk_node si (data ni) (Some (out (r_session r), Some j))]>
        ((fun n => if bool_decide (replid (sv_ids si) = n_id ni) then n else detach i n) <$>
          (<[j := mk_node sj (data nj) (conn nj)]> w)))
  (** Replica [i] is sent the data set of [j]. *)
  | step_fullsync i j ni nj c c' y sj sj' reply si si' si'' :
      w !! i = Some ni -> w !! j = Some nj -> i <> j ->
      n_slave ni = true -> master (sv_up (srv ni)) = None ->
      (n_slave nj = true -> is_Some (master (sv_up (srv nj)))) ->
      fresh w y -> r_pre_psync c = false -> r_wire c = [] ->
      sync_create_backlog junk y (set_slaves (sv_slaves (srv nj) ++ [c]) (srv nj)) = Some sj ->
      replicationSetupSlaveForFullResync true sj c (master_repl_offset (sv_ids sj)) = (sj', c', C_OK) ->
      r_wire c' = reply ++ crlf ->
      psync_reply junk reply (srv ni) = Some (PSYNC_FULLRESYNC, si) ->
      start_full_resync si = Some si' -> finish_full_resync junk si' = Some si'' ->
      step w (<[i := mk_node si'' (data nj) (Some ([], Some j))]>
        (detach i <$> (<[j := mk_node (set_slaves (sv_slaves (srv nj) ++ [c']) sj') (data nj) (conn nj)]> w)))
  (** A full resynchronization that does not complete leaves an arbitrary data set. *)
  | step_abort i n reply result s' s'' d' :
      w !! i = Some n -> n_slave n = true -> master (sv_up (srv n)) = None ->
      psync_reply junk reply (srv n) = Some (result, s') -> result = PSYNC_FULLRESYNC \/ result = PSYNC_NOT_SUPPORTED ->
      start_full_resync s' = Some s'' ->
      step w (<[i := mk_node s'' d' None]> (detach i <$> w)).

(** Instances as they start: masters with distinct IDs. *)
Definition init (w : world) : Prop :=
  (forall i n, w !! i = Some n ->
    good_id (n_id n) /\ length (n_id2 n) = 40%nat /\ n_second n = -1 /\ 0 <= n_off n < INT64_MAX /\
    0 < bl_size (sv_backlog (srv n)) /\ n_backlog n = false /\ sv_slaves (srv n) = [] /\
    n_slave n = false /\ master (sv_up (srv n)) = None /\ cached_master (sv_up (srv n)) = None /\ conn n = None) /\
  (forall i j n m, i <> j -> w !! i = Some n -> w !! j = Some m -> n_id n <> n_id m).

(** ** Invariant *)

(** [H] gives the history an ID stands for and [B] the offset it begins at. *)
Definition backlog_ok (H : bytes -> bytes) (B : bytes -> Z) (n : node) : Prop :=
  (exists h, backlog_is (sv_backlog (srv n)) (n_off n) h /\ h `suffix_of` data n) /\
  data n `prefix_of` H (n_id n) /\ n_off n = B (n_id n) + blen (data n) /\
  B (n_id n) + blen (H (n_id n)) < INT64_MAX /\
  (n_second n = -1 \/
   B (n_id2 n) = B (n_id n) /\ B (n_id n) <= n_second n - 1 <= n_off n /\
   take (Z.to_nat (n_second n - 1 - B (n_id n))) (data n) `prefix_of` H (n_id2 n)).

Record node_ok (H : bytes -> bytes) (B : bytes -> Z) (n : node) : Prop := mk_node_ok {
  ok_id : good_id (n_id n);
  ok_id2 : length (n_id2 n) = 40%nat /\ (n_second n = -1 \/ good_id (n_id2 n));
  ok_off : 0 <= n_off n < INT64_MAX;
  ok_size : 0 < bl_size (sv_backlog (srv n));
  ok_backlog : n_backlog n = true -> backlog_ok H B n;
  ok_nobacklog : n_backlog n = false -> sv_slaves (srv n) = [] /\ master (sv_up (srv n)) = None;
  ok_link : (forall m, master (sv_up (srv n)) = Some m \/ cached_master (sv_up (srv n)) = Some m -> m = mk_mlink (n_id n) (n_off n)) /\
    (master (sv_up (srv n)) = None \/ cached_master (sv_up (srv n)) = None);
  ok_master : n_slave n = false ->
    master (sv_up (srv n)) = None /\ cached_master (sv_up (srv n)) = None /\ conn n = None /\
    (n_backlog n = true -> data n = H (n_id n));
  ok_conn : forall q a, conn n = Some (q, a) -> is_Some (master (sv_up (srv n))) /\ data n ++ q `prefix_of` H (n_id n);
}.

(** An ID that names writes outside of any history: nobody else may have it. *)
Definition claims (n : node) : Prop := n_backlog n = false /\ (n_slave n = false \/ is_Some (cached_master (sv_up (srv n)))).

(** What instance [n] relies on of instance [m]: IDs, and the link if it is the master. *)
Definition apart (n m : node) : Prop :=
  (claims n -> n_id m <> n_id n /\ (n_backlog m = true -> n_second m <> -1 -> n_id2 m <> n_id n)) /\
  (n_slave n = false -> n_id m = n_id n -> n_slave m = true).

Definition linked (q : bytes) (n m : node) : Prop := n_id m = n_id n /\ n_backlog m = true /\ data m = data n ++ q.

Definition pair_ok (j : nat) (n m : node) : Prop := apart n m /\ forall q, conn n = Some (q, Some j) -> linked q n m.

Definition inv (H : bytes -> bytes) (B : bytes -> Z) (w : world) : Prop :=
  (forall i n, w !! i = Some n -> node_ok H B n /\ forall q, conn n <> Some (q, Some i)) /\
  (forall i j n m, i <> j -> w !! i = Some n -> w !! j = Some m -> pair_ok j n m).

Lemma init_inv w : init w -> inv (fun _ => []) (fun _ => 0) w.
Proof.
  intros [Hn Hd]. split.
  - intros i n E. destruct (Hn i n E) as (H1 & H2 & H3 & H4 & H5 & H6 & H7 & H8 & H9 & H10 & H11). split; [|by rewrite H11].
    constructor; rewrite ?H6, ?H7, ?H8, ?H9, ?H10, ?H11; try done; [auto|split; [by intros m [?|?]|auto]].
  - intros i j n m Hij E1 E2. pose proof (Hd _ _ _ _ Hij E1 E2) as Hne.
    destruct (Hn i n E1) as (H1 & H2 & H3 & H4 & H5 & H6 & H7 & H8 & H9 & H10 & H11).
    destruct (Hn j m E2) as (_ & _ & _ & _ & _ & H6' & _). split; [split|].
    + intros _. split; [congruence|]. by rewrite H6'.
    + intros _ ?. congruence.
    + by rewrite H11.
Qed.

(** ** Reasoning about updates *)

Lemma conn_push j p n q a :
  conn (push j p n) = Some (q, a) ->
  (a <> Some j /\ conn n = Some (q, a)) \/ (a = Some j /\ exists q0, q = q0 ++ p /\ conn n = Some (q0, Some j)).
Proof.
  unfold push. destruct (conn n) as [[q0 [k|]]|] eqn:E; [|rewrite E; naive_solver..].
  case_decide as Hk; [|rewrite E; naive_solver]. cbn. intros [= <- <-]. subst. naive_solver.
Qed.

Lemma conn_detach j n q a :
  conn (detach j n) = Some (q, a) -> a <> Some j /\ exists a0, conn n = Some (q, a0) /\ (a = a0 \/ a = None).
Proof.
  unfold detach. destruct (conn n) as [[q0 [k|]]|] eqn:E; [|rewrite E; naive_solver..].
  case_decide as Hk; [|rewrite E; naive_solver]. cbn. intros [= <- <-]. naive_solver.
Qed.

Lemma conn_None_push j p n : conn n = None -> conn (push j p n) = None.
Proof. unfold push. intros E. by rewrite E. Qed.

Lemma conn_None_detach j n : conn n = None -> conn (detach j n) = None.
Proof. unfold detach. intros E. by rewrite E. Qed.

Lemma push_srv j p n : srv (push j p n) = srv n /\ data (push j p n) = data n.
Proof. unfold push. by repeat case_match. Qed.

Lemma detach_srv j n : srv (detach j n) = srv n /\ data (detach j n) = data n.
Proof. unfold detach. by repeat case_match. Qed.

(** Two nodes that differ in their links only. *)
Definition same_state (n n' : node) : Prop := srv n' = srv n /\ data n' = data n.

Lemma same_fields n n' : same_state n n' ->
  n_id n' = n_id n /\ n_id2 n' = n_id2 n /\ n_second n' = n_second n /\ n_off n' = n_off n /\ n_slave n' = n_slave n /\
  n_backlog n' = n_backlog n.
Proof. intros [Hs _]. unfold n_id, n_id2, n_second, n_off, n_slave, n_backlog. by rewrite Hs. Qed.

Lemma node_ok_same H B n n' :
  same_state n n' -> (conn n = None -> conn n' = None) ->
  (forall q a, conn n' = Some (q, a) -> is_Some (conn n) /\ data n ++ q `prefix_of` H (n_id n)) ->
  node_ok H B n -> node_ok H B n'.
Proof.
  intros [Hs Hd] Hn Hc [H1 H2 H3 H4 H5 H6 H7 H8 H9].
  constructor; unfold backlog_ok, n_id, n_id2, n_second, n_off, n_slave, n_backlog in *; rewrite ?Hs, ?Hd; try done.
  - intros E. destruct (H8 E) as (? & ? & ? & ?). auto.
  - intros q a Hq. destruct (Hc q a Hq) as [[[q0 a0] E] ?]. split; [|done]. by destruct (H9 q0 a0 E).
Qed.

(** A history that grows, where no master relies on its end. *)
Lemma node_ok_grow (H H' : bytes -> bytes) B n :
  (forall y, H y `prefix_of` H' y) -> (n_backlog n = true -> B (n_id n) + blen (H' (n_id n)) < INT64_MAX) ->
  (n_slave n = false -> n_backlog n = true -> H' (n_id n) = H (n_id n)) -> node_ok H B n -> node_ok H' B n.
Proof.
  intros Hp Hb Hm [H1 H2 H3 H4 H5 H6 H7 H8 H9]. constructor; try done.
  - intros E. destruct (H5 E) as (? & ? & ? & ? & Hs). split; [done|]. split; [by etrans|]. split; [done|]. split; [auto|].
    destruct Hs as [|(? & ? & ?)]; [by left|right]. split; [done|]. split; [done|]. by etrans.
  - intros E. destruct (H8 E) as (? & ? & ? & Hd). split_and!; try done. intros E'. rewrite Hm by done. auto.
  - intros q a E. destruct (H9 q a E). split; [done|]. by etrans.
Qed.

(** An ID the instance does not have. *)
Lemma node_ok_fresh H B y d b n :
  n_id n <> y -> n_id2 n <> y -> node_ok H B n -> node_ok (<[y := d]> H) (<[y := b]> B) n.
Proof.
  intros Hy Hy2 [H1 H2 H3 H4 H5 H6 H7 H8 H9].
  assert (Eh : (<[y := d]> H) (n_id n) = H (n_id n)) by (by apply fn_lookup_insert_ne).
  assert (Eb : (<[y := b]> B) (n_id n) = B (n_id n)) by (by apply fn_lookup_insert_ne).
  assert (Eh2 : (<[y := d]> H) (n_id2 n) = H (n_id2 n)) by (by apply fn_lookup_insert_ne).
  assert (Eb2 : (<[y := b]> B) (n_id2 n) = B (n_id2 n)) by (by apply fn_lookup_insert_ne).
  constructor; unfold backlog_ok; rewrite ?Eh, ?Eb, ?Eh2, ?Eb2; try done.
Qed.

(** One instance changes, the links of the others are adjusted. *)
Lemma inv_step H B H' B' w i n n' (f : node -> node) :
  inv H B w -> w !! i = Some n ->
  (forall m, same_state m (f m)) ->
  (forall m q l, l <> i -> conn (f m) = Some (q, Some l) -> conn m = Some (q, Some l)) ->
  node_ok H' B' n' -> (forall q, conn n' <> Some (q, Some i)) ->
  (forall k m, k <> i -> w !! k = Some m -> node_ok H B m -> pair_ok i m n -> node_ok H' B' (f m)) ->
  (forall k m, k <> i -> w !! k = Some m -> apart m n -> apart n m -> apart m n' /\ apart n' m) ->
  (forall k m q, k <> i -> w !! k = Some m -> pair_ok i m n -> conn (f m) = Some (q, Some i) -> linked q m n') ->
  (forall k m q, k <> i -> w !! k = Some m -> pair_ok k n m -> conn n' = Some (q, Some k) -> linked q n' m) ->
  inv H' B' (<[i := n']> (f <$> w)).
Proof.
  intros [Hn Hp] Ei Hsame Hconn Hn' Hself Hok Hap Hin Hout.
  assert (Hw : forall k m', (<[i := n']> (f <$> w)) !! k = Some m' ->
    (k = i /\ m' = n') \/ (k <> i /\ exists m, w !! k = Some m /\ m' = f m)).
  { intros k m' E. apply lookup_insert_Some in E as [[<- <-]|[Hk E]]; [by left|]. rewrite lookup_fmap_Some in E. naive_solver. }
  assert (Hapart : forall m1 m1' m2 m2', same_state m1 m1' -> same_state m2 m2' -> apart m1 m2 -> apart m1' m2').
  { intros m1 m1' m2 m2' S1 S2. destruct (same_fields _ _ S1) as (E1 & _ & _ & _ & E5 & E6), (same_fields _ _ S2) as (G1 & G2 & G3 & _ & G5 & G6).
    destruct S1 as [S1 _]. unfold apart, claims. by rewrite S1, E1, E5, E6, G1, G2, G3, G5, G6. }
  assert (Hlinked : forall q m1 m1' m2 m2', same_state m1 m1' -> same_state m2 m2' -> linked q m1 m2 -> linked q m1' m2').
  { intros q m1 m1' m2 m2' S1 S2. destruct (same_fields _ _ S1) as (E1 & _), (same_fields _ _ S2) as (G1 & _ & _ & _ & _ & G6).
    destruct S1 as [_ D1], S2 as [_ D2]. unfold linked. by rewrite E1, G1, G6, D1, D2. }
  assert (Hrefl : forall m, same_state m m) by done.
  split.
  - intros k m' E. destruct (Hw k m' E) as [[-> ->]|(Hk & m & Em & ->)]; [done|]. split.
    + apply (Hok k m Hk Em); [apply (Hn _ _ Em)|by eapply Hp].
    + intros q Hq. apply Hconn in Hq; [|done]. by eapply (Hn k m Em).
  - intros k l m1 m2 Hkl E1 E2.
    destruct (Hw k m1 E1) as [[-> ->]|(Hk & n1 & En1 & ->)], (Hw l m2 E2) as [[-> ->]|(Hl & n2 & En2 & ->)]; [done|..].
    + destruct (Hp l i n2 n Hl En2 Ei) as [A1 _]. destruct (Hp i l n n2 Hkl Ei En2) as [A2 L2].
      destruct (Hap l n2 Hl En2 A1 A2) as [_ A3]. split; [eauto|]. intros q Hq. eapply Hlinked; [done|apply Hsame|]. by eapply Hout.
    + destruct (Hp k i n1 n Hk En1 Ei) as [A1 L1]. destruct (Hp i k n n1 (not_eq_sym Hk) Ei En1) as [A2 _].
      destruct (Hap k n1 Hk En1 A1 A2) as [A3 _]. split; [eauto|]. intros q Hq. eapply Hlinked; [apply Hsame|done|]. by eapply Hin.
    + destruct (Hp k l n1 n2 Hkl En1 En2) as [A1 L1]. split; [eauto|]. intros q Hq. eapply Hlinked; [apply Hsame..|].
      apply L1. by apply Hconn.
Qed.

(** The links of the others do not change, nor what they rely on. *)
Lemma inv_local H B w i n n' :
  inv H B w -> w !! i = Some n ->
  node_ok H B n' -> n_id n' = n_id n -> data n' = data n ->
  n_id2 n' = n_id2 n -> n_second n' = n_second n -> n_backlog n' = n_backlog n -> (n_slave n' = n_slave n) ->
  (claims n' -> claims n) ->
  (forall q a, conn n' = Some (q, Some a) -> conn n = Some (q, Some a)) ->
  inv H B (<[i := n']> w).
Proof.
  intros Hinv Ei Hn' Eid Ed Eid2 Es Eb Em Hc Hconn. rewrite <- (map_fmap_id w).
  apply (inv_step H B H B w i n n' (fun m => m)); try done.
  - intros q Hq. apply Hconn in Hq. by eapply (proj1 Hinv).
  - intros k m Hk Em' A1 A2. unfold apart in *. rewrite Eid, Eid2, Es, Eb, Em. naive_solver.
  - intros k m q Hk Ek [_ L] Hq. unfold linked. rewrite Eid, Ed, Eb. by apply L.
  - intros k m q Hk Ek [_ L] Hq. apply Hconn, L in Hq. unfold linked in *. by rewrite Eid, Ed.
Qed.

Lemma node_ok_detach H B j n : node_ok H B n -> node_ok H B (detach j n).
Proof.
  intros Hok. eapply node_ok_same; [apply detach_srv|apply conn_None_detach| |done].
  intros q a Hq. apply conn_detach in Hq as (_ & a0 & E & _). rewrite E. split; [done|]. by apply (ok_conn _ _ _ Hok) in E as [_ ?].
Qed.

(** An instance that closes its links, both ways. *)
Lemma inv_reset H B H' B' w i n n' :
  inv H B w -> w !! i = Some n -> node_ok H' B' n' -> conn n' = None ->
  (forall k m, k <> i -> w !! k = Some m -> node_ok H B m -> node_ok H' B' m) ->
  (forall k m, k <> i -> w !! k = Some m -> apart m n -> apart n m -> apart m n' /\ apart n' m) ->
  inv H' B' (<[i := n']> (detach i <$> w)).
Proof.
  intros Hinv Ei Hn' Hc Hok Hap. apply (inv_step H B H' B' w i n n' (detach i)); try done.
  - intros m. apply detach_srv.
  - intros m q l Hl Hq. apply conn_detach in Hq as (_ & a0 & E & [<-|?]); done.
  - by rewrite Hc.
  - intros k m Hk Ek Hm _. apply node_ok_detach. eauto.
  - intros k m q Hk Ek _ Hq. by apply conn_detach in Hq as [? _].
  - by rewrite Hc.
Qed.

(** A fresh ID sets an instance apart from all others. *)
Lemma apart_fresh w y n n' k m :
  fresh w y -> w !! k = Some m -> n_id n' = y ->
  (n_backlog n' = true -> n_second n' <> -1 -> n_id2 n' = n_id n) ->
  apart m n -> apart m n' /\ apart n' m.
Proof.
  intros [_ Hf] Ek Ey E2 [A1 _]. destruct (Hf k m Ek) as [F1 F2]. unfold apart. rewrite Ey. split; split; try congruence.
  - intros Hc. split; [congruence|]. intros Hb Hs. rewrite E2 by done. by apply A1.
  - done.
Qed.

Lemma apart_same n n' m :
  n_id n' = n_id n -> n_id2 n' = n_id2 n -> n_second n' = n_second n ->
  (n_backlog n' = true -> n_backlog n = true) -> (n_slave n = true -> n_slave n' = true) -> (claims n' -> claims n) ->
  apart m n -> apart n m -> apart m n' /\ apart n' m.
Proof.
  intros Eid Eid2 Es Hb Hs Hc A1 A2. unfold apart in *. rewrite Eid, Eid2, Es.
  assert (n_slave n' = false -> n_slave n = false) by (destruct (n_slave n); [|done]; naive_solver congruence). naive_solver.
Qed.

(** *** Writes *)

Lemma fed_backlog s h p s' : fed s h p s' -> has_backlog s' = true /\ 0 < bl_size (sv_backlog s').
Proof.
  intros ((m & Hm & Hs & Hr & _) & _). split; [unfold has_backlog; by rewrite Hm|]. rewrite Hs. destruct Hr as [? _]. lia.
Qed.

Lemma backlog_ok_feed (H H' : bytes -> bytes) B n h p s' n' :
  backlog_ok H B n -> backlog_is (sv_backlog (srv n)) (n_off n) h -> h `suffix_of` data n -> fed (srv n) h p s' ->
  sv_ids (srv n') = sv_ids s' -> sv_backlog (srv n') = sv_backlog s' -> data n' = data n ++ p ->
  (forall y, H y `prefix_of` H' y) -> B (n_id n) + blen (H' (n_id n)) < INT64_MAX -> data n ++ p `prefix_of` H' (n_id n) ->
  backlog_ok H' B n' /\ n_id n' = n_id n /\ n_id2 n' = n_id2 n /\ n_second n' = n_second n /\ n_off n' = n_off n + blen p /\
    n_backlog n' = true /\ 0 < bl_size (sv_backlog (srv n')).
Proof.
  intros (_ & Hp & Ho & _ & H2) Hh Hs F Ei Eb Ed Hgrow Hb Hp'. pose proof (fed_backlog _ _ _ _ F) as [Hhas Hsize].
  destruct F as (F1 & F2 & F3 & _).
  assert (E : n_id n' = n_id n /\ n_id2 n' = n_id2 n /\ n_second n' = n_second n /\ n_off n' = n_off n + blen p).
  { unfold n_id, n_id2, n_second, n_off. by rewrite Ei, F3. }
  destruct E as (Eid & Eid2 & Es & Eo).
  split; [|split_and!; try done; [unfold n_backlog, has_backlog in *|]; by rewrite Eb].
  unfold backlog_ok. rewrite Eid, Eid2, Es, Eo, Ed, Eb. split_and!.
  - exists (lastn (Z.to_nat (bl_size (sv_backlog (srv n)))) (h ++ p)).
    split; [rewrite <- Eo; unfold n_off; by rewrite Ei|].
    etrans; [apply lastn_suffix|]. destruct Hs as [t Ht]. exists t. by rewrite Ht, app_assoc.
  - done.
  - rewrite blen_app. lia.
  - done.
  - destruct H2 as [|(? & ? & Ht)]; [by left|]. right. split; [done|]. split; [pose proof (blen_nonneg p); lia|].
    rewrite take_app_le; [by etrans|]. unfold blen in *. lia.
Qed.


(** An instance's stream and the history of its ID advance; its replicas are sent the
    same bytes. *)
Lemma feed_inv (H H' : bytes -> bytes) B w i n n' p :
  inv H B w -> w !! i = Some n -> n_backlog n = true ->
  (forall y, H y `prefix_of` H' y) -> (forall y, y <> n_id n -> H' y = H y) -> (n_slave n = true -> H' (n_id n) = H (n_id n)) ->
  B (n_id n) + blen (H' (n_id n)) < INT64_MAX -> data n ++ p `prefix_of` H' (n_id n) ->
  n_id n' = n_id n -> n_id2 n' = n_id2 n -> n_second n' = n_second n -> n_backlog n' = true -> n_slave n' = n_slave n ->
  data n' = data n ++ p -> node_ok H' B n' -> (forall q k, conn n' = Some (q, Some k) -> conn n = Some (p ++ q, Some k)) ->
  inv H' B (<[i := n']> (push i p <$> w)).
Proof.
  intros Hinv Ei Hbl Hgrow Hother Hslave Hbound Hp' Eid Eid2 Es Eb Em Ed Hn' Hconn.
  apply (inv_step H B H' B w i n n' (push i p)); try done.
  - intros m. apply push_srv.
  - intros m q l Hl Hq. apply conn_push in Hq as [[_ ?]|[? _]]; [done|congruence].
  - intros q Hq. apply Hconn in Hq. by eapply (proj1 Hinv).
  - intros k m Hk Ek Hm [[_ A] L]. assert (Hm' : node_ok H' B m).
    { apply (node_ok_grow H); try done; destruct (decide (n_id m = n_id n)) as [Ee|Ee].
      - by rewrite Ee.
      - intros E. rewrite (Hother _ Ee). by destruct (ok_backlog _ _ _ Hm E) as (_ & _ & _ & ? & _).
      - rewrite Ee. auto.
      - auto. }
    eapply node_ok_same; [apply push_srv|apply conn_None_push| |done].
    intros q a Hq. apply conn_push in Hq as [[_ E]|(_ & q0 & -> & E)]; rewrite E; (split; [done|]).
    + by apply (ok_conn _ _ _ Hm') in E as [_ ?].
    + destruct (L _ E) as (L1 & _ & L3). rewrite app_assoc, <- L3, <- L1. done.
  - intros k m Hk Ek A1 A2. apply (apart_same n); try done; [by rewrite Em|]. intros [? _]. congruence.
  - intros k m q Hk Ek [_ L] Hq. apply conn_push in Hq as [[? _]|(_ & q0 & -> & E)]; [done|].
    destruct (L _ E) as (L1 & _ & L3). unfold linked. rewrite Eid, Ed, L3, app_assoc. done.
  - intros k m q Hk Ek [_ L] Hq. apply Hconn, L in Hq as (L1 & L2 & L3). unfold linked. rewrite Eid, Ed, L3, <- app_assoc. done.
Qed.

Lemma write_inv H B w j n d argv s' :
  inv H B w -> w !! j = Some n -> n_slave n = false -> n_backlog n = true ->
  is_s 32 d -> Forall (fun p => blen p < 2 ^ 63) argv -> Z.of_nat (length argv) < 2 ^ 63 ->
  replicationFeedSlaves block_usable obuf_limit_reached d argv (srv n) = Some s' ->
  master_repl_offset (sv_ids s') < INT64_MAX ->
  inv (<[n_id n := data n ++ propagated (srv n) d argv]> H) B
    (<[j := mk_node s' (data n ++ propagated (srv n) d argv) (conn n)]> (push j (propagated (srv n) d argv) <$> w)).
Proof.
  intros Hinv Ej Hm Hb Hd Ha Hl Hf Hoff. destruct (proj1 Hinv j n Ej) as [Hn Hself].
  pose proof (ok_backlog _ _ _ Hn Hb) as Hbok. pose proof Hbok as ((h & Hh & Hs) & _ & Ho & _).
  apply (replicationFeedSlaves_fed _ _ d argv _ h) in Hf as F; [|done..]. set (p := propagated (srv n) d argv) in *.
  destruct (ok_master _ _ _ Hn Hm) as (Hma & Hca & Hco & Hdata). specialize (Hdata Hb).
  set (H' := <[n_id n := data n ++ p]> H).
  assert (Hx : H' (n_id n) = data n ++ p) by apply fn_lookup_insert.
  assert (Hy : forall y, y <> n_id n -> H' y = H y) by (intros y ?; by apply fn_lookup_insert_ne).
  assert (Hgrow : forall y, H y `prefix_of` H' y).
  { intros y. destruct (decide (y = n_id n)) as [->|Hne]; [rewrite Hx, <- Hdata; by eexists|by rewrite Hy]. }
  set (n' := mk_node s' (data n ++ p) (conn n)).
  assert (Hbd : B (n_id n) + blen (H' (n_id n)) < INT64_MAX).
  { rewrite Hx, blen_app. destruct F as (_ & _ & F3 & _). rewrite F3 in Hoff. cbn in Hoff. unfold n_off in Ho. lia. }
  destruct (backlog_ok_feed H H' B n h p s' n' Hbok Hh Hs F) as (Hb' & Eid & Eid2 & Es & Eo & Eb & Ez); try done; [by rewrite Hx|].
  destruct F as (_ & _ & _ & F4). apply (feed_inv H H' B w j n n' p); try done.
  - congruence.
  - by rewrite Hx.
  - unfold n_slave. cbn. by rewrite F4.
  - constructor; try done.
    + rewrite Eid. apply Hn.
    + rewrite Eid2, Es. apply Hn.
    + split; [rewrite Eo; pose proof (ok_off _ _ _ Hn); pose proof (blen_nonneg p); lia|done].
    + by rewrite Eb.
    + cbn. rewrite F4. unfold n_slave in Hm. split; [by rewrite Hma, Hca; intros m [?|?]|by left].
    + intros _. cbn. rewrite F4. by rewrite Eid.
    + cbn. by rewrite Hco.
  - cbn. by rewrite Hco.
Qed.

Lemma apply_inv H B w i n m p q a s' :
  inv H B w -> w !! i = Some n -> conn n = Some (p ++ q, a) -> master (sv_up (srv n)) = Some m ->
  replicationFeedSlavesFromMasterStream block_usable obuf_limit_reached p (srv n) = Some s' ->
  inv H B (<[i := mk_node (set_up (advance m (blen p) (sv_up s')) s') (data n ++ p) (Some (q, a))]> (push i p <$> w)).
Proof.
  intros Hinv Ei Hc Hm Hf. destruct (proj1 Hinv i n Ei) as [Hn Hself].
  assert (Hb : n_backlog n = true).
  { destruct (n_backlog n) eqn:E; [done|]. destruct (ok_nobacklog _ _ _ Hn E). congruence. }
  assert (Hsl : n_slave n = true).
  { destruct (n_slave n) eqn:E; [done|]. destruct (ok_master _ _ _ Hn E). congruence. }
  pose proof (ok_backlog _ _ _ Hn Hb) as Hbok. pose proof Hbok as ((h & Hh & Hs) & _ & Ho & Hbd & _).
  apply (replicationFeedSlavesFromMasterStream_fed _ _ p _ h) in Hf as F; [|done].
  destruct (ok_conn _ _ _ Hn _ _ Hc) as [_ Hpre]. rewrite app_assoc in Hpre.
  assert (Hp' : data n ++ p `prefix_of` H (n_id n)) by (etrans; [by eexists|exact Hpre]).
  set (n' := mk_node (set_up (advance m (blen p) (sv_up s')) s') (data n ++ p) (Some (q, a))).
  destruct (backlog_ok_feed H H B n h p s' n' Hbok Hh Hs F) as (Hb' & Eid & Eid2 & Es & Eo & Eb & Ez); try done.
  destruct F as (_ & _ & _ & F4). destruct (ok_link _ _ _ Hn) as [Hl [?|Hca]]; [congruence|].
  specialize (Hl m (or_introl Hm)). apply (feed_inv H H B w i n n' p); try done.
  - cbn. unfold n_slave. cbn. by rewrite F4.
  - constructor; try done.
    + rewrite Eid. apply Hn.
    + rewrite Eid2, Es. apply Hn.
    + pose proof (ok_off _ _ _ Hn). pose proof (blen_nonneg p). rewrite Eo. destruct Hp' as [t Ht]. rewrite Ht, !blen_app in Hbd.
      pose proof (blen_nonneg t). lia.
    + by rewrite Eb.
    + rewrite Eid, Eo. cbn. rewrite F4, Hca. split; [|by right]. intros m' [[= <-]|?]; [|done]. by rewrite Hl.
    + unfold n_slave in *. cbn. rewrite F4. congruence.
    + intros q' a' [= <- <-]. cbn. split; [by eexists|]. by rewrite Eid.
  - cbn. intros q' k [= <- ->]. done.
Qed.

(** *** Links and roles *)

Lemma insert_same (w : world) i n : w !! i = Some n -> <[i := mk_node (srv n) (data n) (conn n)]> w = w.
Proof. intros E. apply map_eq. intros k. destruct (decide (k = i)) as [->|]; [|by rewrite lookup_insert_ne]. rewrite lookup_insert_eq, E. by destruct n. Qed.

Lemma local_inv H B w j n d' :
  inv H B w -> w !! j = Some n -> n_slave n = false -> n_backlog n = false ->
  inv H B (<[j := mk_node (srv n) d' (conn n)]> w).
Proof.
  intros Hinv Ej Hm Hb. destruct (proj1 Hinv j n Ej) as [Hn Hself]. destruct (ok_master _ _ _ Hn Hm) as (Hma & Hca & Hco & _).
  rewrite <- (map_fmap_id w). apply (inv_step H B H B w j n _ (fun m => m)); try done.
  - destruct Hn as [H1 H2 H3 H4 H5 H6 H7 H8 H9]. constructor; try done.
    + intros E. change (n_backlog n = true) in E. congruence.
    + intros _. cbn. split_and!; try done. intros E. change (n_backlog n = true) in E. congruence.
    + cbn. by rewrite Hco.
  - intros k m q Hk Ek [_ L] Hq. destruct (L q Hq) as (_ & ? & _). congruence.
  - cbn. by rewrite Hco.
Qed.

Lemma free_master_ok H B n cacheable u :
  node_ok H B n -> free_master cacheable (sv_up (srv n)) = Some u ->
  masterhost u = n_slave n /\ master u = None /\
  (cached_master u = cached_master (sv_up (srv n)) \/ n_backlog n = true /\ cached_master u = master (sv_up (srv n))).
Proof.
  intros Hn. unfold free_master. destruct (master (sv_up (srv n))) as [m|] eqn:Em; [|intros [= <-]; auto].
  assert (n_backlog n = true) as Hb.
  { destruct (n_backlog n) eqn:E; [done|]. destruct (ok_nobacklog _ _ _ Hn E). congruence. }
  destruct cacheable; [|intros [= <-]; cbn; auto].
  unfold replicationCacheMaster. rewrite Em. cbn. destruct (cached_master _); [done|]. intros [= <-]. cbn. auto.
Qed.

Lemma drop_inv H B w i n cacheable u :
  inv H B w -> w !! i = Some n -> n_slave n = true -> free_master cacheable (sv_up (srv n)) = Some u ->
  inv H B (<[i := mk_node (set_up u (srv n)) (data n) None]> w).
Proof.
  intros Hinv Ei Hs Hf. destruct (proj1 Hinv i n Ei) as [Hn _]. destruct (free_master_ok _ _ _ _ _ Hn Hf) as (Hmh & Hm & Hc).
  eapply inv_local; try done.
  - destruct Hn as [H1 H2 H3 H4 H5 H6 H7 H8 H9]. constructor; try done.
    + intros E. split; [by apply H6|done].
    + cbn. rewrite Hm. split; [|by left]. destruct H7 as [H7 _]. intros m [?|E]; [done|]. apply H7.
      destruct Hc as [Hc|[_ Hc]]; rewrite Hc in E; auto.
    + unfold n_slave. cbn. congruence.
  - unfold claims, n_slave. cbn. intros [E [?|E']]; [congruence|]. split; [done|]. right.
    destruct Hc as [<-|[? _]]; [done|]. change (n_backlog n = false) in E. congruence.
Qed.

Lemma slaves_inv H B w j n d l :
  inv H B w -> w !! j = Some n -> (n_backlog n = false -> l = []) ->
  inv H B (<[j := mk_node (set_slaves l (set_slaveseldb d (srv n))) (data n) (conn n)]> w).
Proof.
  intros Hinv Ej Hl. eapply inv_local; try done. destruct (proj1 Hinv j n Ej) as [[H1 H2 H3 H4 H5 H6 H7 H8 H9] _]. constructor; try done.
  intros E. split; [by apply Hl|by apply H6].
Qed.

Lemma close_inv H B w k m q j :
  inv H B w -> w !! k = Some m -> conn m = Some (q, Some j) -> inv H B (<[k := set_conn (Some (q, None)) m]> w).
Proof.
  intros Hinv Ek Hc. eapply inv_local; try done. destruct (proj1 Hinv k m Ek) as [Hn _].
  apply (node_ok_same H B m); [done|by rewrite Hc| |done]. cbn. intros q' a [= <- <-]. rewrite Hc. split; [done|].
  by apply (ok_conn _ _ _ Hn) in Hc as [_ ?].
Qed.

Lemma empty_backlog size offset :
  0 < size -> backlog_is (mk_backlog (Some (zmalloc junk size)) size 0 0 (offset + 1)) offset [].
Proof.
  intros Hs. exists (zmalloc junk size). unfold zmalloc. cbn [bl_mem bl_size bl_idx bl_histlen bl_off].
  change (blen []) with 0. rewrite zrealloc_length by lia. split_and!; try done; try lia. split; [rewrite zrealloc_length; lia|].
  split; [rewrite zrealloc_length; unfold blen; cbn; lia|]. intros k Hk. cbn in Hk. lia.
Qed.

Lemma resize_inv H B w i n size :
  inv H B w -> w !! i = Some n -> inv H B (<[i := mk_node (resizeReplicationBacklog junk size (srv n)) (data n) (conn n)]> w).
Proof.
  intros Hinv Ei. destruct (proj1 Hinv i n Ei) as [Hn _]. unfold resizeReplicationBacklog.
  set (z := if size <? _ then _ else size). assert (0 < z).
  { unfold z, CONFIG_REPL_BACKLOG_MIN_SIZE. destruct (Z.ltb_spec size (1024 * 16)); lia. }
  destruct (bl_size (sv_backlog (srv n)) =? z); [by rewrite insert_same|].
  destruct (bl_mem (sv_backlog (srv n))) as [mem|] eqn:Em; eapply inv_local; try done;
    try (unfold n_backlog, has_backlog; cbn; by rewrite Em);
    try (unfold claims, n_backlog, has_backlog; cbn; by rewrite Em).
  - destruct Hn as [H1 H2 H3 H4 H5 H6 H7 H8 H9].
    assert (Hb : n_backlog n = true) by (unfold n_backlog, has_backlog; by rewrite Em). specialize (H5 Hb). constructor; try done.
    + intros _. destruct H5 as (_ & ?). split; [|done]. exists []. split; [by apply empty_backlog|by apply suffix_nil].
    + intros E. destruct (H8 E) as (? & ? & ? & Hd). split_and!; try done. auto.
  - destruct Hn as [H1 H2 H3 H4 H5 H6 H7 H8 H9].
    assert (Hb : n_backlog n = false) by (unfold n_backlog, has_backlog; by rewrite Em). constructor; try done.
    + intros _. by apply H6.
    + intros E. destruct (H8 E) as (? & ? & ? & Hd). done.
Qed.

Lemma promote_inv H B w i n cacheable y s' :
  inv H B w -> w !! i = Some n -> n_slave n = true -> fresh w y -> replicationUnsetMaster cacheable y (srv n) = Some s' ->
  inv (<[y := data n]> H) (<[y := n_off n - blen (data n)]> B) (<[i := mk_node s' (data n) None]> (detach i <$> w)).
Proof.
  intros Hinv Ei Hs Hf. destruct (proj1 Hinv i n Ei) as [Hn _]. unfold replicationUnsetMaster.
  unfold n_slave in Hs. rewrite Hs. cbn [negb].
  destruct (free_master _ _) as [u|] eqn:Eu; [|done]. cbn. intros [= <-].
  assert (Hu : masterhost u = false /\ master u = None).
  { unfold free_master, replicationCacheMaster in Eu. cbn in Eu. repeat (case_match; simplify_eq; cbn in *; simplify_eq; try done). }
  destruct Hu as [Hmh Hma]. eapply inv_reset; try done.
  - destruct (proj2 Hf i n Ei) as [Fy Fy2]. destruct Hn as [H1 H2 H3 H4 H5 H6 H7 H8 H9]. constructor; try done.
    + apply Hf.
    + cbn. split; [apply H1|by right].
    + intros E. destruct (H5 E) as (Hh & Hp & Ho & Hb & _). unfold backlog_ok.
      change (n_id _) with y. change (n_id2 _) with (n_id n). change (n_off _) with (n_off n). change (n_second _) with (n_off n + 1).
      cbn [data]. rewrite !fn_lookup_insert, !(fn_lookup_insert_ne _ y) by done. pose proof (blen_nonneg (data n)).
      split; [done|]. split; [done|]. split; [lia|]. split; [lia|]. right. split; [lia|]. split; [lia|].
      rewrite take_ge; [done|]. unfold blen in *. lia.
    + cbn. rewrite Hma. by split; [intros m [?|?]|left].
    + intros _. cbn. split_and!; try done. intros _. by rewrite fn_lookup_insert.
  - intros k m Hk Ek Hm. destruct (proj2 Hf k m Ek). by apply node_ok_fresh.
  - intros k m Hk Ek A1 A2. by apply (apart_fresh w y n _ k).
Qed.

Lemma demote_inv H B w i n cacheable s' :
  inv H B w -> w !! i = Some n -> replicationSetMaster cacheable (srv n) = Some s' ->
  inv H B (<[i := mk_node s' (data n) None]> (detach i <$> w)).
Proof.
  intros Hinv Ei. destruct (proj1 Hinv i n Ei) as [Hn _]. unfold replicationSetMaster.
  destruct (free_master _ _) as [u|] eqn:Eu; [|done]. cbn [mbind option_bind]. intros [= <-].
  destruct (free_master_ok _ _ _ _ _ Hn Eu) as (Hmh & Hm & Hc).
  destruct (n_slave n) eqn:Es; unfold n_slave in Es; rewrite Es; cbn [negb].
  - eapply inv_reset; try done.
    + destruct Hn as [H1 H2 H3 H4 H5 H6 H7 H8 H9]. constructor; try done.
      cbn. rewrite Hm. split; [|by left]. destruct H7 as [H7 _]. intros m [?|E]; [done|]. apply H7.
      destruct Hc as [Hc|[_ Hc]]; rewrite Hc in E; auto.
    + intros k m Hk Ek A1 A2. apply (apart_same n); try done. unfold claims, n_slave. cbn. intros [E [?|E']]; [done|]. split; [done|].
      right. destruct Hc as [<-|[? _]]; [done|]. change (n_backlog n = false) in E. congruence.
  - destruct (ok_master _ _ _ Hn Es) as (Hma & Hca & Hco & Hd). eapply inv_reset; try done.
    + destruct Hn as [H1 H2 H3 H4 H5 H6 H7 H8 H9]. constructor; try done.
      cbn. split; [|by left]. intros m [?|[= <-]]; [done|]. done.
    + intros k m Hk Ek A1 A2. apply (apart_same n); try done. intros [E _]. split; [done|]. by left.
Qed.

Lemma expire_inv H B w j n y limit since s' :
  inv H B w -> w !! j = Some n -> fresh w y -> (forall k m q, w !! k = Some m -> conn m <> Some (q, Some j)) ->
  expire_backlog unixtime limit since y (srv n) = Some s' ->
  inv H B (<[j := mk_node s' (data n) (conn n)]> w).
Proof.
  intros Hinv Ej Hf Hnone. destruct (proj1 Hinv j n Ej) as [Hn _]. unfold expire_backlog.
  destruct (sv_slaves (srv n)) eqn:El; [|intros [= <-]; by rewrite insert_same].
  destruct (_ && _ && _ && _) eqn:E; [|intros [= <-]; by rewrite insert_same].
  apply andb_true_iff in E as [E _]. apply andb_true_iff in E as [_ E]. apply negb_true_iff in E.
  destruct (ok_master _ _ _ Hn E) as (Hma & Hca & Hco & Hd). unfold freeReplicationBacklog. cbn. rewrite El. intros [= <-].
  rewrite <- (map_fmap_id w). apply (inv_step H B H B w j n _ (fun m => m)); try done.
  - destruct Hn as [H1 H2 H3 H4 H5 H6 H7 H8 H9]. constructor; try done.
    + apply Hf.
    + cbn. split; [done|by left].
    + cbn. by rewrite Hma, Hca; split; [intros m [?|?]|left].
    + cbn. by rewrite Hco.
  - cbn. by rewrite Hco.
  - intros k m Hk Ek A1 A2. by apply (apart_fresh w y n _ k).
  - intros k m q Hk Ek _ Hq. exfalso. by eapply Hnone.
  - cbn. by rewrite Hco.
Qed.

Lemma psync_reply_discard reply s result s' :
  psync_reply junk reply s = Some (result, s') -> result = PSYNC_FULLRESYNC \/ result = PSYNC_NOT_SUPPORTED ->
  exists u, s' = set_up u s /\ masterhost u = masterhost (sv_up s) /\ master u = master (sv_up s) /\ cached_master u = None.
Proof.
  unfold psync_reply. intros E Hr. destruct (blen reply =? 0); [naive_solver|].
  destruct (starts_with _ _).
  { injection E as <- <-. eexists. split; [done|]. by destruct (parse_fullresync reply) as [[? ?]|]. }
  destruct (starts_with _ _).
  { apply bind_Some in E as (s1 & _ & E). apply bind_Some in E as (u & _ & E). apply bind_Some in E as (s2 & _ & [= <- _]). naive_solver. }
  destruct (_ || _); [naive_solver|]. injection E as <- <-. eexists. split; [done|]. done.
Qed.

Lemma abort_inv H B w i n reply result s' s'' d' :
  inv H B w -> w !! i = Some n -> n_slave n = true -> master (sv_up (srv n)) = None ->
  psync_reply junk reply (srv n) = Some (result, s') -> result = PSYNC_FULLRESYNC \/ result = PSYNC_NOT_SUPPORTED ->
  start_full_resync s' = Some s'' ->
  inv H B (<[i := mk_node s'' d' None]> (detach i <$> w)).
Proof.
  intros Hinv Ei Hs Hm Hr Hres. destruct (psync_reply_discard _ _ _ _ Hr Hres) as (u & -> & Hmh & Hma & Hca).
  intros [= <-]. destruct (proj1 Hinv i n Ei) as [Hn _]. unfold n_slave in Hs. eapply inv_reset; try done.
  - destruct Hn as [H1 H2 H3 H4 H5 H6 H7 H8 H9]. constructor; try done.
    + cbn. intros _. by rewrite Hma.
    + cbn. rewrite Hma, Hm, Hca. split; [by intros m [?|?]|by left].
    + unfold n_slave. cbn. congruence.
  - intros k m Hk Ek A1 A2. apply (apart_same n); try done.
    + unfold n_slave. cbn. congruence.
    + unfold claims, n_slave. cbn. rewrite Hmh, Hca. intros [_ [?|[? ?]]]; congruence.
Qed.

(** *** Resynchronization *)

Lemma set_slaves_seldb l s : set_slaves l s = set_slaves l (set_slaveseldb (sv_slaveseldb s) s).
Proof. done. Qed.

(** Two prefixes of one list. *)
Lemma prefix_shorter (a b l : bytes) : a `prefix_of` l -> b `prefix_of` l -> blen a <= blen b -> a `prefix_of` b.
Proof.
  intros Ha Hb Hl. destruct (prefix_weak_total a b l Ha Hb) as [?|[t E]]; [done|].
  rewrite E, blen_app in Hl. assert (t = []) as -> by (destruct t; [done|unfold blen in Hl; cbn in Hl; lia]).
  rewrite app_nil_r in E. by subst.
Qed.

(** The data set of a replica whose request is accepted is a prefix of the master's. *)
Lemma psync_prefix H B ni nj :
  node_ok H B ni -> node_ok H B nj -> n_backlog ni = true -> n_backlog nj = true ->
  psync_ok (sv_ids (srv nj)) (sv_backlog (srv nj)) (n_id ni) (n_off ni + 1) = true ->
  (n_id nj = n_id ni \/ n_id2 nj = n_id ni /\ n_second nj <> -1) /\
  B (n_id nj) = B (n_id ni) /\ data ni `prefix_of` data nj.
Proof.
  intros Hi Hj Hbi Hbj Hok. unfold psync_ok in Hok. apply andb_true_iff in Hok as [Hok Hhi]. apply andb_true_iff in Hok as [Hid _].
  apply Z.leb_le in Hhi. destruct (ok_backlog _ _ _ Hi Hbi) as (_ & Hpi & Hoi & _). destruct (ok_backlog _ _ _ Hj Hbj) as ((h & Hh & _) & Hpj & Hoj & _ & H2).
  destruct Hh as (m & _ & _ & _ & Hhl & Hho). rewrite Hhl, Hho in Hhi. pose proof (ok_off _ _ _ Hi).
  rewrite (strcaseeq_good _ (replid _)) in Hid by (apply Hi || apply Hj). case_bool_decide as Ex.
  - change (n_id ni = n_id nj) in Ex. split; [by left|]. split; [by rewrite Ex|].
    apply (prefix_shorter _ _ (H (n_id nj))); [by rewrite <- Ex|done|]. rewrite Ex in Hoi. lia.
  - cbn [orb] in Hid. apply andb_true_iff in Hid as [Hid Hse]. apply Z.leb_le in Hse. change (n_off ni + 1 <= n_second nj) in Hse.
    assert (n_second nj <> -1) by lia. destruct (proj2 (ok_id2 _ _ _ Hj)) as [?|Hg]; [done|].
    rewrite strcaseeq_good in Hid by (done || apply Hi). apply bool_decide_eq_true in Hid. change (n_id ni = n_id2 nj) in Hid.
    destruct H2 as [?|(HB & Hr & Ht)]; [done|]. rewrite <- Hid in HB. split; [by right|]. split; [done|].
    etrans; [|apply prefix_take with (n := Z.to_nat (n_second nj - 1 - B (n_id nj)))]. rewrite <- Hid in Ht.
    apply (prefix_shorter _ _ (H (n_id ni))); [done..|]. unfold blen in *. rewrite length_take. lia.
Qed.

(** What the backlog gives it is the rest. *)
Lemma psync_rest H B ni nj h :
  node_ok H B ni -> node_ok H B nj -> n_backlog ni = true -> n_backlog nj = true ->
  backlog_is (sv_backlog (srv nj)) (n_off nj) h -> h `suffix_of` data nj ->
  psync_ok (sv_ids (srv nj)) (sv_backlog (srv nj)) (n_id ni) (n_off ni + 1) = true ->
  data nj = data ni ++ drop (Z.to_nat (n_off ni + 1 - bl_off (sv_backlog (srv nj)))) h.
Proof.
  intros Hi Hj Hbi Hbj Hh [t Ht] Hok. destruct (psync_prefix H B ni nj) as (_ & HB & [r Hr]); [done..|].
  destruct (ok_backlog _ _ _ Hi Hbi) as (_ & _ & Hoi & _). destruct (ok_backlog _ _ _ Hj Hbj) as (_ & _ & Hoj & _).
  destruct Hh as (m & _ & _ & _ & Hhl & Hho). unfold psync_ok in Hok. apply andb_true_iff in Hok as [Hok _].
  apply andb_true_iff in Hok as [_ Hlo]. apply Z.leb_le in Hlo. rewrite Hho in *.
  assert (Hl : blen (data nj) = blen t + blen h) by (by rewrite Ht, blen_app).
  rewrite Hr at 1. f_equal. transitivity (drop (length (data ni)) (data nj)); [by rewrite Hr, drop_app_length|].
  rewrite Ht, drop_app_ge by (unfold blen in *; lia). f_equal. unfold blen in *. lia.
Qed.

Lemma accepted_request s0 c id offset sj h :
  masterTryPartialResynchronization block_usable obuf_limit_reached unixtime true s0 c id offset = Some (C_OK, sj) ->
  (has_backlog s0 = true -> backlog_is (sv_backlog s0) (master_repl_offset (sv_ids s0)) h) ->
  writable (add_flag CLIENT_SLAVE (r_session c)) -> out (r_session c) = [] -> r_wire c = [] -> r_psync2 c = true ->
  has_backlog s0 = true /\ psync_ok (sv_ids s0) (sv_backlog s0) id offset = true /\
  exists r, sj = set_slaves (sv_slaves s0 ++ [r]) s0 /\ r_wire r = (bytes_of_string "+CONTINUE " ++ replid (sv_ids s0)) ++ crlf /\
    out (r_session r) = drop (Z.to_nat (offset - bl_off (sv_backlog s0))) h.
Proof.
  intros E Hh Hw Ho Hwire H2. destruct (has_backlog s0) eqn:Eb; [|rewrite masterTry_refused in E by auto; done].
  destruct (psync_ok _ _ id offset) eqn:Eok; [|rewrite masterTry_refused in E by auto; done].
  split; [done|]. split; [done|]. destruct (masterTry_ok _ _ usable_enough no_limit unixtime s0 h c id offset) as (r & Er & R1 & R2 & R3); auto.
  rewrite E in Er. injection Er as ->. exists r. split; [done|]. rewrite R1, Hwire, H2. split; [unfold continue_reply; by rewrite app_assoc|].
  destruct R3 as [-> _]. change (out (add_flag CLIENT_SLAVE (r_session c))) with (out (r_session c)). by rewrite Ho.
Qed.

(** The request of a replica names its ID and the first byte it lacks. *)
Lemma request_sent H B n cmd id offtxt u offset :
  node_ok H B n -> psync_request false true (sv_up (srv n)) = (PSYNC_WAIT_REPLY, [cmd; id; offtxt], u) ->
  string2ll offtxt (blen offtxt) = Some (Some offset) ->
  masterhost u = n_slave n /\ master u = master (sv_up (srv n)) /\ cached_master u = cached_master (sv_up (srv n)) /\
  ((cached_master u = None /\ id = bytes_of_string "?") \/
   (cached_master u = Some (mk_mlink (n_id n) (n_off n)) /\ id = n_id n /\ offset = n_off n + 1)).
Proof.
  intros Hn. unfold psync_request. cbn [cached_master]. destruct (cached_master (sv_up (srv n))) as [m|] eqn:Ec; intros [= <- <- <- <-] Hs.
  2: { split; [done|]. split; [done|]. split; [done|]. by left. }
  pose proof (proj1 (ok_link _ _ _ Hn) m (or_intror Ec)) as ->. cbn [m_replid m_reploff] in *. cbn. rewrite ?Ec. split_and!; auto. right.
  split; [done|]. split; [done|]. pose proof (ok_off _ _ _ Hn).
  rewrite wraps_small in Hs by zlia. destruct (string2ll_spec (sdec (n_off n + 1)) (blen (sdec (n_off n + 1)))) as (v & Ev & Hv).
  { pose proof (blen_nonneg (sdec (n_off n + 1))). lia. }
  rewrite Hs in Ev. injection Ev as <-. pose proof (proj2 (Hv (n_off n + 1))) as Hv'.
  rewrite take_ge in Hv' by (unfold blen; lia). specialize (Hv' ltac:(split; [zlia|done])). by injection Hv'.
Qed.

(** The replica after an accepted request: its new identity and its link. *)
Lemma accepted_replica H B w i j ni nj h q si :
  inv H B w -> w !! i = Some ni -> w !! j = Some nj -> i <> j ->
  n_slave ni = true -> n_backlog ni = true -> n_backlog nj = true ->
  backlog_is (sv_backlog (srv nj)) (n_off nj) h -> h `suffix_of` data nj ->
  psync_ok (sv_ids (srv nj)) (sv_backlog (srv nj)) (n_id ni) (n_off ni + 1) = true ->
  q = drop (Z.to_nat (n_off ni + 1 - bl_off (sv_backlog (srv nj)))) h ->
  sv_backlog si = sv_backlog (srv ni) -> masterhost (sv_up si) = true -> cached_master (sv_up si) = None ->
  master (sv_up si) = Some (mk_mlink (n_id nj) (n_off ni)) ->
  sv_ids si = (if bool_decide (n_id nj = n_id ni) then sv_ids (srv ni)
               else mk_ids (n_id nj) (n_id ni) (n_off ni + 1) (n_off ni)) ->
  inv H B (<[i := mk_node si (data ni) (Some (q, Some j))]>
    ((fun n => if bool_decide (replid (sv_ids si) = n_id ni) then n else detach i n) <$> w)).
Proof.
  intros Hinv Ei Ej Hij Hs Hbi Hbj Hh Hsuf Hok Eq Eb Hmh Hca Hma Eids.
  destruct (proj1 Hinv i ni Ei) as [Hi _], (proj1 Hinv j nj Ej) as [Hj _].
  pose proof (psync_rest H B ni nj h Hi Hj Hbi Hbj Hh Hsuf Hok) as Hrest. rewrite <- Eq in Hrest.
  destruct (psync_prefix H B ni nj Hi Hj Hbi Hbj Hok) as (Hid & HB & _).
  set (n' := mk_node si (data ni) (Some (q, Some j))).
  assert (Eid : n_id n' = n_id nj) by (unfold n_id at 1; cbn; rewrite Eids; case_bool_decide; done).
  assert (Eo : n_off n' = n_off ni) by (unfold n_off at 1; cbn; rewrite Eids; by case_bool_decide).
  assert (Eb' : n_backlog n' = true) by (unfold n_backlog, has_backlog in *; cbn; by rewrite Eb).
  assert (Hpj : data nj `prefix_of` H (n_id nj)) by apply (ok_backlog _ _ _ Hj Hbj).
  assert (E2 : n_id nj = n_id ni /\ n_id2 n' = n_id2 ni /\ n_second n' = n_second ni \/
    n_id nj <> n_id ni /\ n_id2 n' = n_id ni /\ n_second n' = n_off ni + 1).
  { unfold n_id2 at 1 3, n_second at 1 3. cbn. rewrite Eids. case_bool_decide; [left|right]; done. }
  change (replid (sv_ids si)) with (n_id n'). rewrite Eid.
  assert (Hn' : node_ok H B n').
  { pose proof (ok_backlog _ _ _ Hi Hbi) as (Hh' & Hpi & Hoi & Hbd & H2). pose proof (ok_off _ _ _ Hi). constructor; try done.
    - rewrite Eid. apply Hj.
    - destruct E2 as [(_ & -> & ->)|(_ & -> & ->)]; [apply Hi|]. split; [apply Hi|]. right. apply Hi.
    - by rewrite Eo.
    - cbn. rewrite Eb. apply Hi.
    - intros _. unfold backlog_ok. rewrite Eid, Eo. cbn [srv data n']. rewrite Eb. split; [done|].
      split; [etrans; [|exact Hpj]; rewrite Hrest; by eexists|]. split; [by rewrite HB|]. split; [apply (ok_backlog _ _ _ Hj Hbj)|].
      destruct E2 as [(E & -> & ->)|(_ & -> & ->)]; [by rewrite E|]. right. rewrite HB. pose proof (blen_nonneg (data ni)).
      split; [done|]. split; [lia|]. rewrite take_ge; [done|]. unfold blen in *. lia.
    - by rewrite Eb'.
    - cbn. rewrite Hma, Hca. rewrite Eid, Eo. split; [|by right]. intros m [[= <-]|?]; done.
    - unfold n_slave. cbn. congruence.
    - cbn. intros q' a [= <- <-]. rewrite Hma. split; [by eexists|]. rewrite Eid, <- Hrest. done. }
  apply (inv_step H B H B w i ni n'); try done.
  - intros m. case_bool_decide; [done|apply detach_srv].
  - intros m q' l Hl Hq. case_bool_decide; [done|]. apply conn_detach in Hq as (_ & a0 & E & [<-|?]); done.
  - cbn. intros q' [= _ ?]. congruence.
  - intros k m Hk Ek Hm _. case_bool_decide; [done|]. by apply node_ok_detach.
  - intros k m Hk Ek [A1 _] _. split; split.
    + intros Hc. rewrite Eid. split.
      * destruct (decide (k = j)) as [->|Hkj]; [|by apply (proj2 Hinv k j m nj Hkj Ek Ej)].
        destruct Hc as [Hc _]. assert (m = nj) by congruence. congruence.
      * intros _. destruct E2 as [(_ & -> & ->)|(_ & -> & ->)]; intros Hse; by apply A1.
    + unfold n_slave. cbn. congruence.
    + intros [? _]. congruence.
    + unfold n_slave. cbn. congruence.
  - intros k m q' Hk Ek [_ L] Hq. case_bool_decide as Ee; [|by apply conn_detach in Hq as [? _]].
    destruct (L q' Hq) as (L1 & _ & L3). unfold linked. rewrite Eid, Ee. done.
  - cbn. intros k m q' Hk Ek _ [= <- <-]. assert (m = nj) as -> by congruence. unfold linked. rewrite Eid. done.
Qed.

(** A request without a known history is refused. *)
Lemma psync_unknown H B nj offset :
  node_ok H B nj -> psync_ok (sv_ids (srv nj)) (sv_backlog (srv nj)) (bytes_of_string "?") offset = true -> False.
Proof.
  intros Hj. unfold psync_ok, strcaseeq. destruct (ok_id2 _ _ _ Hj) as [E2 _]. destruct (ok_id _ _ _ Hj) as [E1 _].
  unfold n_id2, n_id in *. rewrite !bool_decide_false; [done|..]; intros E; apply (f_equal length) in E; rewrite !length_fmap in E;
    [rewrite E2 in E|rewrite E1 in E]; done.
Qed.

(** So is that of an instance that wrote without a backlog. *)
Lemma psync_backlog H B ni nj :
  node_ok H B ni -> node_ok H B nj -> apart ni nj -> is_Some (cached_master (sv_up (srv ni))) -> n_backlog nj = true ->
  psync_ok (sv_ids (srv nj)) (sv_backlog (srv nj)) (n_id ni) (n_off ni + 1) = true -> n_backlog ni = true.
Proof.
  intros Hi Hj [A _] Hc Hbj Hok. destruct (n_backlog ni) eqn:Eb; [done|exfalso].
  destruct A as [A1 A2]; [split; [done|by right]|]. unfold psync_ok in Hok.
  apply andb_true_iff in Hok as [Hok _]. apply andb_true_iff in Hok as [Hok _].
  rewrite (strcaseeq_good _ (replid _)) in Hok by (apply Hi || apply Hj). rewrite bool_decide_false in Hok by (intros E; by apply A1). cbn in Hok.
  apply andb_true_iff in Hok as [Hid Hse]. apply Z.leb_le in Hse. change (n_off ni + 1 <= n_second nj) in Hse. pose proof (ok_off _ _ _ Hi).
  assert (Hne : n_second nj <> -1) by lia. destruct (proj2 (ok_id2 _ _ _ Hj)) as [?|Hg]; [done|].
  rewrite strcaseeq_good in Hid by (done || apply Hi). apply bool_decide_eq_true in Hid. by apply (A2 Hbj Hne).
Qed.

Lemma psync_inv H B w i j ni nj c cmd id offtxt offset u sj r reply si :
  inv H B w -> w !! i = Some ni -> w !! j = Some nj -> i <> j ->
  n_slave ni = true -> master (sv_up (srv ni)) = None ->
  psync_request false true (sv_up (srv ni)) = (PSYNC_WAIT_REPLY, [cmd; id; offtxt], u) ->
  string2ll offtxt (blen offtxt) = Some (Some offset) ->
  writable (add_flag CLIENT_SLAVE (r_session c)) -> out (r_session c) = [] -> r_wire c = [] -> r_psync2 c = true ->
  masterTryPartialResynchronization block_usable obuf_limit_reached unixtime true (srv nj) c id offset = Some (C_OK, sj) ->
  last (sv_slaves sj) = Some r -> r_wire r = reply ++ crlf ->
  psync_reply junk reply (set_up u (srv ni)) = Some (PSYNC_CONTINUE, si) ->
  inv H B (<[i := mk_node si (data ni) (Some (out (r_session r), Some j))]>
    ((fun n => if bool_decide (replid (sv_ids si) = n_id ni) then n else detach i n) <$>
      (<[j := mk_node sj (data nj) (conn nj)]> w))).
Proof.
  intros Hinv Ei Ej Hij Hs Hm Hreq Hll Hw Ho Hwi H2 Hmt Hlast Hwr Hre.
  destruct (proj1 Hinv i ni Ei) as [Hi _], (proj1 Hinv j nj Ej) as [Hj _].
  assert (Hh : exists h, n_backlog nj = true -> backlog_is (sv_backlog (srv nj)) (n_off nj) h /\ h `suffix_of` data nj).
  { destruct (n_backlog nj) eqn:E; [|by exists []]. destruct (ok_backlog _ _ _ Hj E) as [[h ?] _]. by exists h. }
  destruct Hh as [h Hh]. destruct (accepted_request _ _ _ _ _ h Hmt) as (Hbj & Hok & r' & -> & Hw' & Hout); [by intros; apply Hh|done..|].
  cbn in Hlast. rewrite last_snoc in Hlast. injection Hlast as ->. destruct (Hh Hbj) as [Hh1 Hh2].
  rewrite Hwr in Hw'. apply app_inv_tail in Hw'. subst reply.
  destruct (request_sent _ _ _ _ _ _ _ _ Hi Hreq Hll) as (U1 & U2 & U3 & [[_ ->]|(U4 & -> & ->)]).
  { by apply (psync_unknown _ _ _ _ Hj) in Hok. }
  assert (Hbi : n_backlog ni = true).
  { eapply (psync_backlog H B ni nj); try done; [by eapply (proj2 Hinv i j)|]. by rewrite <- U3, U4. }
  destruct (psync_reply_continue junk (n_id nj) (mk_mlink (n_id ni) (n_off ni)) (set_up u (srv ni))) as (u' & Hu' & Hre'); [apply Hj|done|done|].
  unfold n_id at 1 in Hre'. rewrite Hre in Hre'. injection Hre' as ->.
  assert (Hinv1 : inv H B (<[j := mk_node (set_slaves (sv_slaves (srv nj) ++ [r]) (srv nj)) (data nj) (conn nj)]> w)).
  { rewrite set_slaves_seldb. apply slaves_inv; [done..|]. unfold n_backlog in *. congruence. }
  eapply (accepted_replica H B _ i j ni _ h); [exact Hinv1|by rewrite lookup_insert_ne|by rewrite lookup_insert_eq|done..| | | | | |]; try done.
  all: unfold replicationResurrectCachedMaster, accept_new_id in *; cbn [m_replid] in *; case_bool_decide as Ey; cbn in Hu'; rewrite ?U4 in Hu'; cbn in Hu'; injection Hu' as <-; cbn; try done; try congruence.
  - by rewrite <- Ey.
  - rewrite bool_decide_true; done.
  - rewrite bool_decide_false; done.
Qed.

(** An instance prepares to serve its data set: it has a backlog then, and an ID that
    stands for the data set. *)
Lemma create_inv H B w j nj c l y sj :
  inv H B w -> w !! j = Some nj -> (n_slave nj = true -> is_Some (master (sv_up (srv nj)))) -> fresh w y ->
  sync_create_backlog junk y (set_slaves (sv_slaves (srv nj) ++ [c]) (srv nj)) = Some sj ->
  exists H' B', inv H' B' (<[j := mk_node (set_slaves l (set_slaveseldb (-1) sj)) (data nj) (conn nj)]> w) /\
    has_backlog sj = true /\ master_repl_offset (sv_ids sj) = n_off nj.
Proof.
  intros Hinv Ej Hg Hf. destruct (proj1 Hinv j nj Ej) as [Hj _]. unfold sync_create_backlog.
  change (has_backlog (set_slaves _ (srv nj))) with (n_backlog nj). destruct (n_backlog nj) eqn:Eb.
  - rewrite andb_false_r. intros [= <-]. exists H, B. split; [|done].
    exact (slaves_inv H B w j nj (-1) l Hinv Ej ltac:(congruence)).
  - destruct (ok_nobacklog _ _ _ Hj Eb) as [Hsl Hma]. cbn [sv_slaves set_slaves]. rewrite Hsl. cbn [app length Nat.eqb andb negb].
    unfold createReplicationBacklog. cbn. destruct (bl_mem (sv_backlog (srv nj))) eqn:Em; [done|]. intros [= <-].
    assert (Hs : n_slave nj = false).
    { destruct (n_slave nj); [|done]. destruct (Hg eq_refl). congruence. }
    destruct (ok_master _ _ _ Hj Hs) as (_ & Hca & Hco & _).
    exists (<[y := data nj]> H), (<[y := n_off nj - blen (data nj)]> B). split; [|done].
    rewrite <- (map_fmap_id w). apply (inv_step H B _ _ w j nj _ (fun m => m)); try done.
    + destruct Hj as [H1 H2 H3 H4 H5 H6 H7 H8 H9]. constructor; try done.
      * apply Hf.
      * cbn. split; [done|by left].
      * intros _. unfold backlog_ok. change (n_id _) with y. change (n_off _) with (n_off nj). cbn [data].
        rewrite !fn_lookup_insert. split; [exists []; split; [by apply empty_backlog|by apply suffix_nil]|].
        split; [done|]. split; [lia|]. split; [lia|]. by left.
      * cbn. rewrite Hma, Hca. by split; [intros m [?|?]|left].
      * intros _. cbn. split_and!; try done. intros _. by rewrite fn_lookup_insert.
      * cbn. by rewrite Hco.
    + cbn. by rewrite Hco.
    + intros k m Hk Ek Hm _. destruct (proj2 Hf k m Ek). by apply node_ok_fresh.
    + intros k m Hk Ek A1 A2. by apply (apart_fresh w y nj _ k).
    + intros k m q Hk Ek [_ L] Hq. destruct (L q Hq) as (_ & ? & _). congruence.
    + cbn. by rewrite Hco.
Qed.

(** A replica that has loaded the data set of [nj]. *)
Lemma loaded_inv H B w i j ni nj si :
  inv H B w -> w !! i = Some ni -> w !! j = Some nj -> i <> j -> n_slave ni = true -> n_backlog nj = true ->
  sv_ids si = mk_ids (n_id nj) (replicate 40 48) (-1) (n_off nj) ->
  sv_backlog si = mk_backlog (Some (zmalloc junk (bl_size (sv_backlog (srv ni))))) (bl_size (sv_backlog (srv ni))) 0 0 (n_off nj + 1) ->
  masterhost (sv_up si) = true -> master (sv_up si) = Some (mk_mlink (n_id nj) (n_off nj)) -> cached_master (sv_up si) = None ->
  inv H B (<[i := mk_node si (data nj) (Some ([], Some j))]> (detach i <$> w)).
Proof.
  intros Hinv Ei Ej Hij Hs Hbj Eids Eb Hmh Hma Hca.
  destruct (proj1 Hinv i ni Ei) as [Hi _], (proj1 Hinv j nj Ej) as [Hj _].
  set (n' := mk_node si (data nj) (Some ([], Some j))).
  assert (Eid : n_id n' = n_id nj) by (unfold n_id at 1; cbn; by rewrite Eids).
  assert (Eo : n_off n' = n_off nj) by (unfold n_off at 1; cbn; by rewrite Eids).
  assert (Es : n_second n' = -1) by (unfold n_second; cbn; by rewrite Eids).
  assert (Eb' : n_backlog n' = true) by (unfold n_backlog, has_backlog; cbn; by rewrite Eb).
  destruct (ok_backlog _ _ _ Hj Hbj) as (_ & Hp & Ho & Hbd & _). apply (inv_step H B H B w i ni n' (detach i)); try done.
  - intros m. apply detach_srv.
  - intros m q' l Hl Hq. apply conn_detach in Hq as (_ & a0 & E & [<-|?]); done.
  - constructor; try done.
    + rewrite Eid. apply Hj.
    + rewrite Es. unfold n_id2. cbn. rewrite Eids. split; [done|by left].
    + rewrite Eo. apply Hj.
    + cbn. rewrite Eb. apply Hi.
    + intros _. unfold backlog_ok. rewrite Eid, Eo, Es. cbn [srv data n']. rewrite Eb.
      split; [exists []; split; [apply empty_backlog, Hi|apply suffix_nil]|]. split_and!; try done. by left.
    + by rewrite Eb'.
    + cbn. rewrite Hma, Hca, Eid, Eo. split; [|by right]. intros m [[= <-]|?]; done.
    + unfold n_slave. cbn. congruence.
    + cbn. intros q a [= <- <-]. rewrite Hma, Eid, app_nil_r. split; [by eexists|done].
  - cbn. intros q [= _ ?]. congruence.
  - intros k m Hk Ek Hm _. by apply node_ok_detach.
  - intros k m Hk Ek [A1 _] _. split; split.
    + intros Hc. rewrite Eid, Es. split; [|done].
      destruct (decide (k = j)) as [->|Hkj]; [|by apply (proj2 Hinv k j m nj Hkj Ek Ej)].
      destruct Hc as [Hc _]. assert (m = nj) by congruence. congruence.
    + unfold n_slave. cbn. congruence.
    + intros [? _]. congruence.
    + unfold n_slave. cbn. congruence.
  - intros k m q Hk Ek _ Hq. by apply conn_detach in Hq as [? _].
  - cbn. intros k m q Hk Ek _ [= <- <-]. assert (m = nj) as -> by congruence. unfold linked. rewrite Eid, app_nil_r. done.
Qed.

Lemma fullsync_inv H B w i j ni nj c c' y sj sj' reply si si' si'' :
  inv H B w -> w !! i = Some ni -> w !! j = Some nj -> i <> j ->
  n_slave ni = true -> master (sv_up (srv ni)) = None ->
  (n_slave nj = true -> is_Some (master (sv_up (srv nj)))) ->
  fresh w y -> r_pre_psync c = false -> r_wire c = [] ->
  sync_create_backlog junk y (set_slaves (sv_slaves (srv nj) ++ [c]) (srv nj)) = Some sj ->
  replicationSetupSlaveForFullResync true sj c (master_repl_offset (sv_ids sj)) = (sj', c', C_OK) ->
  r_wire c' = reply ++ crlf ->
  psync_reply junk reply (srv ni) = Some (PSYNC_FULLRESYNC, si) ->
  start_full_resync si = Some si' -> finish_full_resync junk si' = Some si'' ->
  exists H' B', inv H' B' (<[i := mk_node si'' (data nj) (Some ([], Some j))]>
    (detach i <$> (<[j := mk_node (set_slaves (sv_slaves (srv nj) ++ [c']) sj') (data nj) (conn nj)]> w))).
Proof.
  intros Hinv Ei Ej Hij Hs Hm Hg Hf Hpre Hwi Hcr Hsetup Hw Hre Hst Hfin.
  destruct (create_inv H B w j nj c (sv_slaves (srv nj) ++ [c']) y sj Hinv Ej Hg Hf Hcr) as (H' & B' & Hinv' & Hb & Ho).
  unfold replicationSetupSlaveForFullResync in Hsetup. cbn [r_pre_psync] in Hsetup. rewrite Hpre in Hsetup. injection Hsetup as <- <-.
  cbn [r_wire] in Hw. rewrite Hwi in Hw. cbn [app] in Hw. unfold fullresync_reply in Hw. rewrite !app_assoc in Hw. apply app_inv_tail in Hw.
  exists H', B'. set (nj' := mk_node (set_slaves _ _) _ _) in *.
  assert (Ej' : <[j := nj']> w !! j = Some nj') by apply lookup_insert_eq.
  destruct (proj1 Hinv' j _ Ej') as [Hj' _]. pose proof (ok_off _ _ _ Hj') as Hoff.
  rewrite <- Hw, <- !app_assoc, psync_reply_full in Hre; [|apply (ok_id _ _ _ Hj')|unfold n_off in Hoff; cbn in Hoff; lia].
  injection Hre as <-. injection Hst as <-. unfold finish_full_resync in Hfin. cbn in Hfin. injection Hfin as <-.
  apply (loaded_inv H' B' (<[j := nj']> w) i j ni nj'); try done. by rewrite lookup_insert_ne.
Qed.

Lemma step_inv H B w w' :
  inv H B w -> step w w' -> exists H' B', inv H' B' w'.
Proof.
  intros Hinv Hstep. destruct Hstep.
  - eexists _, B. by apply write_inv.
  - exists H, B. by apply local_inv.
  - exists H, B. by eapply apply_inv.
  - exists H, B. by eapply drop_inv.
  - exists H, B. rewrite set_slaves_seldb. apply slaves_inv; [done..|]. intros Hb.
    destruct (proj1 Hinv _ _ ltac:(eassumption)) as [Hn _]. destruct (ok_nobacklog _ _ _ Hn Hb) as [E _]. rewrite E in *. by apply sublist_nil_r.
  - exists H, B. by eapply close_inv.
  - eexists _, _. by eapply promote_inv.
  - exists H, B. by eapply demote_inv.
  - exists H, B. by apply resize_inv.
  - exists H, B. by eapply expire_inv.
  - exists H, B. by eapply psync_inv.
  - by eapply fullsync_inv.
  - exists H, B. by eapply abort_inv.
Qed.

(** C1: consistency of replication. In a group of instances that write, replicate,
    lose their links, change roles, let their backlogs expire and resynchronize,
    partially or fully, in any order: a replica that is connected has, up to the
    bytes in flight, exactly the data of the instance it replicates, with which it
    shares its ID and offset, whatever the histories of the two were; in particular
    a partial resynchronization is only accepted when it sends exactly what the
    replica lacks. Instances with the same ID and a backlog never diverge: the data
    of one extends that of the other, by the difference of their offsets. *)
Theorem replication_consistent w0 w :
  init w0 -> rtc step w0 w ->
  (forall i j ni nj q, w !! i = Some ni -> w !! j = Some nj -> conn ni = Some (q, Some j) ->
    data nj = data ni ++ q /\ n_id nj = n_id ni /\ n_off nj = n_off ni + blen q) /\
  (forall i j ni nj, w !! i = Some ni -> w !! j = Some nj -> n_backlog ni = true -> n_backlog nj = true ->
    n_id ni = n_id nj -> n_off ni <= n_off nj ->
    exists p, data nj = data ni ++ p /\ blen p = n_off nj - n_off ni).
Proof.
  intros Hinit Hrtc. assert (exists H B, inv H B w) as (H & B & Hn & Hp).
  { assert (exists H B, inv H B w0) as Hi by (eexists _, _; by apply init_inv). clear Hinit.
    induction Hrtc as [|w0 w1 w2 Hs _ IH]; [done|]. apply IH. destruct Hi as (H & B & Hi). by eapply step_inv. }
  assert (Hoff : forall i n, w !! i = Some n -> n_backlog n = true -> n_off n = B (n_id n) + blen (data n) /\ data n `prefix_of` H (n_id n)).
  { intros i n Ei Eb. destruct (Hn i n Ei) as [Hok _]. by destruct (ok_backlog _ _ _ Hok Eb) as (_ & ? & ? & _). }
  split.
  - intros i j ni nj q Ei Ej Hc. destruct (Hn i ni Ei) as [Hok Hself].
    assert (i <> j) as Hij by (intros ->; by eapply Hself). destruct (Hp i j ni nj Hij Ei Ej) as [_ L].
    destruct (L q Hc) as (L1 & L2 & L3). split_and!; try done.
    assert (Hb : n_backlog ni = true).
    { destruct (n_backlog ni) eqn:E; [done|]. destruct (ok_conn _ _ _ Hok _ _ Hc) as [[? Hm] _]. destruct (ok_nobacklog _ _ _ Hok E). congruence. }
    destruct (Hoff i ni Ei Hb) as [-> _], (Hoff j nj Ej L2) as [-> _]. rewrite L1, L3, blen_app. lia.
  - intros i j ni nj Ei Ej Hbi Hbj Hid Hle. destruct (Hoff i ni Ei Hbi) as [Hoi Hpi], (Hoff j nj Ej Hbj) as [Hoj Hpj].
    rewrite Hid in Hoi, Hpi. destruct (prefix_shorter _ _ _ Hpi Hpj) as [p E]; [lia|]. exists p. split; [done|].
    rewrite E, blen_app in Hoj. lia.
Qed.

End World.

(** A failover: instance 1 becomes a replica of instance 0, is promoted, and instance 0
    continues from it under the ID it had. *)
Definition demo_server (c : Z) : server :=
  mk_server (mk_ids (replicate 40 c) (replicate 40 48) (-1) 0) (mk_backlog None 64 0 0 0) (mk_upstream false None None [] (-1)) [] (-1).
Definition demo_client : replica := mk_replica (demo_session ∅) false false true SLAVE_STATE_WAIT_BGSAVE_START 0 0 0 [].
Definition demo_world (x y : node) : world := <[0%nat := x]> (<[1%nat := y]> ∅).

Notation demo_step := (step (fun _ => 0) id (fun _ => false) 0).

(** The servers along the way. *)
Definition demo_get (d : server) (o : option server) : server := default d o.
Definition demo_a0 : server := demo_server 97.
Definition demo_b0 : server := demo_server 98.
Definition demo_b1 : server := Eval vm_compute in demo_get demo_b0 (replicationSetMaster true demo_b0).
Definition demo_a1' : server := Eval vm_compute in
  demo_get demo_a0 (sync_create_backlog (fun _ => 0) (replicate 40 99) (set_slaves [demo_client] demo_a0)).
Definition demo_setup := Eval vm_compute in replicationSetupSlaveForFullResync true demo_a1' demo_client 0.
Definition demo_a1 : server := Eval vm_compute in set_slaves [snd (fst demo_setup)] (fst (fst demo_setup)).
Definition demo_full : bytes := Eval vm_compute in bytes_of_string "+FULLRESYNC " ++ replicate 40 99 ++ [32; 48].
Definition demo_b2' : server := Eval vm_compute in
  demo_get demo_b1 (r ← psync_reply (fun _ => 0) demo_full demo_b1; Some (snd r)).
Definition demo_b2'' : server := Eval vm_compute in demo_get demo_b1 (start_full_resync demo_b2').
Definition demo_b2 : server := Eval vm_compute in demo_get demo_b1 (finish_full_resync (fun _ => 0) demo_b2'').
Definition demo_b3 : server := Eval vm_compute in demo_get demo_b2 (replicationUnsetMaster true (replicate 40 100) demo_b2).
Definition demo_a2 : server := Eval vm_compute in demo_get demo_a1 (replicationSetMaster true demo_a1).
Definition demo_b4 : server := Eval vm_compute in
  demo_get demo_b3 (r ← masterTryPartialResynchronization id (fun _ => false) 0 true demo_b3 demo_client (replicate 40 99) 1; Some (snd r)).
Definition demo_u : upstream := Eval vm_compute in snd (psync_request false true (sv_up demo_a2)).
Definition demo_cont : bytes := Eval vm_compute in bytes_of_string "+CONTINUE " ++ replicate 40 100.
Definition demo_a3 : server := Eval vm_compute in
  demo_get demo_a2 (r ← psync_reply (fun _ => 0) demo_cont (set_up demo_u demo_a2); Some (snd r)).

Lemma demo_good c : 48 <= c <= 57 \/ 97 <= c <= 102 -> good_id (replicate 40 c).
Proof. intros Hc. split; [done|]. by apply Forall_replicate. Qed.

Ltac demo_fresh :=
  split; [apply demo_good; lia|];
  intros i n E; unfold demo_world in E; rewrite !lookup_insert_Some in E; destruct E as [[<- <-]|[_ [[<- <-]|[_ E]]]];
    [split; vm_compute; discriminate..|by rewrite lookup_empty in E].

Lemma demo_run :
  rtc demo_step (demo_world (mk_node demo_a0 [1; 2; 3] None) (mk_node demo_b0 [] None))
    (demo_world (mk_node demo_a3 [1; 2; 3] (Some ([], Some 1%nat))) (mk_node demo_b4 [1; 2; 3] None)).
Proof.
  transitivity (demo_world (mk_node demo_a0 [1; 2; 3] None) (mk_node demo_b1 [] None)).
  { apply rtc_once. eapply eq_rect; [apply (step_demote _ _ _ _ _ 1%nat (mk_node demo_b0 [] None) true demo_b1)|]; reflexivity. }
  transitivity (demo_world (mk_node demo_a1 [1; 2; 3] None) (mk_node demo_b2 [1; 2; 3] (Some ([], Some 0%nat)))).
  { apply rtc_once. eapply eq_rect; [eapply (step_fullsync _ _ _ _ _ 1%nat 0%nat (mk_node demo_b1 [] None) (mk_node demo_a0 [1; 2; 3] None)
      demo_client (snd (fst demo_setup)) (replicate 40 99) demo_a1' (fst (fst demo_setup)) demo_full demo_b2' demo_b2'' demo_b2)|]; try reflexivity; try done.
    demo_fresh. }
  transitivity (demo_world (mk_node demo_a1 [1; 2; 3] None) (mk_node demo_b3 [1; 2; 3] None)).
  { apply rtc_once. eapply eq_rect; [apply (step_promote _ _ _ _ _ 1%nat (mk_node demo_b2 [1; 2; 3] (Some ([], Some 0%nat))) true (replicate 40 100) demo_b3)|];
      try reflexivity. demo_fresh. }
  transitivity (demo_world (mk_node demo_a2 [1; 2; 3] None) (mk_node demo_b3 [1; 2; 3] None)).
  { apply rtc_once. eapply eq_rect; [apply (step_demote _ _ _ _ _ 0%nat (mk_node demo_a1 [1; 2; 3] None) true demo_a2)|]; reflexivity. }
  apply rtc_once. eapply eq_rect; [eapply (step_psync _ _ _ _ _ 0%nat 1%nat (mk_node demo_a2 [1; 2; 3] None) (mk_node demo_b3 [1; 2; 3] None)
    demo_client (bytes_of_string "PSYNC") (replicate 40 99) [49] 1 demo_u demo_b4 _ demo_cont demo_a3)|]; try reflexivity; try done.
  split; [done|split; [done|constructor]].
Qed.

Lemma replication_consistent_witness :
  init (demo_world (mk_node demo_a0 [1; 2; 3] None) (mk_node demo_b0 [] None)) /\
  data (mk_node demo_b4 [1; 2; 3] None) = data (mk_node demo_a3 [1; 2; 3] (Some ([], Some 1%nat))) ++ [].
Proof.
  assert (Hi : init (demo_world (mk_node demo_a0 [1; 2; 3] None) (mk_node demo_b0 [] None))).
  { split.
    - intros i n E. unfold demo_world in E. rewrite !lookup_insert_Some in E. destruct E as [[<- <-]|[_ [[<- <-]|[_ E]]]];
        [..|by rewrite lookup_empty in E]; (split; [apply demo_good; lia|repeat split; done]).
    - intros i j n m Hij E1 E2. unfold demo_world in *. rewrite !lookup_insert_Some in E1, E2.
      destruct E1 as [[<- <-]|[_ [[<- <-]|[_ E1]]]], E2 as [[<- <-]|[_ [[<- <-]|[_ E2]]]]; try (by rewrite lookup_empty in *); try done. }
  split; [exact Hi|].
  eapply (proj1 (replication_consistent (fun _ => 0) id (fun _ => false) 0 (fun n => Z.le_refl n) (fun _ => eq_refl) _ _ Hi demo_run) 0%nat 1%nat);
    reflexivity.
Defined.

End ReplicationWorld.
