(* ===== verification/Crc.v ===== *)
(** * Checksums: [crc64.c], [crcspeed.c] and [crc16.c]

    [crc64] is computed eight bytes at a time from tables that [crc64_init]
    derives from the bit-by-bit routine [_crc64]; RDB files and MIGRATE payloads
    are protected by it.  [crc16], from a constant table, places keys in hash
    slots.  Both are shown equal to their bit-by-bit definitions. *)

From Stdlib Require Import ZArith Lia.
From stdpp Require Import base option list numbers strings.
From S2P Require Import Prelude.

#[local] Open Scope Z_scope.

Module Crc.

(** ** The operations of [crc64.c] and [crcspeed.c] *)

Definition POLY : Z := 0xad93d23594c935a9.

(** The loop of [crc_reflect] from index [i], [n] iterations. *)
Fixpoint reflect_loop (n : nat) (data ret : Z) : Z :=
  match n with
  | O => ret
  | S n =>
      let data := Z.shiftr data 1 in
      reflect_loop n data (Z.lor (u64 (Z.shiftl ret 1)) (Z.land data 1))
  end.

Definition crc_reflect (data : Z) (data_len : nat) : Z :=
  reflect_loop (data_len - 1) data (Z.land data 1).

(** One turn of the inner loop, for the bit of [c] selected by the mask [i]. *)
Definition crc_bit (crc c i : Z) : Z :=
  let bit := negb (Z.land crc 0x8000000000000000 =? 0) in
  let bit := if negb (Z.land c i =? 0) then negb bit else bit in
  let crc := u64 (Z.shiftl crc 1) in
  if bit then Z.lxor crc POLY else crc.

Definition crc_byte (crc c : Z) : Z :=
  Z.land (fold_left (fun crc i => crc_bit crc c i) [1; 2; 4; 8; 16; 32; 64; 128] crc)
    0xffffffffffffffff.

Definition _crc64 (crc : Z) (data : bytes) : Z :=
  crc_reflect (Z.land (fold_left crc_byte data crc) 0xffffffffffffffff) 64.

(** [table[k][n]]; every index below is masked to its range. *)
Definition entry (table : list (list Z)) (k n : Z) : Z :=
  default 0 (t ← table !! Z.to_nat k; t !! Z.to_nat n).

(** [table[0][crc & 0xff] ^ (crc >> 8)]. *)
Definition zero_step (table : list (list Z)) (crc : Z) : Z :=
  Z.lxor (entry table 0 (Z.land crc 0xff)) (Z.shiftr crc 8).

Definition crcspeed64little_init (crcfn : Z -> bytes -> Z) : list (list Z) :=
  let table0 := (fun n => crcfn 0 [n]) <$> seqZ 0 256 in
  (fun k => (fun crc => Nat.iter k (zero_step [table0]) crc) <$> table0) <$> seq 0 8.

Definition crc64_table : list (list Z) := crcspeed64little_init _crc64.

(** [crc = little_table[0][(crc ^ *next++) & 0xff] ^ (crc >> 8)]. *)
Definition byte_step (table : list (list Z)) (crc next : Z) : Z :=
  Z.lxor (entry table 0 (Z.land (Z.lxor crc next) 0xff)) (Z.shiftr crc 8).

(** The eight-byte step of the middle loop. *)
Definition word_step (table : list (list Z)) (crc word : Z) : Z :=
  let crc := Z.lxor crc word in
  Z.lxor (Z.lxor (Z.lxor (Z.lxor (Z.lxor (Z.lxor (Z.lxor
    (entry table 7 (Z.land crc 0xff))
    (entry table 6 (Z.land (Z.shiftr crc 8) 0xff)))
    (entry table 5 (Z.land (Z.shiftr crc 16) 0xff)))
    (entry table 4 (Z.land (Z.shiftr crc 24) 0xff)))
    (entry table 3 (Z.land (Z.shiftr crc 32) 0xff)))
    (entry table 2 (Z.land (Z.shiftr crc 40) 0xff)))
    (entry table 1 (Z.land (Z.shiftr crc 48) 0xff)))
    (entry table 0 (Z.shiftr crc 56)).

(** The byte loop up to an aligned address, on the bytes left and the address. *)
Fixpoint align_loop (table : list (list Z)) (crc addr : Z) (buf : bytes) : Z * bytes :=
  match buf with
  | [] => (crc, [])
  | c :: rest =>
      if negb (Z.land addr 7 =? 0)
      then align_loop table (byte_step table crc c) (addr + 1) rest
      else (crc, buf)
  end.

(** The middle loop, eight bytes read as a little-endian word per turn. *)
Fixpoint word_loop (fuel : nat) (table : list (list Z)) (crc : Z) (buf : bytes) : Z * bytes :=
  match fuel with
  | O => (crc, buf)
  | S fuel =>
      if 8 <=? blen buf
      then word_loop fuel table (word_step table crc (le_decode (take 8 buf))) (drop 8 buf)
      else (crc, buf)
  end.

Definition crcspeed64little (table : list (list Z)) (crc addr : Z) (buf : bytes) : Z :=
  let '(crc, buf) := align_loop table crc addr buf in
  let '(crc, buf) := word_loop (length buf) table crc buf in
  fold_left (byte_step table) buf crc.

(** [crc64], after [crc64_init], of the bytes [s] at address [addr]. *)
Definition crc64 (crc addr : Z) (s : bytes) : Z := crcspeed64little crc64_table crc addr s.

(** ** The operations of [crc16.c] *)

Definition crc16tab : list Z := [
  0x0000; 0x1021; 0x2042; 0x3063; 0x4084; 0x50a5; 0x60c6; 0x70e7;
  0x8108; 0x9129; 0xa14a; 0xb16b; 0xc18c; 0xd1ad; 0xe1ce; 0xf1ef;
  0x1231; 0x0210; 0x3273; 0x2252; 0x52b5; 0x4294; 0x72f7; 0x62d6;
  0x9339; 0x8318; 0xb37b; 0xa35a; 0xd3bd; 0xc39c; 0xf3ff; 0xe3de;
  0x2462; 0x3443; 0x0420; 0x1401; 0x64e6; 0x74c7; 0x44a4; 0x5485;
  0xa56a; 0xb54b; 0x8528; 0x9509; 0xe5ee; 0xf5cf; 0xc5ac; 0xd58d;
  0x3653; 0x2672; 0x1611; 0x0630; 0x76d7; 0x66f6; 0x5695; 0x46b4;
  0xb75b; 0xa77a; 0x9719; 0x8738; 0xf7df; 0xe7fe; 0xd79d; 0xc7bc;
  0x48c4; 0x58e5; 0x6886; 0x78a7; 0x0840; 0x1861; 0x2802; 0x3823;
  0xc9cc; 0xd9ed; 0xe98e; 0xf9af; 0x8948; 0x9969; 0xa90a; 0xb92b;
  0x5af5; 0x4ad4; 0x7ab7; 0x6a96; 0x1a71; 0x0a50; 0x3a33; 0x2a12;
  0xdbfd; 0xcbdc; 0xfbbf; 0xeb9e; 0x9b79; 0x8b58; 0xbb3b; 0xab1a;
  0x6ca6; 0x7c87; 0x4ce4; 0x5cc5; 0x2c22; 0x3c03; 0x0c60; 0x1c41;
  0xedae; 0xfd8f; 0xcdec; 0xddcd; 0xad2a; 0xbd0b; 0x8d68; 0x9d49;
  0x7e97; 0x6eb6; 0x5ed5; 0x4ef4; 0x3e13; 0x2e32; 0x1e51; 0x0e70;
  0xff9f; 0xefbe; 0xdfdd; 0xcffc; 0xbf1b; 0xaf3a; 0x9f59; 0x8f78;
  0x9188; 0x81a9; 0xb1ca; 0xa1eb; 0xd10c; 0xc12d; 0xf14e; 0xe16f;
  0x1080; 0x00a1; 0x30c2; 0x20e3; 0x5004; 0x4025; 0x7046; 0x6067;
  0x83b9; 0x9398; 0xa3fb; 0xb3da; 0xc33d; 0xd31c; 0xe37f; 0xf35e;
  0x02b1; 0x1290; 0x22f3; 0x32d2; 0x4235; 0x5214; 0x6277; 0x7256;
  0xb5ea; 0xa5cb; 0x95a8; 0x8589; 0xf56e; 0xe54f; 0xd52c; 0xc50d;
  0x34e2; 0x24c3; 0x14a0; 0x0481; 0x7466; 0x6447; 0x5424; 0x4405;
  0xa7db; 0xb7fa; 0x8799; 0x97b8; 0xe75f; 0xf77e; 0xc71d; 0xd73c;
  0x26d3; 0x36f2; 0x0691; 0x16b0; 0x6657; 0x7676; 0x4615; 0x5634;
  0xd94c; 0xc96d; 0xf90e; 0xe92f; 0x99c8; 0x89e9; 0xb98a; 0xa9ab;
  0x5844; 0x4865; 0x7806; 0x6827; 0x18c0; 0x08e1; 0x3882; 0x28a3;
  0xcb7d; 0xdb5c; 0xeb3f; 0xfb1e; 0x8bf9; 0x9bd8; 0xabbb; 0xbb9a;
  0x4a75; 0x5a54; 0x6a37; 0x7a16; 0x0af1; 0x1ad0; 0x2ab3; 0x3a92;
  0xfd2e; 0xed0f; 0xdd6c; 0xcd4d; 0xbdaa; 0xad8b; 0x9de8; 0x8dc9;
  0x7c26; 0x6c07; 0x5c64; 0x4c45; 0x3ca2; 0x2c83; 0x1ce0; 0x0cc1;
  0xef1f; 0xff3e; 0xcf5d; 0xdf7c; 0xaf9b; 0xbfba; 0x8fd9; 0x9ff8;
  0x6e17; 0x7e36; 0x4e55; 0x5e74; 0x2e93; 0x3eb2; 0x0ed1; 0x1ef0].

(** The [char] is promoted with its sign; the mask drops the extension. *)
Definition crc16_step (crc c : Z) : Z :=
  u16 (Z.lxor (Z.shiftl crc 8)
    (default 0 (crc16tab !! Z.to_nat (Z.land (Z.lxor (Z.shiftr crc 8) (s8 c)) 0x00FF)))).

Definition crc16 (buf : bytes) : Z := fold_left crc16_step buf 0.

(** ** Shift registers over GF(2) *)

(** One shift of a [w]-bit register with feedback polynomial [p]. *)
Definition mstep (w p x : Z) : Z :=
  Z.lxor (wrapu w (Z.shiftl x 1)) (if Z.testbit x (w - 1) then p else 0).

Lemma wrapu_lxor w x y : 0 <= w -> wrapu w (Z.lxor x y) = Z.lxor (wrapu w x) (wrapu w y).
Proof.
  intros Hw. unfold wrapu. rewrite <- !Z.land_ones by done. apply Z.bits_inj'. intros i Hi.
  rewrite !Z.lxor_spec, !Z.land_spec, Z.lxor_spec. by destruct (Z.testbit (Z.ones w) i), (Z.testbit x i), (Z.testbit y i).
Qed.

Lemma mstep_lxor w p x y : 0 < w -> mstep w p (Z.lxor x y) = Z.lxor (mstep w p x) (mstep w p y).
Proof.
  intros Hw. unfold mstep. rewrite Z.shiftl_lxor, wrapu_lxor, Z.lxor_spec by lia.
  apply Z.bits_inj'. intros i Hi.
  destruct (Z.testbit x (w - 1)), (Z.testbit y (w - 1)); cbn [xorb]; rewrite !Z.lxor_spec, ?Z.bits_0;
    by destruct (Z.testbit (wrapu w (Z.shiftl x 1)) i), (Z.testbit (wrapu w (Z.shiftl y 1)) i), (Z.testbit p i).
Qed.

Lemma mstep_u w p x : 0 < w -> is_u w p -> is_u w (mstep w p x).
Proof.
  intros Hw Hp. unfold mstep. apply lxor_u; [lia|apply wrapu_range; lia|].
  destruct (Z.testbit _ _); [done|]. split; [lia|]. apply Z.pow_pos_nonneg; lia.
Qed.

(** A linear function: it maps the exclusive or of words to that of images. *)
Definition linear (f : Z -> Z) : Prop := forall x y, f (Z.lxor x y) = Z.lxor (f x) (f y).

Lemma linear_0 f : linear f -> f 0 = 0.
Proof. intros Hf. pose proof (Hf 0 0) as H. rewrite !Z.lxor_nilpotent in H. done. Qed.

Lemma linear_iter f n : linear f -> linear (Nat.iter n f).
Proof. intros Hf. induction n as [|n IH]; intros x y; [done|]. rewrite !Nat.iter_succ. by rewrite IH, Hf. Qed.

(** Shifting a register whose top [n] bits are clear has no feedback. *)
Lemma mstep_shift w p n x :
  Z.of_nat n <= w -> is_u (w - Z.of_nat n) x -> Nat.iter n (mstep w p) x = Z.shiftl x (Z.of_nat n).
Proof.
  intros Hn Hx. induction n as [|n IH]; [by rewrite Z.shiftl_0_r|].
  assert (2 ^ (w - Z.of_nat n) = 2 * 2 ^ (w - Z.of_nat (S n))) as Hp.
  { rewrite <- Z.pow_succ_r by lia. f_equal. lia. }
  unfold is_u in *. rewrite Nat.iter_succ, IH by lia.
  unfold mstep. rewrite Z.shiftl_spec by lia.
  replace (w - 1 - Z.of_nat n) with (w - Z.of_nat (S n)) by lia.
  rewrite (proj1 (is_u_bits (w - Z.of_nat (S n)) x ltac:(lia))) by (done || lia).
  rewrite Z.lxor_0_r, Z.shiftl_shiftl by lia. rewrite wrapu_small.
  - f_equal. lia.
  - rewrite Z.shiftl_mul_pow2 by lia.
    assert (2 ^ w = 2 ^ (w - Z.of_nat (S n)) * 2 ^ (Z.of_nat n + 1)) as Hw.
    { rewrite <- Z.pow_add_r by lia. f_equal. lia. }
    unfold is_u. assert (0 < 2 ^ (Z.of_nat n + 1)) by (apply Z.pow_pos_nonneg; lia). nia.
Qed.

(** A statement about every byte that evaluates to [true] holds of every byte. *)
Lemma forall_bytes (P : Z -> bool) :
  forallb P (seqZ 0 256) = true -> forall b, is_byte b -> P b = true.
Proof.
  intros H b Hb. rewrite forallb_forall in H. apply H, list_elem_of_In, elem_of_seqZ.
  unfold is_byte in Hb. lia.
Qed.

(** ** [crc_reflect] reverses the bits *)

Lemma reflect_loop_bits n k data0 data ret :
  data = Z.shiftr data0 k -> 0 <= k -> k + Z.of_nat n < 64 ->
  (forall j, 0 <= j -> Z.testbit ret j = (j <=? k) && Z.testbit data0 (k - j)) ->
  forall j, 0 <= j ->
    Z.testbit (reflect_loop n data ret) j =
    (j <=? k + Z.of_nat n) && Z.testbit data0 (k + Z.of_nat n - j).
Proof.
  revert k data ret. induction n as [|n IH]; intros k data ret Hd Hk Hn Hret j Hj.
  { simpl. rewrite Z.add_0_r. by apply Hret. }
  cbn [reflect_loop]. rewrite (IH (k + 1)); [|by rewrite Hd, Z.shiftr_shiftr|lia|lia| |lia].
  { do 2 f_equal; lia. }
  intros i Hi. rewrite Z.lor_spec, Z.land_spec. unfold wrapu. subst data.
  rewrite Z.shiftr_shiftr, Z.shiftr_spec by lia. destruct (decide (i = 0)) as [->|].
  - rewrite Z.mod_pow2_bits_low, Z.shiftl_spec_low by lia. simpl.
    rewrite andb_true_r. rewrite (proj2 (Z.leb_le _ _)) by lia. simpl. f_equal. lia.
  - replace (Z.testbit 1 i) with false by (symmetry; apply (is_u_bits 1); [lia|unfold is_u; lia|lia]).
    rewrite andb_false_r, orb_false_r. destruct (decide (i < 64)).
    + rewrite Z.mod_pow2_bits_low, Z.shiftl_spec, Hret by lia. f_equal; [lia|f_equal; lia].
    + rewrite Z.mod_pow2_bits_high by lia. rewrite (proj2 (Z.leb_gt _ _)) by lia. done.
Qed.

Lemma crc_reflect_bits x j :
  0 <= j -> Z.testbit (crc_reflect x 64) j = (j <=? 63) && Z.testbit x (63 - j).
Proof.
  intros Hj. unfold crc_reflect. rewrite (reflect_loop_bits 63 0 x); [done|by rewrite Z.shiftr_0_r|lia|lia| |lia].
  intros i Hi. rewrite Z.land_spec. destruct (decide (i = 0)) as [->|].
  - simpl. by rewrite andb_true_r.
  - rewrite (proj2 (Z.leb_gt _ _)) by lia. cbn [andb].
    replace (Z.testbit 1 i) with false by (symmetry; apply (is_u_bits 1); [lia|unfold is_u; lia|lia]).
    apply andb_false_r.
Qed.

Lemma crc_reflect_linear : linear (fun x => crc_reflect x 64).
Proof.
  intros x y. apply Z.bits_inj'. intros i Hi.
  rewrite Z.lxor_spec, !crc_reflect_bits, Z.lxor_spec by done. by destruct (i <=? 63).
Qed.

Lemma crc_reflect_u x : is_u 64 (crc_reflect x 64).
Proof.
  apply is_u_bits; [lia|]. intros i Hi. rewrite crc_reflect_bits by lia.
  by rewrite (proj2 (Z.leb_gt _ _)) by lia.
Qed.

Lemma crc_reflect_invol x : is_u 64 x -> crc_reflect (crc_reflect x 64) 64 = x.
Proof.
  intros Hx. apply Z.bits_inj'. intros i Hi. rewrite crc_reflect_bits by done.
  destruct (Z.leb_spec i 63).
  - rewrite crc_reflect_bits by lia. rewrite (proj2 (Z.leb_le _ _)) by lia. cbn [andb]. f_equal. lia.
  - symmetry. apply (is_u_bits 64); [lia|done|lia].
Qed.

(** ** The bit-by-bit routine as a linear map *)

Lemma crc_bit_mstep crc c k :
  0 <= k ->
  crc_bit crc c (2 ^ k) = mstep 64 POLY (Z.lxor crc (if Z.testbit c k then 2 ^ 63 else 0)).
Proof.
  intros Hk. unfold crc_bit. change 0x8000000000000000 with (2 ^ 63).
  rewrite !land_pow2_test by lia. rewrite mstep_lxor by lia. unfold mstep at 1.
  change (64 - 1) with 63. destruct (Z.testbit c k).
  - change (mstep 64 POLY (2 ^ 63)) with POLY. rewrite Z.lxor_assoc.
    destruct (Z.testbit crc 63); cbn [negb]; [by rewrite Z.lxor_nilpotent, Z.lxor_0_r|by rewrite Z.lxor_0_l].
  - change (mstep 64 POLY 0) with 0. rewrite Z.lxor_0_r. destruct (Z.testbit crc 63); [done|].
    by rewrite Z.lxor_0_r.
Qed.

Lemma lxor_swap a b c d : Z.lxor (Z.lxor a b) (Z.lxor c d) = Z.lxor (Z.lxor a c) (Z.lxor b d).
Proof.
  apply Z.bits_inj'. intros i Hi. rewrite !Z.lxor_spec.
  by destruct (Z.testbit a i), (Z.testbit b i), (Z.testbit c i), (Z.testbit d i).
Qed.

Lemma crc_bit_lxor r1 r2 c1 c2 k :
  0 <= k ->
  crc_bit (Z.lxor r1 r2) (Z.lxor c1 c2) (2 ^ k) = Z.lxor (crc_bit r1 c1 (2 ^ k)) (crc_bit r2 c2 (2 ^ k)).
Proof.
  intros Hk. rewrite !crc_bit_mstep by done. rewrite <- mstep_lxor by lia. f_equal.
  rewrite lxor_swap. f_equal. rewrite Z.lxor_spec.
  by destruct (Z.testbit c1 k), (Z.testbit c2 k).
Qed.

Lemma masks_pow2 : [1; 2; 4; 8; 16; 32; 64; 128] = (fun k => 2 ^ k) <$> seqZ 0 8.
Proof. reflexivity. Qed.

Lemma crc_bits_lxor ks r1 r2 c1 c2 :
  Forall (fun k => 0 <= k) ks ->
  fold_left (fun crc i => crc_bit crc (Z.lxor c1 c2) i) ((fun k => 2 ^ k) <$> ks) (Z.lxor r1 r2) =
  Z.lxor (fold_left (fun crc i => crc_bit crc c1 i) ((fun k => 2 ^ k) <$> ks) r1)
         (fold_left (fun crc i => crc_bit crc c2 i) ((fun k => 2 ^ k) <$> ks) r2).
Proof.
  intros Hks. revert r1 r2. induction Hks as [|k ks Hk _ IH]; intros r1 r2; [done|].
  cbn [fmap list_fmap fold_left]. by rewrite crc_bit_lxor, IH.
Qed.

Lemma crc_byte_lxor r1 r2 c1 c2 :
  crc_byte (Z.lxor r1 r2) (Z.lxor c1 c2) = Z.lxor (crc_byte r1 c1) (crc_byte r2 c2).
Proof.
  unfold crc_byte. rewrite masks_pow2, crc_bits_lxor by (vm_compute; repeat constructor; discriminate).
  apply Z.bits_inj'. intros i Hi. rewrite Z.lxor_spec, !Z.land_spec, Z.lxor_spec.
  by destruct (Z.testbit 0xffffffffffffffff i), (Z.testbit _ i), (Z.testbit _ i).
Qed.

Lemma crc_byte_u r c : is_u 64 (crc_byte r c).
Proof. unfold crc_byte. apply land_u; zlia. Qed.

Lemma crc_byte_shift r : is_u 56 r -> crc_byte r 0 = Z.shiftl r 8.
Proof.
  intros Hr. rewrite <- (mstep_shift 64 POLY 8) by (done || zlia).
  unfold crc_byte. rewrite masks_pow2. change (seqZ 0 8) with [0; 1; 2; 3; 4; 5; 6; 7].
  cbn [fmap list_fmap fold_left]. rewrite !crc_bit_mstep by lia. rewrite !Z.testbit_0_l, !Z.lxor_0_r.
  assert (forall x, is_u 64 (mstep 64 POLY x)) as Hu by (intros x; apply mstep_u; [|unfold POLY]; zlia).
  generalize dependent (mstep 64 POLY). intros f Hu.
  change 0xffffffffffffffff with (Z.ones 64). rewrite Z.land_ones by lia. apply wrapu_small, Hu.
Qed.

(** ** One byte of the table-driven routine *)

Definition table0 : list Z := (fun n => _crc64 0 [n]) <$> seqZ 0 256.

Lemma crc64_table_eq :
  crc64_table = (fun k => (fun crc => Nat.iter k (zero_step [table0]) crc) <$> table0) <$> seq 0 8.
Proof. reflexivity. Qed.

(** The table by its entries. *)
Definition T0 (n : Z) : Z := crc_reflect (crc_byte 0 n) 64.

Lemma crc64_single n : _crc64 0 [n] = T0 n.
Proof.
  unfold _crc64, T0. cbn [fold_left]. f_equal. change 0xffffffffffffffff with (Z.ones 64).
  rewrite Z.land_ones by lia. apply wrapu_small, crc_byte_u.
Qed.

Lemma T0_linear : linear T0.
Proof.
  intros x y. unfold T0. change 0 with (Z.lxor 0 0) at 1. rewrite crc_byte_lxor.
  apply crc_reflect_linear.
Qed.

Lemma lookup_seqZ_0 n : is_byte n -> seqZ 0 256 !! Z.to_nat n = Some n.
Proof. unfold is_byte. intros. apply lookup_seqZ. lia. Qed.

Lemma land_255_byte x : is_byte (Z.land x 0xff).
Proof.
  unfold is_byte. change 0xff with (Z.ones 8). rewrite Z.land_ones by lia.
  apply Z.mod_pos_bound. lia.
Qed.

Lemma table0_lookup n : is_byte n -> table0 !! Z.to_nat n = Some (T0 n).
Proof.
  intros Hn. unfold table0. rewrite list_lookup_fmap, lookup_seqZ_0 by done.
  cbn [fmap option_fmap option_map]. by rewrite crc64_single.
Qed.

#[local] Opaque table0 crc64_table T0.

Lemma entry_crc64_table k n :
  (k < 8)%nat -> is_byte n -> entry crc64_table (Z.of_nat k) n = Nat.iter k (zero_step [table0]) (T0 n).
Proof.
  intros Hk Hn. unfold entry. rewrite crc64_table_eq, Nat2Z.id.
  rewrite list_lookup_fmap, lookup_seq_lt by done. cbn [fmap option_fmap option_map mbind option_bind].
  change (table0 !! Z.to_nat n) with (table0 !! Z.to_nat n). rewrite list_lookup_fmap.
  by rewrite table0_lookup.
Qed.

(** The step on a zero byte: [zero_step] with the table by its entries. *)
Definition Z0 (w : Z) : Z := Z.lxor (T0 (Z.land w 0xff)) (Z.shiftr w 8).

Lemma zero_step_Z0 w : zero_step [table0] w = Z0 w.
Proof.
  unfold zero_step, Z0. f_equal. unfold entry. change (Z.to_nat 0) with O.
  change ([table0] !! O) with (Some table0). cbn [mbind option_bind].
  by rewrite table0_lookup by apply land_255_byte.
Qed.

Lemma entry_table k n :
  (k < 8)%nat -> is_byte n -> entry crc64_table (Z.of_nat k) n = Nat.iter k Z0 (T0 n).
Proof.
  intros Hk Hn. rewrite entry_crc64_table by done. clear Hk. generalize (T0 n). intros x.
  induction k as [|k IH]; [reflexivity|]. rewrite !Nat.iter_succ, IH. apply zero_step_Z0.
Qed.

Lemma byte_step_Z0 crc c : is_byte c -> byte_step crc64_table crc c = Z0 (Z.lxor crc c).
Proof.
  intros Hc. unfold byte_step, Z0. rewrite (entry_table 0) by (lia || apply land_255_byte). simpl.
  f_equal. rewrite Z.shiftr_lxor. replace (Z.shiftr c 8) with 0; [by rewrite Z.lxor_0_r|].
  rewrite Z.shiftr_div_pow2 by lia. unfold is_byte in Hc. symmetry. apply Z.div_small. lia.
Qed.

Lemma land_lxor_l x y m : Z.land (Z.lxor x y) m = Z.lxor (Z.land x m) (Z.land y m).
Proof.
  apply Z.bits_inj'. intros i Hi. rewrite Z.lxor_spec, !Z.land_spec, Z.lxor_spec.
  by destruct (Z.testbit x i), (Z.testbit y i), (Z.testbit m i).
Qed.

Lemma Z0_linear : linear Z0.
Proof.
  intros x y. unfold Z0. rewrite land_lxor_l, T0_linear, Z.shiftr_lxor. apply lxor_swap.
Qed.

#[local] Transparent T0.

Lemma T0_u n : is_u 64 (T0 n).
Proof. unfold T0. apply crc_reflect_u. Qed.

#[local] Opaque crc_reflect crc_byte.

(** Feeding a byte to a register holding only that byte reflected. *)
Lemma crc_byte_reflected n : is_byte n -> crc_byte (crc_reflect n 64) 0 = crc_byte 0 n.
Proof.
  intros Hn. apply Z.eqb_eq. revert n Hn. apply forall_bytes. vm_compute. reflexivity.
Qed.

(** The top byte of the register, and the rest. *)
Lemma register_split r :
  is_u 64 r ->
  r = Z.lxor (crc_reflect (Z.land (crc_reflect r 64) 0xff) 64) (Z.land r (Z.ones 56)).
Proof.
  intros Hr. apply Z.bits_inj'. intros i Hi.
  rewrite Z.lxor_spec, crc_reflect_bits, !Z.land_spec by done. change 0xff with (Z.ones 8).
  destruct (decide (i < 64)); [|rewrite (proj2 (Z.leb_gt _ _)), (proj1 (is_u_bits 64 r ltac:(lia))) by (done || lia); done].
  rewrite (proj2 (Z.leb_le i 63)) by lia. rewrite crc_reflect_bits by lia.
  rewrite (proj2 (Z.leb_le (63 - i) 63)) by lia. cbn [andb]. replace (63 - (63 - i)) with i by lia.
  rewrite !Z.testbit_ones_nonneg by lia.
  destruct (Z.ltb_spec i 56), (Z.ltb_spec (63 - i) 8); try lia; destruct (Z.testbit r i); done.
Qed.

(** One byte of the bit-by-bit register, seen reflected, is one table step. *)
Lemma reflect_step r c :
  is_u 64 r -> is_byte c ->
  crc_reflect (crc_byte r c) 64 = Z0 (Z.lxor (crc_reflect r 64) c).
Proof.
  intros Hr Hc. set (n := Z.land (crc_reflect r 64) 0xff).
  assert (crc_byte r c = Z.lxor (crc_byte 0 (Z.lxor n c)) (Z.shiftl (Z.land r (Z.ones 56)) 8)) as ->.
  { rewrite (register_split r Hr) at 1. fold n. rewrite <- (Z.lxor_0_r c) at 1. rewrite crc_byte_lxor.
    rewrite crc_byte_shift by (rewrite Z.land_ones by lia; apply wrapu_range; lia).
    rewrite <- (Z.lxor_0_r (crc_reflect n 64)), <- (Z.lxor_0_l c), crc_byte_lxor.
    rewrite crc_byte_reflected by apply land_255_byte.
    by rewrite <- crc_byte_lxor, Z.lxor_0_l. }
  rewrite crc_reflect_linear. unfold Z0, T0.
  assert (Z.land (Z.lxor (crc_reflect r 64) c) 0xff = Z.lxor n c) as ->.
  { rewrite land_lxor_l. fold n. f_equal. change 0xff with (Z.ones 8). rewrite Z.land_ones by lia.
    apply Z.mod_small. unfold is_byte in Hc. lia. }
  assert (crc_reflect (Z.shiftl (Z.land r (Z.ones 56)) 8) 64 = Z.shiftr (Z.lxor (crc_reflect r 64) c) 8) as ->;
    [|reflexivity].
  apply Z.bits_inj'. intros i Hi. rewrite crc_reflect_bits, Z.shiftr_spec, Z.lxor_spec by done.
  rewrite (proj1 (is_u_bits 8 c ltac:(lia))) by (unfold is_byte, is_u in *; lia).
  rewrite xorb_false_r, crc_reflect_bits by lia.
  destruct (decide (i <= 55)).
  - rewrite Z.shiftl_spec, Z.land_spec, Z.testbit_ones_nonneg by lia.
    rewrite !(proj2 (Z.leb_le _ _)), (proj2 (Z.ltb_lt _ _)) by lia. rewrite andb_true_r. cbn [andb].
    f_equal. lia.
  - rewrite (proj2 (Z.leb_gt (i + 8) 63)) by lia. destruct (Z.leb_spec i 63); [|done].
    rewrite Z.shiftl_spec_low by lia. done.
Qed.

Lemma fold_left_cons {A B} (f : A -> B -> A) b l a : fold_left f (b :: l) a = fold_left f l (f a b).
Proof. reflexivity. Qed.

(** ** Eight bytes at a time *)

Lemma Z0_u w : is_u 64 w -> is_u 64 (Z0 w).
Proof.
  intros Hw. unfold Z0. apply lxor_u; [lia|apply T0_u|]. unfold is_u in *.
  rewrite Z.shiftr_div_pow2 by lia. split; [apply Z.div_pos; lia|].
  apply Z.div_lt_upper_bound; lia.
Qed.

Lemma byte_u b : is_byte b -> is_u 64 b.
Proof. unfold is_byte, is_u. lia. Qed.

Lemma lxor_shift8 c d : is_byte c -> c + 256 * d = Z.lxor c (Z.shiftl d 8).
Proof.
  intros Hc. rewrite Z.shiftl_mul_pow2 by lia. change (2 ^ 8) with 256.
  rewrite <- Z.add_nocarry_lxor; [lia|]. apply Z.bits_inj'. intros i Hi.
  rewrite Z.land_spec, Z.bits_0. change 256 with (2 ^ 8). rewrite <- Z.shiftl_mul_pow2 by lia.
  destruct (decide (i < 8)).
  - rewrite Z.shiftl_spec_low by lia. apply andb_false_r.
  - rewrite (proj1 (is_u_bits 8 c ltac:(lia))) by (unfold is_byte, is_u in *; lia). done.
Qed.

Lemma Z0_shift d : Z0 (Z.shiftl d 8) = d.
Proof.
  unfold Z0. replace (Z.land (Z.shiftl d 8) 0xff) with 0.
  - rewrite (linear_0 _ T0_linear), Z.lxor_0_l, Z.shiftr_shiftl_l by lia. apply Z.shiftl_0_r.
  - apply Z.bits_inj'. intros i Hi. rewrite Z.land_spec, Z.bits_0. change 0xff with (Z.ones 8).
    rewrite Z.testbit_ones_nonneg by lia. destruct (Z.ltb_spec i 8); [|by rewrite andb_false_r].
    by rewrite Z.shiftl_spec_low by lia.
Qed.

(** The bytes one at a time are zero steps on the register with the whole word
    folded in. *)
Lemma bytes_as_word bs crc :
  Forall is_byte bs ->
  fold_left (byte_step crc64_table) bs crc = Nat.iter (length bs) Z0 (Z.lxor crc (le_decode bs)).
Proof.
  intros Hbs. revert crc. induction Hbs as [|c bs Hc _ IH]; intros crc; cbn [fold_left length le_decode].
  - by rewrite Z.lxor_0_r.
  - rewrite IH, byte_step_Z0, Nat.iter_succ_r by done. f_equal.
    rewrite lxor_shift8 by done. by rewrite <- Z.lxor_assoc, (Z0_linear (Z.lxor crc c)), Z0_shift.
Qed.

Lemma Z0_unroll k w :
  Nat.iter (S k) Z0 w = Z.lxor (Nat.iter k Z0 (T0 (Z.land w 0xff))) (Nat.iter k Z0 (Z.shiftr w 8)).
Proof. rewrite Nat.iter_succ_r. unfold Z0 at 2. apply linear_iter, Z0_linear. Qed.

Lemma word_step_Z0 crc w :
  is_u 64 crc -> is_u 64 w -> word_step crc64_table crc w = Nat.iter 8 Z0 (Z.lxor crc w).
Proof.
  intros Hc Hw. unfold word_step. assert (is_u 64 (Z.lxor crc w)) as Hx by (by apply lxor_u).
  set (x := Z.lxor crc w) in *. clearbody x.
  assert (is_byte (Z.shiftr x 56)) as H56.
  { unfold is_byte, is_u in *. rewrite Z.shiftr_div_pow2 by lia.
    split; [apply Z.div_pos; lia|apply Z.div_lt_upper_bound; lia]. }
  pose proof (entry_table 7) as E7. pose proof (entry_table 6) as E6. pose proof (entry_table 5) as E5.
  pose proof (entry_table 4) as E4. pose proof (entry_table 3) as E3. pose proof (entry_table 2) as E2.
  pose proof (entry_table 1) as E1. pose proof (entry_table 0) as E0. cbn [Z.of_nat Pos.of_succ_nat Pos.succ] in *.
  rewrite E7, E6, E5, E4, E3, E2, E1, E0 by (lia || done || apply land_255_byte).
  assert (forall k j j', j' = j + 8 -> 0 <= j -> Nat.iter (S k) Z0 (Z.shiftr x j) =
    Z.lxor (Nat.iter k Z0 (T0 (Z.land (Z.shiftr x j) 0xff))) (Nat.iter k Z0 (Z.shiftr x j'))) as U.
  { intros k j j' -> Hj. by rewrite Z0_unroll, Z.shiftr_shiftr by lia. }
  rewrite <- (Z.shiftr_0_r x) at 9. rewrite <- (Z.shiftr_0_r x) at 1.
  rewrite (U 7%nat 0 8), (U 6%nat 8 16), (U 5%nat 16 24), (U 4%nat 24 32), (U 3%nat 32 40),
    (U 2%nat 40 48), (U 1%nat 48 56), (U 0%nat 56 64) by lia.
  replace (Z.land (Z.shiftr x 56) 0xff) with (Z.shiftr x 56).
  2: { change 0xff with (Z.ones 8). rewrite Z.land_ones by lia. symmetry. by apply Z.mod_small. }
  replace (Nat.iter 0 Z0 (Z.shiftr x 64)) with 0; [by rewrite Z.lxor_0_r, !Z.lxor_assoc|].
  change (0 = Z.shiftr x 64). rewrite Z.shiftr_div_pow2 by lia. symmetry. by apply Z.div_small.
Qed.

Lemma fold_step_u bs crc :
  Forall is_byte bs -> is_u 64 crc -> is_u 64 (fold_left (byte_step crc64_table) bs crc).
Proof.
  intros Hbs. revert crc. induction Hbs as [|c bs Hc _ IH]; intros crc Hcrc; [done|].
  cbn [fold_left]. apply IH. rewrite byte_step_Z0 by done. apply Z0_u, lxor_u; [lia|done|].
  by apply byte_u.
Qed.

Lemma word_step_bytes crc bs :
  is_u 64 crc -> Forall is_byte bs -> length bs = 8%nat ->
  word_step crc64_table crc (le_decode bs) = fold_left (byte_step crc64_table) bs crc.
Proof.
  intros Hc Hbs Hl. rewrite bytes_as_word, Hl by done. apply word_step_Z0; [done|].
  pose proof (le_decode_range bs Hbs) as H. unfold blen in H. rewrite Hl in H. exact H.
Qed.

Lemma align_loop_fold table crc addr buf :
  let '(crc', rest) := align_loop table crc addr buf in
  exists done_, buf = done_ ++ rest /\ crc' = fold_left (byte_step table) done_ crc.
Proof.
  revert crc addr. induction buf as [|c buf IH]; intros crc addr; cbn [align_loop].
  - by exists [].
  - destruct (negb _); [|by exists []].
    specialize (IH (byte_step table crc c) (addr + 1)).
    destruct (align_loop table (byte_step table crc c) (addr + 1) buf) as [crc' rest].
    destruct IH as (d & -> & ->). by exists (c :: d).
Qed.

Lemma word_loop_fold fuel crc buf :
  is_u 64 crc -> Forall is_byte buf ->
  let '(crc', rest) := word_loop fuel crc64_table crc buf in
  exists done_, buf = done_ ++ rest /\ crc' = fold_left (byte_step crc64_table) done_ crc.
Proof.
  revert crc buf. induction fuel as [|fuel IH]; intros crc buf Hc Hb; cbn [word_loop]; [by exists []|].
  destruct (Z.leb_spec 8 (blen buf)) as [Hl|]; [|by exists []].
  assert (length (take 8 buf) = 8%nat) by (rewrite length_take; unfold blen in Hl; lia).
  assert (Forall is_byte (take 8 buf)) as Ht by (by apply Forall_take).
  rewrite word_step_bytes by done.
  specialize (IH (fold_left (byte_step crc64_table) (take 8 buf) crc) (drop 8 buf)).
  destruct (word_loop fuel crc64_table _ (drop 8 buf)) as [crc' rest].
  destruct IH as (d & Hd & ->); [by apply fold_step_u|by apply Forall_drop|].
  exists (take 8 buf ++ d). rewrite <- app_assoc, <- Hd, take_drop, fold_left_app. done.
Qed.

(** The sliced routine, whatever the alignment, is the byte-at-a-time one. *)
Lemma crc64_fold crc addr buf :
  is_u 64 crc -> Forall is_byte buf ->
  crc64 crc addr buf = fold_left (byte_step crc64_table) buf crc.
Proof.
  intros Hc Hb. unfold crc64, crcspeed64little.
  pose proof (align_loop_fold crc64_table crc addr buf) as Ha.
  destruct (align_loop crc64_table crc addr buf) as [crc1 buf1]. destruct Ha as (d1 & -> & ->).
  apply Forall_app in Hb as [Hb1 Hb2].
  pose proof (word_loop_fold (length buf1) _ buf1 (fold_step_u d1 crc Hb1 Hc) Hb2) as Hw.
  destruct (word_loop _ _ _ _) as [crc2 buf2]. destruct Hw as (d2 & -> & ->).
  by rewrite !fold_left_app.
Qed.

Lemma crc64_reflected buf r :
  is_u 64 r -> Forall is_byte buf ->
  fold_left (byte_step crc64_table) buf (crc_reflect r 64) = crc_reflect (fold_left crc_byte buf r) 64 /\
  is_u 64 (fold_left crc_byte buf r).
Proof.
  intros Hr Hb. revert r Hr. induction Hb as [|c buf Hc _ IH]; intros r Hr; [by split|].
  rewrite !fold_left_cons, byte_step_Z0, <- reflect_step by done. apply IH, crc_byte_u.
Qed.

(** C23: CRC64. For a buffer at any address, the slice-by-8 computation from the
    generated tables equals the bit-by-bit definition, on every register value;
    in particular [crc64] from 0 is [_crc64] from 0. *)
Theorem crc64_correct r addr buf :
  is_u 64 r -> Forall is_byte buf ->
  crc64 (crc_reflect r 64) addr buf = _crc64 r buf.
Proof.
  intros Hr Hb. rewrite crc64_fold by (done || apply crc_reflect_u).
  destruct (crc64_reflected buf r Hr Hb) as [-> Hu]. unfold _crc64.
  change 0xffffffffffffffff with (Z.ones 64). rewrite Z.land_ones by lia.
  by rewrite Z.mod_small.
Qed.

(** Feeding a stream in two buffers, at any two addresses, gives the checksum of the
    stream in one buffer. *)
Lemma crc64_pieces crc a1 a2 a b1 b2 :
  is_u 64 crc -> Forall is_byte b1 -> Forall is_byte b2 ->
  crc64 (crc64 crc a1 b1) a2 b2 = crc64 crc a (b1 ++ b2).
Proof.
  intros Hc H1 H2. rewrite (crc64_fold crc a1), (crc64_fold crc a), crc64_fold;
    [by rewrite fold_left_app|by apply fold_step_u|done|done|by apply Forall_app|done|done].
Qed.

(** ** Error detection *)

Lemma T0_top n : is_byte n -> Z.shiftr (T0 n) 56 = 0 -> n = 0.
Proof.
  intros Hn E. pose proof (forall_bytes (fun n => (n =? 0) || negb (Z.shiftr (T0 n) 56 =? 0)) ltac:(vm_compute; reflexivity) n Hn) as H.
  cbn beta in H. rewrite E in H. destruct (Z.eqb_spec n 0); done.
Qed.

Lemma Z0_kernel w : is_u 64 w -> Z0 w = 0 -> w = 0.
Proof.
  intros Hw E. unfold Z0 in E. apply Z.lxor_eq in E.
  assert (Hb : Z.land w 0xff = 0).
  { apply T0_top; [apply land_255_byte|]. rewrite E, Z.shiftr_shiftr, Z.shiftr_div_pow2 by lia. by apply Z.div_small. }
  rewrite Hb, (linear_0 _ T0_linear), Z.shiftr_div_pow2 in E by lia. change 0xff with (Z.ones 8) in Hb. rewrite Z.land_ones in Hb by lia.
  pose proof (Z.div_mod w (2 ^ 8) ltac:(done)). lia.
Qed.

Lemma Z0_inj x y : is_u 64 x -> is_u 64 y -> Z0 x = Z0 y -> x = y.
Proof.
  intros Hx Hy E. apply Z.lxor_eq, Z0_kernel; [apply lxor_u; (lia || done)|]. by rewrite Z0_linear, E, Z.lxor_nilpotent.
Qed.

Lemma iter_Z0_inj n x y : is_u 64 x -> is_u 64 y -> Nat.iter n Z0 x = Nat.iter n Z0 y -> x = y.
Proof.
  revert x y. induction n as [|n IH]; intros x y Hx Hy E; [done|]. rewrite !Nat.iter_succ_r in E. apply Z0_inj; [done..|].
  apply IH; [by apply Z0_u|by apply Z0_u|done].
Qed.

Lemma lxor_cancel_l a x y : Z.lxor a x = Z.lxor a y -> x = y.
Proof.
  intros E. apply (f_equal (Z.lxor a)) in E. by rewrite <- !Z.lxor_assoc, Z.lxor_nilpotent, !Z.lxor_0_l in E.
Qed.

Lemma fold_step_inj bs x y :
  Forall is_byte bs -> is_u 64 x -> is_u 64 y -> fold_left (byte_step crc64_table) bs x = fold_left (byte_step crc64_table) bs y -> x = y.
Proof.
  intros Hb. revert x y. induction Hb as [|c bs Hc _ IH]; intros x y Hx Hy; cbn [fold_left]; [done|]. rewrite !byte_step_Z0 by done.
  pose proof (byte_u c Hc) as Hu. intros Heq. apply IH in Heq; [|by apply Z0_u, lxor_u..]. apply Z0_inj in Heq; [|by apply lxor_u..].
  rewrite (Z.lxor_comm x), (Z.lxor_comm y) in Heq. by apply lxor_cancel_l in Heq.
Qed.

(** Any change confined to eight consecutive bytes changes the checksum. *)
Lemma crc64_burst crc addr addr' a w w' b :
  is_u 64 crc -> Forall is_byte a -> Forall is_byte w -> Forall is_byte w' -> Forall is_byte b ->
  length w = length w' -> (length w <= 8)%nat ->
  crc64 crc addr (a ++ w ++ b) = crc64 crc addr' (a ++ w' ++ b) -> w = w'.
Proof.
  intros Hc Ha Hw Hw' Hb Hl H8. rewrite !crc64_fold by (done || by rewrite !Forall_app). rewrite !fold_left_app.
  pose proof (fold_step_u a crc Ha Hc) as Hr. set (r := fold_left _ a crc) in *. intros Heq.
  apply fold_step_inj in Heq; [|done|by apply fold_step_u..]. rewrite !bytes_as_word, <- Hl in Heq by done.
  assert (forall v, Forall is_byte v -> (length v <= 8)%nat -> is_u 64 (le_decode v)) as Hv.
  { intros v Hv Hlv. pose proof (le_decode_range v Hv) as R. unfold is_u, blen in *.
    assert (2 ^ (8 * Z.of_nat (length v)) <= 2 ^ 64) by (apply Z.pow_le_mono_r; lia). lia. }
  apply iter_Z0_inj in Heq; [|apply lxor_u; (lia || done || apply Hv; (lia || done))..]. apply lxor_cancel_l in Heq.
  rewrite <- (le_encode_dec w), <- (le_encode_dec w') by done. by rewrite Hl, Heq.
Qed.

(** ** [crc16] *)

(** The CCITT polynomial division the source's comment names (XMODEM: width 16,
    polynomial 1021, initial value 0, no reflection), bit by bit. *)
Definition ccitt_byte (crc c : Z) : Z :=
  Nat.iter 8 (mstep 16 0x1021) (Z.lxor crc (Z.shiftl c 8)).

Lemma crc16tab_entry n :
  is_byte n -> crc16tab !! Z.to_nat n = Some (Nat.iter 8 (mstep 16 0x1021) (Z.shiftl n 8)).
Proof.
  intros Hn. apply (bool_decide_eq_true_1 (crc16tab !! Z.to_nat n = _)). revert n Hn.
  apply forall_bytes. vm_compute. reflexivity.
Qed.

Lemma land_s8 x c : is_byte c -> Z.land (Z.lxor x (s8 c)) 0xff = Z.land (Z.lxor x c) 0xff.
Proof.
  intros Hc. rewrite !land_lxor_l. f_equal. change 0xff with (Z.ones 8). rewrite !Z.land_ones by lia.
  unfold wraps, is_byte in *. change (2 ^ (8 - 1)) with 128. change (2 ^ 8) with 256 in *.
  Z.div_mod_to_equations; lia.
Qed.

Lemma crc16_step_ccitt crc c :
  is_u 16 crc -> is_byte c -> crc16_step crc c = ccitt_byte crc c.
Proof.
  intros Hcrc Hc. unfold crc16_step, ccitt_byte. rewrite land_s8 by done.
  rewrite crc16tab_entry by apply land_255_byte. cbn [default].
  assert (is_u 8 (Z.shiftr crc 8)) as Hh.
  { unfold is_u in *. rewrite Z.shiftr_div_pow2 by lia.
    split; [apply Z.div_pos; lia|apply Z.div_lt_upper_bound; lia]. }
  assert (is_u 8 (Z.lxor (Z.shiftr crc 8) c)) as Hx by (apply lxor_u; done || lia).
  set (x := Z.lxor (Z.shiftr crc 8) c) in *.
  replace (Z.land x 0xff) with x.
  2: { change 0xff with (Z.ones 8). rewrite Z.land_ones by lia. symmetry. by apply wrapu_small. }
  assert (Z.lxor crc (Z.shiftl c 8) = Z.lxor (Z.shiftl x 8) (Z.land crc 0xff)) as ->.
  { apply Z.bits_inj'. intros i Hi. rewrite !Z.lxor_spec, Z.land_spec. unfold x. change 0xff with (Z.ones 8).
    rewrite Z.testbit_ones_nonneg by lia. destruct (Z.ltb_spec i 8).
    - rewrite !Z.shiftl_spec_low by lia. rewrite xorb_false_l, andb_true_r. apply xorb_false_r.
    - rewrite !Z.shiftl_spec, Z.lxor_spec, Z.shiftr_spec by lia. rewrite andb_false_r, xorb_false_r.
      do 2 f_equal. lia. }
  assert (linear (Nat.iter 8 (mstep 16 0x1021))) as Hlin by (apply linear_iter; intros ??; by apply mstep_lxor).
  rewrite Hlin, Z.lxor_comm.
  rewrite (mstep_shift 16 0x1021 8 (Z.land crc 0xff)) by (lia || apply land_u; unfold is_u; lia).
  rewrite wrapu_lxor by lia. rewrite wrapu_small by (rewrite Nat.iter_succ; apply mstep_u; zlia).
  f_equal. change 0xff with (Z.ones 8). rewrite Z.land_ones by lia.
  unfold wrapu. rewrite !Z.shiftl_mul_pow2 by lia. change (2 ^ 16) with (2 ^ 8 * 2 ^ 8).
  change (2 ^ Z.of_nat 8) with (2 ^ 8). rewrite Z.mul_comm, Z.mul_mod_distr_l by lia. lia.
Qed.

Lemma ccitt_byte_u crc c : is_u 16 (ccitt_byte crc c).
Proof. unfold ccitt_byte. rewrite Nat.iter_succ. apply mstep_u; zlia. Qed.

(** CRC16. The table-driven hash-slot checksum is the CCITT (XMODEM)
    polynomial division of the key's bytes. *)
Theorem crc16_correct buf :
  Forall is_byte buf -> crc16 buf = fold_left ccitt_byte buf 0 /\ is_u 16 (crc16 buf).
Proof.
  unfold crc16. assert (is_u 16 0) as H0 by zlia. revert H0. generalize 0 as crc.
  intros crc Hcrc Hb. revert crc Hcrc. induction Hb as [|c buf Hc _ IH]; intros crc Hcrc; [done|].
  rewrite !fold_left_cons, crc16_step_ccitt by done. apply IH, ccitt_byte_u.
Qed.

(** ** Witnesses: the check values of the two polynomials *)

Definition check_string : bytes := bytes_of_string "123456789".

Lemma check_string_bytes : Forall is_byte check_string.
Proof. unfold is_byte. repeat constructor; discriminate. Qed.

Lemma crc64_witness :
  crc64 0 3 check_string = 0xe9c6d914c4b8d9ca /\ _crc64 0 check_string = 0xe9c6d914c4b8d9ca.
Proof.
  split; [|vm_compute; reflexivity].
  rewrite <- (eq_refl : crc_reflect 0 64 = 0) at 1.
  rewrite (crc64_correct 0 3 check_string); [vm_compute; reflexivity|zlia|apply check_string_bytes].
Defined.

Lemma crc16_witness : crc16 check_string = 0x31c3 /\ is_u 16 (crc16 check_string).
Proof.
  split; [vm_compute; reflexivity|]. apply (crc16_correct check_string), check_string_bytes.
Defined.

End Crc.
