(* ===== verification/Lzf.v ===== *)
(** * LZF compression ([lzf_c.c], [lzf_d.c])

    The compressor with its hash table of earlier positions, whose initial content
    is arbitrary, and the decompressor, with pointers as indices into the two
    buffers.  The configuration is that of [lzfP.h] on 64-bit hosts: offsets in the
    hash table, [VERY_FAST], [CHECK_INPUT], no initialisation of the table. *)

From Stdlib Require Import ZArith Lia.
From stdpp Require Import base option list numbers functions.
From S2P Require Import Prelude.

#[local] Open Scope Z_scope.

Module Lzf.

Definition HLOG : Z := 16.
Definition HSIZE : Z := 65536.
Definition MAX_LIT : Z := 32.
Definition MAX_OFF : Z := 8192.
Definition MAX_REF : Z := 264.

(** ** Compression *)

Section Compress.

Context (inp : bytes) (out_len : Z).

Definition in_len : Z := blen inp.

Definition FRST (p : Z) : option Z :=
  a ← load8 inp p; b ← load8 inp (p + 1); Some (Z.lor (Z.shiftl a 8) b).

Definition NEXT (v p : Z) : option Z := c ← load8 inp (p + 2); Some (u32 (Z.lor (Z.shiftl v 8) c)).

Definition IDX (h : Z) : Z := Z.land (u32 (Z.shiftr h (3 * 8 - HLOG) - h * 5)) (HSIZE - 1).

(** Input and output positions, length of the current literal run, hash of the last
    bytes, table and output buffer. *)
Record cstate := mk_cstate {
  ip : Z;
  op : Z;
  lit : Z;
  hval : Z;
  htab : Z -> Z;
  obuf : bytes;
}.

Inductive flow := Next (s : cstate) | Break (s : cstate) | Return0 (o : bytes).

(** The condition on [ref], evaluated from left to right. *)
Definition is_match (ref p : Z) : option bool :=
  if (u64 (p - ref - 1) <? MAX_OFF) && (0 <? ref) then
    a2 ← load8 inp (ref + 2); b2 ← load8 inp (p + 2);
    if negb (a2 =? b2) then Some false else
    a0 ← load8 inp ref; a1 ← load8 inp (ref + 1);
    b0 ← load8 inp p; b1 ← load8 inp (p + 1);
    Some ((a0 =? b0) && (a1 =? b1))
  else Some false.

(** [n] unrolled steps: the length reached, and whether a difference was found. *)
Fixpoint unrolled (n : nat) (ref p len : Z) : option (Z * bool) :=
  match n with
  | O => Some (len, false)
  | S n =>
      let len := len + 1 in
      a ← load8 inp (ref + len); b ← load8 inp (p + len);
      if negb (a =? b) then Some (len, true) else unrolled n ref p len
  end.

(** [do len++; while (len < maxlen && ref[len] == ip[len]);] *)
Fixpoint extend (fuel : nat) (ref p maxlen len : Z) : option Z :=
  match fuel with
  | O => None
  | S fuel =>
      let len := len + 1 in
      if len <? maxlen then
        a ← load8 inp (ref + len); b ← load8 inp (p + len);
        if a =? b then extend fuel ref p maxlen len else Some len
      else Some len
  end.

Definition match_length (ref p : Z) : option Z :=
  let maxlen := in_len - p - 2 in
  let maxlen := if MAX_REF <? maxlen then MAX_REF else maxlen in
  r ← (if 16 <? maxlen then unrolled 16 ref p 2 else Some (2, false));
  let '(len, stop) := r in
  if stop : bool then Some len else extend (Z.to_nat MAX_REF) ref p maxlen len.

(** [op[-lit-1] = lit - 1; op -= !lit;] *)
Definition stop_run (s : cstate) : option (bytes * Z) :=
  o ← store8 (obuf s) (op s - lit s - 1) (u8 (lit s - 1));
  Some (o, if lit s =? 0 then op s - 1 else op s).

Definition put_ref (o : bytes) (p len off : Z) : option (bytes * Z) :=
  if len <? 7 then
    o ← store8 o p (u8 (Z.shiftr off 8 + Z.shiftl len 5));
    o ← store8 o (p + 1) (u8 off);
    Some (o, p + 2)
  else
    o ← store8 o p (u8 (Z.shiftr off 8 + Z.shiftl 7 5));
    o ← store8 o (p + 1) (u8 (len - 7));
    o ← store8 o (p + 2) (u8 off);
    Some (o, p + 3).

Definition found_match (s : cstate) (ref : Z) : option flow :=
  let off := u64 (ip s - ref - 1) in
  if (out_len <=? op s + 3 + 1) && (out_len <=? op s - (if lit s =? 0 then 1 else 0) + 3 + 1) then Some (Return0 (obuf s)) else
  r ← stop_run s;
  len ← match_length ref (ip s);
  let len := len - 2 in
  let p := ip s + 1 in
  w ← put_ref (fst r) (snd r) len off;
  let '(o, q) := w in
  let q := q + 1 in
  let p := p + len + 1 in
  if in_len - 2 <=? p then Some (Break (mk_cstate p q 0 (hval s) (htab s) o)) else
  let p := p - 1 - 1 in
  h ← FRST p;
  h ← NEXT h p;
  let t := <[IDX h := u32 p]> (htab s) in
  let p := p + 1 in
  h ← NEXT h p;
  let t := <[IDX h := u32 p]> t in
  Some (Next (mk_cstate (p + 1) q 0 h t o)).

(** [lit++; *op++ = *ip++;] and the end of a run that is full. *)
Definition put_literal (s : cstate) : option cstate :=
  c ← load8 inp (ip s);
  o ← store8 (obuf s) (op s) c;
  let n := lit s + 1 in
  let p := op s + 1 in
  if n =? MAX_LIT then
    o ← store8 o (p - n - 1) (u8 (n - 1));
    Some (mk_cstate (ip s + 1) (p + 1) 0 (hval s) (htab s) o)
  else Some (mk_cstate (ip s + 1) p n (hval s) (htab s) o).

Definition compress_step (s : cstate) : option flow :=
  h ← NEXT (hval s) (ip s);
  let ref := htab s (IDX h) in
  let s := mk_cstate (ip s) (op s) (lit s) h (<[IDX h := u32 (ip s)]> (htab s)) (obuf s) in
  m ← is_match ref (ip s);
  if m : bool then found_match s ref else
  if out_len <=? op s then Some (Return0 (obuf s)) else
  s ← put_literal s;
  Some (Next s).

(** [while (ip < in_end - 2)]: the state at the end, or [None] for a return of 0. *)
Fixpoint compress_loop (fuel : nat) (s : cstate) : option (cstate + bytes) :=
  if ip s <? in_len - 2 then
    match fuel with
    | O => None
    | S fuel =>
        f ← compress_step s;
        match f with
        | Next s => compress_loop fuel s
        | Break s => Some (inl s)
        | Return0 o => Some (inr o)
        end
    end
  else Some (inl s).

Fixpoint tail_loop (fuel : nat) (s : cstate) : option cstate :=
  if ip s <? in_len then
    match fuel with
    | O => None
    | S fuel => s ← put_literal s; tail_loop fuel s
    end
  else Some s.

(** The length of the output, 0 when the input was not compressed, and the buffer. *)
Definition lzf_compress (table : Z -> Z) (o : bytes) : option (Z * bytes) :=
  if (in_len =? 0) || (out_len =? 0) then Some (0, o) else
  h ← FRST 0;
  r ← compress_loop (length inp) (mk_cstate 0 1 0 h table o);
  match r with
  | inr o => Some (0, o)
  | inl s =>
      if out_len <? op s + 3 then Some (0, obuf s) else
      s ← tail_loop (length inp) s;
      w ← stop_run s;
      Some (snd w, fst w)
  end.

End Compress.

(** ** Decompression *)

Section Decompress.

Context (inp : bytes) (out_len : Z).

Fixpoint copy_bytes (n : nat) (o : bytes) (q ref : Z) : option bytes :=
  match n with
  | O => Some o
  | S n => b ← load8 o ref; o ← store8 o q b; copy_bytes n o (q + 1) (ref + 1)
  end.

(** The copy of a back reference of [len + 2] bytes. *)
Definition copy_ref (o : bytes) (q ref len : Z) : option bytes :=
  if len <=? 9 then copy_bytes (Z.to_nat (len + 2)) o q ref else
  let len := len + 2 in
  if ref + len <=? q then d ← load o ref len; store o q d
  else copy_bytes (Z.to_nat len) o q ref.

Inductive dflow := DNext (p q : Z) (o : bytes) | DReturn0 (o : bytes).

Definition back_reference (ctrl p q : Z) (o : bytes) : option dflow :=
  let len := Z.shiftr ctrl 5 in
  let ref := q - Z.shiftl (Z.land ctrl 31) 8 - 1 in
  if blen inp <=? p then Some (DReturn0 o) else
  r ← (if len =? 7 then b ← load8 inp p; Some (len + b, p + 1) else Some (len, p));
  let '(len, p) := r in
  if (Z.shiftr ctrl 5 =? 7) && (blen inp <=? p) then Some (DReturn0 o) else
  b ← load8 inp p;
  let ref := ref - b in
  let p := p + 1 in
  if out_len <? q + len + 2 then Some (DReturn0 o) else
  if ref <? 0 then Some (DReturn0 o) else
  o ← copy_ref o q ref len;
  Some (DNext p (q + len + 2) o).

Definition decompress_step (p q : Z) (o : bytes) : option dflow :=
  ctrl ← load8 inp p;
  let p := p + 1 in
  if ctrl <? Z.shiftl 1 5 then
    let ctrl := ctrl + 1 in
    if out_len <? q + ctrl then Some (DReturn0 o) else
    if blen inp <? p + ctrl then Some (DReturn0 o) else
    d ← load inp p ctrl;
    o ← store o q d;
    Some (DNext (p + ctrl) (q + ctrl) o)
  else back_reference ctrl p q o.

Fixpoint decompress_loop (fuel : nat) (p q : Z) (o : bytes) : option (Z * bytes) :=
  if p <? blen inp then
    match fuel with
    | O => None
    | S fuel =>
        f ← decompress_step p q o;
        match f with
        | DNext p q o => decompress_loop fuel p q o
        | DReturn0 o => Some (0, o)
        end
    end
  else Some (q, o).

Definition lzf_decompress (o : bytes) : option (Z * bytes) := decompress_loop (length inp) 0 0 o.

End Decompress.

(** ** The format *)

(** [m] repeats what lies [dist] bytes back in [d ++ m]. *)
Definition repeats (d m : bytes) (dist : Z) : Prop :=
  1 <= dist <= blen d /\
  forall k : nat, (k < length m)%nat -> (d ++ m) !! (length d - Z.to_nat dist + k)%nat = m !! k.

(** A back reference of [len + 2] bytes, [off + 1] bytes back. *)
Definition ref_code (len off : Z) : bytes :=
  if len <? 7 then [off / 256 + len * 32; off mod 256] else [off / 256 + 224; len - 7; off mod 256].

(** [codes e d]: the data [d] is encoded by [e]. *)
Inductive codes : bytes -> bytes -> Prop :=
  | codes_nil : codes [] []
  | codes_lit e d l : codes e d -> 1 <= blen l <= MAX_LIT -> codes (e ++ (blen l - 1) :: l) (d ++ l)
  | codes_ref e d m dist :
      codes e d -> 3 <= blen m <= MAX_REF -> dist <= MAX_OFF -> repeats d m dist ->
      codes (e ++ ref_code (blen m - 2) (dist - 1)) (d ++ m).

(** ** The decompressor decodes *)

Lemma load8_cons pre x (post : bytes) i : i = blen pre -> load8 (pre ++ x :: post) i = Some x.
Proof. apply load8_app_mid. Qed.

Lemma load_mid (pre m post : bytes) i n : i = blen pre -> n = blen m -> load (pre ++ m ++ post) i n = Some m.
Proof.
  intros -> ->. rewrite load_Some by blia. f_equal. unfold blen. rewrite !Nat2Z.id, drop_app_length. apply take_app_length.
Qed.

Lemma store_mid (pre m old post : bytes) i : i = blen pre -> length old = length m -> store (pre ++ old ++ post) i m = Some (pre ++ m ++ post).
Proof.
  intros -> Hl. rewrite store_in by blia. f_equal. unfold blen. rewrite Nat2Z.id, take_app_length. do 2 f_equal.
  rewrite <- drop_drop, drop_app_length, <- Hl. apply drop_app_length.
Qed.

Lemma repeats_cons d x m dist : repeats d (x :: m) dist -> d !! (length d - Z.to_nat dist)%nat = Some x /\ repeats (d ++ [x]) m dist.
Proof.
  intros [Hd Hk]. split.
  - specialize (Hk O ltac:(cbn; lia)). rewrite Nat.add_0_r, lookup_app_l in Hk by blia. done.
  - split; [blia|]. intros k Hlt. specialize (Hk (S k) ltac:(cbn; lia)). etrans; [|exact Hk]. rewrite <- app_assoc. cbn [app]. f_equal. blia.
Qed.

Lemma copy_bytes_ok m : forall d rest dist,
  repeats d m dist -> (length m <= length rest)%nat ->
  copy_bytes (length m) (d ++ rest) (blen d) (blen d - dist) = Some (d ++ m ++ drop (length m) rest).
Proof.
  induction m as [|x m IH]; intros d rest dist Hr Hl; cbn [copy_bytes length]; [by rewrite drop_0|].
  destruct rest as [|y rest]; [cbn in Hl; lia|]. pose proof Hr as [Hd _]. apply repeats_cons in Hr as [Hx Hr].
  assert (load8 (d ++ y :: rest) (blen d - dist) = Some x) as ->.
  { apply load8_Some; [lia|]. rewrite lookup_app_l by blia. rewrite <- Hx. f_equal. blia. }
  cbn [mbind option_bind]. rewrite store8_mid by done. cbn [mbind option_bind].
  specialize (IH (d ++ [x]) rest dist Hr ltac:(cbn in Hl; lia)). rewrite <- !app_assoc in IH. cbn [app] in IH.
  replace (blen (d ++ [x])) with (blen d + 1) in IH by blia. replace (blen d - dist + 1) with (blen d + 1 - dist) by lia.
  rewrite IH. done.
Qed.

Lemma copy_ref_ok d m rest dist :
  repeats d m dist -> 3 <= blen m -> (length m <= length rest)%nat ->
  copy_ref (d ++ rest) (blen d) (blen d - dist) (blen m - 2) = Some (d ++ m ++ drop (length m) rest).
Proof.
  intros Hr Hm Hl. unfold copy_ref. replace (blen m - 2 + 2) with (blen m) by lia.
  assert (Hc : copy_bytes (Z.to_nat (blen m)) (d ++ rest) (blen d) (blen d - dist) = Some (d ++ m ++ drop (length m) rest)).
  { unfold blen at 1. rewrite Nat2Z.id. by apply copy_bytes_ok. }
  destruct (_ <=? 9); [done|]. destruct (Z.leb_spec (blen d - dist + blen m) (blen d)) as [Hle|]; [|done].
  destruct Hr as [Hd Hk]. assert (load (d ++ rest) (blen d - dist) (blen m) = Some m) as ->.
  { rewrite load_Some by blia. f_equal. apply list_eq. intros k. destruct (decide (k < length m)%nat) as [Hlt|Hge].
    - rewrite lookup_take_lt, lookup_drop, lookup_app_l by blia. rewrite <- Hk, lookup_app_l by (done || blia). f_equal. blia.
    - rewrite lookup_take_ge, lookup_ge_None_2 by blia. done. }
  cbn [mbind option_bind]. rewrite <- (take_drop (length m) rest) at 1. apply store_mid; [done|]. rewrite length_take. lia.
Qed.

Lemma ref_ctrl off len : 0 <= off < MAX_OFF -> 0 <= len < 8 ->
  Z.shiftr (off / 256 + len * 32) 5 = len /\ Z.shiftl (Z.land (off / 256 + len * 32) 31) 8 = off / 256 * 256.
Proof.
  intros Ho Hl. unfold MAX_OFF in Ho. assert (0 <= off / 256 < 32) by (Z.div_mod_to_equations; lia).
  rewrite Z.shiftr_div_pow2, Z.shiftl_mul_pow2 by lia. change 31 with (Z.ones 5). rewrite Z.land_ones by lia.
  change (2 ^ 5) with 32. change (2 ^ 8) with 256. rewrite Z.div_add, Z.mod_add by lia. rewrite Z.div_small, Z.mod_small by lia. lia.
Qed.

(** One piece of the format is one turn of the loop. *)
Lemma decode_lit out_len (e l rest d o : bytes) :
  1 <= blen l <= MAX_LIT -> (length l <= length o)%nat -> blen d + blen l <= out_len ->
  decompress_step (e ++ ((blen l - 1) :: l) ++ rest) out_len (blen e) (blen d) (d ++ o) =
    Some (DNext (blen e + blen l + 1) (blen d + blen l) ((d ++ l) ++ drop (length l) o)).
Proof.
  intros Hl Ho Hout. unfold decompress_step. cbn [app]. rewrite load8_cons by done. cbn [mbind option_bind].
  change (Z.shiftl 1 5) with 32. unfold MAX_LIT in Hl. rewrite (proj2 (Z.ltb_lt _ 32)) by lia.
  rewrite (proj2 (Z.ltb_ge out_len _)) by lia. rewrite (proj2 (Z.ltb_ge (blen _) _)) by blia.
  change (e ++ (blen l - 1) :: l ++ rest) with (e ++ [blen l - 1] ++ l ++ rest). rewrite app_assoc, load_mid by blia. cbn [mbind option_bind].
  rewrite <- (take_drop (length l) o) at 1. rewrite store_mid by (done || blia). cbn. rewrite <- app_assoc. do 2 f_equal; lia.
Qed.

Lemma decode_ref out_len (e m rest d o : bytes) dist :
  3 <= blen m <= MAX_REF -> dist <= MAX_OFF -> repeats d m dist -> (length m <= length o)%nat -> blen d + blen m <= out_len ->
  decompress_step (e ++ ref_code (blen m - 2) (dist - 1) ++ rest) out_len (blen e) (blen d) (d ++ o) =
    Some (DNext (blen e + blen (ref_code (blen m - 2) (dist - 1))) (blen d + blen m) ((d ++ m) ++ drop (length m) o)).
Proof.
  intros Hm Hdist Hr Ho Hout. pose proof Hr as [Hd _]. unfold MAX_REF in Hm. unfold decompress_step, ref_code.
  assert (Hoff : 0 <= dist - 1 < MAX_OFF) by (unfold MAX_OFF in *; lia).
  assert (0 <= (dist - 1) / 256 < 32) by (unfold MAX_OFF in *; Z.div_mod_to_equations; lia).
  assert (Hmod : (dist - 1) / 256 * 256 + (dist - 1) mod 256 = dist - 1) by (Z.div_mod_to_equations; lia).
  destruct (Z.ltb_spec (blen m - 2) 7) as [H7|H7]; cbn [app]; rewrite load8_cons by done; cbn [mbind option_bind];
    change (Z.shiftl 1 5) with 32; rewrite (proj2 (Z.ltb_ge _ 32)) by lia; unfold back_reference.
  - destruct (ref_ctrl (dist - 1) (blen m - 2) Hoff) as [E1 E2]; [lia|]. rewrite E1, E2.
    rewrite (proj2 (Z.leb_gt (blen _) _)) by blia. rewrite (proj2 (Z.eqb_neq _ 7)) by lia. cbn [mbind option_bind andb].
    change (e ++ ?a :: ?b :: rest) with (e ++ [a] ++ b :: rest). rewrite app_assoc, load8_cons by blia. cbn [mbind option_bind].
    rewrite (proj2 (Z.ltb_ge out_len _)) by lia. rewrite (proj2 (Z.ltb_ge _ 0)) by lia.
    replace (blen d - _ - 1 - _) with (blen d - dist) by lia. rewrite copy_ref_ok by (done || lia). cbn [mbind option_bind].
    rewrite <- app_assoc. f_equal. f_equal; [blia|lia].
  - destruct (ref_ctrl (dist - 1) 7 Hoff) as [E1 E2]; [lia|]. change (7 * 32) with 224 in E1, E2. rewrite E1, E2.
    rewrite (proj2 (Z.leb_gt (blen _) _)) by blia. cbn [Z.eqb Pos.eqb].
    change (e ++ ?a :: ?b :: ?c :: rest) with (e ++ [a] ++ b :: c :: rest). rewrite app_assoc, load8_cons by blia. cbn [mbind option_bind andb].
    rewrite (proj2 (Z.leb_gt (blen _) _)) by blia.
    change ((e ++ ?x) ++ ?b :: ?c :: rest) with ((e ++ x) ++ [b] ++ c :: rest). rewrite app_assoc, load8_cons by blia. cbn [mbind option_bind].
    replace (7 + (blen m - 2 - 7)) with (blen m - 2) by lia.
    rewrite (proj2 (Z.ltb_ge out_len _)) by lia. rewrite (proj2 (Z.ltb_ge _ 0)) by lia.
    replace (blen d - _ - 1 - _) with (blen d - dist) by lia. rewrite copy_ref_ok by (done || lia). cbn [mbind option_bind].
    rewrite <- app_assoc. f_equal. f_equal; [blia|lia].
Qed.

Lemma codes_nonempty e d : codes e d -> (length d = 0 \/ 0 < length e)%nat.
Proof. intros H. destruct H; [by left|right..]; [blia|]. unfold ref_code. case_match; blia. Qed.

Lemma decode_prefix e d : codes e d -> forall out_len (o rest : bytes),
  (length d <= length o)%nat -> blen d <= out_len ->
  exists k, (k <= length e)%nat /\ forall fuel,
    decompress_loop (e ++ rest) out_len (k + fuel) 0 0 o = decompress_loop (e ++ rest) out_len fuel (blen e) (blen d) (d ++ drop (length d) o).
Proof.
  induction 1 as [|e d l Hc IH Hl|e d m dist Hc IH Hm Hdist Hr]; intros out_len o rest Ho Hout.
  - exists O. split; [done|]. intros fuel. cbn [app length]. by rewrite drop_0.
  - destruct (IH out_len o (((blen l - 1) :: l) ++ rest)) as (k & Hk & E); [blia..|].
    exists (k + 1)%nat. split; [blia|]. intros fuel. rewrite <- !app_assoc, <- Nat.add_assoc, E. cbn [Nat.add decompress_loop].
    rewrite (proj2 (Z.ltb_lt _ _)) by blia. rewrite decode_lit by (done || blia). cbn [mbind option_bind].
    rewrite drop_drop. f_equal; [blia..|]. by rewrite length_app, app_assoc.
  - destruct (IH out_len o (ref_code (blen m - 2) (dist - 1) ++ rest)) as (k & Hk & E); [blia..|].
    assert (Hne : (2 <= length (ref_code (blen m - 2) (dist - 1)))%nat) by (unfold ref_code; case_match; cbn; lia).
    exists (k + 1)%nat. split; [rewrite length_app; lia|]. intros fuel. rewrite <- !app_assoc, <- Nat.add_assoc, E. cbn [Nat.add decompress_loop].
    rewrite (proj2 (Z.ltb_lt _ _)) by (rewrite !blen_app; unfold blen in *; lia). rewrite decode_ref by (done || blia). cbn [mbind option_bind].
    rewrite drop_drop, !blen_app. f_equal. by rewrite length_app, app_assoc.
Qed.

Lemma decompress_codes e d o : codes e d -> (length d <= length o)%nat ->
  lzf_decompress e (blen o) o = Some (blen d, d ++ drop (length d) o).
Proof.
  intros Hc Ho. destruct (decode_prefix e d Hc (blen o) o []) as (k & Hk & E); [done|blia|]. rewrite app_nil_r in E.
  unfold lzf_decompress. replace (length e) with (k + (length e - k))%nat by lia. rewrite E.
  destruct (length e - k)%nat; cbn [decompress_loop]; by rewrite Z.ltb_irrefl.
Qed.

(** ** The decompressor is safe *)

Lemma load8_in (P : Z -> Prop) (b : bytes) i : Forall P b -> 0 <= i < blen b -> exists x, load8 b i = Some x /\ P x.
Proof.
  intros HP Hi. destruct (lookup_lt_is_Some_2 b (Z.to_nat i)) as [x Hx]; [blia|]. exists x. split; [by apply load8_Some; [lia|]|].
  by eapply Forall_lookup_1.
Qed.

Lemma copy_bytes_safe n : forall o q ref, 0 <= ref -> ref <= q -> q + Z.of_nat n <= blen o ->
  exists o', copy_bytes n o q ref = Some o' /\ blen o' = blen o.
Proof.
  induction n as [|n IH]; intros o q ref Hr Hrq Hq; cbn [copy_bytes]; [by exists o|].
  destruct (load8_in (fun _ => True) o ref) as (x & -> & _); [by apply Forall_true|lia|]. cbn [mbind option_bind]. unfold store8.
  destruct (store_Some o q [x]) as [o1 E1]; [lia|blia|]. rewrite E1. cbn [mbind option_bind]. apply store_length in E1.
  destruct (IH o1 (q + 1) (ref + 1)) as (o' & -> & Hl); [lia|lia|unfold blen in *; lia|]. exists o'. split; [done|]. unfold blen in *. lia.
Qed.

Lemma copy_ref_safe o q ref len : 0 <= ref -> ref <= q -> 0 <= len -> q + len + 2 <= blen o ->
  exists o', copy_ref o q ref len = Some o' /\ blen o' = blen o.
Proof.
  intros Hr Hrq Hl Hq. unfold copy_ref. destruct (len <=? 9); [apply copy_bytes_safe; lia|].
  destruct (Z.leb_spec (ref + (len + 2)) q); [|apply copy_bytes_safe; lia].
  destruct (load o ref (len + 2)) as [d|] eqn:E; [|rewrite load_Some in E by blia; done]. cbn [mbind option_bind].
  apply load_length in E. destruct (store_Some o q d) as [o' E']; [lia..|]. exists o'. split; [done|].
  apply store_length in E'. unfold blen. lia.
Qed.

Definition dflow_ok (n out_len p q : Z) (f : dflow) : Prop :=
  match f with
  | DNext p' q' o' => p < p' <= n /\ q <= q' <= out_len /\ blen o' = out_len
  | DReturn0 o' => blen o' = out_len
  end.

Lemma back_reference_safe inp out_len ctrl p q o :
  Forall is_byte inp -> is_byte ctrl -> 0 < p <= blen inp -> 0 <= q <= out_len -> blen o = out_len ->
  exists f, back_reference inp out_len ctrl p q o = Some f /\ dflow_ok (blen inp) out_len (p - 1) q f.
Proof.
  intros Hin Hc Hp Hq Ho. unfold back_reference, is_byte in *.
  assert (Hs : 0 <= Z.shiftr ctrl 5) by (apply Z.shiftr_nonneg; lia).
  assert (Hl : 0 <= Z.shiftl (Z.land ctrl 31) 8) by (apply Z.shiftl_nonneg, Z.land_nonneg; lia).
  destruct (Z.leb_spec (blen inp) p); [by eexists|].
  assert (Hstep : exists len p', (if Z.shiftr ctrl 5 =? 7 then b ← load8 inp p; Some (Z.shiftr ctrl 5 + b, p + 1) else Some (Z.shiftr ctrl 5, p)) =
    Some (len, p') /\ 0 <= len /\ p <= p' <= p + 1 /\ (Z.shiftr ctrl 5 <> 7 -> p' = p)).
  { destruct (Z.eqb_spec (Z.shiftr ctrl 5) 7); [|by eexists _, p; split_and!; [done|lia..]].
    destruct (load8_in _ inp p Hin) as (x & -> & Hx); [lia|]. eexists _, (p + 1). split; [done|]. lia. }
  destruct Hstep as (len & p' & -> & Hlen & Hp' & Hne). cbn [mbind option_bind].
  destruct ((Z.shiftr ctrl 5 =? 7) && (blen inp <=? p')) eqn:E; [by eexists|].
  destruct (load8_in _ inp p' Hin) as (x & -> & Hx); [destruct (Z.eqb_spec (Z.shiftr ctrl 5) 7); lia|]. cbn [mbind option_bind].
  destruct (Z.ltb_spec out_len (q + len + 2)); [by eexists|]. destruct (Z.ltb_spec (q - Z.shiftl (Z.land ctrl 31) 8 - 1 - x) 0); [by eexists|].
  destruct (copy_ref_safe o q (q - Z.shiftl (Z.land ctrl 31) 8 - 1 - x) len) as (o' & -> & Ho'); [lia..|]. cbn [mbind option_bind].
  eexists. split; [done|]. cbn. destruct (Z.eqb_spec (Z.shiftr ctrl 5) 7); lia.
Qed.

Lemma decompress_step_safe inp out_len p q o :
  Forall is_byte inp -> 0 <= p < blen inp -> 0 <= q <= out_len -> blen o = out_len ->
  exists f, decompress_step inp out_len p q o = Some f /\ dflow_ok (blen inp) out_len p q f.
Proof.
  intros Hin Hp Hq Ho. unfold decompress_step. destruct (load8_in _ inp p Hin) as (c & -> & Hcb); [lia|].
  cbn [mbind option_bind]. change (Z.shiftl 1 5) with 32.
  destruct (Z.ltb_spec c 32).
  - unfold is_byte in Hcb. destruct (Z.ltb_spec out_len (q + (c + 1))); [by eexists|].
    destruct (Z.ltb_spec (blen inp) (p + 1 + (c + 1))); [by eexists|].
    destruct (load inp (p + 1) (c + 1)) as [d|] eqn:E; [|rewrite load_Some in E by lia; done]. cbn [mbind option_bind]. apply load_length in E.
    destruct (store_Some o q d) as [o' E']; [lia..|]. rewrite E'. apply store_length in E'. cbn. eexists. split; [done|]. cbn. unfold blen in *. lia.
  - destruct (back_reference_safe inp out_len c (p + 1) q o) as (f & -> & Hf); [done..|lia|done|done|]. exists f.
    split; [done|]. by replace (p + 1 - 1) with p in Hf by lia.
Qed.

Lemma decompress_loop_safe inp out_len fuel : forall p q o,
  Forall is_byte inp -> 0 <= p <= blen inp -> blen inp - p <= Z.of_nat fuel -> 0 <= q <= out_len -> blen o = out_len ->
  exists n o', decompress_loop inp out_len fuel p q o = Some (n, o') /\ 0 <= n <= out_len /\ blen o' = out_len.
Proof.
  induction fuel as [|fuel IH]; intros p q o Hin Hp Hf Hq Ho; cbn [decompress_loop]; destruct (Z.ltb_spec p (blen inp)); [lia|eauto| |eauto].
  destruct (decompress_step_safe inp out_len p q o) as (f & -> & Hok); [done|lia|done|done|]. cbn [mbind option_bind].
  destruct f as [p' q' o'|o']; cbn in Hok; [apply IH; (done || lia)|]. eexists _, _. split; [done|]. lia.
Qed.

(** C27: the decompressor on arbitrary input. Whatever bytes it is given, it reads
    only inside the input, writes only inside the output buffer and reads back only
    what is inside of it, terminates, and returns a length that fits the buffer. *)
Theorem lzf_decompress_safe inp o :
  Forall is_byte inp ->
  exists n o', lzf_decompress inp (blen o) o = Some (n, o') /\ 0 <= n <= blen o /\ blen o' = blen o.
Proof. intros Hin. apply decompress_loop_safe; [done|blia|blia|blia|done]. Qed.

(** ** The compressor *)

Section CompressCorrect.

Context (inp : bytes) (out_len : Z).
Hypothesis inp_bytes : Forall is_byte inp.
Hypothesis inp_len : 2 <= blen inp < 2 ^ 32.

(** The first [n] bytes from [ref] and from [p] agree. *)
Definition same (ref p n : Z) : Prop := forall k, 0 <= k < n -> load8 inp (ref + k) = load8 inp (p + k).

Lemma same_snoc ref p n : same ref p n -> load8 inp (ref + n) = load8 inp (p + n) -> same ref p (n + 1).
Proof. intros H E k Hk. destruct (decide (k = n)) as [->|]; [done|]. apply H. lia. Qed.

Lemma input_at i : 0 <= i < blen inp -> exists x, load8 inp i = Some x.
Proof. intros Hi. destruct (load8_in _ inp i inp_bytes Hi) as (x & E & _). by exists x. Qed.

Lemma is_match_ok ref p :
  is_u 32 ref -> 0 <= p -> p + 2 < blen inp ->
  exists b, is_match inp ref p = Some b /\ (b = true -> 0 < ref < p /\ p - ref <= MAX_OFF /\ u64 (p - ref - 1) = p - ref - 1 /\ same ref p 3).
Proof.
  intros Hr Hp Hlen. unfold is_match. destruct ((u64 (p - ref - 1) <? MAX_OFF) && (0 <? ref)) eqn:E; [|by eexists].
  apply andb_true_iff in E as [E1 E2]. apply Z.ltb_lt in E1, E2.
  assert (Hd : 0 <= p - ref - 1 < MAX_OFF /\ u64 (p - ref - 1) = p - ref - 1).
  { unfold MAX_OFF in *. destruct (decide (p - ref - 1 < 0)) as [Hneg|]; [|rewrite wrapu_small in * by zlia; lia].
    exfalso. unfold wrapu in E1. rewrite <- (Z_mod_plus_full _ 1) in E1. rewrite Z.mod_small in E1 by zlia. zlia. }
  destruct (input_at (ref + 2)) as [a2 Ha2]; [lia|]. destruct (input_at (p + 2)) as [b2 Hb2]; [lia|]. rewrite Ha2, Hb2. cbn [mbind option_bind].
  destruct (Z.eqb_spec a2 b2) as [->|]; cbn [negb]; [|by eexists].
  destruct (input_at ref) as [a0 Ha0]; [lia|]. destruct (input_at (ref + 1)) as [a1 Ha1]; [lia|].
  destruct (input_at p) as [b0 Hb0]; [lia|]. destruct (input_at (p + 1)) as [b1 Hb1]; [lia|].
  rewrite Ha0, Ha1, Hb0, Hb1. cbn. eexists. split; [done|]. intros E. split; [lia|]. split; [lia|]. split; [lia|].
  intros k Hk. assert (k = 0 \/ k = 1 \/ k = 2) as [->|[->| ->]] by lia; rewrite ?Z.add_0_r; [rewrite Ha0, Hb0|rewrite Ha1, Hb1|congruence]; f_equal; lia.
Qed.

Lemma unrolled_ok n : forall ref p len,
  0 <= ref < p -> 0 <= len -> p + len + Z.of_nat n < blen inp -> same ref p (len + 1) ->
  exists len' stop, unrolled inp n ref p len = Some (len', stop) /\
    if stop : bool then len < len' <= len + Z.of_nat n /\ same ref p len' else len' = len + Z.of_nat n /\ same ref p (len' + 1).
Proof.
  induction n as [|n IH]; intros ref p len Hr Hl Hp Hs; cbn [unrolled].
  { exists len, false. split; [done|]. split; [lia|done]. }
  destruct (input_at (ref + (len + 1))) as [a Ha]; [lia|]. destruct (input_at (p + (len + 1))) as [b Hb]; [lia|].
  rewrite Ha, Hb. cbn [mbind option_bind]. destruct (Z.eqb_spec a b) as [->|]; cbn [negb].
  - destruct (IH ref p (len + 1)) as (len' & stop & -> & H); [lia..|apply same_snoc; [done|congruence]|].
    exists len', stop. split; [done|]. destruct stop; (split; [lia|apply H]).
  - exists (len + 1), true. split; [done|]. split; [lia|done].
Qed.

Lemma extend_ok fuel : forall ref p maxlen len,
  0 <= ref < p -> 0 <= len -> p + maxlen <= blen inp -> (1 <= fuel)%nat -> maxlen - len <= Z.of_nat fuel -> same ref p (len + 1) ->
  exists len', extend inp fuel ref p maxlen len = Some len' /\ len + 1 <= len' <= Z.max (len + 1) maxlen /\ same ref p len'.
Proof.
  induction fuel as [|fuel IH]; intros ref p maxlen len Hr Hl Hp Hf Hm Hs; [lia|]. cbn [extend].
  destruct (Z.ltb_spec (len + 1) maxlen) as [Hlt|]; [|exists (len + 1); split; [done|]; split; [lia|done]].
  destruct (input_at (ref + (len + 1))) as [a Ha]; [lia|]. destruct (input_at (p + (len + 1))) as [b Hb]; [lia|].
  rewrite Ha, Hb. cbn [mbind option_bind]. destruct (Z.eqb_spec a b) as [->|].
  - destruct (IH ref p maxlen (len + 1)) as (len' & -> & Hl' & Hs'); [lia..|apply same_snoc; [done|congruence]|].
    exists len'. split; [done|]. split; [lia|done].
  - exists (len + 1). split; [done|]. split; [lia|done].
Qed.

Lemma match_length_ok ref p :
  0 <= ref < p -> p + 2 < blen inp -> same ref p 3 ->
  exists len, match_length inp ref p = Some len /\ 3 <= len <= MAX_REF /\ p + len <= blen inp /\ same ref p len.
Proof.
  intros Hr Hp Hs. unfold match_length, in_len. set (maxlen := if MAX_REF <? _ then _ else _).
  assert (Hmax : 1 <= maxlen <= MAX_REF /\ maxlen <= blen inp - p - 2).
  { unfold maxlen. destruct (Z.ltb_spec MAX_REF (blen inp - p - 2)); unfold MAX_REF in *; lia. }
  clearbody maxlen. unfold MAX_REF in *. destruct (Z.ltb_spec 16 maxlen).
  - destruct (unrolled_ok 16 ref p 2) as (len & stop & -> & Hu); [lia..|done|]. cbn [mbind option_bind]. destruct stop.
    + exists len. split; [done|]. split; [lia|]. split; [lia|apply Hu].
    + destruct Hu as [-> Hu]. destruct (extend_ok (Z.to_nat 264) ref p maxlen (2 + Z.of_nat 16)) as (len & -> & Hl & Hse); [lia..|done|].
      exists len. split; [done|]. split; [lia|]. split; [lia|done].
  - cbn [mbind option_bind]. destruct (extend_ok (Z.to_nat 264) ref p maxlen 2) as (len & -> & Hl & Hse); [lia..|done|].
    exists len. split; [done|]. split; [lia|]. split; [lia|done].
Qed.

(** The output up to the open run encodes the input up to it, with at most one byte
    more for 32; the literals of the run follow its header byte, which is written when
    the run ends. *)
Definition open_run (e l o : bytes) : Prop := (exists x rest, o = e ++ x :: l ++ rest) \/ (o = e /\ l = []).

Definition cinv (s : cstate) : Prop :=
  (forall i, is_u 32 (htab s i)) /\
  exists e d l tl, codes e d /\ inp = d ++ l ++ tl /\ ip s = blen d + blen l /\ lit s = blen l /\ blen l < MAX_LIT /\
    op s = blen e + 1 + blen l /\ blen (obuf s) = out_len /\ 32 * blen e <= 33 * blen d /\ open_run e l (obuf s).

Lemma stop_run_ok s :
  cinv s -> op s <= out_len ->
  exists e rest, stop_run s = Some (e ++ rest, blen e) /\ codes e (take (Z.to_nat (ip s)) inp) /\
    blen (e ++ rest) = out_len /\ blen e = op s - (if lit s =? 0 then 1 else 0) /\ 32 * blen e <= 33 * ip s + 32.
Proof.
  intros (_ & e & d & l & tl & Hc & Hin & Hip & Hlit & Hmax & Hop & Hlen & Hsz & Ho) Hle.
  destruct Ho as [(x & rest & Ho)|[Ho ->]]; [|rewrite Ho in Hlen; unfold blen in *; cbn in *; lia].
  assert (Hd : take (Z.to_nat (ip s)) inp = d ++ l).
  { rewrite Hin, app_assoc, Hip. replace (Z.to_nat (blen d + blen l)) with (length (d ++ l)) by blia. apply take_app_length. }
  unfold stop_run. rewrite Ho, Hlit, Hop. rewrite store8_mid by lia. cbn [mbind option_bind]. rewrite Ho in Hlen. unfold MAX_LIT in *.
  destruct (Z.eqb_spec (blen l) 0) as [E|E].
  - assert (l = []) as -> by (destruct l; [done|blia]). exists e, (u8 (blen [] - 1) :: rest). cbn [app] in *.
    split; [do 2 f_equal; blia|]. rewrite Hd, app_nil_r. split; [done|]. split; [blia|]. split; blia.
  - exists (e ++ (blen l - 1) :: l), rest. rewrite wrapu_small by (pose proof (blen_nonneg l); zlia).
    split; [rewrite <- app_assoc; cbn; do 2 f_equal; blia|]. rewrite Hd. split; [apply codes_lit; [done|]; unfold MAX_LIT; blia|]. split; [blia|]. split; blia.
Qed.

Lemma put_literal_ok s :
  cinv s -> ip s < blen inp -> op s < out_len ->
  exists s', put_literal inp s = Some s' /\ cinv s' /\ ip s' = ip s + 1 /\ 
    ((lit s + 1 = MAX_LIT /\ lit s' = 0 /\ op s' = op s + 2) \/ (lit s' = lit s + 1 /\ op s' = op s + 1)).
Proof.
  intros (Hh & e & d & l & tl & Hc & Hin & Hip & Hlit & Hmax & Hop & Hlen & Hsz & Ho) Hlt Hlt'. rewrite Hin in Hlt.
  destruct Ho as [(x & rest & Ho)|[Ho ->]]; [|rewrite Ho in Hlen; blia]. rewrite Ho in Hlen.
  destruct tl as [|c tl]; [blia|]. destruct rest as [|y rest]; [blia|]. unfold put_literal.
  assert (load8 inp (ip s) = Some c) as -> by (rewrite Hin, app_assoc; apply load8_cons; blia). cbn [mbind option_bind].
  rewrite Ho. change (e ++ x :: l ++ y :: rest) with (e ++ [x] ++ l ++ y :: rest). rewrite (app_assoc [x]), app_assoc.
  rewrite store8_mid by blia. cbn [mbind option_bind]. rewrite <- !app_assoc. cbn [app].
  assert (Hin' : inp = d ++ (l ++ [c]) ++ tl) by (rewrite Hin, <- app_assoc; done).
  destruct (Z.eqb_spec (lit s + 1) MAX_LIT) as [E|E].
  - rewrite store8_mid by blia. cbn [mbind option_bind]. eexists. split; [done|]. split; [|cbn; lia]. split; [done|].
    exists (e ++ (blen (l ++ [c]) - 1) :: (l ++ [c])), (d ++ (l ++ [c])), [], tl. cbn [ip op lit obuf htab]. unfold MAX_LIT in *.
    split_and!; [apply codes_lit; [done|unfold MAX_LIT; blia]|by rewrite <- app_assoc|blia|done|blia|blia|blia|blia|].
    replace (u8 (lit s + 1 - 1)) with (blen (l ++ [c]) - 1) by (rewrite wrapu_small by zlia; blia).
    unfold open_run. destruct rest as [|z rest]; [right|left; exists z, rest]; [split; [|done]|]; rewrite <- ?app_assoc; cbn; rewrite <- ?app_assoc; done.
  - eexists. split; [done|]. split; [|cbn; lia]. split; [done|].
    exists e, d, (l ++ [c]), tl. cbn [ip op lit obuf htab]. unfold MAX_LIT in *. split_and!; [done|done|blia|blia|blia|blia|blia|done|].
    left. exists x, rest. by rewrite <- app_assoc.
Qed.

Lemma tail_loop_ok fuel : forall s,
  cinv s -> blen inp - ip s <= Z.of_nat fuel -> blen inp - ip s <= 2 ->
  op s + (blen inp - ip s) + (if MAX_LIT <=? lit s + (blen inp - ip s) then 1 else 0) <= out_len ->
  exists s', tail_loop inp fuel s = Some s' /\ cinv s' /\ ip s' = blen inp /\ op s' <= out_len.
Proof.
  induction fuel as [|fuel IH]; intros s Hs Hf H2 Hop; cbn [tail_loop]; unfold in_len;
    (assert (Hle : ip s <= blen inp) by (destruct Hs as (_ & e & d & l & tl & _ & -> & -> & _); blia)).
  { rewrite (proj2 (Z.ltb_ge _ _)) by lia. exists s. split; [done|]. split; [done|]. split; [lia|]. destruct (_ <=? _) in Hop; lia. }
  destruct (Z.ltb_spec (ip s) (blen inp)).
  - destruct (put_literal_ok s Hs) as (s1 & -> & Hs1 & Hip & Hcase); [done|destruct (_ <=? _) in Hop; lia|]. cbn [mbind option_bind].
    apply IH; [done|lia|lia|]. unfold MAX_LIT in *.
    destruct Hcase as [(E1 & E2 & E3)|(E2 & E3)]; rewrite E2, E3, Hip;
      destruct (Z.leb_spec 32 (lit s + (blen inp - ip s))), (Z.leb_spec 32 (0 + (blen inp - (ip s + 1)))),
        (Z.leb_spec 32 (lit s + 1 + (blen inp - (ip s + 1)))); lia.
  - exists s. split; [done|]. split; [done|]. split; [lia|]. destruct (_ <=? _) in Hop; lia.
Qed.

Lemma put_ref_ok (e rest : bytes) len off :
  1 <= len <= MAX_REF - 2 -> 0 <= off < MAX_OFF -> 5 <= blen rest ->
  exists x rest', put_ref (e ++ rest) (blen e) len off = Some ((e ++ ref_code len off) ++ x :: rest', blen (e ++ ref_code len off)) /\
    blen ((e ++ ref_code len off) ++ x :: rest') = blen (e ++ rest).
Proof.
  intros Hl Ho Hr. destruct rest as [|r1 [|r2 [|r3 [|r4 rest]]]]; try blia. unfold put_ref, ref_code, MAX_REF, MAX_OFF in *.
  rewrite Z.shiftr_div_pow2, !Z.shiftl_mul_pow2 by lia. change (2 ^ 8) with 256. change (2 ^ 5) with 32.
  assert (Hd : 0 <= off / 256 < 32) by (Z.div_mod_to_equations; lia).
  assert (Hu : u8 off = off mod 256) by reflexivity.
  destruct (Z.ltb_spec len 7).
  - rewrite store8_mid by done. cbn [mbind option_bind]. rewrite (wrapu_small 8 (_ + _)) by zlia.
    change (e ++ ?a :: r2 :: ?t) with (e ++ [a] ++ r2 :: t). rewrite app_assoc, store8_mid by blia. cbn [mbind option_bind]. rewrite Hu.
    exists r3, (r4 :: rest). rewrite <- !app_assoc. cbn [app]. split; [|blia]. do 2 f_equal. blia.
  - rewrite store8_mid by done. cbn [mbind option_bind]. rewrite (wrapu_small 8 (_ + _)) by zlia.
    change (e ++ ?a :: r2 :: ?t) with (e ++ [a] ++ r2 :: t). rewrite app_assoc, store8_mid by blia. cbn [mbind option_bind].
    rewrite (wrapu_small 8 (len - 7)) by zlia.
    change ((e ++ ?a) ++ ?b :: r3 :: ?t) with ((e ++ a) ++ [b] ++ r3 :: t). rewrite app_assoc, store8_mid by blia. cbn [mbind option_bind]. rewrite Hu.
    exists r4, rest. rewrite <- !app_assoc. cbn [app]. split; [|blia]. do 2 f_equal. blia.
Qed.

(** A match in the input is a repetition in the decoded data. *)
Lemma same_repeats ref p len :
  0 < ref < p -> 0 <= len -> p + len <= blen inp -> same ref p len ->
  repeats (take (Z.to_nat p) inp) (take (Z.to_nat len) (drop (Z.to_nat p) inp)) (p - ref) /\
  blen (take (Z.to_nat len) (drop (Z.to_nat p) inp)) = len.
Proof.
  intros Hr Hl Hp Hs. split; [|blia]. split; [blia|]. intros k Hk. rewrite take_take_drop, <- Z2Nat.inj_add by lia.
  specialize (Hs (Z.of_nat k) ltac:(blia)). unfold load8 in Hs. rewrite !decide_True in Hs by lia.
  rewrite !lookup_take_lt, lookup_drop by blia.
  replace (length (take (Z.to_nat p) inp) - Z.to_nat (p - ref) + k)%nat with (Z.to_nat (ref + Z.of_nat k)) by blia.
  rewrite Hs. f_equal. lia.
Qed.

Lemma hash_ok (t : Z -> Z) h p : (forall i, is_u 32 (t i)) -> forall i, is_u 32 ((<[IDX h := u32 p]> t) i).
Proof.
  intros Ht i. destruct (decide (i = IDX h)) as [->|]; [rewrite fn_lookup_insert; by apply wrapu_range|by rewrite fn_lookup_insert_ne].
Qed.

Definition flow_ok (p : Z) (f : flow) : Prop :=
  match f with
  | Next s => cinv s /\ p < ip s
  | Break s => cinv s /\ blen inp - 2 <= ip s
  | Return0 o => blen o = out_len /\ 32 * out_len < 33 * blen inp + 256
  end.

(** Giving up for lack of room. *)
Lemma no_room s : cinv s -> out_len < op s + 5 -> blen (obuf s) = out_len /\ 32 * out_len < 33 * blen inp + 256.
Proof.
  intros (_ & e & d & l & tl & _ & Hin & _ & _ & _ & Hop & Hlen & Hsz & _) Hr. split; [done|].
  assert (blen inp = blen d + blen l + blen tl) by (rewrite Hin; blia). pose proof (blen_nonneg l). pose proof (blen_nonneg tl). lia.
Qed.

Lemma found_match_ok s ref :
  cinv s -> 0 < ref < ip s -> ip s + 2 < blen inp -> ip s - ref <= MAX_OFF -> u64 (ip s - ref - 1) = ip s - ref - 1 -> same ref (ip s) 3 ->
  exists f, found_match inp out_len s ref = Some f /\ flow_ok (ip s) f.
Proof.
  intros Hs Hr Hp Hoff Hu H3. unfold found_match, in_len. rewrite Hu. destruct (_ && _) eqn:Efull.
  { eexists. split; [done|]. apply no_room; [done|]. lia. }
  destruct (match_length_ok ref (ip s)) as (len & El & Hlen & Hend & Hsame); [lia..|done|].
  destruct (stop_run_ok s Hs) as (e & rest & Est & Hc & Hol & Hoe & Hsz); [destruct (lit s =? 0); lia|].
  rewrite Est, El. cbn [mbind option_bind fst snd].
  destruct (put_ref_ok e rest (len - 2) (ip s - ref - 1)) as (x & rest' & -> & Hol'); [unfold MAX_REF in *; lia|unfold MAX_OFF in *; lia|
    destruct (lit s =? 0); blia|]. cbn [mbind option_bind].
  destruct (same_repeats ref (ip s) len) as [Hrep Hml]; [lia..|done|]. set (m := take (Z.to_nat len) _) in *.
  assert (Hc' : codes (e ++ ref_code (len - 2) (ip s - ref - 1)) (take (Z.to_nat (ip s)) inp ++ m)).
  { rewrite <- Hml at 1. apply codes_ref; [done|lia|lia|done]. }
  assert (Hin : inp = (take (Z.to_nat (ip s)) inp ++ m) ++ [] ++ drop (Z.to_nat (ip s + len)) inp).
  { unfold m. rewrite take_take_drop, <- Z2Nat.inj_add by lia. cbn [app]. by rewrite take_drop. }
  assert (Hdl : blen (take (Z.to_nat (ip s)) inp ++ m) = ip s + len) by (rewrite blen_app, Hml; blia).
  assert (Hnew : forall h t, (forall i, is_u 32 (t i)) ->
    cinv (mk_cstate (ip s + len) (blen (e ++ ref_code (len - 2) (ip s - ref - 1)) + 1) 0 h t ((e ++ ref_code (len - 2) (ip s - ref - 1)) ++ x :: rest'))).
  { intros h t Ht. split; [done|]. eexists _, _, [], _. split; [exact Hc'|]. split; [exact Hin|]. cbn [ip op lit obuf].
    split; [rewrite Hdl; unfold blen; cbn; lia|]. split; [done|]. split; [done|]. split; [unfold blen; cbn; lia|]. split; [by rewrite Hol', Hol|].
    split; [rewrite Hdl, blen_app; unfold ref_code; destruct (Z.ltb_spec (len - 2) 7); unfold blen in *; cbn [length]; lia|]. left. by exists x, rest'. }
  destruct Hs as [Ht _]. replace (ip s + 1 + (len - 2) + 1) with (ip s + len) by lia. destruct (Z.leb_spec (blen inp - 2) (ip s + len)).
  { eexists. split; [done|]. split; [by apply Hnew|done]. }
  unfold FRST, NEXT. 
  destruct (input_at (ip s + len - 1 - 1)) as [b0 ->]; [lia|]. destruct (input_at (ip s + len - 1 - 1 + 1)) as [b1 ->]; [lia|].
  destruct (input_at (ip s + len - 1 - 1 + 2)) as [b2 ->]; [lia|]. destruct (input_at (ip s + len - 1 - 1 + 1 + 2)) as [b3 ->]; [lia|].
  cbn [mbind option_bind]. replace (ip s + len - 1 - 1 + 1 + 1) with (ip s + len) by lia.
  eexists. split; [done|]. split; [apply Hnew; by do 2 apply hash_ok|cbn; lia].
Qed.

Lemma compress_step_ok s :
  cinv s -> ip s < blen inp - 2 -> exists f, compress_step inp out_len s = Some f /\ flow_ok (ip s) f.
Proof.
  intros Hs Hp. assert (H0 : 0 <= ip s) by (destruct Hs as (_ & e & d & l & tl & _ & _ & -> & _); blia).
  unfold compress_step, NEXT. destruct (input_at (ip s + 2)) as [c ->]; [lia|]. cbn [mbind option_bind].
  set (h := u32 _). set (s1 := mk_cstate (ip s) (op s) (lit s) h _ (obuf s)).
  assert (Hs1 : cinv s1) by (destruct Hs as [Ht Hs]; split; [by apply hash_ok|done]).
  change (ip s) with (ip s1) in Hp, H0 |- *.
  destruct (is_match_ok (htab s (IDX h)) (ip s1)) as (b & -> & Hb); [apply Hs|lia|lia|]. cbn [mbind option_bind].
  destruct b; [destruct (Hb eq_refl) as (? & ? & ? & ?); apply found_match_ok; (done || lia)|].
  destruct (Z.leb_spec out_len (op s1)).
  { eexists. split; [done|]. apply no_room; [done|]. lia. }
  destruct (put_literal_ok s1) as (s2 & -> & Hs2 & Hip & _); [done|lia|done|]. cbn [mbind option_bind]. eexists. split; [done|]. split; [done|]. lia.
Qed.

Lemma compress_loop_ok fuel : forall s,
  cinv s -> blen inp - ip s <= Z.of_nat fuel ->
  exists r, compress_loop inp out_len fuel s = Some r /\
    match r with inl s' => cinv s' /\ blen inp - 2 <= ip s' | inr o => blen o = out_len /\ 32 * out_len < 33 * blen inp + 256 end.
Proof.
  induction fuel as [|fuel IH]; intros s Hs Hf; cbn [compress_loop]; unfold in_len; destruct (Z.ltb_spec (ip s) (blen inp - 2)); [lia|by eexists| |by eexists].
  destruct (compress_step_ok s Hs) as (f & -> & Hok); [done|]. cbn [mbind option_bind]. destruct f; cbn in Hok; [|by eexists..].
  destruct Hok. apply IH; [done|lia].
Qed.

Lemma compress_ok table o :
  (forall i, is_u 32 (table i)) -> blen o = out_len ->
  exists n o', lzf_compress inp out_len table o = Some (n, o') /\ blen o' = out_len /\ 0 <= n <= out_len /\
    (0 < n -> codes (take (Z.to_nat n) o') inp) /\ (0 < n \/ 32 * out_len < 33 * blen inp + 256).
Proof.
  intros Ht Ho. pose proof (blen_nonneg o). unfold lzf_compress, in_len, FRST.
  rewrite (proj2 (Z.eqb_neq (blen inp) 0)) by lia. cbn [orb]. destruct (Z.eqb_spec out_len 0).
  { eexists _, _. split; [done|]. split; [done|]. split; [lia|]. split; lia. }
  destruct (input_at 0) as [b0 ->]; [lia|]. destruct (input_at (0 + 1)) as [b1 ->]; [lia|]. cbn [mbind option_bind].
  destruct (compress_loop_ok (length inp) (mk_cstate 0 1 0 (Z.lor (Z.shiftl b0 8) b1) table o)) as (r & -> & Hr).
  { split; [done|]. exists [], [], [], inp. cbn. split_and!; try done; [constructor|]. left. destruct o as [|x o]; [blia|]. by exists x, o. }
  { cbn. blia. }
  cbn [mbind option_bind]. destruct r as [s|o']; [|destruct Hr; eexists _, _; split; [done|]; split; [done|]; split; [lia|]; split; lia].
  destruct Hr as [Hs Hip]. destruct (Z.ltb_spec out_len (op s + 3)).
  { eexists _, _. split; [done|]. destruct (no_room s Hs) as [? ?]; [lia|]. split; [done|]. split; [lia|]. split; lia. }
  destruct (tail_loop_ok (length inp) s Hs) as (s' & -> & Hs' & Hip' & Hop').
  { assert (0 <= ip s) by (destruct Hs as (_ & e & d & l & tl & _ & _ & -> & _); blia). blia. } { lia. }
  { assert (ip s <= blen inp) by (destruct Hs as (_ & e & d & l & tl & _ & -> & -> & _); blia). destruct (_ <=? _); lia. }
  cbn [mbind option_bind]. destruct (stop_run_ok s' Hs' Hop') as (e & rest & -> & Hc & Hl & He & _). cbn.
  eexists _, _. split; [done|]. split; [done|]. split; [blia|]. rewrite Hip' in Hc.
  assert (Hne : (0 < length e)%nat) by (destruct (codes_nonempty _ _ Hc) as [E|]; [rewrite length_take in E; unfold blen in *; lia|done]).
  split; [|left; unfold blen; lia]. intros _. unfold blen in *. rewrite Nat2Z.id, take_app_length. by rewrite Nat2Z.id, take_ge in Hc.
Qed.

End CompressCorrect.

Lemma codes_bytes e d : codes e d -> Forall is_byte d -> Forall is_byte e.
Proof.
  unfold is_byte. induction 1 as [|e d l Hc IH Hl|e d m dist Hc IH Hm Hd [Hr _]]; intros Hb; [done|..]; apply Forall_app in Hb as [Hb1 Hb2].
  - apply Forall_app. split; [auto|]. constructor; [unfold MAX_LIT in Hl; lia|done].
  - apply Forall_app. split; [auto|]. unfold ref_code, MAX_OFF, MAX_REF in *.
    destruct (Z.ltb_spec (blen m - 2) 7); repeat constructor; Z.div_mod_to_equations; lia.
Qed.

(** C15: compression and decompression. For every input of at least two bytes and any
    content of the hash table, which is never initialised, the compressor reads only
    inside the input and writes only inside the output buffer, terminates, and either
    gives up or produces an output that the decompressor expands to exactly the input
    in any buffer that is large enough. It does not give up when the output buffer
    has room for one byte more for every 32 of the input, and a few. *)
Theorem lzf_roundtrip inp table (o o2 : bytes) :
  Forall is_byte inp -> 2 <= blen inp < 2 ^ 32 -> (forall i, is_u 32 (table i)) -> blen inp <= blen o2 ->
  exists n o', lzf_compress inp (blen o) table o = Some (n, o') /\ blen o' = blen o /\ 0 <= n <= blen o /\
    (0 < n -> lzf_decompress (take (Z.to_nat n) o') (blen o2) o2 = Some (blen inp, inp ++ drop (length inp) o2)) /\
    (0 < n \/ 32 * blen o < 33 * blen inp + 256).
Proof.
  intros Hb Hl Ht Ho2. destruct (compress_ok inp (blen o) Hb Hl table o Ht eq_refl) as (n & o' & E & Ho & Hn & Hc & Hroom).
  exists n, o'. split; [done|]. split; [done|]. split; [done|]. split; [|done]. intros Hpos. apply decompress_codes; [auto|]. blia.
Qed.

Lemma lzf_roundtrip_witness :
  exists n o', lzf_compress (replicate 12 7) 20 (fun _ => 3) (replicate 20 0) = Some (n, o') /\ blen o' = 20 /\ 0 <= n <= 20 /\
    (0 < n -> lzf_decompress (take (Z.to_nat n) o') 12 (replicate 12 0) = Some (12, replicate 12 7)) /\ (0 < n \/ 32 * 20 < 33 * 12 + 256).
Proof.
  apply (lzf_roundtrip (replicate 12 7) (fun _ => 3) (replicate 20 0) (replicate 12 0)).
  - apply Forall_replicate. unfold is_byte. lia.
  - vm_compute. split; [discriminate|reflexivity].
  - intros i. zlia.
  - vm_compute. discriminate.
Defined.

Lemma lzf_decompress_witness :
  exists n o', lzf_decompress [0; 65; 32; 0; 224] 8 (replicate 8 1) = Some (n, o') /\ 0 <= n <= 8 /\ blen o' = 8.
Proof. apply (lzf_decompress_safe [0; 65; 32; 0; 224] (replicate 8 1)). repeat constructor; unfold is_byte; lia. Defined.

End Lzf.
