(* ===== verification/Rio.v ===== *)
(** * Streams ([rio.h], [rio.c])

    The stream object RDB files and DUMP payloads are written to and read from:
    chunked reads and writes over a backend, the running checksum and the error
    flags.  What a backend provides is a class; the in-memory buffer is an instance,
    and the files that use streams are proved against the laws of the class. *)

From Stdlib Require Import ZArith Lia.
From stdpp Require Import base option list numbers.
From S2P Require Import Prelude Crc.

#[local] Open Scope Z_scope.

Module Rio.
Import Crc.

(** The [read] and [write] methods of a stream, which do not tolerate short reads and
    writes; no result is an access out of bounds. *)
Class RioBackend (B : Type) := {
  rio_write : B -> bytes -> B * bool;
  rio_read : B -> Z -> option (B * option bytes);
}.

(** What the methods promise: what was written so far grows by what is written, and a
    read of a readable stream removes the next bytes, or fails when there are not enough
    of them. *)
Class RioStream (B : Type) `{RioBackend B} := {
  written : B -> bytes;
  readable : B -> Prop;
  ahead : B -> bytes;
  write_law b p b' : rio_write b p = (b', true) -> written b' = written b ++ p;
  read_law b n : readable b -> 0 <= n <= blen (ahead b) ->
    exists b', rio_read b n = Some (b', Some (take (Z.to_nat n) (ahead b))) /\ ahead b' = drop (Z.to_nat n) (ahead b) /\ readable b';
  read_short b n : readable b -> blen (ahead b) < n -> exists b', rio_read b n = Some (b', None);
}.

Record rio (B : Type) := mk_rio {
  io : B;
  update_cksum : bool;
  cksum : Z;
  read_error : bool;
  write_error : bool;
  processed_bytes : Z;
  max_processing_chunk : Z;
}.
Arguments mk_rio {B}.
Arguments io {B}.
Arguments update_cksum {B}.
Arguments cksum {B}.
Arguments read_error {B}.
Arguments write_error {B}.
Arguments processed_bytes {B}.
Arguments max_processing_chunk {B}.

Section Ops.

Context {B : Type} `{RioBackend B}.

(** The address of the buffer passed with the stream at a given position. *)
Context (buf_addr : Z -> Z).

Definition rioGenericUpdateChecksum (r : rio B) (p : bytes) : rio B :=
  mk_rio (io r) (update_cksum r) (crc64 (cksum r) (buf_addr (processed_bytes r)) p) (read_error r) (write_error r)
    (processed_bytes r) (max_processing_chunk r).

Definition set_io (b : B) (n : Z) (r : rio B) : rio B :=
  mk_rio b (update_cksum r) (cksum r) (read_error r) (write_error r) (u64 (processed_bytes r + n)) (max_processing_chunk r).

Definition set_write_error (b : B) (r : rio B) : rio B :=
  mk_rio b (update_cksum r) (cksum r) (read_error r) true (processed_bytes r) (max_processing_chunk r).

Definition set_read_error (b : B) (r : rio B) : rio B :=
  mk_rio b (update_cksum r) (cksum r) true (write_error r) (processed_bytes r) (max_processing_chunk r).

Definition chunk (r : rio B) (len : Z) : Z :=
  if negb (max_processing_chunk r =? 0) && (max_processing_chunk r <? len) then max_processing_chunk r else len.

Fixpoint write_loop (fuel : nat) (r : rio B) (p : bytes) : option (rio B * bool) :=
  if blen p =? 0 then Some (r, true) else
  match fuel with
  | O => None
  | S fuel =>
      let n := chunk r (blen p) in
      let c := take (Z.to_nat n) p in
      let r := if update_cksum r then rioGenericUpdateChecksum r c else r in
      let (b, ok) := rio_write (io r) c in
      if ok : bool then write_loop fuel (set_io b n r) (drop (Z.to_nat n) p)
      else Some (set_write_error b r, false)
  end.

Definition rioWrite (r : rio B) (p : bytes) : option (rio B * bool) :=
  if write_error r then Some (r, false) else write_loop (length p) r p.

Fixpoint read_loop (fuel : nat) (r : rio B) (len : Z) (acc : bytes) : option (rio B * option bytes) :=
  if len =? 0 then Some (r, Some acc) else
  match fuel with
  | O => None
  | S fuel =>
      let n := chunk r len in
      match rio_read (io r) n with
      | None => None
      | Some (b, None) => Some (set_read_error b r, None)
      | Some (b, Some c) =>
          let r := if update_cksum r then rioGenericUpdateChecksum r c else r in
          read_loop fuel (set_io b n r) (len - n) (acc ++ c)
      end
  end.

Definition rioRead (r : rio B) (len : Z) : option (rio B * option bytes) :=
  if read_error r then Some (r, None) else read_loop (Z.to_nat len) r len [].

(** ** Correctness, for any backend that obeys the laws *)

Context `{!RioStream B}.

(** A stream whose checksum register is a 64-bit word. *)
Definition rio_ok (r : rio B) : Prop := is_u 64 (cksum r) /\ 0 <= max_processing_chunk r.

(** A stream that holds bytes still to be read and has not failed. *)
Definition can_read (r : rio B) : Prop := read_error r = false /\ readable (io r) /\ Forall is_byte (ahead (io r)).

(** The checksum after [p]; the address of the buffer does not matter. *)
Definition sum_after (r : rio B) (p : bytes) : Z := if update_cksum r then crc64 (cksum r) 0 p else cksum r.

Definition appended (r : rio B) (p : bytes) (r' : rio B) : Prop :=
  rio_ok r' /\ written (io r') = written (io r) ++ p /\ cksum r' = sum_after r p /\
  update_cksum r' = update_cksum r /\ write_error r' = write_error r /\ max_processing_chunk r' = max_processing_chunk r.

Definition consumed (r : rio B) (p : bytes) (r' : rio B) : Prop :=
  rio_ok r' /\ can_read r' /\ ahead (io r) = p ++ ahead (io r') /\ cksum r' = sum_after r p /\
  update_cksum r' = update_cksum r /\ max_processing_chunk r' = max_processing_chunk r.

Lemma crc64_u crc a p : is_u 64 crc -> Forall is_byte p -> is_u 64 (crc64 crc a p).
Proof. intros Hc Hp. rewrite crc64_fold by done. by apply fold_step_u. Qed.

Lemma crc64_addr crc a a' p : is_u 64 crc -> Forall is_byte p -> crc64 crc a p = crc64 crc a' p.
Proof. intros Hc Hp. by rewrite !crc64_fold. Qed.

Lemma sum_step (r : rio B) c b n :
  rio_ok r -> Forall is_byte c ->
  let r1 := set_io b n (if update_cksum r then rioGenericUpdateChecksum r c else r) in
  rio_ok r1 /\ cksum r1 = sum_after r c /\ update_cksum r1 = update_cksum r /\ io r1 = b /\
  processed_bytes r1 = u64 (processed_bytes r + n) /\ max_processing_chunk r1 = max_processing_chunk r /\
  write_error r1 = write_error r /\ read_error r1 = read_error r.
Proof.
  intros [Hc Hm] Hb. unfold sum_after. destruct (update_cksum r) eqn:E; cbn; rewrite ?E; split_and!; try done; [|by apply crc64_addr].
  split; [by apply crc64_u|done].
Qed.

Lemma sum_app (r r1 : rio B) p q :
  is_u 64 (cksum r) -> Forall is_byte p -> Forall is_byte q -> cksum r1 = sum_after r p -> update_cksum r1 = update_cksum r ->
  sum_after r1 q = sum_after r (p ++ q).
Proof.
  intros Hc Hp Hq E1 E2. unfold sum_after in *. rewrite E1, E2. destruct (update_cksum r); [|done]. by apply crc64_pieces.
Qed.

Lemma chunk_ok (r : rio B) len : rio_ok r -> 0 < len -> 0 < chunk r len <= len.
Proof.
  intros [_ Hm] Hl. unfold chunk. destruct (Z.eqb_spec (max_processing_chunk r) 0); cbn; [lia|].
  destruct (Z.ltb_spec (max_processing_chunk r) len); lia.
Qed.

(** A backend that always has room, as memory. *)
Definition infallible : Prop := forall (b : B) p, snd (rio_write b p) = true.

(** The result of a write: an error, which sets the flag, or all of the bytes. *)
Definition written_or_failed (r : rio B) (p : bytes) (r' : rio B) (ok : bool) : Prop :=
  rio_ok r' /\ (if ok then appended r p r' else write_error r' = true) /\ (infallible -> write_error r = false -> ok = true).

Lemma write_loop_ok fuel : forall r p,
  rio_ok r -> Forall is_byte p -> (length p <= fuel)%nat ->
  exists r' ok, write_loop fuel r p = Some (r', ok) /\ written_or_failed r p r' ok.
Proof.
  induction fuel as [|fuel IH]; intros r p Hr Hp Hf; cbn [write_loop].
  1: destruct p; [|cbn in Hf; lia].
  2: destruct (Z.eqb_spec (blen p) 0) as [E|E]; [destruct p; [|done]|].
  1, 2: exists r, true; split; [done|]; split; [done|]; split; [|done]; split_and!; try done; [by rewrite app_nil_r|];
    unfold sum_after; destruct (update_cksum r); [|done]; by rewrite crc64_fold by (apply Hr || done).
  pose proof (chunk_ok r (blen p) Hr ltac:(unfold blen in *; lia)) as Hn. set (n := chunk r (blen p)) in *.
  pose proof (Forall_take _ (Z.to_nat n) _ Hp) as Hc. set (c := take (Z.to_nat n) p) in *.
  assert (Hio : io (if update_cksum r then rioGenericUpdateChecksum r c else r) = io r) by (by destruct (update_cksum r)). rewrite Hio.
  destruct (rio_write (io r) c) as [b ok] eqn:Ew. destruct ok.
  - destruct (sum_step r c b n Hr Hc) as (S1 & S2 & S3 & S4 & S5 & S6 & S7 & _). set (r1 := set_io b n _) in *.
    destruct (IH r1 (drop (Z.to_nat n) p)) as (r' & ok & -> & Hr' & Hres & Hinf); [done|by apply Forall_drop|rewrite length_drop; unfold blen in *; lia|].
    exists r', ok. split; [done|]. split; [done|]. split; [|intros Hi He; apply Hinf; [done|congruence]]. destruct ok; [|done]. destruct Hres as (_ & A2 & A3 & A4 & A5 & A6).
    apply write_law in Ew. split; [done|]. rewrite A2, S4, Ew, <- app_assoc. unfold c. rewrite take_drop. split; [done|].
    split; [rewrite A3, (sum_app r r1 c); try done; [unfold c; by rewrite take_drop|apply Hr|by apply Forall_drop]|].
    split_and!; congruence.
  - eexists _, false. split; [done|]. destruct (sum_step r c b 0 Hr Hc) as ((S1 & S1') & _). split; [split; by destruct (update_cksum r)|].
    split; [by destruct (update_cksum r)|]. intros Hi _. specialize (Hi (io r) c). by rewrite Ew in Hi.
Qed.

(** A write either fails and leaves the error flag set, or appends all of the bytes. *)
Lemma rioWrite_ok r p :
  rio_ok r -> Forall is_byte p ->
  exists r' ok, rioWrite r p = Some (r', ok) /\ written_or_failed r p r' ok.
Proof.
  intros Hr Hp. unfold rioWrite. destruct (write_error r) eqn:E; [|by apply write_loop_ok]. exists r, false. split; [done|]. split; [done|]. split; [done|congruence].
Qed.

Lemma consumed_nil r : rio_ok r -> can_read r -> consumed r [] r.
Proof.
  intros Hr Hc. split_and!; try done. unfold sum_after. destruct (update_cksum r); [|done].
  by rewrite crc64_fold by (apply Hr || done).
Qed.

Lemma consumed_bytes r c r' : can_read r -> consumed r c r' -> Forall is_byte c.
Proof. intros (_ & _ & Ha) (_ & _ & E & _). rewrite E, Forall_app in Ha. tauto. Qed.

Lemma rio_consumed_trans r c r1 c2 r2 :
  rio_ok r -> can_read r -> consumed r c r1 -> consumed r1 c2 r2 -> consumed r (c ++ c2) r2.
Proof.
  intros Hk Hr HA HB. pose proof (consumed_bytes _ _ _ Hr HA) as Hc. pose proof HA as (_ & Hr1 & A2 & A3 & A4 & A5).
  pose proof (consumed_bytes _ _ _ Hr1 HB) as Hc2. destruct HB as (B1 & B1' & B2 & B3 & B4 & B5). split; [done|]. split; [done|].
  split; [by rewrite A2, B2, app_assoc|]. split; [rewrite B3; apply sum_app; try done; apply Hk|].
 split_and!; congruence.
Qed.

Lemma read_loop_ok fuel : forall r len acc,
  rio_ok r -> can_read r -> 0 <= len -> len <= Z.of_nat fuel ->
  exists r' res, read_loop fuel r len acc = Some (r', res) /\
    match res with
    | Some d => exists c, d = acc ++ c /\ blen c = len /\ consumed r c r'
    | None => read_error r' = true /\ blen (ahead (io r)) < len
    end.
Proof.
  induction fuel as [|fuel IH]; intros r len acc Hr Ha Hl Hf; cbn [read_loop].
  1: assert (len = 0) as -> by lia.
  2: destruct (Z.eqb_spec len 0) as [->|E].
  1, 2: exists r, (Some acc); split; [done|]; exists []; split; [by rewrite app_nil_r|]; split; [done|]; by apply consumed_nil.
  pose proof (chunk_ok r len Hr ltac:(lia)) as Hn. set (n := chunk r len) in *. pose proof Ha as (He & Hrd & Hby).
  destruct (decide (n <= blen (ahead (io r)))) as [Hle|Hgt].
  - destruct (read_law (io r) n Hrd) as (b & -> & Hb & Hrb); [lia|]. pose proof (Forall_take _ (Z.to_nat n) _ Hby) as Hc.
    set (c := take (Z.to_nat n) (ahead (io r))) in *. assert (Hlc : blen c = n) by (unfold c, blen in *; rewrite length_take; lia).
    destruct (sum_step r c b n Hr Hc) as (S1 & S2 & S3 & S4 & S5 & S6 & _ & S8). set (r1 := set_io b n _) in *.
    assert (Hr1 : can_read r1) by (split; [congruence|rewrite S4, Hb; split; [done|by apply Forall_drop]]).
    assert (Hc1 : consumed r c r1).
    { split; [done|]. split; [done|]. rewrite S4, Hb. unfold c. by rewrite take_drop. }
    destruct (IH r1 (len - n) (acc ++ c)) as (r' & res & -> & Hres); [done|done|lia|lia|].
    exists r', res. split; [done|]. destruct res as [d|].
    + destruct Hres as (c2 & -> & Hl2 & Hc2). exists (c ++ c2). rewrite app_assoc. split; [done|].
      split; [rewrite blen_app; lia|]. by apply (rio_consumed_trans r c r1).
    + destruct Hres as [? Hlt]. split; [done|]. rewrite S4, Hb in Hlt. unfold blen in *. rewrite length_drop in Hlt. lia.
  - destruct (read_short (io r) n Hrd ltac:(lia)) as [b ->].
    eexists _, None. split; [done|]. split; [done|lia].
Qed.

(** A read gives the next bytes, or fails when there are not enough. *)
Lemma rioRead_ok r len :
  rio_ok r -> can_read r -> 0 <= len ->
  exists r' res, rioRead r len = Some (r', res) /\
    match res with
    | Some c => blen c = len /\ consumed r c r'
    | None => read_error r' = true /\ blen (ahead (io r)) < len
    end.
Proof.
  intros Hr Ha Hl. unfold rioRead. pose proof Ha as (-> & _).
  destruct (read_loop_ok (Z.to_nat len) r len [] Hr Ha) as (r' & res & -> & Hres); [lia..|].
  exists r', res. split; [done|]. destruct res; [|done]. by destruct Hres as (c & -> & ? & ?).
Qed.

(** The next bytes are there. *)
Lemma rioRead_next r d rest :
  rio_ok r -> can_read r -> ahead (io r) = d ++ rest ->
  exists r', rioRead r (blen d) = Some (r', Some d) /\ consumed r d r' /\ ahead (io r') = rest.
Proof.
  intros Hr Ha Hd. destruct (rioRead_ok r (blen d) Hr Ha) as (r' & res & E & Hres); [apply blen_nonneg|].
  destruct res as [c|].
  - destruct Hres as [Hl Hc]. pose proof Hc as (_ & _ & A2 & _). rewrite Hd in A2.
    assert (d = c /\ rest = ahead (io r')) as [-> ->]; [|by exists r'].
    unfold blen in Hl. apply app_inj_1 in A2 as [? ?]; [done|lia].
  - destruct Hres as [_ Hlt]. rewrite Hd, blen_app in Hlt. pose proof (blen_nonneg rest). lia.
Qed.

Lemma appended_trans r c r1 c2 r2 :
  is_u 64 (cksum r) -> Forall is_byte c -> Forall is_byte c2 -> appended r c r1 -> appended r1 c2 r2 -> appended r (c ++ c2) r2.
Proof.
  intros Hk Hc Hc2 (_ & A2 & A3 & A4 & A5 & A6) (B1 & B2 & B3 & B4 & B5 & B6). split; [done|].
  split; [by rewrite B2, A2, app_assoc|]. split; [rewrite B3; by apply sum_app|]. split_and!; congruence.
Qed.

End Ops.

(** ** The in-memory buffer *)

Record rio_buffer := mk_buffer { ptr : bytes; pos : Z }.

Definition rioBufferWrite (b : rio_buffer) (p : bytes) : rio_buffer * bool :=
  (mk_buffer (ptr b ++ p) (pos b + blen p), true).

Definition rioBufferRead (b : rio_buffer) (len : Z) : option (rio_buffer * option bytes) :=
  if u64 (blen (ptr b) - pos b) <? len then Some (b, None) else
  d ← load (ptr b) (pos b) len;
  Some (mk_buffer (ptr b) (pos b + len), Some d).

#[export] Instance buffer_backend : RioBackend rio_buffer := {
  rio_write := rioBufferWrite;
  rio_read := rioBufferRead;
}.

Definition rioInitWithBuffer (s : bytes) : rio rio_buffer := mk_rio (mk_buffer s 0) false 0 false false 0 0.

(** The position is inside of the string, whose length is a [size_t]. *)
#[export, program] Instance buffer_stream : RioStream rio_buffer := {
  written := ptr;
  readable b := 0 <= pos b <= blen (ptr b) /\ blen (ptr b) < 2 ^ 64;
  ahead b := drop (Z.to_nat (pos b)) (ptr b);
}.
Next Obligation. intros b p b' E. by injection E as <-. Qed.
Next Obligation.
  intros b n [Hp Hl] Hn. unfold blen in Hn. rewrite length_drop in Hn. cbn [rio_read buffer_backend]. unfold rioBufferRead.
  rewrite wrapu_small by zlia. destruct (Z.ltb_spec (blen (ptr b) - pos b) n); [unfold blen in *; lia|].
  rewrite load_Some by (unfold blen in *; lia). eexists. split; [done|]. cbn. split; [|lia]. rewrite drop_drop. f_equal. lia.
Qed.
Next Obligation.
  intros b n [Hp Hl] Hn. unfold blen in Hn. rewrite length_drop in Hn. cbn [rio_read buffer_backend]. unfold rioBufferRead.
  rewrite wrapu_small by zlia. destruct (Z.ltb_spec (blen (ptr b) - pos b) n); [by exists b|unfold blen in *; lia].
Qed.

End Rio.
