(* ===== verification/Rdb.v ===== *)
(** * The RDB encoding of strings ([rdb.c], [rdb.h], [object.c]) and DUMP payloads ([cluster.c])

    Lengths, integers, compressed and verbatim strings as they are written to a stream
    and read back; the encodings of a string object in memory; the payload of DUMP with
    its version and checksum, and what RESTORE makes of it.  The code runs over any
    stream that obeys the laws of [RioStream].  Values are stored little endian: the
    byte swaps for big endian hosts are identities here. *)

From Stdlib Require Import ZArith Lia.
From stdpp Require Import base option list numbers strings.
From S2P Require Import Prelude Util Sds Sdstext Resp Crc Lzf Rio.

#[local] Open Scope Z_scope.

Module Rdb.
Import Util Rio.
#[local] Existing Instance Sds.sds_type_eq_dec.

(** ** Constants *)

Definition RDB_VERSION : Z := 9.
Definition RDB_6BITLEN : Z := 0.
Definition RDB_14BITLEN : Z := 1.
Definition RDB_32BITLEN : Z := 0x80.
Definition RDB_64BITLEN : Z := 0x81.
Definition RDB_ENCVAL : Z := 3.
Definition RDB_LENERR : Z := UINT64_MAX.
Definition RDB_ENC_INT8 : Z := 0.
Definition RDB_ENC_INT16 : Z := 1.
Definition RDB_ENC_INT32 : Z := 2.
Definition RDB_ENC_LZF : Z := 3.
Definition RDB_TYPE_STRING : Z := 0.

(** The load flags. *)
Definition RDB_LOAD_NONE : Z := 0.
Definition RDB_LOAD_ENC : Z := Z.shiftl 1 0.
Definition RDB_LOAD_PLAIN : Z := Z.shiftl 1 1.
Definition RDB_LOAD_SDS : Z := Z.shiftl 1 2.

Definition rdbIsObjectType (t : Z) : bool := ((0 <=? t) && (t <=? 7)) || ((9 <=? t) && (t <=? 15)).

Definition LONG_STR_SIZE : Z := 21.
Definition OBJ_SHARED_INTEGERS : Z := 10000.
Definition OBJ_ENCODING_EMBSTR_SIZE_LIMIT : Z := 44.

(** A big endian number of [n] bytes. *)
Definition be_encode (n : nat) (z : Z) : bytes := reverse (le_encode n z).
Definition be_decode (b : bytes) : Z := le_decode (reverse b).

(** ** String objects *)

(** The encodings of a string object; small integers may be shared objects. *)
Inductive robj := Raw (s : bytes) | Embstr (s : bytes) | Int (shared : bool) (v : Z).

#[export] Instance robj_eq_dec : EqDecision robj.
Proof. solve_decision. Defined.

(** The bytes the object stands for. *)
Definition obj_string (o : robj) : bytes :=
  match o with Raw s | Embstr s => s | Int _ v => sdec v end.

(** What the loading functions return, according to the flags. *)
Inductive loaded := Plain (b : bytes) | ASds (b : bytes) | AnObject (o : robj).

Section Monad.

Context {B : Type}.

(** ** Saving and loading

    A function that saves takes a stream, or the null pointer when only the length is of
    interest, and returns the number of bytes, -1 on error. *)
Definition save : Type := option (rio B) -> option (option (rio B) * Z).

Definition ret (n : Z) : save := fun rdb => Some (rdb, n).

(** [if ((n = m) == -1) return -1;] and go on. *)
Definition try (m : save) (k : Z -> save) : save := fun rdb =>
  r ← m rdb;
  let '(rdb, n) := r in
  if n =? -1 then Some (rdb, -1) else k n rdb.

(** A function that loads takes a stream and returns a value, or nothing on error. *)
Definition load_from (A : Type) : Type := rio B -> option (rio B * option A).

Definition lret {A} (v : A) : load_from A := fun r => Some (r, Some v).
Definition lfail {A} : load_from A := fun r => Some (r, None).
(** No value: not a behaviour of the code. *)
Definition lstuck {A} : load_from A := fun _ => None.

Definition lbind {A C} (m : load_from A) (k : A -> load_from C) : load_from C := fun r =>
  w ← m r;
  match w with
  | (r, Some v) => k v r
  | (r, None) => Some (r, None)
  end.

(** A byte of the buffer just read. *)
Definition at_ {A} (b : bytes) (i : Z) (k : Z -> load_from A) : load_from A := fun r => c ← load8 b i; k c r.

(** A computation that does not use the stream, of which no value means a failed
    assertion. *)
Definition pure_ {A C} (m : option A) (k : A -> load_from C) : load_from C := fun r => x ← m; k x r.

End Monad.

Declare Scope rdb_scope.
#[local] Open Scope rdb_scope.

Notation "'let!' n := m 'in' k" := (try m (fun n => k)) (at level 200, n name, right associativity) : rdb_scope.

Notation "'let?' x := m 'in' k" := (lbind m (fun x => k)) (at level 200, x pattern, right associativity) : rdb_scope.

(** The environment: the address of the buffers given to the stream, the indeterminate
    bytes of fresh memory, which requests the allocator can serve when it may fail,
    whether the eviction policy forbids shared integers, the configuration of the
    compression, and the memory the hash table of the compressor is made of. *)
Record env := mk_env {
  buf_addr : Z -> Z;
  junk : nat -> Z;
  can_alloc : Z -> bool;
  no_shared_integers : bool;
  rdb_compression : bool;
  htab : Z -> Z;
}.

Section Env.

Context (E : env).

Definition createStringObjectFromLongLongWithOptions (value : Z) (valueobj : bool) : robj :=
  let valueobj := no_shared_integers E && valueobj in
  Int ((0 <=? value) && (value <? OBJ_SHARED_INTEGERS) && negb valueobj) value.

Definition createStringObjectFromLongLongForValue (value : Z) : robj :=
  createStringObjectFromLongLongWithOptions value true.

Definition tryObjectEncoding (refcount : Z) (o : robj) : option robj :=
  match o with
  | Int _ _ => Some o
  | Raw s | Embstr s =>
      if 1 <? refcount then Some o else
      let len := blen s in
      r ← (if len <=? 20 then string2l (s ++ [0]) len else Some None);
      match r with
      | Some value =>
          if negb (no_shared_integers E) && (0 <=? value) && (value <? OBJ_SHARED_INTEGERS) then Some (Int true value)
          else match o with
               | Raw _ => Some (Int false value)
               | _ => Some (createStringObjectFromLongLongForValue value)
               end
      | None =>
          if len <=? OBJ_ENCODING_EMBSTR_SIZE_LIMIT then Some (Embstr s) else Some o
      end
  end.

(** [sdstrynewlen]: whether the string could be allocated; no value when the assertion
    on the size fails. *)
Definition sdstrynewlen (initlen : Z) : option bool :=
  let type := Sds.sdsReqType initlen in
  let type := if decide (type = Sds.SDS_TYPE_5 /\ initlen = 0) then Sds.SDS_TYPE_8 else type in
  let hdrlen := Sds.sdsHdrSize type in
  if negb (initlen <? u64 (initlen + hdrlen + 1)) then None else Some (can_alloc E (u64 (hdrlen + initlen + 1))).

Definition ztrymalloc (size : Z) : bool := can_alloc E size.

(** A fresh block. *)
Definition fresh (n : Z) : bytes := zrealloc (junk E) [] n.

Section Stream.

Context {B : Type} `{RioBackend B}.

(** ** Saving *)

Definition rdbWriteRaw (p : bytes) : save := fun rdb =>
  match rdb with
  | None => Some (None, s64 (blen p))
  | Some r =>
      w ← rioWrite (buf_addr E) r p;
      let '(r, ok) := w in
      Some (Some r, if ok : bool then s64 (blen p) else -1)
  end.

Definition rdbSaveType (type : Z) : save := rdbWriteRaw [type].

Definition rdbSaveMillisecondTime (t : Z) : save := rdbWriteRaw (le_encode 8 t).

Definition rdbSaveLen (len : Z) : save :=
  if len <? Z.shiftl 1 6 then
    let! _ := rdbWriteRaw [Z.lor (Z.land len 0xFF) (Z.shiftl RDB_6BITLEN 6)] in
    ret 1
  else if len <? Z.shiftl 1 14 then
    let! _ := rdbWriteRaw [Z.lor (Z.land (Z.shiftr len 8) 0xFF) (Z.shiftl RDB_14BITLEN 6); Z.land len 0xFF] in
    ret 2
  else if len <=? UINT32_MAX then
    let! _ := rdbWriteRaw [RDB_32BITLEN] in
    let! _ := rdbWriteRaw (be_encode 4 len) in
    ret (1 + 4)
  else
    let! _ := rdbWriteRaw [RDB_64BITLEN] in
    let! _ := rdbWriteRaw (be_encode 8 len) in
    ret (1 + 8).

(** Empty when the value does not fit. *)
Definition rdbEncodeInteger (value : Z) : bytes :=
  if (- Z.shiftl 1 7 <=? value) && (value <=? Z.shiftl 1 7 - 1) then
    [Z.lor (Z.shiftl RDB_ENCVAL 6) RDB_ENC_INT8; Z.land value 0xFF]
  else if (- Z.shiftl 1 15 <=? value) && (value <=? Z.shiftl 1 15 - 1) then
    [Z.lor (Z.shiftl RDB_ENCVAL 6) RDB_ENC_INT16; Z.land value 0xFF; Z.land (Z.shiftr value 8) 0xFF]
  else if (- Z.shiftl 1 31 <=? value) && (value <=? Z.shiftl 1 31 - 1) then
    [Z.lor (Z.shiftl RDB_ENCVAL 6) RDB_ENC_INT32; Z.land value 0xFF; Z.land (Z.shiftr value 8) 0xFF;
     Z.land (Z.shiftr value 16) 0xFF; Z.land (Z.shiftr value 24) 0xFF]
  else [].

(** [s] is the memory from the string on, [len] the length of the string. *)
Definition rdbTryIntegerEncoding (s : bytes) (len : Z) : option bytes :=
  let '(value, endptr) := Sdstext.strtoll s in
  c ← load8 s endptr;
  if negb (c =? 0) then Some [] else
  w ← ll2string (fresh 32) 32 value;
  let buf := snd w in
  n ← Resp.strchr buf 0;
  if negb (n =? len) then Some [] else
  a ← load buf 0 len;
  b ← load s 0 len;
  if negb (bool_decide (a = b)) then Some [] else Some (rdbEncodeInteger value).

Definition rdbSaveLzfBlob (data : bytes) (original_len : Z) : save :=
  let! n1 := rdbWriteRaw [Z.lor (Z.shiftl RDB_ENCVAL 6) RDB_ENC_LZF] in
  let! n2 := rdbSaveLen (blen data) in
  let! n3 := rdbSaveLen original_len in
  let! n4 := rdbWriteRaw data in
  ret (n1 + n2 + n3 + n4).

(** The lengths are passed to the compressor as [unsigned int]. *)
Definition rdbSaveLzfStringObject (s : bytes) : save := fun rdb =>
  let len := blen s in
  if len <=? 4 then Some (rdb, 0) else
  let outlen := len - 4 in
  r ← Lzf.lzf_compress (take (Z.to_nat (u32 len)) s) (u32 outlen) (htab E) (fresh (u32 outlen));
  let '(comprlen, out) := r in
  if comprlen =? 0 then Some (rdb, 0) else
  data ← load out 0 comprlen;
  rdbSaveLzfBlob data len rdb.

(** Strings end with a null byte in memory. *)
Definition rdbSaveRawString (s : bytes) : save := fun rdb =>
  let len := blen s in
  enc ← (if len <=? 11 then rdbTryIntegerEncoding (s ++ [0]) len else Some []);
  if 0 <? blen enc then (let! _ := rdbWriteRaw enc in ret (blen enc)) rdb else
  r ← (if rdb_compression E && (20 <? len) then rdbSaveLzfStringObject s rdb else Some (rdb, 0));
  let '(rdb, n) := r in
  if n =? -1 then Some (rdb, -1) else
  if 0 <? n then Some (rdb, n) else
  (let! n := rdbSaveLen len in
   if 0 <? len then let! _ := rdbWriteRaw s in ret (n + len) else ret n) rdb.

(** A [serverAssert] is the only way to have no value here. *)
Definition rdbSaveLongLongAsStringObject (value : Z) : save := fun rdb =>
  let enc := rdbEncodeInteger value in
  if 0 <? blen enc then rdbWriteRaw enc rdb else
  w ← ll2string (fresh 32) 32 value;
  let '(enclen, buf) := w in
  if negb (enclen <? 32) then None else
  d ← load buf 0 enclen;
  (let! n1 := rdbSaveLen enclen in
   let! n2 := rdbWriteRaw d in
   ret (n1 + n2)) rdb.

Definition rdbSaveStringObject (o : robj) : save :=
  match o with
  | Int _ v => rdbSaveLongLongAsStringObject v
  | Raw s | Embstr s => rdbSaveRawString s
  end.

(** ** Loading *)

Definition rread (n : Z) : load_from bytes := fun r => rioRead (buf_addr E) r n.

Definition rdbLoadType : load_from Z :=
  let? b := rread 1 in at_ b 0 lret.

Definition rdbLoadTime : load_from Z :=
  let? b := rread 4 in lret (s32 (le_decode b)).

(** The version only matters on big endian hosts. *)
Definition rdbLoadMillisecondTime (rdbver : Z) : load_from Z :=
  let? b := rread 8 in lret (s64 (le_decode b)).

(** Whether a special encoding follows, and the length or the encoding. *)
Definition rdbLoadLenByRef : load_from (bool * Z) :=
  let? b := rread 1 in
  at_ b 0 (fun c =>
  let type := Z.shiftr (Z.land c 0xC0) 6 in
  if type =? RDB_ENCVAL then lret (true, Z.land c 0x3F) else
  if type =? RDB_6BITLEN then lret (false, Z.land c 0x3F) else
  if type =? RDB_14BITLEN then
    let? b := rread 1 in
    at_ b 0 (fun d => lret (false, Z.lor (Z.shiftl (Z.land c 0x3F) 8) d))
  else if c =? RDB_32BITLEN then
    let? b := rread 4 in lret (false, be_decode b)
  else if c =? RDB_64BITLEN then
    let? b := rread 8 in lret (false, be_decode b)
  else lfail).

(** Errors are a length, [RDB_LENERR]; the callers that test for it fail. *)
Definition rdbLoadLen (r : rio B) : option (rio B * (bool * Z)) :=
  w ← rdbLoadLenByRef r;
  match w with
  | (r, Some v) => Some (r, v)
  | (r, None) => Some (r, (false, RDB_LENERR))
  end.

Definition checked_len : load_from (bool * Z) := fun r =>
  w ← rdbLoadLen r;
  let '(r, v) := w in
  Some (r, if snd v =? RDB_LENERR then None else Some v).

Definition is_set (flags f : Z) : bool := negb (Z.land flags f =? 0).

Definition read_integer (enctype : Z) : load_from Z :=
  if enctype =? RDB_ENC_INT8 then
    let? e := rread 1 in at_ e 0 (fun e0 => lret (s8 e0))
  else if enctype =? RDB_ENC_INT16 then
    let? e := rread 2 in
    at_ e 0 (fun e0 => at_ e 1 (fun e1 => lret (s16 (Z.lor e0 (Z.shiftl e1 8)))))
  else if enctype =? RDB_ENC_INT32 then
    let? e := rread 4 in
    at_ e 0 (fun e0 => at_ e 1 (fun e1 => at_ e 2 (fun e2 => at_ e 3 (fun e3 =>
    lret (s32 (Z.lor (Z.lor (Z.lor e0 (Z.shiftl e1 8)) (Z.shiftl e2 16)) (Z.shiftl e3 24)))))))
  else lfail.

(** The value and, when it is a plain or dynamic string, what [*lenptr] is set to. *)
Definition rdbLoadIntegerObject (enctype flags : Z) : load_from (loaded * option Z) :=
  let? val := read_integer enctype in
  if is_set flags RDB_LOAD_PLAIN || is_set flags RDB_LOAD_SDS then
    pure_ (ll2string (fresh LONG_STR_SIZE) LONG_STR_SIZE val) (fun w =>
    pure_ (load (snd w) 0 (fst w)) (fun d =>
    lret (if is_set flags RDB_LOAD_PLAIN then Plain d else ASds d, Some (fst w))))
  else if is_set flags RDB_LOAD_ENC then
    lret (AnObject (createStringObjectFromLongLongForValue val), None)
  else
    pure_ (Sdstext.sdsfromlonglong val) (fun s => lret (AnObject (Raw s), None)).

Definition rdbLoadLzfStringObject (flags : Z) : load_from (loaded * option Z) :=
  let? clen := checked_len in
  let clen := snd clen in
  let? len := checked_len in
  let len := snd len in
  if negb (ztrymalloc clen) then lfail else
  pure_ (if is_set flags RDB_LOAD_PLAIN then Some (ztrymalloc len) else sdstrynewlen len) (fun ok =>
  if negb ok then lfail else
  let? c := rread clen in
  pure_ (Lzf.lzf_decompress (take (Z.to_nat (u32 clen)) c) (u32 len) (fresh (u32 len))) (fun w =>
  let '(n, val) := w in
  if negb (n =? len) then lfail else
  lret (if is_set flags RDB_LOAD_PLAIN then Plain val else if is_set flags RDB_LOAD_SDS then ASds val else AnObject (Raw val), Some len))).

(** The bytes of a string of which the length is known. *)
Definition read_bytes (len : Z) : load_from bytes := if len =? 0 then lret [] else rread len.

Definition rdbGenericLoadStringObject (flags : Z) : load_from (loaded * option Z) :=
  let? l := checked_len in
  let '(isencoded, len) := l in
  if isencoded : bool then
    if (len =? RDB_ENC_INT8) || (len =? RDB_ENC_INT16) || (len =? RDB_ENC_INT32) then rdbLoadIntegerObject len flags
    else if len =? RDB_ENC_LZF then rdbLoadLzfStringObject flags
    else lfail
  else if is_set flags RDB_LOAD_PLAIN || is_set flags RDB_LOAD_SDS then
    pure_ (if is_set flags RDB_LOAD_PLAIN then Some (ztrymalloc len) else sdstrynewlen len) (fun ok =>
    if negb ok then lfail else
    let? d := read_bytes len in
    lret (if is_set flags RDB_LOAD_PLAIN then Plain d else ASds d, Some len))
  else if is_set flags RDB_LOAD_ENC && (len <=? OBJ_ENCODING_EMBSTR_SIZE_LIMIT) then
    let? d := read_bytes len in
    lret (AnObject (Embstr d), None)
  else
    pure_ (sdstrynewlen len) (fun ok =>
    if negb ok then lfail else
    let? d := read_bytes len in
    lret (AnObject (Raw d), None)).

Definition as_object (res : loaded * option Z) : load_from (B := B) robj :=
  match fst res with AnObject o => lret o | _ => lstuck end.

Definition rdbLoadStringObject : load_from robj :=
  let? res := rdbGenericLoadStringObject RDB_LOAD_NONE in as_object res.

Definition rdbLoadEncodedStringObject : load_from robj :=
  let? res := rdbGenericLoadStringObject RDB_LOAD_ENC in as_object res.

(** ** String values *)

Definition rdbSaveObjectType (o : robj) : save := rdbSaveType RDB_TYPE_STRING.

Definition rdbLoadObjectType : load_from Z :=
  let? type := rdbLoadType in
  if rdbIsObjectType type then lret type else lfail.

Definition rdbSaveObject (o : robj) : save :=
  let! n := rdbSaveStringObject o in ret n.

Definition rdbSavedObjectLen (o : robj) : option Z :=
  w ← rdbSaveObject o None;
  if snd w =? -1 then None else Some (snd w).

(** No value for the types other than strings, which are not modelled. *)
Definition rdbLoadObject (rdbtype : Z) : load_from robj :=
  if rdbtype =? RDB_TYPE_STRING then
    let? o := rdbLoadEncodedStringObject in
    pure_ (tryObjectEncoding 1 o) lret
  else lstuck.

End Stream.

(** ** DUMP payloads *)

Definition createDumpPayload (o : robj) : option bytes :=
  w ← rdbSaveObjectType o (Some (rioInitWithBuffer []));
  let '(payload, n) := w in
  if n =? 0 then None else
  w ← rdbSaveObject o payload;
  let '(payload, n) := w in
  if n =? 0 then None else
  payload ← payload;
  let p := ptr (io payload) ++ [Z.land RDB_VERSION 0xff; Z.land (Z.shiftr RDB_VERSION 8) 0xff] in
  Some (p ++ le_encode 8 (Crc.crc64 0 (buf_addr E 0) p)).

(** Whether the payload is valid. *)
Definition verifyDumpPayload (skip_checksum_validation : bool) (p : bytes) : option bool :=
  let len := blen p in
  if len <? 10 then Some false else
  let footer := len - 10 in
  f1 ← load8 p (footer + 1);
  f0 ← load8 p footer;
  let rdbver := u16 (Z.lor (Z.shiftl f1 8) f0) in
  if RDB_VERSION <? rdbver then Some false else
  if skip_checksum_validation then Some true else
  d ← load p 0 (len - 8);
  s ← load p (footer + 2) 8;
  Some (bool_decide (le_encode 8 (Crc.crc64 0 (buf_addr E 0) d) = s)).

(** What RESTORE does with its payload: the object, or an error for the client. *)
Definition restore_object (skip_checksum_validation : bool) (p : bytes) : option (option robj) :=
  ok ← verifyDumpPayload skip_checksum_validation p;
  if negb ok then Some None else
  w ← (let? type := rdbLoadObjectType in rdbLoadObject type) (rioInitWithBuffer p);
  Some (snd w).

End Env.


(** ** What saving and loading mean *)

(** There is enough memory for the strings of less than 2^32 bytes. *)
Definition has_memory (E : env) : Prop := forall n, 0 <= n < 2 ^ 33 -> can_alloc E n = true.

Section Spec.

Context (E : env) {B : Type} `{RioStream B}.

(** [m] writes [e] and returns [n], on a stream that does not fail, and only counts when
    there is no stream. *)
Definition saves (m : save) (e : bytes) (n : Z) : Prop :=
  Forall is_byte e /\ n <> -1 /\ m None = Some (None, n) /\
  forall r, rio_ok r -> exists r' (ok : bool), m (Some r) = Some (Some r', if ok then n else -1) /\ written_or_failed r e r' ok.

(** On a stream where [e] comes next, [m] consumes it and gives [v]. *)
Definition loads {A} (m : load_from A) (e : bytes) (v : A) : Prop :=
  forall r rest, rio_ok r -> can_read r -> ahead (io r) = e ++ rest ->
  exists r', m r = Some (r', Some v) /\ consumed r e r'.

Lemma appended_nil (r : rio B) : rio_ok r -> appended r [] r.
Proof.
  intros Hr. split; [done|]. rewrite app_nil_r. split_and!; try done. unfold sum_after. destruct (update_cksum r); [|done].
  by rewrite Crc.crc64_fold by (apply Hr || done).
Qed.

Lemma saves_ret n : n <> -1 -> saves (ret n) [] n.
Proof. intros Hn. split_and!; try done. intros r Hr. exists r, true. split; [done|]. split; [done|]. split; [by apply appended_nil|done]. Qed.

Lemma saves_try m k e1 n1 e2 n2 : saves m e1 n1 -> saves (k n1) e2 n2 -> saves (try m k) (e1 ++ e2) n2.
Proof.
  intros (A1 & A2 & A3 & A4) (B1 & B2 & B3 & B4). split; [by apply Forall_app|]. split; [done|]. unfold try. split.
  - rewrite A3. cbn [mbind option_bind]. by rewrite (proj2 (Z.eqb_neq n1 (-1))).
  - intros r Hr. destruct (A4 r Hr) as (r1 & ok & -> & Hr1 & Hok & Hi1). cbn [mbind option_bind]. destruct ok.
    + rewrite (proj2 (Z.eqb_neq n1 (-1))) by done. destruct (B4 r1 Hr1) as (r2 & ok & -> & Hr2 & Hok2 & Hi2). exists r2, ok. split; [done|].
      split; [done|]. split; [|intros Hi He; apply Hi2; [done|]; destruct Hok as (_ & _ & _ & _ & Hw & _); congruence]. destruct ok; [|done]. eapply appended_trans; [apply Hr|done|done|exact Hok|exact Hok2].
    + exists r1, false. split; [done|]. split; [done|]. split; [done|]. intros Hi He. by specialize (Hi1 Hi He).
Qed.

Lemma saves_write p : Forall is_byte p -> blen p < 2 ^ 63 -> saves (rdbWriteRaw E p) p (blen p).
Proof.
  intros Hp Hl. pose proof (blen_nonneg p) as Hn. assert (Hs : s64 (blen p) = blen p) by (apply wraps_small; zlia).
  split; [done|]. split; [lia|]. unfold rdbWriteRaw. rewrite Hs. split; [done|]. intros r Hr.
  destruct (rioWrite_ok (buf_addr E) r p Hr Hp) as (r' & ok & -> & Hok). by exists r', ok.
Qed.

Lemma saves_type t : is_byte t -> saves (rdbSaveType E t) [t] 1.
Proof. intros Ht. apply saves_write; [by constructor|done]. Qed.

Lemma saves_eq m e e' n n' : saves m e n -> e = e' -> n = n' -> saves m e' n'.
Proof. by intros ? -> ->. Qed.

Lemma consumed_rest (r : rio B) e r' rest : consumed r e r' -> ahead (io r) = e ++ rest -> ahead (io r') = rest.
Proof. intros (_ & _ & -> & _). apply app_inv_head. Qed.

Lemma loads_ret {A} (v : A) : loads (lret v) [] v.
Proof. intros r rest Hr Hc _. exists r. split; [done|]. by apply consumed_nil. Qed.

Lemma loads_bind {A C} (m : load_from A) (k : A -> load_from C) e1 v e2 w :
  loads m e1 v -> loads (k v) e2 w -> loads (lbind m k) (e1 ++ e2) w.
Proof.
  intros Hm Hk r rest Hr Hc Ha. rewrite <- app_assoc in Ha. destruct (Hm r _ Hr Hc Ha) as (r1 & E1 & C1). unfold lbind. rewrite E1.
  cbn [mbind option_bind]. pose proof (consumed_rest _ _ _ _ C1 Ha) as Ha1. pose proof C1 as (Hr1 & Hc1 & _).
  destruct (Hk r1 rest Hr1 Hc1 Ha1) as (r2 & E2 & C2). exists r2. split; [done|]. by eapply rio_consumed_trans.
Qed.

Lemma loads_read e n : n = blen e -> loads (rread E n) e e.
Proof.
  intros -> r rest Hr Hc Ha. destruct (rioRead_next (buf_addr E) r e rest Hr Hc Ha) as (r' & Er & C & _). by exists r'.
Qed.

Lemma loads_at {A} b i c (k : Z -> load_from A) e v : load8 b i = Some c -> loads (k c) e v -> loads (at_ b i k) e v.
Proof. intros Hb Hk r rest Hr Hc Ha. unfold at_. rewrite Hb. cbn [mbind option_bind]. by apply (Hk r rest). Qed.

Lemma loads_pure {A C} (m : option A) x (k : A -> load_from C) e v : m = Some x -> loads (k x) e v -> loads (pure_ m k) e v.
Proof. intros -> Hk r rest Hr Hc Ha. unfold pure_. cbn [mbind option_bind]. by apply (Hk r rest). Qed.

Lemma loads_eq {A} (m : load_from A) e e' v : loads m e v -> e = e' -> loads m e' v.
Proof. by intros ? ->. Qed.

(** ** Lengths *)

Lemma be_encode_length n z : length (be_encode n z) = n.
Proof. unfold be_encode. by rewrite length_reverse, le_encode_length. Qed.

Lemma be_encode_byte n z : Forall is_byte (be_encode n z).
Proof. apply Forall_reverse, le_encode_byte. Qed.

Lemma be_decode_enc n z : is_u (8 * Z.of_nat n) z -> be_decode (be_encode n z) = z.
Proof. intros Hz. unfold be_decode, be_encode. rewrite reverse_involutive, le_decode_enc. by apply Z.mod_small. Qed.

(** The two top bits of the first byte tell the kinds of lengths apart. *)
Lemma len_byte c : is_byte c -> Z.shiftr (Z.land c 0xC0) 6 = c / 64 /\ Z.land c 0x3F = c mod 64.
Proof.
  intros Hc. pose proof (Crc.forall_bytes (fun c => (Z.shiftr (Z.land c 0xC0) 6 =? c / 64) && (Z.land c 0x3F =? c mod 64))
    ltac:(vm_compute; reflexivity) c Hc) as Hx. cbn beta in Hx. lia.
Qed.

Lemma land_255 x : Z.land x 0xFF = x mod 256.
Proof. change 0xFF with (Z.ones 8). by rewrite Z.land_ones by lia. Qed.

Lemma head_load {A} c (k : Z -> load_from A) e v : loads (k c) e v -> loads (let? b := rread E 1 in at_ b 0 k) (c :: e) v.
Proof.
  intros Hk. apply (loads_eq _ ([c] ++ e)); [|done]. eapply loads_bind; [by apply loads_read|]. by eapply loads_at.
Qed.

Lemma loads_type t : loads (rdbLoadType E) [t] t.
Proof. apply head_load, loads_ret. Qed.

(** The encoding of a length. *)
Definition len_code (len : Z) : bytes :=
  if len <? 64 then [len]
  else if len <? 16384 then [64 + len / 256; len mod 256]
  else if len <? 2 ^ 32 then RDB_32BITLEN :: be_encode 4 len
  else RDB_64BITLEN :: be_encode 8 len.

Lemma len_code_length len : 1 <= blen (len_code len) <= 9.
Proof.
  unfold len_code. destruct (len <? 64); [|destruct (len <? 16384); [|destruct (len <? 2 ^ 32)]]; unfold blen; cbn [length];
    rewrite ?be_encode_length; lia.
Qed.

Lemma one_byte_save c n : is_byte c -> n <> -1 -> saves (let! _ := rdbWriteRaw E [c] in ret n) [c] n.
Proof.
  intros Hc Hn. apply (saves_eq _ ([c] ++ []) _ n _); [|done|done].
  eapply saves_try; [by apply saves_write; [constructor|]|by apply saves_ret].
Qed.

Lemma rdbSaveLen_code len : is_u 64 len -> saves (rdbSaveLen E len) (len_code len) (blen (len_code len)).
Proof.
  intros Hl. unfold rdbSaveLen, len_code. change (Z.shiftl 1 6) with 64. change (Z.shiftl 1 14) with 16384.
  rewrite !land_255, Z.shiftr_div_pow2 by lia. change (2 ^ 8) with 256.
  destruct (Z.ltb_spec len 64); [|destruct (Z.ltb_spec len 16384)].
  - change (Z.shiftl RDB_6BITLEN 6) with 0. rewrite Z.lor_0_r, Z.mod_small by (unfold is_u in *; lia). apply one_byte_save; [unfold is_byte, is_u in *; lia|done].
  - assert (Hh : 0 <= len / 256 < 64) by (Z.div_mod_to_equations; lia). rewrite (Z.mod_small (len / 256)) by lia.
    rewrite (lor_shift 6 _ RDB_14BITLEN) by (lia || unfold is_u; lia). unfold RDB_14BITLEN.
    replace (len / 256 + 2 ^ 6 * 1) with (64 + len / 256) by lia. rewrite <- (app_nil_r [_; len mod 256]).
    pose proof (Z.mod_pos_bound len 256 ltac:(lia)).
    eapply saves_try; [apply saves_write; [repeat constructor; unfold is_byte; lia|done]|by apply saves_ret].
  - unfold UINT32_MAX. destruct (Z.leb_spec len (2 ^ 32 - 1)), (Z.ltb_spec len (2 ^ 32)); try lia.
    1: apply (saves_eq _ ([RDB_32BITLEN] ++ be_encode 4 len ++ []) _ (1 + 4) _).
    4: apply (saves_eq _ ([RDB_64BITLEN] ++ be_encode 8 len ++ []) _ (1 + 8) _).
    1, 4: eapply saves_try; [apply saves_write; [repeat constructor; done|done]|]; eapply saves_try; [|by apply saves_ret];
      apply saves_write; [apply be_encode_byte|unfold blen; by rewrite be_encode_length].
    1, 3: by rewrite app_nil_r.
    all: unfold blen; cbn [length]; by rewrite be_encode_length.
Qed.

Lemma rdbLoadLenByRef_code len : is_u 64 len -> loads (rdbLoadLenByRef E) (len_code len) (false, len).
Proof.
  intros Hl. unfold rdbLoadLenByRef, len_code. destruct (Z.ltb_spec len 64); [|destruct (Z.ltb_spec len 16384)].
  - apply head_load. destruct (len_byte len) as [-> ->]; [unfold is_byte, is_u in *; lia|]. rewrite Z.div_small, Z.mod_small by (unfold is_u in *; lia).
    apply loads_ret.
  - assert (Hh : 0 <= len / 256 < 64) by (Z.div_mod_to_equations; lia). apply head_load.
    destruct (len_byte (64 + len / 256)) as [-> ->]; [unfold is_byte; lia|]. replace ((64 + len / 256) / 64) with 1 by (Z.div_mod_to_equations; lia).
    replace ((64 + len / 256) mod 64) with (len / 256) by (Z.div_mod_to_equations; lia). apply head_load.
    pose proof (Z.mod_pos_bound len 256 ltac:(lia)). rewrite Z.lor_comm, lor_shift by (lia || unfold is_u; lia).
    replace (len mod 256 + 2 ^ 8 * (len / 256)) with len by (Z.div_mod_to_equations; lia). apply loads_ret.
  - destruct (Z.ltb_spec len (2 ^ 32)).
    + apply head_load. cbn -[be_encode be_decode loads]. rewrite <- (app_nil_r (be_encode 4 len)).
      eapply loads_bind; [apply loads_read; unfold blen; by rewrite be_encode_length|]. rewrite be_decode_enc by (unfold is_u; lia). apply loads_ret.
    + apply head_load. cbn -[be_encode be_decode loads]. rewrite <- (app_nil_r (be_encode 8 len)).
      eapply loads_bind; [apply loads_read; unfold blen; by rewrite be_encode_length|]. rewrite be_decode_enc by (exact Hl). apply loads_ret.
Qed.

Lemma checked_len_of v e : loads (rdbLoadLenByRef E) e v -> snd v <> RDB_LENERR -> loads (checked_len E) e v.
Proof.
  intros Hv Hne r rest Hr Hc Ha. destruct (Hv r rest Hr Hc Ha) as (r' & Er & C). exists r'. split; [|done].
  unfold checked_len, rdbLoadLen. rewrite Er. cbn [mbind option_bind]. by rewrite (proj2 (Z.eqb_neq _ _) Hne).
Qed.

Lemma checked_len_code len : 0 <= len < RDB_LENERR -> loads (checked_len E) (len_code len) (false, len).
Proof. intros Hl. unfold RDB_LENERR in Hl. apply checked_len_of; [apply rdbLoadLenByRef_code; zlia|cbn; unfold RDB_LENERR; lia]. Qed.

(** The byte that announces a special encoding. *)
Lemma checked_len_enc k : 0 <= k < 4 -> loads (checked_len E) [Z.lor (Z.shiftl RDB_ENCVAL 6) k] (true, k).
Proof.
  intros Hk. apply checked_len_of; [|cbn; unfold RDB_LENERR, UINT64_MAX; lia]. unfold rdbLoadLenByRef. rewrite Z.lor_comm, lor_shift by (lia || unfold is_u; lia).
  apply head_load. unfold RDB_ENCVAL. destruct (len_byte (k + 2 ^ 6 * 3)) as [-> ->]; [unfold is_byte; lia|].
  replace ((k + 2 ^ 6 * 3) / 64) with 3 by (Z.div_mod_to_equations; lia). replace ((k + 2 ^ 6 * 3) mod 64) with k by (Z.div_mod_to_equations; lia).
  apply loads_ret.
Qed.

(** ** Integers *)

Lemma read_integer_le v :
  (is_s 8 v -> loads (read_integer E RDB_ENC_INT8) (le_encode 1 v) v) /\
  (is_s 16 v -> loads (read_integer E RDB_ENC_INT16) (le_encode 2 v) v) /\
  (is_s 32 v -> loads (read_integer E RDB_ENC_INT32) (le_encode 4 v) v).
Proof.
  assert (Hb : forall x, is_u 8 (x mod 256)) by (intros x; unfold is_u; apply Z.mod_pos_bound; lia).
  assert (Hd : forall n w, w = 8 * Z.of_nat n -> 0 < w -> is_s w v -> wraps w (le_decode (le_encode n v)) = v).
  { intros n w -> Hw Hv. rewrite le_decode_enc. fold (wrapu (8 * Z.of_nat n) v). by rewrite wraps_wrapu, wraps_small. }
  split_and!; intros Hv; unfold read_integer; cbn [Z.eqb RDB_ENC_INT8 RDB_ENC_INT16 RDB_ENC_INT32 Pos.eqb].
  all: rewrite <- (app_nil_r (le_encode _ v)); (eapply loads_bind; [apply loads_read; unfold blen; by rewrite le_encode_length|]).
  all: repeat (eapply loads_at; [reflexivity|]).
  - specialize (Hd 1%nat 8 eq_refl eq_refl Hv). cbn [le_encode le_decode] in Hd. rewrite Z.mul_0_r, Z.add_0_r in Hd. rewrite Hd. apply loads_ret.
  - specialize (Hd 2%nat 16 eq_refl eq_refl Hv). cbn [le_encode le_decode] in Hd. rewrite lor_shift by (lia || apply Hb).
    replace (v mod 256 + 2 ^ 8 * (v / 256 mod 256)) with (v mod 256 + 256 * (v / 256 mod 256 + 256 * 0)) by lia. rewrite Hd. apply loads_ret.
  - specialize (Hd 4%nat 32 eq_refl eq_refl Hv). cbn [le_encode le_decode] in Hd. 
    pose proof (Hb v) as H0'. pose proof (Hb (v / 256)) as H1'. pose proof (Hb (v / 256 / 256)) as H2'.
    rewrite (lor_shift 8), (lor_shift 16), (lor_shift 24) by (lia || done || unfold is_u in *; lia).
    match goal with |- loads (lret (s32 ?x)) _ _ => match type of Hd with s32 ?y = _ => replace x with y by lia end end. rewrite Hd. apply loads_ret.
Qed.

Lemma rdbEncodeInteger_ok v :
  rdbEncodeInteger v = [] \/
  exists k body, 0 <= k < 3 /\ rdbEncodeInteger v = [Z.lor (Z.shiftl RDB_ENCVAL 6) k] ++ body /\ is_s 32 v /\
    Forall is_byte body /\ blen body <= 4 /\ loads (read_integer E k) body v.
Proof.
  destruct (read_integer_le v) as (L8 & L16 & L32). unfold rdbEncodeInteger. rewrite !land_255, !Z.shiftr_div_pow2 by lia.
  change (- Z.shiftl 1 7) with (-128). change (Z.shiftl 1 7 - 1) with 127. change (- Z.shiftl 1 15) with (-32768). change (Z.shiftl 1 15 - 1) with 32767.
  change (- Z.shiftl 1 31) with (-2147483648). change (Z.shiftl 1 31 - 1) with 2147483647.
  change (2 ^ 16) with (256 * 256). change (2 ^ 24) with (256 * 256 * 256). change (2 ^ 8) with 256. rewrite <- !Z.div_div by lia.
  destruct ((-128 <=? v) && (v <=? 127)) eqn:E1; [|destruct ((-32768 <=? v) && (v <=? 32767)) eqn:E2; [|destruct ((-2147483648 <=? v) && (v <=? 2147483647)) eqn:E3; [|by left]]].
  all: right.
  - exists RDB_ENC_INT8, (le_encode 1 v). split_and!; [done|done|done|zlia|apply le_encode_byte|done|apply L8; zlia].
  - exists RDB_ENC_INT16, (le_encode 2 v). split_and!; [done|done|done|zlia|apply le_encode_byte|done|apply L16; zlia].
  - exists RDB_ENC_INT32, (le_encode 4 v). split_and!; [done|done|done|zlia|apply le_encode_byte|done|apply L32; zlia].
Qed.

(** ** Strings *)

Definition int_range (o : robj) : Prop := match o with Int _ v => is_s 64 v | _ => True end.

(** What loading a string gives, according to the flags. *)
Definition fits (flags : Z) (s : bytes) (res : loaded * option Z) : Prop :=
  if is_set flags RDB_LOAD_PLAIN then res = (Plain s, Some (blen s))
  else if is_set flags RDB_LOAD_SDS then res = (ASds s, Some (blen s))
  else exists o lenptr, res = (AnObject o, lenptr) /\ obj_string o = s /\ int_range o /\ (is_set flags RDB_LOAD_ENC = false -> o = Raw s).

(** [e] is read back as the string [s]. *)
Definition decodes (s e : bytes) : Prop :=
  forall flags, exists res, loads (rdbGenericLoadStringObject E flags) e res /\ fits flags s res.

Lemma fresh_length n : 0 <= n -> blen (fresh E n) = n.
Proof. apply zrealloc_length. Qed.

Lemma load_integer v e k flags :
  is_s 32 v -> loads (read_integer E k) e v ->
  exists res, loads (rdbLoadIntegerObject E k flags) e res /\ fits flags (sdec v) res.
Proof.
  intros Hv Hl. assert (Hv64 : is_s 64 v) by zlia. pose proof (sdec_length_bound v Hv64) as Hn. unfold rdbLoadIntegerObject, fits, LONG_STR_SIZE.
  assert (Hll : ll2string (fresh E 21) 21 v = Some (blen (sdec v), sdec v ++ 0 :: drop (S (length (sdec v))) (fresh E 21))).
  { rewrite ll2string_spec by (done || rewrite fresh_length; lia). by rewrite (proj2 (Z.ltb_lt _ _)) by lia. }
  destruct (is_set flags RDB_LOAD_PLAIN) eqn:Ep, (is_set flags RDB_LOAD_SDS) eqn:Es; cbn [orb].
  4: destruct (is_set flags RDB_LOAD_ENC).
  all: eexists; (split; [rewrite <- (app_nil_r e); eapply loads_bind; [exact Hl|]; rewrite ?Ep, ?Es|]).
  1, 3, 5: eapply loads_pure; [exact Hll|]; eapply loads_pure; [by apply load_prefix|]; apply loads_ret.
  1, 2, 3: done.
  - apply loads_ret.
  - by eexists _, _.
  - eapply loads_pure; [apply Sdstext.sdsfromlonglong_sdec; zlia|]. apply loads_ret.
  - by eexists _, _.
Qed.

Lemma decodes_integer v : rdbEncodeInteger v <> [] -> decodes (sdec v) (rdbEncodeInteger v).
Proof.
  intros Hne. destruct (rdbEncodeInteger_ok v) as [|(k & body & Hk & -> & Hv & Hb & Hl & Hload)]; [done|].
  intros flags. destruct (load_integer v body k flags Hv Hload) as (res & Hres & Hfit). exists res. split; [|done].
  unfold rdbGenericLoadStringObject. eapply loads_bind; [apply checked_len_enc; lia|]. cbn iota beta.
  replace ((k =? RDB_ENC_INT8) || (k =? RDB_ENC_INT16) || (k =? RDB_ENC_INT32)) with true by (unfold RDB_ENC_INT8, RDB_ENC_INT16, RDB_ENC_INT32; lia).
    done.
Qed.

Hypothesis enough_memory : has_memory E.

Lemma sdstrynewlen_ok n : 0 <= n < 2 ^ 32 -> sdstrynewlen E n = Some true.
Proof.
  intros Hn. unfold sdstrynewlen. set (t := if decide _ then _ else _). pose proof (Sds.hdr_size t) as Ht.
  rewrite !wrapu_small by zlia. rewrite (proj2 (Z.ltb_lt _ _)) by lia. cbn [negb]. by rewrite enough_memory by lia.
Qed.

Lemma read_bytes_ok d : loads (read_bytes E (blen d)) d d.
Proof.
  unfold read_bytes. destruct (Z.eqb_spec (blen d) 0) as [Hd|]; [|by apply loads_read]. destruct d; [|done]. apply loads_ret.
Qed.

Lemma decodes_verbatim s : blen s < 2 ^ 32 -> decodes s (len_code (blen s) ++ s).
Proof.
  intros Hs flags. pose proof (blen_nonneg s) as Hn. unfold rdbGenericLoadStringObject, fits.
  assert (Hst : sdstrynewlen E (blen s) = Some true) by (by apply sdstrynewlen_ok).
  assert (Hmal : ztrymalloc E (blen s) = true) by (apply enough_memory; lia).
  assert (Hread : forall A (k : bytes -> A), loads (let? d := read_bytes E (blen s) in lret (k d)) s (k s)).
  { intros A k. rewrite <- (app_nil_r s) at 2. eapply loads_bind; [apply read_bytes_ok|apply loads_ret]. }
  destruct (is_set flags RDB_LOAD_PLAIN) eqn:Ep, (is_set flags RDB_LOAD_SDS) eqn:Es; cbn [orb].
  4: destruct (is_set flags RDB_LOAD_ENC) eqn:Ee; cbn [andb].
  4: destruct (Z.leb_spec (blen s) OBJ_ENCODING_EMBSTR_SIZE_LIMIT) as [Hem|Hem].
  all: eexists; (split; [eapply loads_bind; [apply checked_len_code; unfold RDB_LENERR, UINT64_MAX; lia|]; cbn iota beta|]).
  1, 3: eapply loads_pure; [by rewrite Hmal|]; cbn [negb]; exact (Hread _ (fun d => (Plain d, Some (blen s)))).
  3: eapply loads_pure; [exact Hst|]; cbn [negb]; exact (Hread _ (fun d => (ASds d, Some (blen s)))).
  1, 2, 3: done.
  - rewrite (proj2 (Z.leb_le _ _)) by done. exact (Hread _ (fun d => (AnObject (Embstr d), None))).
  - by eexists _, _.
  - rewrite (proj2 (Z.leb_gt _ _)) by done. eapply loads_pure; [exact Hst|]. cbn [negb]. exact (Hread _ (fun d => (AnObject (Raw d), None))).
  - by eexists _, _.
  - eapply loads_pure; [exact Hst|]. cbn [negb]. exact (Hread _ (fun d => (AnObject (Raw d), None))).
  - by eexists _, _.
Qed.

(** A compressed string. *)
Definition lzf_blob (data : bytes) (len : Z) : bytes :=
  [Z.lor (Z.shiftl RDB_ENCVAL 6) RDB_ENC_LZF] ++ len_code (blen data) ++ len_code len ++ data.

Lemma load_lzf data s flags :
  Lzf.codes data s -> blen data < 2 ^ 32 -> blen s < 2 ^ 32 ->
  loads (rdbLoadLzfStringObject E flags) (len_code (blen data) ++ len_code (blen s) ++ data)
    (if is_set flags RDB_LOAD_PLAIN then Plain s else if is_set flags RDB_LOAD_SDS then ASds s else AnObject (Raw s), Some (blen s)).
Proof.
  intros Hc Hd Hs. pose proof (blen_nonneg s) as Hsn. pose proof (blen_nonneg data) as Hdn. unfold rdbLoadLzfStringObject.
  eapply loads_bind; [apply checked_len_code; unfold RDB_LENERR, UINT64_MAX; lia|]. cbn [snd].
  eapply loads_bind; [apply checked_len_code; unfold RDB_LENERR, UINT64_MAX; lia|]. cbn [snd]. unfold ztrymalloc.
  rewrite !enough_memory by lia. cbn [negb]. eapply (loads_pure _ true); [by rewrite sdstrynewlen_ok by lia; destruct (is_set _ _)|]. cbn [negb].
  apply (loads_eq _ (data ++ [])); [|by rewrite app_nil_r]. eapply loads_bind; [by apply loads_read|]. eapply (loads_pure _ (blen s, s)).
  - rewrite !wrapu_small by zlia. rewrite take_ge by blia. pose proof (fresh_length (blen s) Hsn) as Hf.
    rewrite <- Hf at 1. rewrite (Lzf.decompress_codes data s) by (done || unfold blen in *; lia).
    rewrite drop_ge by (unfold blen in *; lia). by rewrite app_nil_r.
  - rewrite Z.eqb_refl. apply loads_ret.
Qed.

Lemma decodes_lzf data s :
  Lzf.codes data s -> blen data < 2 ^ 32 -> blen s < 2 ^ 32 -> decodes s (lzf_blob data (blen s)).
Proof.
  intros Hc Hd Hs flags. unfold rdbGenericLoadStringObject, fits, lzf_blob. eexists. split.
  - eapply loads_bind; [by apply checked_len_enc|]. by apply load_lzf.
  - destruct (is_set flags RDB_LOAD_PLAIN); [done|]. destruct (is_set flags RDB_LOAD_SDS); [done|]. by eexists _, _.
Qed.

End Spec.

(** [e] is an encoding of the string [s]: any instance with enough memory, whatever its
    configuration and the stream it reads from, loads the string from it. *)
Definition encodes (s e : bytes) : Prop :=
  forall E (B : Type) (HB : RioBackend B) (HS : RioStream B), has_memory E -> decodes (B := B) E s e.

Lemma encodes_integer v :
  rdbEncodeInteger v <> [] -> Forall is_byte (rdbEncodeInteger v) /\ blen (rdbEncodeInteger v) <= 5 /\ encodes (sdec v) (rdbEncodeInteger v).
Proof.
  intros Hne. split; [|split]; [| |intros E B HB HS Hm; by apply decodes_integer].
  - unfold rdbEncodeInteger. rewrite !land_255.
    repeat case_match; repeat (apply Forall_cons_2; [first [apply Z.mod_pos_bound; lia|split; done]|]); apply Forall_nil_2.
  - unfold rdbEncodeInteger. by repeat case_match.
Qed.

Lemma encodes_verbatim s : blen s < 2 ^ 32 -> encodes s (len_code (blen s) ++ s).
Proof. intros Hs E B HB HS Hm. by apply decodes_verbatim. Qed.

Lemma encodes_lzf data s :
  Lzf.codes data s -> blen data < 2 ^ 32 -> blen s < 2 ^ 32 -> encodes s (lzf_blob data (blen s)).
Proof. intros Hc Hd Hs E B HB HS Hm. by apply decodes_lzf. Qed.

(** ** Saving strings and string values *)

Section Saving.

Context (E : env) {B : Type} `{RioStream B}.

(** The hash table of the compressor is one of 32-bit words. *)
Hypothesis htab_words : forall i, is_u 32 (htab E i).

Lemma saves_ext m m' e n : (forall rdb, m rdb = m' rdb) -> saves m' e n -> saves m e n.
Proof. intros Hm (A1 & A2 & A3 & A4). split_and!; [done|done|by rewrite Hm|]. intros r Hr. rewrite Hm. auto. Qed.

Lemma rdbSaveLzfBlob_ok data len :
  Forall is_byte data -> blen data < 2 ^ 32 -> is_u 64 len -> saves (rdbSaveLzfBlob E data len) (lzf_blob data len) (blen (lzf_blob data len)).
Proof.
  intros Hb Hd Hl. pose proof (blen_nonneg data) as Hdn. pose proof (len_code_length len). pose proof (len_code_length (blen data)).
  apply (saves_eq (rdbSaveLzfBlob E data len) ([Z.lor (Z.shiftl RDB_ENCVAL 6) RDB_ENC_LZF] ++ len_code (blen data) ++ len_code len ++ data ++ []) _
    (1 + blen (len_code (blen data)) + blen (len_code len) + blen data) _); [|unfold lzf_blob; by rewrite app_nil_r|unfold lzf_blob; blia].
  unfold rdbSaveLzfBlob. eapply saves_try; [apply saves_write; [by repeat constructor|done]|].
  eapply saves_try; [apply rdbSaveLen_code; zlia|]. eapply saves_try; [by apply rdbSaveLen_code|].
  eapply saves_try; [apply saves_write; [done|lia]|]. apply saves_ret. change (blen [_]) with 1. lia.
Qed.

(** The compressor gives up, or writes an encoding. *)
Lemma rdbSaveLzfStringObject_ok s :
  Forall is_byte s -> blen s < 2 ^ 32 ->
  (forall rdb, rdbSaveLzfStringObject (B := B) E s rdb = Some (rdb, 0)) \/
  exists e, saves (rdbSaveLzfStringObject E s) e (blen e) /\ encodes s e /\ 0 < blen e <= blen s + 19.
Proof.
  intros Hb Hs. pose proof (blen_nonneg s). unfold rdbSaveLzfStringObject. destruct (Z.leb_spec (blen s) 4); [by left|].
  rewrite !wrapu_small by zlia. rewrite take_ge by blia. pose proof (fresh_length E (blen s - 4) ltac:(lia)) as Hf.
  destruct (Lzf.compress_ok s (blen s - 4) Hb ltac:(lia) (htab E) (fresh E (blen s - 4)) htab_words Hf) as (n & o' & Ec & Ho & Hn & Hc & _).
  rewrite Ec. cbn [mbind option_bind]. destruct (Z.eqb_spec n 0) as [|Hn0]; [by left|]. right. specialize (Hc ltac:(lia)).
  rewrite load_Some by lia. rewrite drop_0. set (data := take (Z.to_nat n) o') in *. cbn [mbind option_bind].
  assert (Hd : blen data = n) by (unfold data, blen in *; rewrite length_take; lia).
  exists (lzf_blob data (blen s)). split; [|split].
  - apply (saves_ext _ (rdbSaveLzfBlob E data (blen s))); [done|]. apply rdbSaveLzfBlob_ok; [by eapply Lzf.codes_bytes|lia|zlia].
  - apply encodes_lzf; [done|lia|done].
  - unfold lzf_blob. pose proof (len_code_length (blen s)). pose proof (len_code_length (blen data)). rewrite !blen_app. change (blen [_]) with 1. lia.
Qed.

Lemma sdec_bytes v : Forall (fun c => is_byte c /\ c <> 0) (sdec v).
Proof.
  unfold is_byte. destruct (proj1 (sdec_shapes v (sdec v)) eq_refl) as [[_ ->]|(c & ds & -> & Hc & Hd & _)]; [repeat constructor; lia|].
  apply Forall_app. split; [destruct (v <? 0); repeat constructor; lia|]. constructor; [lia|]. eapply Forall_impl; [exact Hd|].
  intros x Hx. apply is_digit_spec in Hx. lia.
Qed.

Lemma digit_sdec v : 0 ∉ sdec v.
Proof.
  intros Hin. apply list_elem_of_lookup in Hin as [i Hi]. by apply (Forall_lookup_1 _ _ _ _ (sdec_bytes v)) in Hi as [_ Hi].
Qed.

Lemma rdbTryIntegerEncoding_ok s :
  exists enc, rdbTryIntegerEncoding E (s ++ [0]) (blen s) = Some enc /\ (enc = [] \/ exists v, s = sdec v /\ enc = rdbEncodeInteger v).
Proof.
  unfold rdbTryIntegerEncoding. pose proof (Sdstext.strtoll_range (s ++ [0])) as Hv. pose proof (Sdstext.strtoll_end s []) as Hend.
  destruct (Sdstext.strtoll (s ++ [0])) as [v n]. cbn [fst snd] in *.
  destruct (lookup_lt_is_Some_2 (s ++ [0]) (Z.to_nat n)) as [c Hc]; [rewrite length_app; cbn; blia|].
  rewrite (load8_Some _ _ c) by (lia || done). cbn [mbind option_bind]. destruct (c =? 0); cbn [negb]; [|by eexists; split; [|left]].
  pose proof (sdec_length_bound v Hv) as Hn. rewrite ll2string_spec by (done || rewrite fresh_length; lia). rewrite (proj2 (Z.ltb_lt _ _)) by lia.
  cbn [mbind option_bind snd]. rewrite Resp.strchr_app by (by apply digit_sdec). cbn [mbind option_bind].
  destruct (Z.eqb_spec (blen (sdec v)) (blen s)) as [Hl|]; cbn [negb]; [|by eexists; split; [|left]].
  rewrite load_prefix by done. rewrite load_prefix by done. cbn [mbind option_bind].
  case_bool_decide as Hs; cbn [negb]; (eexists; split; [done|]); [|by left]. right. by exists v.
Qed.

Lemma saves_verbatim s :
  Forall is_byte s -> blen s < 2 ^ 32 ->
  saves (let! n := rdbSaveLen E (blen s) in if 0 <? blen s then let! _ := rdbWriteRaw E s in ret (n + blen s) else ret n)
    (len_code (blen s) ++ s) (blen (len_code (blen s) ++ s)).
Proof.
  intros Hb Hs. pose proof (blen_nonneg s). pose proof (len_code_length (blen s)). eapply saves_try; [apply rdbSaveLen_code; zlia|].
  destruct (Z.ltb_spec 0 (blen s)).
  - eapply saves_eq; [eapply saves_try; [apply saves_write; [done|lia]|apply saves_ret; lia]|by rewrite app_nil_r|by rewrite blen_app].
  - destruct s; [|blia]. rewrite app_nil_r. apply saves_ret. lia.
Qed.

Lemma integer_enc s :
  exists enc, (if blen s <=? 11 then rdbTryIntegerEncoding E (s ++ [0]) (blen s) else Some []) = Some enc /\
    (enc = [] \/ exists v, s = sdec v /\ enc = rdbEncodeInteger v).
Proof. destruct (blen s <=? 11); [apply rdbTryIntegerEncoding_ok|]. by eexists; split; [|left]. Qed.

(** A string is written as one of its encodings. *)
Lemma rdbSaveRawString_ok s :
  Forall is_byte s -> blen s < 2 ^ 32 ->
  exists e, saves (rdbSaveRawString E s) e (blen e) /\ encodes s e /\ 0 < blen e <= blen s + 19.
Proof.
  intros Hb Hs. pose proof (blen_nonneg s) as Hsn. destruct (integer_enc s) as (enc & Henc & Hcase). unfold rdbSaveRawString. rewrite Henc.
  destruct (decide (enc = [])) as [->|Hne].
  - assert (Hverb : forall m, (forall rdb, m rdb = (let! n := rdbSaveLen E (blen s) in if 0 <? blen s then let! _ := rdbWriteRaw E s in ret (n + blen s) else ret n) rdb) ->
      exists e, saves m e (blen e) /\ encodes s e /\ 0 < blen e <= blen s + 19).
    { intros m Hm. exists (len_code (blen s) ++ s). split; [eapply saves_ext; [exact Hm|]; by apply saves_verbatim|]. split; [by apply encodes_verbatim|].
      pose proof (len_code_length (blen s)). rewrite blen_app. lia. }
    cbn [mbind option_bind]. change (0 <? blen []) with false. cbn iota. destruct (rdb_compression E && (20 <? blen s)); [|by apply Hverb].
    destruct (rdbSaveLzfStringObject_ok s Hb Hs) as [Hz|(e & Hsv & He & Hl)].
    + apply Hverb. intros rdb. by rewrite Hz.
    + exists e. split; [|done]. rewrite <- (app_nil_r e) at 1.
      eapply saves_ext; [|eapply (saves_try _ (fun n => if 0 <? n then ret n else
        let! n := rdbSaveLen E (blen s) in if 0 <? blen s then let! _ := rdbWriteRaw E s in ret (n + blen s) else ret n)); [exact Hsv|]].
      * intros rdb. unfold try at 3. cbn [mbind option_bind]. destruct (rdbSaveLzfStringObject E s rdb) as [[r n]|]; [|done]. cbn [mbind option_bind].
        destruct (n =? -1); [done|]. by destruct (0 <? n).
      * rewrite (proj2 (Z.ltb_lt _ _)) by lia. apply saves_ret. lia.
  - destruct Hcase as [|(v & -> & ->)]; [done|]. destruct (encodes_integer v Hne) as (Hby & Hl & He). exists (rdbEncodeInteger v).
    assert (Hpos : 0 < blen (rdbEncodeInteger v)) by (destruct (rdbEncodeInteger v); [done|blia]). split; [|split; [done|]].
    + cbn [mbind option_bind]. rewrite (proj2 (Z.ltb_lt _ _)) by done.
      eapply saves_ext; [done|]. eapply saves_eq; [eapply saves_try; [apply saves_write; [done|lia]|apply saves_ret; lia]|apply app_nil_r|done].
    + lia.
Qed.

Lemma rdbSaveLongLong_ok v :
  is_s 64 v -> exists e, saves (rdbSaveLongLongAsStringObject E v) e (blen e) /\ encodes (sdec v) e /\ 0 < blen e < 2 ^ 33.
Proof.
  intros Hv. unfold rdbSaveLongLongAsStringObject. destruct (decide (rdbEncodeInteger v = [])) as [->|Hne].
  - pose proof (sdec_length_bound v Hv) as Hn. change (0 <? blen []) with false. cbn iota.
    rewrite ll2string_spec by (done || rewrite fresh_length; lia). rewrite (proj2 (Z.ltb_lt _ 32)) by lia. cbn [mbind option_bind].
    rewrite (proj2 (Z.ltb_lt _ 32)) by lia. cbn [negb]. rewrite load_prefix by done. cbn [mbind option_bind].
    exists (len_code (blen (sdec v)) ++ sdec v). pose proof (len_code_length (blen (sdec v))). split; [|split; [apply encodes_verbatim; lia|rewrite blen_app; lia]].
    eapply saves_ext; [done|]. eapply saves_eq.
    + eapply saves_try; [apply rdbSaveLen_code; zlia|]. eapply saves_try; [apply saves_write; [|lia]|apply saves_ret; lia].
      eapply Forall_impl; [apply sdec_bytes|tauto].
    + by rewrite app_nil_r.
    + by rewrite blen_app.
  - destruct (encodes_integer v Hne) as (Hby & Hl & He). exists (rdbEncodeInteger v).
    assert (0 < blen (rdbEncodeInteger v)) by (destruct (rdbEncodeInteger v); [done|blia]). split; [|split; [done|lia]].
    rewrite (proj2 (Z.ltb_lt _ _)) by done. eapply saves_ext; [done|]. apply saves_write; [done|lia].
Qed.

(** ** String values *)

(** What a string object holds in memory. *)
Definition obj_ok (o : robj) : Prop :=
  match o with Raw s | Embstr s => Forall is_byte s /\ blen s < 2 ^ 32 | Int _ v => is_s 64 v end.

Lemma rdbSaveStringObject_ok o :
  obj_ok o -> exists e, saves (rdbSaveStringObject E o) e (blen e) /\ encodes (obj_string o) e /\ 0 < blen e < 2 ^ 33.
Proof.
  destruct o as [s|s|sh v]; cbn [obj_ok obj_string rdbSaveStringObject].
  1, 2: intros [Hb Hs]; destruct (rdbSaveRawString_ok s Hb Hs) as (e & ? & ? & ?); exists e; split_and!; (done || lia).
  apply rdbSaveLongLong_ok.
Qed.

Lemma loads_object flags s e :
  is_set flags RDB_LOAD_PLAIN = false -> is_set flags RDB_LOAD_SDS = false -> decodes E s e ->
  exists o, loads (let? res := rdbGenericLoadStringObject E flags in as_object res) e o /\ obj_string o = s /\ int_range o /\
    (is_set flags RDB_LOAD_ENC = false -> o = Raw s).
Proof.
  intros Hp Hs He. destruct (He flags) as (res & Hl & Hf). unfold fits in Hf. rewrite Hp, Hs in Hf.
  destruct Hf as (o & lp & -> & Ho & Hr). exists o. split; [|done]. eapply loads_eq; [eapply loads_bind; [exact Hl|apply loads_ret]|apply app_nil_r].
Qed.

(** A string object is encoded as an integer exactly when its text is one. *)
Definition best_encoding (o : robj) : Prop :=
  match o with
  | Int sh v => is_s 64 v
  | Raw s | Embstr s => forall v, is_s 64 v -> s <> sdec v
  end.

Lemma string2l_ok s : exists res, string2l (s ++ [0]) (blen s) = Some res /\ forall v, res = Some v <-> is_s 64 v /\ s = sdec v.
Proof.
  unfold string2l. destruct (string2ll_spec (s ++ [0]) (blen s)) as (r & -> & Hr); [rewrite blen_app; change (blen [0]) with 1; blia|].
  assert (Ht : take (Z.to_nat (blen s)) (s ++ [0]) = s) by (unfold blen; by rewrite Nat2Z.id, take_app_length). cbn [mbind option_bind].
  destruct r as [v|].
  - assert (Hv : is_s 64 v /\ take (Z.to_nat (blen s)) (s ++ [0]) = sdec v) by (by apply Hr).
    replace ((v <? INT64_MIN) || (INT64_MAX <? v)) with false by (destruct Hv; zlia). eexists. split; [done|]. intros v'. rewrite <- Ht at 1. apply Hr.
  - eexists. split; [done|]. intros v'. rewrite <- Ht at 1. apply Hr.
Qed.

Lemma tryObjectEncoding_ok o :
  int_range o ->
  exists o', tryObjectEncoding E 1 o = Some o' /\ obj_string o' = obj_string o /\ best_encoding o'.
Proof.
  intros Hint. destruct o as [s|s|sh v]; cbn [tryObjectEncoding]; [| |by eexists].
  all: change (1 <? 1) with false; cbn iota.
  all: assert (exists res, (if blen s <=? 20 then string2l (s ++ [0]) (blen s) else Some None) = Some res /\ forall v, res = Some v <-> is_s 64 v /\ s = sdec v) as (res & -> & Hres)
    by (destruct (Z.leb_spec (blen s) 20); [apply string2l_ok|]; eexists; (split; [done|]); intros v; split; [done|]; intros [Hv ->];
        pose proof (sdec_length_bound v Hv); lia).
  all: cbn [mbind option_bind]; destruct res as [v|].
  1, 3: destruct (proj1 (Hres v) eq_refl) as [Hv ->].
  1: destruct (negb (no_shared_integers E) && (0 <=? v) && (v <? OBJ_SHARED_INTEGERS)); by eexists.
  1: destruct (negb (no_shared_integers E) && (0 <=? v) && (v <? OBJ_SHARED_INTEGERS)); by eexists.
  all: destruct (blen s <=? OBJ_ENCODING_EMBSTR_SIZE_LIMIT); (eexists; split; [done|]; split; [done|]); intros v Hv Hs; by assert (None = Some v) by (by apply Hres).
Qed.

Lemma rdbLoadObject_ok s e :
  decodes E s e -> exists o, loads (rdbLoadObject E RDB_TYPE_STRING) e o /\ obj_string o = s /\ best_encoding o.
Proof.
  intros He. destruct (loads_object RDB_LOAD_ENC s e eq_refl eq_refl He) as (o & Hl & Ho & Hr & _).
  destruct (tryObjectEncoding_ok o Hr) as (o' & Ht & Ho' & Hb). exists o'. split; [|split; [by rewrite Ho'|done]].
  unfold rdbLoadObject. rewrite Z.eqb_refl. eapply loads_eq; [|apply app_nil_r]. eapply loads_bind; [exact Hl|].
  eapply loads_pure; [exact Ht|]. apply loads_ret.
Qed.

Lemma saves_object o e n : saves (rdbSaveStringObject E o) e n -> saves (rdbSaveObject E o) e n.
Proof.
  intros Hs. eapply saves_eq; [|apply app_nil_r|done]. unfold rdbSaveObject. eapply saves_try; [exact Hs|]. apply saves_ret. apply Hs.
Qed.

End Saving.

(** ** DUMP and RESTORE *)

Lemma buffer_infallible : infallible (B := rio_buffer).
Proof. done. Qed.

(** Saving to memory. *)
Lemma saves_buffer (m : save (B := rio_buffer)) e n r :
  saves m e n -> rio_ok r -> write_error r = false -> exists r', m (Some r) = Some (Some r', n) /\ appended r e r'.
Proof.
  intros (_ & _ & _ & Hm) Hr He. destruct (Hm r Hr) as (r' & ok & E1 & _ & Hok & Hi). rewrite (Hi buffer_infallible He) in *. by exists r'.
Qed.

Section Dump.

Context (E : env).
Hypothesis enough_memory : has_memory E.
Hypothesis htab_words : forall i, is_u 32 (htab E i).

(** The payload of a string object. *)
Definition payload_of (e : bytes) : bytes :=
  let p := RDB_TYPE_STRING :: e ++ [9; 0] in p ++ le_encode 8 (Crc.crc64 0 0 p).

Lemma fresh_buffer d : blen d < 2 ^ 64 -> rio_ok (rioInitWithBuffer d) /\ (Forall is_byte d -> can_read (rioInitWithBuffer d)).
Proof. intros Hd. pose proof (blen_nonneg d). split; [by split; [split|]|]. intros Hb. split; [done|]. split; [cbn; lia|]. by change (ahead (io (rioInitWithBuffer d))) with (drop 0 d). Qed.

Lemma crc_of p a : Forall is_byte p -> Crc.crc64 0 a p = Crc.crc64 0 0 p /\ is_u 64 (Crc.crc64 0 a p).
Proof. intros Hp. split; [apply crc64_addr|apply crc64_u]; (done || zlia). Qed.

Lemma createDumpPayload_ok o :
  obj_ok o -> exists e, createDumpPayload E o = Some (payload_of e) /\ Forall is_byte e /\ blen e < 2 ^ 33 /\
    encodes (obj_string o) e.
Proof.
  intros Ho. destruct (rdbSaveStringObject_ok (B := rio_buffer) E htab_words o Ho) as (e & Hs & He & Hl). exists e. split; [|split; [apply Hs|split; [lia|done]]].
  unfold createDumpPayload, rdbSaveObjectType. destruct (fresh_buffer []) as [Hr _]; [done|].
  destruct (saves_buffer _ _ _ (rioInitWithBuffer []) (saves_type E RDB_TYPE_STRING ltac:(done)) Hr eq_refl) as (r1 & -> & A1).
  cbn [mbind option_bind Z.eqb]. pose proof A1 as (Hr1 & Hw1 & _ & _ & He1 & _).
  destruct (saves_buffer _ _ _ r1 (saves_object E o e _ Hs) Hr1 He1) as (r2 & -> & (_ & Hw2 & _)). cbn [mbind option_bind].
  rewrite (proj2 (Z.eqb_neq _ 0)) by lia. cbn [mbind option_bind]. cbn [written buffer_stream] in *. rewrite Hw2, Hw1. cbn [ptr io rioInitWithBuffer app].
  change [Z.land RDB_VERSION 255; Z.land (Z.shiftr RDB_VERSION 8) 255] with [9; 0]. unfold payload_of.
  assert (Hb : Forall is_byte (RDB_TYPE_STRING :: e ++ [9; 0])).
  { constructor; [done|]. apply Forall_app. split; [apply Hs|by repeat constructor]. }
  by destruct (crc_of _ (buf_addr E 0) Hb) as [-> _].
Qed.

(** What is verified: the version and the checksum of all but the last eight bytes. *)
Lemma verify_shape skip body f0 f1 sum :
  Forall is_byte (body ++ [f0; f1]) -> length sum = 8%nat ->
  verifyDumpPayload E skip ((body ++ [f0; f1]) ++ sum) =
    Some ((f1 * 256 + f0 <=? RDB_VERSION) && (skip || bool_decide (le_encode 8 (Crc.crc64 0 0 (body ++ [f0; f1])) = sum))).
Proof.
  intros Hb Hs. unfold verifyDumpPayload. assert (Hl : blen ((body ++ [f0; f1]) ++ sum) = blen body + 10) by blia. rewrite Hl.
  pose proof (blen_nonneg body). rewrite (proj2 (Z.ltb_ge _ _)) by lia. replace (blen body + 10 - 10) with (blen body) by lia.
  apply Forall_app in Hb as Hb'. destruct Hb' as [Hb1 Hb2]. apply Forall_cons_1 in Hb2 as [H0 Hb2]. apply Forall_cons_1 in Hb2 as [H1 _]. unfold is_byte in H0, H1.
  replace (load8 _ (blen body + 1)) with (Some f1).
  2: { symmetry. rewrite <- app_assoc. change ([f0; f1] ++ sum) with ([f0] ++ f1 :: sum). rewrite app_assoc. apply load8_app_mid. blia. }
  replace (load8 _ (blen body)) with (Some f0) by (symmetry; rewrite <- app_assoc; by apply load8_app_mid). cbn [mbind option_bind].
  rewrite Z.lor_comm, lor_shift by (unfold is_u; lia). rewrite wrapu_small by (unfold is_u; lia). change (2 ^ 8) with 256.
  replace (f0 + 256 * f1) with (f1 * 256 + f0) by lia. destruct (Z.ltb_spec RDB_VERSION (f1 * 256 + f0)).
  { by rewrite (proj2 (Z.leb_gt _ _)) by lia. }
  rewrite (proj2 (Z.leb_le _ _)) by lia. destruct skip; [done|]. rewrite load_prefix by blia.
  replace (load _ (blen body + 2) 8) with (Some sum).
  2: { symmetry. rewrite <- (app_nil_r sum) at 1. apply Lzf.load_mid; blia. }
  cbn [mbind option_bind andb orb]. by destruct (crc_of _ (buf_addr E 0) Hb) as [-> _].
Qed.

Lemma verify_payload skip e : Forall is_byte e -> verifyDumpPayload E skip (payload_of e) = Some true.
Proof.
  intros He. unfold payload_of. change (RDB_TYPE_STRING :: e ++ [9; 0]) with ((RDB_TYPE_STRING :: e) ++ [9; 0]).
  rewrite verify_shape; [|by apply Forall_app; split; [constructor|repeat constructor]|apply le_encode_length].
  rewrite bool_decide_true by done. by destruct skip.
Qed.

Lemma restore_payload skip s e :
  Forall is_byte e -> blen e < 2 ^ 33 -> encodes s e ->
  exists o, restore_object E skip (payload_of e) = Some (Some o) /\ obj_string o = s /\ best_encoding o.
Proof.
  intros Hb Hl He. unfold restore_object. rewrite verify_payload by done. cbn [mbind option_bind negb].
  destruct (rdbLoadObject_ok (B := rio_buffer) E s e (He E _ _ _ enough_memory)) as (o & Ho & Hs & Hbest). exists o. split; [|done].
  assert (Hload : loads (B := rio_buffer) (let? type := rdbLoadObjectType E in rdbLoadObject E type) (RDB_TYPE_STRING :: e) o).
  { change (RDB_TYPE_STRING :: e) with ([RDB_TYPE_STRING] ++ e). eapply loads_bind; [|exact Ho]. unfold rdbLoadObjectType.
    eapply (loads_bind _ _ [RDB_TYPE_STRING] _ []); [apply loads_type|]. apply loads_ret. }
  assert (Hp : Forall is_byte (payload_of e) /\ blen (payload_of e) < 2 ^ 64).
  { unfold payload_of. split; [|rewrite blen_app; unfold blen in *; cbn [length]; rewrite length_app, le_encode_length; cbn [length]; lia].
    apply Forall_app. split; [|apply le_encode_byte]. constructor; [done|]. apply Forall_app. split; [done|by repeat constructor]. }
  destruct Hp as [Hp1 Hp2]. destruct (fresh_buffer _ Hp2) as [Hr Hc].
  destruct (Hload (rioInitWithBuffer (payload_of e)) ([9; 0] ++ le_encode 8 (Crc.crc64 0 0 (RDB_TYPE_STRING :: e ++ [9; 0]))) Hr (Hc Hp1)) as (r' & -> & _).
  - change (ahead _) with (drop 0 (payload_of e)). rewrite drop_0. unfold payload_of. by rewrite !app_comm_cons, <- !app_assoc.
  - done.
Qed.

Lemma verify_false q sum :
  Forall is_byte q -> (2 <= length q)%nat -> length sum = 8%nat -> le_encode 8 (Crc.crc64 0 0 q) <> sum ->
  verifyDumpPayload E false (q ++ sum) = Some false.
Proof.
  intros Hq Hl Hs Hne.
  assert (exists body f0 f1, q = body ++ [f0; f1]) as (body & f0 & f1 & ->).
  { pose proof (take_drop (length q - 2) q) as Hsplit. pose proof (length_drop q (length q - 2)) as Hd.
    destruct (drop (length q - 2) q) as [|f0 [|f1 [|]]]; cbn in Hd; try lia. by exists (take (length q - 2) q), f0, f1. }
  rewrite verify_shape by done. rewrite bool_decide_false by done. by rewrite andb_false_r.
Qed.

Lemma le_encode_inj x y : is_u 64 x -> is_u 64 y -> le_encode 8 x = le_encode 8 y -> x = y.
Proof. intros Hx Hy Heq. apply (f_equal le_decode) in Heq. rewrite !le_decode_enc in Heq. by rewrite !Z.mod_small in Heq. Qed.

(** A change confined to eight bytes, before the checksum or in it, is detected. *)
Lemma corruption_detected q a w w' b :
  Forall is_byte q -> (2 <= length q)%nat -> q ++ le_encode 8 (Crc.crc64 0 0 q) = a ++ w ++ b ->
  Forall is_byte w' -> length w' = length w -> (length w <= 8)%nat -> w' <> w -> (8 <= length b \/ length (w ++ b) <= 8)%nat ->
  verifyDumpPayload E false (a ++ w' ++ b) = Some false.
Proof.
  intros Hq Hl Hp Hw' Hlen H8 Hne [Hb|Hb]; pose proof (f_equal length Hp) as Hlp; rewrite !length_app, le_encode_length in Hlp; rewrite ?length_app in Hb.
  - assert (exists b1 sum, b = b1 ++ sum /\ length sum = 8%nat) as (b1 & sum & -> & Hsum).
    { exists (take (length b - 8) b), (drop (length b - 8) b). rewrite take_drop, length_drop. split; [done|lia]. }
    rewrite !app_assoc in Hp. apply app_inj_2 in Hp as [-> <-]; [|by rewrite le_encode_length]. rewrite <- !app_assoc in *.
    rewrite !app_assoc. rewrite !Forall_app in Hq. destruct Hq as (Ha & Hw & Hb1). rewrite !length_app in Hl.
    apply verify_false; [by rewrite !Forall_app|rewrite !length_app; lia|apply le_encode_length|]. rewrite <- app_assoc. intros Heq.
    apply le_encode_inj in Heq; [|apply crc64_u; (zlia || by rewrite !Forall_app)..].
    apply Hne. rewrite <- app_assoc in Heq. by apply (Crc.crc64_burst 0 0 0 a w' w b1); (zlia || lia || done).
  - rewrite <- (take_drop (length q) a) in Hp |- *. rewrite <- app_assoc in Hp |- *. apply app_inj_1 in Hp as [Hqa Hs]; [|rewrite length_take; lia].
    rewrite <- Hqa. apply verify_false; [done|done| |].
    + rewrite !length_app, length_drop. lia.
    + rewrite Hs. intros Heq. apply app_inv_head, app_inj_1 in Heq as [? _]; [by apply Hne|done].
Qed.

End Dump.

(** C14: DUMP and RESTORE, as MIGRATE uses them between two instances. For every string
    object, whatever its encoding in memory and the configuration of the instances, the
    payload DUMP produces is accepted by RESTORE on the other instance and gives an object with the same bytes, encoded as an integer exactly when
    they are the text of one.  If eight consecutive bytes of the payload or less are
    changed, either before the checksum or inside of it, RESTORE answers with an
    error. *)
Theorem dump_restore E E' o :
  has_memory E' -> (forall i, is_u 32 (htab E i)) -> obj_ok o ->
  exists p, createDumpPayload E o = Some p /\
    (forall skip, exists o', restore_object E' skip p = Some (Some o') /\ obj_string o' = obj_string o /\ best_encoding o') /\
    (forall a w w' b, p = a ++ w ++ b -> Forall is_byte w' -> length w' = length w -> (length w <= 8)%nat -> w' <> w ->
      (8 <= length b \/ length (w ++ b) <= 8)%nat -> restore_object E' false (a ++ w' ++ b) = Some None).
Proof.
  intros Hmem Htab Ho. destruct (createDumpPayload_ok E Htab o Ho) as (e & Hp & Hb & Hl & He). exists (payload_of e). split; [done|]. split.
  - intros skip. by apply (restore_payload E' Hmem skip (obj_string o) e).
  - intros a w w' b Heq Hw' Hlen H8 Hne Hpos. unfold restore_object.
    rewrite (corruption_detected E' (RDB_TYPE_STRING :: e ++ [9; 0]) a w w' b); try done.
    + constructor; [done|]. apply Forall_app. split; [done|by repeat constructor].
    + cbn [length]. rewrite length_app. cbn. lia.
Qed.

(** ** Loading anything *)

Section Robust.

Context (E : env) {B : Type} `{RioStream B}.

(** The stream announces a string with a length close to the largest 64-bit number. *)
Definition huge (d : bytes) : Prop :=
  exists pre len post, d = pre ++ RDB_64BITLEN :: be_encode 8 len ++ post /\ 2 ^ 64 - 18 <= len < 2 ^ 64.

(** After [pre], loading has a value unless the stream is huge, and what it gives is
    related to what it consumed. *)
Definition robust {A} (pre : bytes) (m : load_from A) (P : bytes -> A -> Prop) : Prop :=
  forall r, rio_ok r -> can_read r ->
  (m r = None /\ huge (pre ++ ahead (io r))) \/
  exists r' res, m r = Some (r', res) /\ match res with Some v => exists c, consumed r c r' /\ P c v | None => True end.

Lemma robust_ret {A} pre (v : A) (P : bytes -> A -> Prop) : P [] v -> robust pre (lret v) P.
Proof. intros Hv r Hr Hc. right. eexists _, _. split; [done|]. exists []. split; [by apply consumed_nil|done]. Qed.

Lemma robust_fail {A} pre (P : bytes -> A -> Prop) : robust pre lfail P.
Proof. intros r Hr Hc. right. by eexists _, None. Qed.

Lemma robust_weaken {A} pre m (P Q : bytes -> A -> Prop) :
  robust pre m P -> (forall c v, P c v -> Q c v) -> robust pre m Q.
Proof.
  intros Hm HPQ r Hr Hc. destruct (Hm r Hr Hc) as [|(r' & res & E1 & Hres)]; [by left|]. right. exists r', res. split; [done|].
  destruct res; [|done]. destruct Hres as (c & ? & ?). exists c. auto.
Qed.

Lemma robust_bind {A C} pre (m : load_from A) (k : A -> load_from C) P Q :
  robust pre m P -> (forall c v, P c v -> Forall is_byte c -> robust (pre ++ c) (k v) (fun c' w => Q (c ++ c') w)) ->
  robust pre (lbind m k) Q.
Proof.
  intros Hm Hk r Hr Hc. unfold lbind. destruct (Hm r Hr Hc) as [[-> ?]|(r1 & res & -> & Hres)]; [by left|]. cbn [mbind option_bind].
  destruct res as [v|]; [|right; by eexists _, None]. destruct Hres as (c & C1 & HP). pose proof C1 as (Hr1 & Hc1 & Ha & _).
  destruct (Hk c v HP (consumed_bytes _ _ _ Hc C1) r1 Hr1 Hc1) as [[-> Hh]|(r2 & res & -> & Hres)].
  - left. split; [done|]. by rewrite Ha, app_assoc.
  - right. exists r2, res. split; [done|]. destruct res; [|done]. destruct Hres as (c2 & C2 & HQ). exists (c ++ c2). split; [|done].
    by eapply rio_consumed_trans.
Qed.

Lemma robust_read pre n : 0 <= n -> robust pre (rread E n) (fun c v => v = c /\ blen c = n).
Proof.
  intros Hn r Hr Hc. right. destruct (rioRead_ok (buf_addr E) r n Hr Hc Hn) as (r' & res & Er & Hres). exists r', res. split; [done|].
  destruct res as [c|]; [|done]. exists c. tauto.
Qed.

Lemma robust_at {A} pre b i (k : Z -> load_from A) P :
  0 <= i < blen b -> (forall c, load8 b i = Some c -> robust pre (k c) P) -> robust pre (at_ b i k) P.
Proof.
  intros Hi Hk r. unfold at_. destruct (lookup_lt_is_Some_2 b (Z.to_nat i)) as [c Hc]; [blia|].
  rewrite (load8_Some _ _ c) by (lia || done). cbn [mbind option_bind]. apply Hk. apply load8_Some; (lia || done).
Qed.

Lemma robust_pure {A C} pre (m : option A) x (k : A -> load_from C) P : m = Some x -> robust pre (k x) P -> robust pre (pure_ m k) P.
Proof. intros -> Hk. exact Hk. Qed.

(** What is known of a length: where it is 64 bits wide, it is what was read. *)
Definition len_read (c : bytes) (v : bool * Z) : Prop :=
  0 <= snd v < 2 ^ 64 /\ (2 ^ 32 <= snd v -> c = RDB_64BITLEN :: be_encode 8 (snd v)).

Lemma be_decode_range b : Forall is_byte b -> 0 <= be_decode b < 2 ^ (8 * blen b).
Proof. intros Hb. unfold be_decode. pose proof (le_decode_range (reverse b) ltac:(by apply Forall_reverse)) as R. unfold blen in *. by rewrite length_reverse in R. Qed.

Lemma be_encode_dec b : Forall is_byte b -> be_encode (length b) (be_decode b) = b.
Proof.
  intros Hb. unfold be_encode, be_decode. rewrite <- (length_reverse b), le_encode_dec by (by apply Forall_reverse). apply reverse_involutive.
Qed.

Lemma byte_land c m : is_byte c -> 0 <= m -> 0 <= Z.land c m < 256.
Proof.
  intros Hc Hm. pose proof (land_u 8 m c ltac:(lia) Hc) as Hl. rewrite Z.land_comm in Hl. exact Hl.
Qed.

Lemma rdbLoadLenByRef_robust pre : robust pre (rdbLoadLenByRef E) len_read.
Proof.
  unfold rdbLoadLenByRef. eapply robust_bind; [by apply robust_read|]. intros c0 b [-> Hl] Hb. apply robust_at; [lia|]. intros c Hc.
  destruct c0 as [|c' [|]]; [done| |blia]. assert (c' = c) as -> by (by injection Hc). apply Forall_cons_1 in Hb as [Hb _].
  pose proof (byte_land c 0x3F Hb ltac:(lia)) as Hm.
  destruct (_ =? RDB_ENCVAL); [apply robust_ret; split; cbn; lia|]. destruct (_ =? RDB_6BITLEN); [apply robust_ret; split; cbn; lia|].
  destruct (_ =? RDB_14BITLEN); [|destruct (_ =? RDB_32BITLEN); [|destruct (Z.eqb_spec c RDB_64BITLEN) as [->|]; [|apply robust_fail]]].
  - eapply robust_bind; [by apply robust_read|]. intros c1 b [-> Hl1] Hb1. apply robust_at; [lia|]. intros d Hd. apply robust_ret.
    assert (Hdb : is_byte d) by (unfold load8 in Hd; cbn in Hd; by apply (Forall_lookup_1 _ _ _ _ Hb1) in Hd).
    assert (is_u 16 (Z.lor (Z.shiftl (Z.land c 63) 8) d)) by (apply lor_u; [lia|rewrite Z.shiftl_mul_pow2 by lia; unfold is_u; lia|unfold is_byte, is_u in *; lia]).
    split; cbn; unfold is_u in *; lia.
  - eapply robust_bind; [by apply robust_read|]. intros c1 b [-> Hl1] Hb1. apply robust_ret. pose proof (be_decode_range c1 Hb1) as R. rewrite Hl1 in R. split; cbn; lia.
  - eapply robust_bind; [by apply robust_read|]. intros c1 b [-> Hl1] Hb1. apply robust_ret. pose proof (be_decode_range c1 Hb1) as R. rewrite Hl1 in R.
    split; [cbn; lia|]. intros _. cbn [snd]. rewrite app_nil_r. cbn [app]. f_equal. rewrite <- (be_encode_dec c1 Hb1) at 1. f_equal. blia.
Qed.

Lemma checked_len_robust pre : robust pre (checked_len E) (fun c v => len_read c v /\ snd v <> RDB_LENERR).
Proof.
  intros r Hr Hc. unfold checked_len, rdbLoadLen. destruct (rdbLoadLenByRef_robust pre r Hr Hc) as [[-> ?]|(r' & res & -> & Hres)]; [by left|].
  right. cbn [mbind option_bind]. destruct res as [v|]; cbn [mbind option_bind].
  - eexists _, _. split; [done|]. destruct (Z.eqb_spec (snd v) RDB_LENERR); [done|]. destruct Hres as (c & ? & ?). by exists c.
  - eexists _, _. split; [done|]. cbn [snd]. by rewrite Z.eqb_refl.
Qed.

Lemma huge_app d x : huge d -> huge (d ++ x).
Proof.
  intros (pre & len & post & -> & Hl). exists pre, len, (post ++ x). split; [|done]. rewrite <- !app_assoc. cbn [app]. by rewrite <- app_assoc.
Qed.

Lemma len_huge pre c v x : len_read c v -> 2 ^ 64 - 18 <= snd v -> huge ((pre ++ c) ++ x).
Proof.
  intros [Hv Hc] Hl. apply huge_app. rewrite Hc by lia. exists pre, (snd v), []. rewrite app_nil_r. split; [done|lia].
Qed.

Lemma sdstrynewlen_total len : 0 <= len < 2 ^ 64 - 18 -> exists ok, sdstrynewlen E len = Some ok.
Proof.
  intros Hn. unfold sdstrynewlen. set (t := if decide _ then _ else _). pose proof (Sds.hdr_size t) as Ht.
  rewrite !wrapu_small by zlia. rewrite (proj2 (Z.ltb_lt _ _)) by lia. cbn [negb]. by eexists.
Qed.

Lemma robust_alloc {A} pre plain len (k : bool -> load_from A) P :
  0 <= len < 2 ^ 64 -> (2 ^ 64 - 18 <= len -> forall x, huge (pre ++ x)) -> (forall ok, robust pre (k ok) P) ->
  robust pre (pure_ (if plain : bool then Some (ztrymalloc E len) else sdstrynewlen E len) k) P.
Proof.
  intros Hl Hh Hk. destruct plain; [by eapply robust_pure|]. destruct (decide (2 ^ 64 - 18 <= len)) as [Hbig|].
  - intros r Hr Hc. unfold pure_. destruct (sdstrynewlen E len) as [ok|]; [by apply Hk|]. left. auto.
  - destruct (sdstrynewlen_total len ltac:(lia)) as [ok Hok]. by eapply robust_pure.
Qed.

(** A string that was loaded: [*lenptr] is its length, short strings are embedded,
    integers are in range. *)
Definition well_loaded (flags : Z) (res : loaded * option Z) : Prop :=
  match fst res with
  | Plain b => is_set flags RDB_LOAD_PLAIN = true /\ snd res = Some (blen b)
  | ASds b => is_set flags RDB_LOAD_PLAIN = false /\ is_set flags RDB_LOAD_SDS = true /\ snd res = Some (blen b)
  | AnObject o => is_set flags RDB_LOAD_PLAIN = false /\ is_set flags RDB_LOAD_SDS = false /\
      match o with
      | Raw _ => True
      | Embstr s => is_set flags RDB_LOAD_ENC = true /\ blen s <= OBJ_ENCODING_EMBSTR_SIZE_LIMIT
      | Int _ v => is_set flags RDB_LOAD_ENC = true /\ is_s 32 v
      end
  end.

Lemma read_integer_robust pre k : robust pre (read_integer E k) (fun c v => is_s 32 v).
Proof.
  unfold read_integer. destruct (k =? RDB_ENC_INT8); [|destruct (k =? RDB_ENC_INT16); [|destruct (k =? RDB_ENC_INT32); [|apply robust_fail]]].
  all: (eapply robust_bind; [by apply robust_read|]); intros c0 e [-> Hl] _.
  all: repeat (apply robust_at; [lia|]; intros ? _).
  all: apply robust_ret.
  - pose proof (wraps_range 8 c ltac:(lia)). zlia.
  - match goal with |- is_s 32 (s16 ?x) => pose proof (wraps_range 16 x ltac:(lia)) end. zlia.
  - by apply wraps_range.
Qed.

Lemma rdbLoadIntegerObject_robust pre k flags : robust pre (rdbLoadIntegerObject E k flags) (fun _ res => well_loaded flags res).
Proof.
  unfold rdbLoadIntegerObject. eapply robust_bind; [apply read_integer_robust|]. intros c v Hv _. cbn beta in Hv.
  assert (Hv64 : is_s 64 v) by zlia. pose proof (sdec_length_bound v Hv64) as Hn. unfold well_loaded.
  assert (Hll : ll2string (fresh E LONG_STR_SIZE) LONG_STR_SIZE v = Some (blen (sdec v), sdec v ++ 0 :: drop (S (length (sdec v))) (fresh E 21))).
  { unfold LONG_STR_SIZE. rewrite ll2string_spec by (done || rewrite fresh_length; lia). by rewrite (proj2 (Z.ltb_lt _ _)) by lia. }
  destruct (is_set flags RDB_LOAD_PLAIN) eqn:Ep, (is_set flags RDB_LOAD_SDS) eqn:Es; cbn [orb].
  4: destruct (is_set flags RDB_LOAD_ENC) eqn:Ee; [by apply robust_ret|eapply robust_pure; [apply Sdstext.sdsfromlonglong_sdec; zlia|by apply robust_ret]].
  all: eapply robust_pure; [exact Hll|]; eapply robust_pure; [by apply load_prefix|]; by apply robust_ret.
Qed.

Lemma rdbLoadLzfStringObject_robust pre flags : robust pre (rdbLoadLzfStringObject E flags) (fun _ res => well_loaded flags res).
Proof.
  unfold rdbLoadLzfStringObject. eapply robust_bind; [apply checked_len_robust|]. intros c1 cl [[Hcl _] _] _.
  eapply robust_bind; [apply checked_len_robust|]. intros c2 l [Hlr _] _. cbn beta. destruct (negb (ztrymalloc E (snd cl))); [apply robust_fail|].
  pose proof Hlr as [Hl _]. apply robust_alloc; [done|intros Hbig x; by eapply len_huge|]. intros ok.
  destruct (negb ok); [apply robust_fail|]. eapply robust_bind; [apply robust_read; lia|]. intros c3 d [-> Hd] Hb.
  pose proof (wrapu_range 32 (snd l) ltac:(lia)) as Hu. unfold is_u in Hu.
  destruct (Lzf.decompress_loop_safe (take (Z.to_nat (u32 (snd cl))) c3) (u32 (snd l)) (length (take (Z.to_nat (u32 (snd cl))) c3)) 0 0 (fresh E (u32 (snd l))))
    as (n & o' & Ez & Hn & Ho); [by apply Forall_take|unfold blen; lia|unfold blen; lia|lia|apply fresh_length; lia|].
  eapply robust_pure; [exact Ez|]. cbn iota beta. destruct (Z.eqb_spec n (snd l)); cbn [negb]; [|apply robust_fail]. apply robust_ret.
  assert (u32 (snd l) = snd l) as Hul by (apply wrapu_small; unfold is_u; lia). rewrite Hul in Ho. unfold well_loaded.
  destruct (is_set flags RDB_LOAD_PLAIN); cbn; [by rewrite Ho|]. destruct (is_set flags RDB_LOAD_SDS); cbn; [by rewrite Ho|done].
Qed.

Lemma read_bytes_robust pre n : 0 <= n -> robust pre (read_bytes E n) (fun _ d => blen d = n).
Proof.
  intros Hn. unfold read_bytes. destruct (Z.eqb_spec n 0) as [->|]; [by apply robust_ret|].
  eapply robust_weaken; [by apply robust_read|]. by intros c v [-> ?].
Qed.

Lemma rdbGenericLoadStringObject_robust pre flags : robust pre (rdbGenericLoadStringObject E flags) (fun _ res => well_loaded flags res).
Proof.
  unfold rdbGenericLoadStringObject. eapply robust_bind; [apply checked_len_robust|]. intros c l [Hlr _] _. pose proof Hlr as [Hl _].
  destruct l as [enc len]. cbn [snd] in *. destruct enc.
  { destruct (_ || _ || _); [apply rdbLoadIntegerObject_robust|]. destruct (_ =? _); [apply rdbLoadLzfStringObject_robust|apply robust_fail]. }
  assert (Hh : 2 ^ 64 - 18 <= len -> forall x, huge ((pre ++ c) ++ x)) by (intros Hbig x; by eapply len_huge).
  assert (Hread : forall (k : bytes -> loaded * option Z), (forall d, blen d = len -> well_loaded flags (k d)) ->
    robust (pre ++ c) (let? d := read_bytes E len in lret (k d)) (fun _ res => well_loaded flags res)).
  { intros k Hk. eapply robust_bind; [apply read_bytes_robust; lia|]. intros c' d Hd _. by apply robust_ret, Hk. }
  destruct (is_set flags RDB_LOAD_PLAIN) eqn:Ep, (is_set flags RDB_LOAD_SDS) eqn:Es; cbn [orb].
  1, 2: apply (robust_alloc _ true); [done|done|]; intros ok; destruct (negb ok); [apply robust_fail|]; apply Hread; intros d <-; unfold well_loaded; cbn [fst snd]; auto.
  1: apply (robust_alloc _ false); [done|done|]; intros ok; destruct (negb ok); [apply robust_fail|]; apply Hread; intros d <-; unfold well_loaded; cbn [fst snd]; auto.
  destruct (is_set flags RDB_LOAD_ENC) eqn:Ee; cbn [andb].
  1: destruct (Z.leb_spec len OBJ_ENCODING_EMBSTR_SIZE_LIMIT); [apply Hread; intros d <-; unfold well_loaded; cbn [fst snd]; auto|].
  all: apply (robust_alloc _ false); [done|done|]; intros ok; destruct (negb ok); [apply robust_fail|]; apply Hread; intros d <-; unfold well_loaded; cbn [fst snd]; auto.
Qed.

(** The assertion on the size of a new string fails on these lengths. *)
Lemma sdstrynewlen_huge len : 2 ^ 64 - 18 <= len < 2 ^ 64 -> sdstrynewlen E len = None.
Proof.
  intros Hl. unfold sdstrynewlen. replace (Sds.sdsReqType len) with Sds.SDS_TYPE_64.
  - rewrite decide_False by (by intros [? _]). change (Sds.sdsHdrSize Sds.SDS_TYPE_64) with 17.
    replace (u64 (len + 17 + 1)) with (len + 18 - 2 ^ 64); [|unfold wrapu; by rewrite <- (Z_mod_plus_full _ (-1)), Z.mod_small by lia; lia].
    by rewrite (proj2 (Z.ltb_ge _ _)) by lia.
  - unfold Sds.sdsReqType. by rewrite !(proj2 (Z.ltb_ge _ _)) by lia.
Qed.

Lemma load_huge flags r len rest :
  2 ^ 64 - 18 <= len < RDB_LENERR -> is_set flags RDB_LOAD_PLAIN = false ->
  rio_ok r -> can_read r -> ahead (io r) = RDB_64BITLEN :: be_encode 8 len ++ rest -> rdbGenericLoadStringObject E flags r = None.
Proof.
  intros Hl Hp Hr Hc Ha. unfold RDB_LENERR, UINT64_MAX in Hl. unfold rdbGenericLoadStringObject, lbind.
  assert (Hcode : len_code len = RDB_64BITLEN :: be_encode 8 len).
  { unfold len_code. by rewrite !(proj2 (Z.ltb_ge _ _)) by lia. }
  destruct (checked_len_code E len ltac:(unfold RDB_LENERR, UINT64_MAX; lia) r rest Hr Hc) as (r' & -> & _); [by rewrite Hcode, Ha|].
  cbn [mbind option_bind]. rewrite Hp. cbn [orb]. rewrite (proj2 (Z.leb_gt len _)) by (unfold OBJ_ENCODING_EMBSTR_SIZE_LIMIT; lia). rewrite andb_false_r.
  unfold pure_. rewrite sdstrynewlen_huge by lia. by destruct (is_set flags RDB_LOAD_SDS).
Qed.

(** C19: loading a string from a stream with any content, over any backend. It reads
    only what is there, and gives a string that is consistent with the flags, with its
    recorded length and with its encoding, or an error; the only other outcome is the
    failed assertion of [sdstrynewlen], and only where the stream contains a 64-bit
    length within 18 of the largest one.  A string announced with such a length does
    stop the process, although the function is meant to report a failed allocation. *)
Theorem rdb_load_total flags r :
  rio_ok r -> can_read r ->
  ((rdbGenericLoadStringObject E flags r = None /\ huge (ahead (io r))) \/
   exists r' res, rdbGenericLoadStringObject E flags r = Some (r', res) /\
     match res with Some v => well_loaded flags v /\ exists c, consumed r c r' | None => True end) /\
  (forall len rest, 2 ^ 64 - 18 <= len < RDB_LENERR -> ahead (io r) = RDB_64BITLEN :: be_encode 8 len ++ rest ->
     is_set flags RDB_LOAD_PLAIN = false -> rdbGenericLoadStringObject E flags r = None).
Proof.
  intros Hr Hc. split; [|intros len rest Hl Ha Hp; by eapply load_huge].
  destruct (rdbGenericLoadStringObject_robust [] flags r Hr Hc) as [?|(r' & res & E1 & Hres)]; [by left|]. right. exists r', res. split; [done|].
  destruct res; [|done]. destruct Hres as (c & ? & ?). split; [done|]. by exists c.
Qed.

End Robust.

(** ** Witnesses *)

Definition demo_env : env := mk_env (fun _ => 0) (fun _ => 0) (fun _ => true) false true (fun _ => 0).

Lemma dump_restore_witness :
  exists p, createDumpPayload demo_env (Raw (bytes_of_string "redis")) = Some p /\
    (forall skip, exists o', restore_object demo_env skip p = Some (Some o') /\ obj_string o' = bytes_of_string "redis" /\ best_encoding o') /\
    (forall a w w' b, p = a ++ w ++ b -> Forall is_byte w' -> length w' = length w -> (length w <= 8)%nat -> w' <> w ->
      (8 <= length b \/ length (w ++ b) <= 8)%nat -> restore_object demo_env false (a ++ w' ++ b) = Some None).
Proof.
  apply (dump_restore demo_env demo_env (Raw (bytes_of_string "redis"))).
  - intros n _. reflexivity.
  - intros i. split; [discriminate|reflexivity].
  - split; [repeat constructor; discriminate|reflexivity].
Defined.

Definition demo_stream : rio rio_buffer := rioInitWithBuffer (RDB_64BITLEN :: be_encode 8 (2 ^ 64 - 2)).

Lemma rdb_load_total_witness :
  rio_ok demo_stream /\ can_read demo_stream /\ rdbGenericLoadStringObject demo_env RDB_LOAD_ENC demo_stream = None.
Proof.
  assert (Hr : rio_ok demo_stream) by (repeat split; discriminate).
  assert (Hc : can_read demo_stream) by (split; [reflexivity|]; split; [repeat split; (discriminate || reflexivity)|repeat constructor; discriminate]).
  split; [exact Hr|]. split; [exact Hc|].
  apply (proj2 (rdb_load_total demo_env RDB_LOAD_ENC demo_stream Hr Hc) (2 ^ 64 - 2) []); [split; [discriminate|reflexivity]|reflexivity|reflexivity].
Defined.

End Rdb.
