(* ===== verification/RdbFile.v ===== *)
(** * RDB files ([rdb.c])

    Saving the data set to a stream and loading it back: the header, the fields about the
    instance, the databases with the expire times and eviction data of their keys, the
    script cache, and the checksum.  Values are the string objects of Rdb.v; there are
    no modules.  The order in which a hash table is iterated is a parameter. *)

From Stdlib Require Import ZArith Lia.
From stdpp Require Import base option list numbers strings gmap.
From S2P Require Import Prelude Util Sdstext Crc Rio Rdb.

#[local] Open Scope Z_scope.

Module RdbFile.
Import Util Rio Rdb.

#[local] Open Scope rdb_scope.

Definition RDB_OPCODE_MODULE_AUX : Z := 247.
Definition RDB_OPCODE_IDLE : Z := 248.
Definition RDB_OPCODE_FREQ : Z := 249.
Definition RDB_OPCODE_AUX : Z := 250.
Definition RDB_OPCODE_RESIZEDB : Z := 251.
Definition RDB_OPCODE_EXPIRETIME_MS : Z := 252.
Definition RDB_OPCODE_EXPIRETIME : Z := 253.
Definition RDB_OPCODE_SELECTDB : Z := 254.
Definition RDB_OPCODE_EOF : Z := 255.

Definition CONFIG_RUN_ID_SIZE : Z := 40.
Definition REDIS_VERSION : bytes := bytes_of_string "6.2.7".

(** A database: its keys, and the expire times of some of them. *)
Record redisDb := mk_db { dict : gmap bytes robj; expires : gmap bytes Z }.

Definition emptyDb : redisDb := mk_db ∅ ∅.

Record rdbSaveInfo := mk_rsi { repl_stream_db : Z; repl_id_is_set : bool; repl_id : bytes; repl_offset : Z }.

Definition RDB_SAVE_INFO_INIT : rdbSaveInfo := mk_rsi (-1) false (replicate 40 48) (-1).

(** What saving reads of the server: its configuration and clocks, the eviction data of
    the keys, the replication identity and the scripts. *)
Record server := mk_server {
  sv_env : env;
  rdb_checksum : bool;
  savelru : bool;
  savelfu : bool;
  idle_time : Z -> bytes -> Z;
  lfu_counter : Z -> bytes -> Z;
  unix_time : Z;
  used_memory : Z;
  aof_preamble : bool;
  replid : bytes;
  master_repl_offset : Z;
  lua_scripts : list bytes;
}.

Section Save.

Context (S : server) {B : Type} `{RioBackend B}.

(** The entries of a hash table, in the order of its iterator. *)
Context (iter : gmap bytes robj -> list (bytes * robj)).

#[local] Notation E := (sv_env S).

Definition getExpire (db : redisDb) (key : bytes) : Z := default (-1) (expires db !! key).

(** The key is one of the database with index [j]. *)
Definition rdbSaveKeyValuePair (j : Z) (key : bytes) (val : robj) (expiretime : Z) : save (B := B) :=
  let! _ := (if negb (expiretime =? -1) then
               let! _ := rdbSaveType E RDB_OPCODE_EXPIRETIME_MS in rdbSaveMillisecondTime E expiretime
             else ret 0) in
  let! _ := (if savelru S then
               let! _ := rdbSaveType E RDB_OPCODE_IDLE in rdbSaveLen E (idle_time S j key / 1000)
             else ret 0) in
  let! _ := (if savelfu S then
               let! _ := rdbSaveType E RDB_OPCODE_FREQ in rdbWriteRaw E [lfu_counter S j key]
             else ret 0) in
  let! _ := rdbSaveObjectType E val in
  let! _ := rdbSaveStringObject E (Raw key) in
  let! _ := rdbSaveObject E val in
  ret 1.

Definition rdbSaveAuxField (key val : bytes) : save (B := B) :=
  let! n1 := rdbSaveType E RDB_OPCODE_AUX in
  let! n2 := rdbSaveRawString E key in
  let! n3 := rdbSaveRawString E val in
  ret (n1 + n2 + n3).

Definition rdbSaveAuxFieldStrStr (key val : bytes) : save (B := B) := rdbSaveAuxField key val.

Definition rdbSaveAuxFieldStrInt (key : bytes) (val : Z) : save (B := B) := fun rdb =>
  w ← ll2string (fresh E LONG_STR_SIZE) LONG_STR_SIZE val;
  d ← load (snd w) 0 (fst w);
  rdbSaveAuxField key d rdb.

Definition rdbSaveInfoAuxFields (rsi : option rdbSaveInfo) : save (B := B) :=
  let! _ := rdbSaveAuxFieldStrStr (bytes_of_string "redis-ver") REDIS_VERSION in
  let! _ := rdbSaveAuxFieldStrInt (bytes_of_string "redis-bits") 64 in
  let! _ := rdbSaveAuxFieldStrInt (bytes_of_string "ctime") (unix_time S) in
  let! _ := rdbSaveAuxFieldStrInt (bytes_of_string "used-mem") (used_memory S) in
  let! _ := match rsi with
            | Some rsi =>
                let! _ := rdbSaveAuxFieldStrInt (bytes_of_string "repl-stream-db") (repl_stream_db rsi) in
                let! _ := rdbSaveAuxFieldStrStr (bytes_of_string "repl-id") (replid S) in
                rdbSaveAuxFieldStrInt (bytes_of_string "repl-offset") (master_repl_offset S)
            | None => ret 0
            end in
  let! _ := rdbSaveAuxFieldStrInt (bytes_of_string "aof-preamble") (Z.b2z (aof_preamble S)) in
  ret 1.

(** The loop over the entries of a database. *)
Fixpoint save_keys (j : Z) (db : redisDb) (l : list (bytes * robj)) : save (B := B) :=
  match l with
  | [] => ret 0
  | (key, o) :: l =>
      let! _ := rdbSaveKeyValuePair j key o (getExpire db key) in
      save_keys j db l
  end.

Definition save_db (j : Z) (db : redisDb) : save (B := B) :=
  if Z.of_nat (size (dict db)) =? 0 then ret 0 else
  let! _ := rdbSaveType E RDB_OPCODE_SELECTDB in
  let! _ := rdbSaveLen E j in
  let! _ := rdbSaveType E RDB_OPCODE_RESIZEDB in
  let! _ := rdbSaveLen E (Z.of_nat (size (dict db))) in
  let! _ := rdbSaveLen E (Z.of_nat (size (expires db))) in
  save_keys j db (iter (dict db)).

Fixpoint save_dbs (j : Z) (dbs : list redisDb) : save (B := B) :=
  match dbs with
  | [] => ret 0
  | db :: dbs => let! _ := save_db j db in save_dbs (j + 1) dbs
  end.

Fixpoint save_scripts (l : list bytes) : save (B := B) :=
  match l with
  | [] => ret 0
  | body :: l => let! _ := rdbSaveAuxField (bytes_of_string "lua") body in save_scripts l
  end.

(** Everything up to the end-of-file opcode. *)
Definition save_all (dbs : list redisDb) (rsi : option rdbSaveInfo) : save (B := B) :=
  let! _ := rdbWriteRaw E (bytes_of_string "REDIS0009") in
  let! _ := rdbSaveInfoAuxFields rsi in
  let! _ := save_dbs 0 dbs in
  let! _ := match rsi with Some _ => save_scripts (lua_scripts S) | None => ret 0 end in
  rdbSaveType E RDB_OPCODE_EOF.

Definition set_update_cksum (b : bool) (r : rio B) : rio B :=
  mk_rio (io r) b (cksum r) (read_error r) (write_error r) (processed_bytes r) (max_processing_chunk r).

(** Whether the save succeeded. *)
Definition rdbSaveRio (dbs : list redisDb) (rsi : option rdbSaveInfo) (rdb : rio B) : option (rio B * bool) :=
  let rdb := if rdb_checksum S then set_update_cksum true rdb else rdb in
  w ← save_all dbs rsi (Some rdb);
  let '(rdb, n) := w in
  rdb ← rdb;
  if n =? -1 then Some (rdb, false) else
  rioWrite (buf_addr E) rdb (le_encode 8 (cksum rdb)).

End Save.

(** ** Loading *)

(** The configuration of the instance that loads. *)
Record loader := mk_loader {
  ld_env : env;
  ld_checksum : bool;
  skip_checksum_validation : bool;
  loading_process_events_interval_bytes : Z;
  iAmMaster : bool;
  ld_preamble : bool;
  allow_dup : bool;
  ld_now : Z;
  compiles : bytes -> bool;
}.

(** The data set as it is loaded, with what the loop remembers for the next key.  The
    eviction data given to [objectSetLRUOrLFU] are recorded per key. *)
Record lstate := mk_lstate {
  l_dbs : list redisDb;
  l_cur : nat;
  l_expiretime : Z;
  l_lfu_freq : Z;
  l_lru_idle : Z;
  l_rsi : option rdbSaveInfo;
  l_scripts : list bytes;
  l_used_mem : Z;
  l_usage : gmap (nat * bytes) (Z * Z);
}.

Definition set_dbs (dbs : list redisDb) (s : lstate) : lstate :=
  mk_lstate dbs (l_cur s) (l_expiretime s) (l_lfu_freq s) (l_lru_idle s) (l_rsi s) (l_scripts s) (l_used_mem s) (l_usage s).
Definition set_cur (j : nat) (s : lstate) : lstate :=
  mk_lstate (l_dbs s) j (l_expiretime s) (l_lfu_freq s) (l_lru_idle s) (l_rsi s) (l_scripts s) (l_used_mem s) (l_usage s).
Definition set_attrs (t f i : Z) (s : lstate) : lstate :=
  mk_lstate (l_dbs s) (l_cur s) t f i (l_rsi s) (l_scripts s) (l_used_mem s) (l_usage s).
Definition set_rsi (r : option rdbSaveInfo) (s : lstate) : lstate :=
  mk_lstate (l_dbs s) (l_cur s) (l_expiretime s) (l_lfu_freq s) (l_lru_idle s) r (l_scripts s) (l_used_mem s) (l_usage s).
Definition set_scripts (l : list bytes) (s : lstate) : lstate :=
  mk_lstate (l_dbs s) (l_cur s) (l_expiretime s) (l_lfu_freq s) (l_lru_idle s) (l_rsi s) l (l_used_mem s) (l_usage s).
Definition set_used_mem (n : Z) (s : lstate) : lstate :=
  mk_lstate (l_dbs s) (l_cur s) (l_expiretime s) (l_lfu_freq s) (l_lru_idle s) (l_rsi s) (l_scripts s) n (l_usage s).
Definition set_usage (u : gmap (nat * bytes) (Z * Z)) (s : lstate) : lstate :=
  mk_lstate (l_dbs s) (l_cur s) (l_expiretime s) (l_lfu_freq s) (l_lru_idle s) (l_rsi s) (l_scripts s) (l_used_mem s) u.

Definition atoi (s : bytes) : Z := s32 (fst (Sdstext.strtoll s)).

Section Load.

Context (L : loader) {B : Type} `{RioBackend B}.

#[local] Notation E := (ld_env L).

(** The handling of a field about the instance; no value where the load ends. *)
Definition aux_field (s : lstate) (auxkey auxval : bytes) : option lstate :=
  let upd f := set_rsi (f <$> l_rsi s) s in
  if bool_decide (head auxkey = Some 37) then Some s
  else if strcase_is auxkey (bytes_of_string "repl-stream-db") then
    Some (upd (fun r => mk_rsi (atoi auxval) (repl_id_is_set r) (repl_id r) (repl_offset r)))
  else if strcase_is auxkey (bytes_of_string "repl-id") then
    Some (if blen auxval =? CONFIG_RUN_ID_SIZE
          then upd (fun r => mk_rsi (repl_stream_db r) true auxval (repl_offset r)) else s)
  else if strcase_is auxkey (bytes_of_string "repl-offset") then
    Some (upd (fun r => mk_rsi (repl_stream_db r) (repl_id_is_set r) (repl_id r) (fst (Sdstext.strtoll auxval))))
  else if strcase_is auxkey (bytes_of_string "lua") then
    if compiles L auxval then Some (set_scripts (l_scripts s ++ [auxval]) s) else None
  else if strcase_is auxkey (bytes_of_string "used-mem") then
    Some (set_used_mem (fst (Sdstext.strtoll auxval)) s)
  else Some s.

Definition dbAddRDBLoad (db : redisDb) (key : bytes) (val : robj) : option redisDb :=
  if decide (is_Some (dict db !! key)) then None else Some (mk_db (<[key:=val]> (dict db)) (expires db)).

Definition dbSyncDelete (db : redisDb) (key : bytes) : redisDb := mk_db (delete key (dict db)) (delete key (expires db)).

Definition setExpire (db : redisDb) (key : bytes) (when : Z) : option redisDb :=
  if decide (is_Some (dict db !! key)) then Some (mk_db (dict db) (<[key:=when]> (expires db))) else None.

(** Adding a key that was read; no value where the server panics. *)
Definition add_key (s : lstate) (key : bytes) (val : robj) : option lstate :=
  db ← l_dbs s !! l_cur s;
  db ← match dbAddRDBLoad db key val with
       | Some db => Some db
       | None => if allow_dup L then dbAddRDBLoad (dbSyncDelete db key) key val else None
       end;
  db ← (if negb (l_expiretime s =? -1) then setExpire db key (l_expiretime s) else Some db);
  Some (set_usage (<[(l_cur s, key) := (l_lfu_freq s, l_lru_idle s)]> (l_usage s)) (set_dbs (<[l_cur s := db]> (l_dbs s)) s)).

(** Fails with the computation. *)
Definition lift {A} (m : option A) : load_from (B := B) A := match m with Some x => lret x | None => lfail end.

Definition skip_expired (s : lstate) : bool :=
  iAmMaster L && negb (ld_preamble L) && negb (l_expiretime s =? -1) && (l_expiretime s <? ld_now L).

Definition load_key (type : Z) (s : lstate) : load_from (B := B) lstate :=
  let? res := rdbGenericLoadStringObject E RDB_LOAD_SDS in
  match fst res with
  | ASds key =>
      let? val := rdbLoadObject E type in
      let? s := (if skip_expired s then lret s else lift (add_key s key val)) in
      lret (set_attrs (-1) (-1) (-1) s)
  | _ => lstuck
  end.

(** One turn of the loop: the new state, and whether the end was reached.  Failing
    stands for [C_ERR] as well as for the errors that end the process. *)
Definition load_step (rdbver : Z) (s : lstate) : load_from (B := B) (lstate * bool) :=
  let? type := rdbLoadType E in
  if type =? RDB_OPCODE_EXPIRETIME then
    let? t := rdbLoadTime E in lret (set_attrs (t * 1000) (l_lfu_freq s) (l_lru_idle s) s, false)
  else if type =? RDB_OPCODE_EXPIRETIME_MS then
    let? t := rdbLoadMillisecondTime E rdbver in lret (set_attrs t (l_lfu_freq s) (l_lru_idle s) s, false)
  else if type =? RDB_OPCODE_FREQ then
    let? b := rread E 1 in at_ b 0 (fun f => lret (set_attrs (l_expiretime s) f (l_lru_idle s) s, false))
  else if type =? RDB_OPCODE_IDLE then
    let? l := checked_len E in lret (set_attrs (l_expiretime s) (l_lfu_freq s) (s64 (snd l)) s, false)
  else if type =? RDB_OPCODE_EOF then lret (s, true)
  else if type =? RDB_OPCODE_SELECTDB then
    let? l := checked_len E in
    if Z.of_nat (length (l_dbs s)) <=? snd l then lfail else lret (set_cur (Z.to_nat (snd l)) s, false)
  else if type =? RDB_OPCODE_RESIZEDB then
    let? _ := checked_len E in
    let? _ := checked_len E in
    lret (s, false)
  else if type =? RDB_OPCODE_AUX then
    let? auxkey := rdbLoadStringObject E in
    let? auxval := rdbLoadStringObject E in
    let? s := lift (aux_field s (obj_string auxkey) (obj_string auxval)) in
    lret (s, false)
  else if type =? RDB_OPCODE_MODULE_AUX then lfail
  else
    let? s := load_key type s in lret (s, false).

Fixpoint load_loop (fuel : nat) (rdbver : Z) (s : lstate) : load_from (B := B) lstate :=
  match fuel with
  | O => lstuck
  | S fuel =>
      let? r := load_step rdbver s in
      if snd r : bool then lret (fst r) else load_loop fuel rdbver (fst r)
  end.

Definition set_loading (r : rio B) : rio B :=
  mk_rio (io r) (ld_checksum L) (cksum r) (read_error r) (write_error r) (processed_bytes r) (loading_process_events_interval_bytes L).

(** The checksum at the end of the file. *)
Definition verify_cksum : load_from (B := B) unit := fun rdb =>
  let expected := cksum rdb in
  (let? b := rread E 8 in
   let sum := le_decode b in
   if ld_checksum L && negb (skip_checksum_validation L) && negb (sum =? 0) && negb (sum =? expected) then lfail else lret tt) rdb.

Definition rdbLoadRio (fuel : nat) (s : lstate) (rdb : rio B) : option (rio B * option lstate) :=
  (let? buf := rread E 9 in
   if negb (bool_decide (take 5 buf = bytes_of_string "REDIS")) then lfail else
   let rdbver := atoi (drop 5 buf) in
   if (rdbver <? 1) || (RDB_VERSION <? rdbver) then lfail else
   let? s := load_loop fuel rdbver (set_attrs (-1) (-1) (-1) (set_cur 0 s)) in
   let? _ := (if 5 <=? rdbver then verify_cksum else lret tt) in
   lret s) (set_loading rdb).

End Load.

(** ** What a file restores *)

(** The instance that saves: byte strings, 64-bit clocks and sizes. *)
Definition server_ok (S : server) : Prop :=
  (forall i, is_u 32 (htab (sv_env S) i)) /\ (forall j k, is_u 64 (idle_time S j k)) /\ (forall j k, is_byte (lfu_counter S j k)) /\
  is_s 64 (unix_time S) /\ is_s 64 (used_memory S) /\ is_s 64 (master_repl_offset S) /\
  Forall is_byte (replid S) /\ blen (replid S) = CONFIG_RUN_ID_SIZE /\
  Forall (fun body => Forall is_byte body /\ blen body < 2 ^ 32) (lua_scripts S).

Definition key_ok (k : bytes) : Prop := Forall is_byte k /\ blen k < 2 ^ 32.

(** A database: only keys it contains have an expire time. *)
Definition db_ok (db : redisDb) : Prop :=
  (forall k o, dict db !! k = Some o -> key_ok k /\ obj_ok o) /\
  (forall k t, expires db !! k = Some t -> is_Some (dict db !! k) /\ is_s 64 t /\ t <> -1) /\
  Z.of_nat (size (dict db)) < RDB_LENERR /\ Z.of_nat (size (expires db)) < RDB_LENERR.

(** Whether the instance that loads keeps a key with this expire time. *)
Definition keeps (L : loader) (t : Z) : bool :=
  negb (iAmMaster L && negb (ld_preamble L) && negb (t =? -1) && (t <? ld_now L)).

(** The eviction data that are saved for a key. *)
Definition usage_of (S : server) (j : nat) (k : bytes) : Z * Z :=
  (if savelfu S then lfu_counter S (Z.of_nat j) k else -1, if savelru S then idle_time S (Z.of_nat j) k / 1000 else -1).

(** [d] has the keys of [db] that are in [ks] and still alive, with their values and
    expire times, and nothing else. *)
Definition restored (S : server) (L : loader) (j : nat) (db : redisDb) (ks : list bytes) (d : redisDb) (u : gmap (nat * bytes) (Z * Z)) : Prop :=
  forall k,
  match dict db !! k with
  | Some o =>
      if bool_decide (k ∈ ks) && keeps L (getExpire db k) then
        (exists o', dict d !! k = Some o' /\ obj_string o' = obj_string o /\ best_encoding o') /\
        expires d !! k = expires db !! k /\ u !! (j, k) = Some (usage_of S j k)
      else dict d !! k = None /\ expires d !! k = None
  | None => dict d !! k = None /\ expires d !! k = None
  end.

Section Correct.

Context (S : server) (L : loader) (iter : gmap bytes robj -> list (bytes * robj)).
Context {B1 : Type} `{RioStream B1} {B2 : Type} `{RioStream B2}.
Hypothesis server_valid : server_ok S.
Hypothesis enough_memory : has_memory (ld_env L).
Hypothesis iter_law : forall m, iter m ≡ₚ map_to_list m.

#[local] Notation step := (load_step L (B := B2) RDB_VERSION).
#[local] Notation loop f := (load_loop L (B := B2) f RDB_VERSION).

(** The loop reads [e] in state [s] and is then in state [s']. *)
Definition reads (s : lstate) (e : bytes) (s' : lstate) : Prop :=
  forall fuel e2 v, (forall f, (fuel <= f)%nat -> loads (loop f s') e2 v) ->
  forall f, (fuel + length e <= f)%nat -> loads (loop f s) (e ++ e2) v.

Lemma reads_nil s : reads s [] s.
Proof. intros fuel e2 v Hl f Hf. apply Hl. cbn in Hf. lia. Qed.

Lemma reads_app s e1 s1 e2 s2 : reads s e1 s1 -> reads s1 e2 s2 -> reads s (e1 ++ e2) s2.
Proof.
  intros H1' H2' fuel e3 v Hl f Hf. rewrite <- app_assoc. rewrite length_app in Hf. apply (H1' (fuel + length e2)%nat); [|lia].
  intros f' Hf'. by apply (H2' fuel).
Qed.

Lemma reads_step s e s' : e <> [] -> loads (step s) e (s', false) -> reads s e s'.
Proof.
  intros Hne Hs fuel e2 v Hl f Hf. destruct f as [|f]; [destruct e; [done|cbn in Hf; lia]|]. cbn [load_loop].
  eapply loads_bind; [exact Hs|]. apply Hl. destruct e; [done|cbn in Hf; lia].
Qed.

(** A turn of the loop on an opcode. *)
Ltac opcode :=
  apply reads_step; [done|]; unfold load_step; eapply loads_bind; [apply loads_type|];
  cbn [Z.eqb Pos.eqb RDB_OPCODE_EXPIRETIME RDB_OPCODE_EXPIRETIME_MS RDB_OPCODE_FREQ RDB_OPCODE_IDLE RDB_OPCODE_EOF RDB_OPCODE_SELECTDB
    RDB_OPCODE_RESIZEDB RDB_OPCODE_AUX RDB_OPCODE_MODULE_AUX RDB_TYPE_STRING].

(** ** Fields *)

Lemma loads_string flags s e :
  is_set flags RDB_LOAD_PLAIN = false -> is_set flags RDB_LOAD_SDS = false -> is_set flags RDB_LOAD_ENC = false -> encodes s e ->
  loads (B := B2) (let? res := rdbGenericLoadStringObject (ld_env L) flags in as_object res) e (Raw s).
Proof.
  intros Hp Hs Hn He. destruct (loads_object (ld_env L) flags s e Hp Hs (He _ _ _ _ enough_memory)) as (o & Hl & _ & _ & Hr).
  by rewrite (Hr Hn) in Hl.
Qed.

Lemma save_string s : key_ok s -> exists e, saves (B := B1) (rdbSaveRawString (sv_env S) s) e (blen e) /\ encodes s e /\ 0 < blen e.
Proof.
  intros [Hb Hl]. destruct (rdbSaveRawString_ok (B := B1) (sv_env S) (proj1 server_valid) s Hb Hl) as (e & ? & ? & ?). exists e. split_and!; (done || lia).
Qed.

Lemma aux_ok key val :
  key_ok key -> key_ok val ->
  exists e n, saves (B := B1) (rdbSaveAuxField S key val) e n /\ forall s s', aux_field L s key val = Some s' -> reads s e s'.
Proof.
  intros Hk Hv. destruct (save_string key Hk) as (e1 & S1 & E1 & L1). destruct (save_string val Hv) as (e2 & S2 & E2 & L2).
  exists ([RDB_OPCODE_AUX] ++ e1 ++ e2), (1 + blen e1 + blen e2). split.
  - unfold rdbSaveAuxField. eapply saves_try; [by apply saves_type|]. eapply saves_try; [exact S1|].
    eapply saves_eq; [eapply saves_try; [exact S2|apply saves_ret; lia]|apply app_nil_r|done].
  - intros s s' Ha. opcode.
    eapply loads_bind; [by apply loads_string|]. eapply loads_eq; [|apply app_nil_r]. eapply loads_bind; [by apply loads_string|].
    cbn [obj_string]. rewrite Ha. cbn [lift]. rewrite <- (app_nil_l []). eapply loads_bind; apply loads_ret.
Qed.

Lemma sdec_key_ok v : is_s 64 v -> key_ok (sdec v).
Proof.
  intros Hv. split; [|pose proof (sdec_length_bound v Hv); lia]. eapply Forall_impl; [apply sdec_bytes|]. by intros x [? _].
Qed.

Lemma aux_int_ok key v :
  key_ok key -> is_s 64 v ->
  exists e n, saves (B := B1) (rdbSaveAuxFieldStrInt S key v) e n /\ forall s s', aux_field L s key (sdec v) = Some s' -> reads s e s'.
Proof.
  intros Hk Hv. destruct (aux_ok key (sdec v) Hk (sdec_key_ok v Hv)) as (e & n & Hs & Hr). exists e, n. split; [|done].
  eapply saves_ext; [|exact Hs]. intros rdb. unfold rdbSaveAuxFieldStrInt, LONG_STR_SIZE. pose proof (sdec_length_bound v Hv).
  rewrite ll2string_spec by (done || rewrite fresh_length; lia). rewrite (proj2 (Z.ltb_lt _ _)) by lia. cbn [mbind option_bind fst snd].
  by rewrite load_prefix.
Qed.

(** ** Keys *)

Lemma set_attrs_id s : set_attrs (l_expiretime s) (l_lfu_freq s) (l_lru_idle s) s = s.
Proof. by destruct s. Qed.

Lemma expire_ok t :
  is_s 64 t ->
  exists e n, saves (B := B1) (if negb (t =? -1) then let! _ := rdbSaveType (sv_env S) RDB_OPCODE_EXPIRETIME_MS in rdbSaveMillisecondTime (sv_env S) t else ret 0) e n /\
    forall s, l_expiretime s = -1 -> reads s e (set_attrs t (l_lfu_freq s) (l_lru_idle s) s).
Proof.
  intros Ht. destruct (Z.eqb_spec t (-1)) as [->|Hne]; cbn [negb].
  - exists [], 0. split; [by apply saves_ret|]. intros s Hs. rewrite <- Hs, set_attrs_id. apply reads_nil.
  - exists ([RDB_OPCODE_EXPIRETIME_MS] ++ le_encode 8 t), 8. split.
    + eapply saves_try; [by apply saves_type|]. eapply saves_eq; [apply saves_write; [apply le_encode_byte|]|done|]; unfold blen; by rewrite le_encode_length.
    + intros s _. opcode. eapply loads_eq; [|apply app_nil_r]. unfold rdbLoadMillisecondTime.
      assert (Hd : s64 (le_decode (le_encode 8 t)) = t).
      { rewrite le_decode_enc. change (8 * Z.of_nat 8) with 64. fold (wrapu 64 t). by rewrite wraps_wrapu, wraps_small. }
      eapply (loads_bind _ _ _ t); [|apply loads_ret].
      rewrite <- (app_nil_r (le_encode 8 t)). eapply loads_bind; [apply loads_read; unfold blen; by rewrite le_encode_length|]. rewrite Hd. apply loads_ret.
Qed.

Lemma idle_ok j k :
  exists e n, saves (B := B1) (if savelru S then let! _ := rdbSaveType (sv_env S) RDB_OPCODE_IDLE in rdbSaveLen (sv_env S) (idle_time S j k / 1000) else ret 0) e n /\
    forall s, l_lru_idle s = -1 -> reads s e (set_attrs (l_expiretime s) (l_lfu_freq s) (if savelru S then idle_time S j k / 1000 else -1) s).
Proof.
  pose proof server_valid as (_ & Hi & _). specialize (Hi j k). unfold is_u in Hi.
  assert (Hd : 0 <= idle_time S j k / 1000 < 2 ^ 63) by (Z.div_mod_to_equations; lia).
  destruct (savelru S).
  - exists ([RDB_OPCODE_IDLE] ++ len_code (idle_time S j k / 1000)), (blen (len_code (idle_time S j k / 1000))). split.
    + eapply saves_try; [by apply saves_type|]. apply rdbSaveLen_code. zlia.
    + intros s _. opcode. eapply loads_eq; [|apply app_nil_r]. eapply loads_bind; [apply checked_len_code; unfold RDB_LENERR, UINT64_MAX; lia|].
      cbn [snd]. rewrite wraps_small by zlia. apply loads_ret.
  - exists [], 0. split; [by apply saves_ret|]. intros s Hs. rewrite <- Hs, set_attrs_id. apply reads_nil.
Qed.

Lemma freq_ok j k :
  exists e n, saves (B := B1) (if savelfu S then let! _ := rdbSaveType (sv_env S) RDB_OPCODE_FREQ in rdbWriteRaw (sv_env S) [lfu_counter S j k] else ret 0) e n /\
    forall s, l_lfu_freq s = -1 -> reads s e (set_attrs (l_expiretime s) (if savelfu S then lfu_counter S j k else -1) (l_lru_idle s) s).
Proof.
  pose proof server_valid as (_ & _ & Hf & _). specialize (Hf j k). destruct (savelfu S).
  - exists ([RDB_OPCODE_FREQ] ++ [lfu_counter S j k]), 1. split.
    + eapply saves_try; [by apply saves_type|]. by apply saves_type.
    + intros s _. opcode. apply head_load, loads_ret.
  - exists [], 0. split; [by apply saves_ret|]. intros s Hs. rewrite <- Hs, set_attrs_id. apply reads_nil.
Qed.

(** The state after a key. *)
Definition after_key (s : lstate) (k : bytes) (o : robj) : option lstate :=
  s ← (if skip_expired L s then Some s else add_key L s k o); Some (set_attrs (-1) (-1) (-1) s).

Lemma load_key_ok s s' k o' e4 e5 :
  encodes k e4 -> loads (B := B2) (rdbLoadObject (ld_env L) RDB_TYPE_STRING) e5 o' -> after_key s k o' = Some s' ->
  loads (B := B2) (load_key L RDB_TYPE_STRING s) (e4 ++ e5) s'.
Proof.
  intros He Hl Ha. destruct (He _ _ _ _ enough_memory RDB_LOAD_SDS) as (res & Hres & Hfit). unfold fits in Hfit.
  change (is_set RDB_LOAD_SDS RDB_LOAD_PLAIN) with false in Hfit. change (is_set RDB_LOAD_SDS RDB_LOAD_SDS) with true in Hfit. cbn iota in Hfit. subst res.
  unfold load_key. eapply loads_bind; [exact Hres|]. cbn [fst]. eapply loads_eq; [|apply app_nil_r]. eapply loads_bind; [exact Hl|].
  unfold after_key in Ha. destruct (skip_expired L s).
  - cbn [mbind option_bind] in Ha. injection Ha as <-. rewrite <- (app_nil_l []). eapply loads_bind; apply loads_ret.
  - destruct (add_key L s k o') as [s2|]; [|done]. cbn [mbind option_bind] in Ha. injection Ha as <-. rewrite <- (app_nil_l []). eapply loads_bind; apply loads_ret.
Qed.

Lemma key_value_ok j k o t :
  key_ok k -> obj_ok o -> is_s 64 t ->
  exists e n o', saves (B := B1) (rdbSaveKeyValuePair S j k o t) e n /\ obj_string o' = obj_string o /\ best_encoding o' /\
    forall s s', l_expiretime s = -1 -> l_lfu_freq s = -1 -> l_lru_idle s = -1 ->
      after_key (set_attrs t (if savelfu S then lfu_counter S j k else -1) (if savelru S then idle_time S j k / 1000 else -1) s) k o' = Some s' -> reads s e s'.
Proof.
  intros Hk Ho Ht. destruct (expire_ok t Ht) as (e1 & n1 & S1 & R1). destruct (idle_ok j k) as (e2 & n2 & S2 & R2). destruct (freq_ok j k) as (e3 & n3 & S3 & R3).
  destruct (save_string k Hk) as (e4 & S4 & E4 & _). destruct (rdbSaveStringObject_ok (B := B1) (sv_env S) (proj1 server_valid) o Ho) as (e5 & S5 & E5 & _).
  destruct (rdbLoadObject_ok (B := B2) (ld_env L) (obj_string o) e5 (E5 _ _ _ _ enough_memory)) as (o' & Hl & Hs & Hbest).
  exists (e1 ++ e2 ++ e3 ++ [RDB_TYPE_STRING] ++ e4 ++ e5), 1, o'. split; [|split; [done|split; [done|]]].
  - unfold rdbSaveKeyValuePair. eapply saves_try; [exact S1|]. eapply saves_try; [exact S2|]. eapply saves_try; [exact S3|].
    eapply saves_try; [by apply saves_type|]. eapply saves_try; [exact S4|].
    eapply saves_eq; [eapply saves_try; [exact (saves_object _ _ _ _ S5)|by apply saves_ret]|apply app_nil_r|done].
  - intros s s' H1' H2' H3' Ha. eapply reads_app; [by apply R1|]. eapply reads_app; [by apply R2|]. eapply reads_app; [by apply R3|].
    cbn [l_expiretime l_lfu_freq l_lru_idle set_attrs]. set (s1 := set_attrs _ _ _ (set_attrs _ _ _ _)).
    assert (Hs1 : after_key s1 k o' = Some s') by exact Ha. clearbody s1. opcode. eapply loads_eq; [|apply app_nil_r].
    eapply (loads_bind _ _ _ s'); [|apply loads_ret]. by eapply load_key_ok.
Qed.

(** ** Databases *)

Definition clear (s : lstate) : Prop := l_expiretime s = -1 /\ l_lfu_freq s = -1 /\ l_lru_idle s = -1.

(** Only the database [j] changes. *)
Definition frame (j : nat) (s s' : lstate) : Prop :=
  l_rsi s' = l_rsi s /\ l_scripts s' = l_scripts s /\ length (l_dbs s') = length (l_dbs s) /\
  (forall i, i <> j -> l_dbs s' !! i = l_dbs s !! i) /\ (forall i k, i <> j -> l_usage s' !! (i, k) = l_usage s !! (i, k)).

Lemma frame_trans j s s1 s2 : frame j s s1 -> frame j s1 s2 -> frame j s s2.
Proof.
  intros (A1 & A2 & A3 & A4 & A5) (B1' & B2' & B3 & B4 & B5). split; [congruence|]. split; [congruence|]. split; [congruence|].
  split; [intros i Hi; by rewrite B4, A4|]. intros i k Hi. by rewrite B5, A5.
Qed.

Lemma getExpire_s64 db k : db_ok db -> is_s 64 (getExpire db k).
Proof.
  intros (_ & He & _). unfold getExpire. destruct (expires db !! k) as [t|] eqn:Et; cbn [default]; [by apply (He k t)|zlia].
Qed.

Lemma expire_found db k : db_ok db -> (if getExpire db k =? -1 then expires db !! k = None else expires db !! k = Some (getExpire db k)).
Proof.
  intros (_ & He & _). unfold getExpire. destruct (expires db !! k) as [t|] eqn:Et; cbn [default id]; [|done].
  destruct (He k t Et) as (_ & _ & Ht). by rewrite (proj2 (Z.eqb_neq _ _) Ht).
Qed.

Lemma restored_skip j db ks d u k o :
  restored S L j db ks d u -> dict db !! k = Some o -> k ∉ ks -> keeps L (getExpire db k) = false -> restored S L j db (k :: ks) d u.
Proof.
  intros Hr Hk Hnin Hkeep k'. specialize (Hr k'). destruct (decide (k' = k)) as [->|Hne].
  - rewrite Hk in *. rewrite Hkeep, andb_false_r in *. done.
  - rewrite (bool_decide_ext (k' ∈ k :: ks) (k' ∈ ks)); [done|]. rewrite elem_of_cons. naive_solver.
Qed.

(** A key that is kept is added with its attributes. *)
Lemma restored_add j db ks d u k o o' :
  db_ok db -> restored S L j db ks d u -> dict db !! k = Some o -> k ∉ ks -> keeps L (getExpire db k) = true ->
  obj_string o' = obj_string o -> best_encoding o' ->
  restored S L j db (k :: ks)
    (mk_db (<[k:=o']> (dict d)) (if negb (getExpire db k =? -1) then <[k:=getExpire db k]> (expires d) else expires d))
    (<[(j, k) := usage_of S j k]> u).
Proof.
  intros Hdb Hr Hk Hnin Hkeep Ho Hbest k'. specialize (Hr k'). cbn [dict expires]. destruct (decide (k' = k)) as [->|Hne].
  - rewrite Hk in *. rewrite bool_decide_true by set_solver. rewrite bool_decide_false in Hr by done. cbn [andb] in *. destruct Hr as [_ Hexp].
    rewrite Hkeep. rewrite !lookup_insert_eq. split; [by exists o'|]. split; [|done].
    pose proof (expire_found db k Hdb) as Hf. destruct (getExpire db k =? -1); cbn [negb]; [by rewrite Hexp, Hf|]. by rewrite lookup_insert_eq, Hf.
  - rewrite (bool_decide_ext (k' ∈ k :: ks) (k' ∈ ks)) by (rewrite elem_of_cons; naive_solver).
    rewrite !lookup_insert_ne by (congruence || done).
    assert ((if negb (getExpire db k =? -1) then <[k:=getExpire db k]> (expires d) else expires d) !! k' = expires d !! k') as ->.
    { destruct (negb _); [|done]. by rewrite lookup_insert_ne. }
    done.
Qed.

Lemma after_key_ok s j db ks d k o o' :
  db_ok db -> clear s -> l_cur s = j -> l_dbs s !! j = Some d -> restored S L j db ks d (l_usage s) ->
  dict db !! k = Some o -> k ∉ ks -> obj_string o' = obj_string o -> best_encoding o' ->
  exists s' d', after_key (set_attrs (getExpire db k) (usage_of S j k).1 (usage_of S j k).2 s) k o' = Some s' /\
    clear s' /\ l_cur s' = j /\ l_dbs s' !! j = Some d' /\ restored S L j db (k :: ks) d' (l_usage s') /\ frame j s s'.
Proof.
  intros Hdb Hc Hj Hd Hr Hk Hnin Ho Hbest. unfold after_key, skip_expired. cbn [l_expiretime set_attrs].
  set (t := getExpire db k) in *. destruct (keeps L t) eqn:Hkeep; unfold keeps in Hkeep.
  - apply negb_true_iff in Hkeep as Hskip. rewrite Hskip. unfold add_key. cbn [l_dbs l_cur set_attrs l_expiretime l_lfu_freq l_lru_idle l_usage].
    rewrite Hj, Hd. cbn [mbind option_bind].
    assert (Hnone : dict d !! k = None).
    { specialize (Hr k). rewrite Hk, bool_decide_false in Hr by done. apply Hr. }
    unfold dbAddRDBLoad. rewrite decide_False by (by rewrite Hnone; intros [? ?]). cbn [mbind option_bind].
    pose proof (restored_add j db ks d (l_usage s) k o o' Hdb Hr Hk Hnin Hkeep Ho Hbest) as Hr'. fold t in Hr'.
    set (d' := mk_db _ (if negb (t =? -1) then _ else _)) in Hr'.
    assert ((if negb (t =? -1) then setExpire (mk_db (<[k:=o']> (dict d)) (expires d)) k t else Some (mk_db (<[k:=o']> (dict d)) (expires d))) = Some d') as ->.
    { unfold d', setExpire. destruct (negb (t =? -1)); [|done]. cbn [dict expires]. by rewrite decide_True by (rewrite lookup_insert_eq; by eexists). }
    cbn [mbind option_bind]. eexists _, d'. split; [done|]. split; [done|]. split; [done|]. assert (Hlt : (j < length (l_dbs s))%nat) by (by eapply lookup_lt_Some).
    cbn [l_dbs set_attrs set_usage set_dbs l_usage]. split; [by rewrite list_lookup_insert_eq|]. split; [by rewrite <- surjective_pairing|].
    split; [done|]. split; [done|]. cbn [l_dbs set_attrs set_usage set_dbs l_usage]. split; [by rewrite length_insert|].
    split; [intros i Hi; by rewrite list_lookup_insert_ne|]. intros i k' Hi. rewrite lookup_insert_ne; [done|congruence].
  - apply negb_false_iff in Hkeep as Hskip. rewrite Hskip. cbn [mbind option_bind]. eexists _, d. split; [done|]. split; [done|]. split; [done|]. split; [done|].
    split; [by apply (restored_skip j db ks d _ k o)|done].
Qed.

Lemma save_keys_ok j db l :
  db_ok db -> NoDup l.*1 -> (forall k o, (k, o) ∈ l -> dict db !! k = Some o) ->
  exists e n, saves (B := B1) (save_keys S (Z.of_nat j) db l) e n /\
    forall s ks d, clear s -> l_cur s = j -> l_dbs s !! j = Some d -> restored S L j db ks d (l_usage s) -> (forall k, k ∈ l.*1 -> k ∉ ks) ->
      exists s' d', reads s e s' /\ clear s' /\ l_dbs s' !! j = Some d' /\ restored S L j db (reverse l.*1 ++ ks) d' (l_usage s') /\ frame j s s'.
Proof.
  intros Hdb. induction l as [|[k o] l IH]; intros Hnd Hin; cbn [save_keys].
  - exists [], 0. split; [by apply saves_ret|]. intros s ks d Hc Hj Hd Hr _. exists s, d. split; [apply reads_nil|]. done.
  - cbn [fmap list_fmap fst] in Hnd. apply NoDup_cons in Hnd as [Hk Hnd]. assert (Hko : dict db !! k = Some o) by (apply Hin; set_solver).
    destruct (proj1 Hdb k o Hko) as [Hkey Hobj].
    destruct (key_value_ok (Z.of_nat j) k o (getExpire db k) Hkey Hobj (getExpire_s64 db k Hdb)) as (e1 & n1 & o' & S1 & Ho & Hbest & R1).
    destruct IH as (e2 & n2 & S2 & R2); [done|intros; apply Hin; set_solver|]. exists (e1 ++ e2), n2. split; [by eapply saves_try|].
    intros s ks d Hc Hj Hd Hr Hks. destruct (after_key_ok s j db ks d k o o') as (s1 & d1 & Ha & Hc1 & Hj1 & Hd1 & Hr1 & Hf1); try done.
    { apply Hks. set_solver. }
    destruct (R2 s1 (k :: ks) d1) as (s2 & d2 & Hrd & Hc2 & Hd2 & Hr2 & Hf2); try done.
    { intros k' Hk'. rewrite not_elem_of_cons. split; [by intros ->|]. apply Hks. set_solver. }
    exists s2, d2. split; [eapply reads_app; [destruct Hc as (? & ? & ?); by apply (R1 s s1)|done]|]. split; [done|]. split; [done|]. split; [|by eapply frame_trans].
    cbn [fmap list_fmap fst]. by rewrite reverse_cons, <- app_assoc.
Qed.

Lemma selectdb_ok j :
  Z.of_nat j < 2 ^ 32 ->
  exists e n, saves (B := B1) (let! _ := rdbSaveType (sv_env S) RDB_OPCODE_SELECTDB in rdbSaveLen (sv_env S) (Z.of_nat j)) e n /\
    forall s, (j < length (l_dbs s))%nat -> reads s e (set_cur j s).
Proof.
  intros Hj. exists ([RDB_OPCODE_SELECTDB] ++ len_code (Z.of_nat j)), (blen (len_code (Z.of_nat j))). split.
  - eapply saves_try; [by apply saves_type|]. apply rdbSaveLen_code. zlia.
  - intros s Hlt. opcode. eapply loads_eq; [|apply app_nil_r]. eapply loads_bind; [apply checked_len_code; unfold RDB_LENERR, UINT64_MAX; lia|].
    cbn [snd]. rewrite (proj2 (Z.leb_gt _ _)) by lia. rewrite Nat2Z.id. apply loads_ret.
Qed.

Lemma resizedb_ok a b :
  0 <= a < RDB_LENERR -> 0 <= b < RDB_LENERR ->
  exists e n, saves (B := B1) (let! _ := rdbSaveType (sv_env S) RDB_OPCODE_RESIZEDB in let! _ := rdbSaveLen (sv_env S) a in rdbSaveLen (sv_env S) b) e n /\
    forall s, reads s e s.
Proof.
  intros Ha Hb. exists ([RDB_OPCODE_RESIZEDB] ++ len_code a ++ len_code b), (blen (len_code b)). split.
  - eapply saves_try; [by apply saves_type|]. unfold RDB_LENERR in *. eapply saves_try; apply rdbSaveLen_code; zlia.
  - intros s. opcode. eapply loads_bind; [by apply checked_len_code|]. eapply loads_eq; [|apply app_nil_r].
    eapply loads_bind; [by apply checked_len_code|]. apply loads_ret.
Qed.

Lemma saves_try_assoc m (k : Z -> save) (k' : Z -> save) e n :
  saves (B := B1) (try (try m k) k') e n -> saves (B := B1) (try m (fun x => try (k x) k')) e n.
Proof.
  apply saves_ext. intros rdb. unfold try. destruct (m rdb) as [[r x]|]; cbn [mbind option_bind]; [|done]. destruct (Z.eqb_spec x (-1)); [by cbn|done].
Qed.

(** An empty database is not written; the keys of another one all are. *)
Lemma save_db_ok j db :
  db_ok db -> Z.of_nat j < 2 ^ 32 ->
  exists e n, saves (B := B1) (save_db S iter (Z.of_nat j) db) e n /\
    forall s, clear s -> l_dbs s !! j = Some emptyDb ->
      exists s' d', reads s e s' /\ clear s' /\ l_dbs s' !! j = Some d' /\ restored S L j db (elements (dom (dict db))) d' (l_usage s') /\ frame j s s'.
Proof.
  intros Hdb Hj. unfold save_db.
  assert (Hempty : forall ks u, (dict db = ∅ \/ ks = []) -> restored S L j db ks emptyDb u).
  { intros ks u [Hd| ->] k; [by rewrite Hd, lookup_empty|]. rewrite bool_decide_false by set_solver. cbn [andb]. by destruct (dict db !! k). }
  destruct (Z.eqb_spec (Z.of_nat (size (dict db))) 0) as [Hz|Hz].
  - exists [], 0. split; [by apply saves_ret|]. intros s Hc Hd. exists s, emptyDb. split; [apply reads_nil|]. split; [done|]. split; [done|]. split; [|done].
    apply Hempty. left. apply map_size_empty_iff. lia.
  - pose proof Hdb as (_ & _ & Hs1 & Hs2). destruct (selectdb_ok j Hj) as (e1 & n1 & S1 & R1). destruct (resizedb_ok _ _ (conj (Zle_0_nat _) Hs1) (conj (Zle_0_nat _) Hs2)) as (e2 & n2 & S2 & R2).
    pose proof (iter_law (dict db)) as Hit.
    destruct (save_keys_ok j db (iter (dict db)) Hdb) as (e3 & n3 & S3 & R3).
    { rewrite Hit. apply NoDup_fst_map_to_list. }
    { intros k o Hin. rewrite Hit in Hin. by apply elem_of_map_to_list. }
    exists (e1 ++ e2 ++ e3), n3. split.
    + apply saves_try_assoc. eapply saves_try; [exact S1|]. eapply saves_ext; [|eapply saves_try; [exact S2|exact S3]].
      intros rdb. unfold try. destruct (rdbSaveType _ _ rdb) as [[r x]|]; cbn [mbind option_bind]; [|done]. destruct (Z.eqb_spec x (-1)); [done|].
      destruct (rdbSaveLen _ _ r) as [[r' x']|]; cbn [mbind option_bind]; [|done]. by destruct (Z.eqb_spec x' (-1)).
    + intros s Hc Hd. assert (Hlt : (j < length (l_dbs s))%nat) by (by eapply lookup_lt_Some).
      destruct (R3 (set_cur j s) [] emptyDb) as (s' & d' & Hrd & Hc' & Hd' & Hr' & Hf'); [done|done|done|by apply Hempty; right|set_solver|].
      exists s', d'. split; [eapply reads_app; [by apply R1|]; by eapply reads_app|]. split; [done|]. split; [done|]. split; [|done].
      intros k. specialize (Hr' k). rewrite app_nil_r in Hr'. destruct (dict db !! k) as [o|] eqn:Hk; [|done].
      rewrite bool_decide_true in Hr' by (rewrite elem_of_reverse, Hit; apply list_elem_of_fmap; exists (k, o); split; [done|by apply elem_of_map_to_list]).
      rewrite bool_decide_true by (apply elem_of_elements, elem_of_dom; by eexists). done.
Qed.

(** The databases [j0], [j0 + 1], ... *)
Lemma save_dbs_ok dbs : forall j0,
  Forall db_ok dbs -> Z.of_nat (j0 + length dbs) < 2 ^ 32 ->
  exists e n, saves (B := B1) (save_dbs S iter (Z.of_nat j0) dbs) e n /\
    forall s, clear s -> (forall i, (i < length dbs)%nat -> l_dbs s !! (j0 + i)%nat = Some emptyDb) ->
      exists s', reads s e s' /\ clear s' /\ l_rsi s' = l_rsi s /\ l_scripts s' = l_scripts s /\ length (l_dbs s') = length (l_dbs s) /\
        (forall i, (i < j0)%nat -> l_dbs s' !! i = l_dbs s !! i) /\ (forall i k, (i < j0)%nat -> l_usage s' !! (i, k) = l_usage s !! (i, k)) /\
        forall i db, dbs !! i = Some db ->
          exists d, l_dbs s' !! (j0 + i)%nat = Some d /\ restored S L (j0 + i) db (elements (dom (dict db))) d (l_usage s').
Proof.
  induction dbs as [|db dbs IH]; intros j0 Hok Hlen; cbn [save_dbs].
  - exists [], 0. split; [by apply saves_ret|]. intros s Hc _. exists s. split; [apply reads_nil|]. done.
  - apply Forall_cons_1 in Hok as [Hdb Hok]. cbn [length] in Hlen. destruct (save_db_ok j0 db Hdb ltac:(lia)) as (e1 & n1 & S1 & R1).
    destruct (IH (j0 + 1)%nat Hok ltac:(lia)) as (e2 & n2 & S2 & R2). exists (e1 ++ e2), n2. split.
    { replace (Z.of_nat j0 + 1) with (Z.of_nat (j0 + 1)) by lia. by eapply saves_try. }
    intros s Hc Hd. destruct (R1 s Hc) as (s1 & d1 & Hr1 & Hc1 & Hd1 & Hres1 & (F1 & F2 & F3 & F4 & F5)).
    { rewrite <- (Nat.add_0_r j0). apply Hd. cbn. lia. }
    destruct (R2 s1 Hc1) as (s2 & Hr2 & Hc2 & G1 & G2 & G3 & G4 & G5 & G6).
    { intros i Hi. rewrite F4 by lia. replace (j0 + 1 + i)%nat with (j0 + (1 + i))%nat by lia. apply Hd. cbn. lia. }
    exists s2. split; [by eapply reads_app|]. split; [done|]. split; [congruence|]. split; [congruence|]. split; [congruence|].
    split; [intros i Hi; rewrite G4, F4 by lia; done|]. split; [intros i k Hi; rewrite G5, F5 by lia; done|].
    intros [|i] db' Hdb'.
    + cbn in Hdb'. injection Hdb' as <-. rewrite Nat.add_0_r. exists d1. split; [rewrite G4 by lia; done|]. intros k. specialize (Hres1 k). by rewrite G5 by lia.
    + cbn in Hdb'. destruct (G6 i db' Hdb') as (d & ? & ?). exists d. by rewrite <- Nat.add_1_l, Nat.add_assoc.
Qed.

Hypothesis scripts_compile : Forall (fun body => compiles L body = true) (lua_scripts S).

Lemma save_scripts_ok l :
  Forall (fun body => Forall is_byte body /\ blen body < 2 ^ 32) l -> Forall (fun body => compiles L body = true) l ->
  exists e n, saves (B := B1) (save_scripts S l) e n /\ forall s, reads s e (set_scripts (l_scripts s ++ l) s).
Proof.
  induction l as [|body l IH]; intros Hb Hc; cbn [save_scripts].
  - exists [], 0. split; [by apply saves_ret|]. intros s. rewrite app_nil_r. destruct s. apply reads_nil.
  - apply Forall_cons_1 in Hb as [Hb1 Hb], Hc as [Hc1 Hc]. destruct (aux_ok (bytes_of_string "lua") body) as (e1 & n1 & S1 & R1); [|done|].
    { split; [repeat constructor; discriminate|done]. }
    destruct (IH Hb Hc) as (e2 & n2 & S2 & R2). exists (e1 ++ e2), n2. split; [by eapply saves_try|]. intros s.
    eapply reads_app; [apply (R1 s (set_scripts (l_scripts s ++ [body]) s))|].
    + unfold aux_field. cbn -[compiles]. by rewrite Hc1.
    + eapply eq_rect; [apply R2|]. cbn [l_scripts set_scripts]. by rewrite <- app_assoc.
Qed.

(** The replication data that are restored. *)
Definition restored_rsi (rsi : option rdbSaveInfo) (r : option rdbSaveInfo) : option rdbSaveInfo :=
  match rsi with
  | Some i => (fun _ => mk_rsi (repl_stream_db i) true (replid S) (master_repl_offset S)) <$> r
  | None => r
  end.

Ltac literal := split; [repeat constructor; discriminate|reflexivity].

(** The three fields about replication. *)
Definition save_rsi (rsi : option rdbSaveInfo) : save (B := B1) :=
  match rsi with
  | Some rsi =>
      let! _ := rdbSaveAuxFieldStrInt S (bytes_of_string "repl-stream-db") (repl_stream_db rsi) in
      let! _ := rdbSaveAuxFieldStrStr S (bytes_of_string "repl-id") (replid S) in
      rdbSaveAuxFieldStrInt S (bytes_of_string "repl-offset") (master_repl_offset S)
  | None => ret 0
  end.

Lemma rsi_ok rsi :
  (forall i, rsi = Some i -> is_s 32 (repl_stream_db i)) ->
  exists e n, saves (save_rsi rsi) e n /\ forall s, reads s e (set_rsi (restored_rsi rsi (l_rsi s)) s).
Proof.
  intros Hrsi. destruct rsi as [i|]; [|exists [], 0; split; [by apply saves_ret|]; intros s; destruct s; apply reads_nil].
  specialize (Hrsi i eq_refl). pose proof server_valid as (_ & _ & _ & _ & _ & Hoff & Hidb & Hidl & _).
  destruct (aux_int_ok (bytes_of_string "repl-stream-db") (repl_stream_db i)) as (e1 & n1 & S1 & R1); [literal|zlia|].
  destruct (aux_ok (bytes_of_string "repl-id") (replid S)) as (e2 & n2 & S2 & R2); [literal|split; [done|by rewrite Hidl]|].
  destruct (aux_int_ok (bytes_of_string "repl-offset") (master_repl_offset S)) as (e3 & n3 & S3 & R3); [literal|done|].
  exists (e1 ++ e2 ++ e3), n3. split; [eapply saves_try; [exact S1|]; by eapply saves_try|]. intros s.
  eapply reads_app; [by apply R1|]. eapply reads_app; [by apply R2|]. apply R3.
  rewrite Hidl, Z.eqb_refl. unfold aux_field. cbn -[Sdstext.strtoll atoi]. unfold atoi. rewrite !Sdstext.strtoll_sdec, wraps_small by (done || zlia).
  by destruct (l_rsi s).
Qed.

Lemma info_ok rsi :
  (forall i, rsi = Some i -> is_s 32 (repl_stream_db i)) ->
  exists e n, saves (B := B1) (rdbSaveInfoAuxFields S rsi) e n /\
    forall s, reads s e (set_rsi (restored_rsi rsi (l_rsi s)) (set_used_mem (used_memory S) s)).
Proof.
  intros Hrsi. pose proof server_valid as (_ & _ & _ & Htime & Hmem & _).
  destruct (aux_ok (bytes_of_string "redis-ver") REDIS_VERSION) as (e1 & n1 & S1 & R1); [literal|literal|].
  destruct (aux_int_ok (bytes_of_string "redis-bits") 64) as (e2 & n2 & S2 & R2); [literal|zlia|].
  destruct (aux_int_ok (bytes_of_string "ctime") (unix_time S)) as (e3 & n3 & S3 & R3); [literal|done|].
  destruct (aux_int_ok (bytes_of_string "used-mem") (used_memory S)) as (e4 & n4 & S4 & R4); [literal|done|].
  destruct (rsi_ok rsi Hrsi) as (e5 & n5 & S5 & R5).
  destruct (aux_int_ok (bytes_of_string "aof-preamble") (Z.b2z (aof_preamble S))) as (e6 & n6 & S6 & R6); [literal|destruct (aof_preamble S); cbn [Z.b2z]; zlia|].
  exists (e1 ++ e2 ++ e3 ++ e4 ++ e5 ++ e6), 1. split.
  - unfold rdbSaveInfoAuxFields. eapply saves_try; [exact S1|]. eapply saves_try; [exact S2|]. eapply saves_try; [exact S3|]. eapply saves_try; [exact S4|].
    eapply saves_try; [exact S5|]. eapply saves_eq; [eapply saves_try; [exact S6|by apply saves_ret]|apply app_nil_r|done].
  - intros s. eapply reads_app; [by apply (R1 s s)|]. eapply reads_app; [by apply (R2 s s)|]. eapply reads_app; [by apply (R3 s s)|].
    eapply reads_app; [apply (R4 s (set_used_mem (used_memory S) s)); unfold aux_field; cbn -[Sdstext.strtoll]; by rewrite Sdstext.strtoll_sdec|].
    eapply reads_app; [apply R5|]. by apply R6.
Qed.

(** ** The file *)

(** The state in which loading starts, after the data set was emptied. *)
Definition init_state (n : nat) (rsi : option rdbSaveInfo) : lstate := mk_lstate (replicate n emptyDb) 0 (-1) (-1) (-1) rsi [] 0 ∅.

(** What loading ends with. *)
Definition data_restored (dbs : list redisDb) (rsi lrsi : option rdbSaveInfo) (s : lstate) : Prop :=
  length (l_dbs s) = length dbs /\ l_rsi s = restored_rsi rsi lrsi /\ l_scripts s = (if rsi then lua_scripts S else []) /\
  forall j db, dbs !! j = Some db -> exists d, l_dbs s !! j = Some d /\ restored S L j db (elements (dom (dict db))) d (l_usage s).

Lemma loads_eof f s : loads (loop (1 + f) s) [RDB_OPCODE_EOF] s.
Proof.
  cbn [load_loop Nat.add]. rewrite <- (app_nil_r [RDB_OPCODE_EOF]). eapply (loads_bind _ _ _ (s, true)); [|apply loads_ret]. unfold load_step.
  rewrite <- (app_nil_r [RDB_OPCODE_EOF]). eapply loads_bind; [apply loads_type|]. apply loads_ret.
Qed.

Lemma save_all_ok dbs rsi :
  Forall db_ok dbs -> Z.of_nat (length dbs) < 2 ^ 32 -> (forall i, rsi = Some i -> is_s 32 (repl_stream_db i)) ->
  exists e n, saves (B := B1) (save_all S iter dbs rsi) (bytes_of_string "REDIS0009" ++ e) n /\
    forall lrsi, exists s', data_restored dbs rsi lrsi s' /\ forall f, (length e <= f)%nat -> loads (loop f (init_state (length dbs) lrsi)) e s'.
Proof.
  intros Hdbs Hlen Hrsi. destruct (info_ok rsi Hrsi) as (e1 & n1 & S1 & R1). destruct (save_dbs_ok dbs 0 Hdbs Hlen) as (e2 & n2 & S2 & R2).
  pose proof server_valid as (_ & _ & _ & _ & _ & _ & _ & _ & Hscripts).
  assert (exists e3 n3, saves (B := B1) (match rsi with Some _ => save_scripts S (lua_scripts S) | None => ret 0 end) e3 n3 /\
    forall s, reads s e3 (set_scripts (l_scripts s ++ if rsi then lua_scripts S else []) s)) as (e3 & n3 & S3 & R3).
  { destruct rsi; [by apply save_scripts_ok|]. exists [], 0. split; [by apply saves_ret|]. intros s. rewrite app_nil_r. destruct s. apply reads_nil. }
  exists (e1 ++ e2 ++ e3 ++ [RDB_OPCODE_EOF]), 1. split.
  { unfold save_all. eapply saves_try; [apply saves_write; [repeat constructor; discriminate|done]|]. eapply saves_try; [exact S1|]. eapply saves_try; [exact S2|].
    eapply saves_try; [exact S3|]. by apply saves_type. }
  intros lrsi. set (s0 := init_state (length dbs) lrsi).
  destruct (R2 (set_rsi (restored_rsi rsi (l_rsi s0)) (set_used_mem (used_memory S) s0))) as (s2 & Hr2 & Hc2 & G1 & G2 & G3 & _ & _ & G6); [done| |].
  { intros i Hi. cbn. by apply lookup_replicate_2. }
  exists (set_scripts (l_scripts s2 ++ if rsi then lua_scripts S else []) s2). split.
  - split; [cbn [l_dbs set_scripts]; by rewrite G3; cbn; rewrite length_replicate|]. split; [cbn [l_rsi set_scripts]; by rewrite G1|].
    split; [cbn [l_scripts set_scripts]; by rewrite G2|exact G6].
  - intros f Hf. rewrite !app_assoc. rewrite !length_app in Hf. cbn [length] in Hf.
    assert (Hreads : reads s0 ((e1 ++ e2) ++ e3) (set_scripts (l_scripts s2 ++ if rsi then lua_scripts S else []) s2)).
    { eapply reads_app; [eapply reads_app; [apply R1|exact Hr2]|apply R3]. }
    apply (Hreads 1%nat); [|rewrite !length_app; lia]. intros [|f'] Hf'; [lia|]. apply loads_eof.
Qed.

(** The checksum that is written. *)
Definition checksum_of (body : bytes) : Z := if rdb_checksum S then Crc.crc64 0 0 body else 0.

Lemma checksum_u body : Forall is_byte body -> is_u 64 (checksum_of body).
Proof. intros Hb. unfold checksum_of. destruct (rdb_checksum S); [|zlia]. apply crc64_u; [zlia|done]. Qed.

Lemma rdbSaveRio_ok dbs rsi body n (r : rio B1) :
  saves (B := B1) (save_all S iter dbs rsi) body n -> rio_ok r -> cksum r = 0 -> update_cksum r = false ->
  exists r' ok, rdbSaveRio S iter dbs rsi r = Some (r', ok) /\
    if ok : bool then written (io r') = written (io r) ++ body ++ le_encode 8 (checksum_of body) else write_error r' = true.
Proof.
  intros (_ & Hn & _ & Hsave) Hr Hck Hup. unfold rdbSaveRio. set (r1 := if rdb_checksum S then set_update_cksum true r else r).
  assert (Hr1 : rio_ok r1 /\ cksum r1 = 0 /\ update_cksum r1 = rdb_checksum S /\ io r1 = io r).
  { unfold r1. destruct (rdb_checksum S); cbn; by split_and!. }
  destruct Hr1 as (Hr1 & Hck1 & Hup1 & Hio1). destruct (Hsave r1 Hr1) as (r2 & ok & -> & Hr2 & Hok & _). cbn [mbind option_bind]. destruct ok.
  - rewrite (proj2 (Z.eqb_neq _ _)) by done. destruct Hok as (_ & Hw & Hsum & _).
    assert (cksum r2 = checksum_of body) as -> by (rewrite Hsum; unfold sum_after, checksum_of; by rewrite Hup1, Hck1).
    destruct (rioWrite_ok (buf_addr (sv_env S)) r2 (le_encode 8 (checksum_of body)) Hr2 (le_encode_byte _ _)) as (r3 & ok & -> & _ & Hok3 & _).
    exists r3, ok. split; [done|]. destruct ok; [|done]. destruct Hok3 as (_ & Hw3 & _). by rewrite Hw3, Hw, Hio1, <- app_assoc.
  - rewrite Z.eqb_refl. by exists r2, false.
Qed.

Lemma lbind_some {A C} (m : load_from (B := B2) A) (k : A -> load_from C) r r' v : m r = Some (r', Some v) -> lbind m k r = k v r'.
Proof. intros Hm. unfold lbind. by rewrite Hm. Qed.

Lemma verify_cksum_ok (r : rio B2) body rest :
  rio_ok r -> can_read r -> Forall is_byte body -> cksum r = (if ld_checksum L then Crc.crc64 0 0 body else 0) ->
  ahead (io r) = le_encode 8 (checksum_of body) ++ rest -> exists r', verify_cksum L r = Some (r', Some tt) /\ ahead (io r') = rest.
Proof.
  intros Hr Hc Hb Hck Ha. destruct (rioRead_next (buf_addr (ld_env L)) r _ _ Hr Hc Ha) as (r' & Hread & _ & Ha'). exists r'. split; [|done].
  unfold verify_cksum. erewrite lbind_some; [|unfold rread; rewrite <- Hread; f_equal; unfold blen; by rewrite le_encode_length].
  rewrite le_decode_enc. change (8 * Z.of_nat 8) with 64. fold (wrapu 64 (checksum_of body)). rewrite wrapu_small by (by apply checksum_u). rewrite Hck.
  unfold checksum_of. destruct (ld_checksum L), (rdb_checksum S); cbn [andb negb]; rewrite ?Z.eqb_refl, ?andb_false_r; done.
Qed.

Lemma rdbLoadRio_ok e s' lrsi n (r : rio B2) rest fuel :
  Forall is_byte (bytes_of_string "REDIS0009" ++ e) -> 0 <= loading_process_events_interval_bytes L ->
  (forall f, (length e <= f)%nat -> loads (loop f (init_state n lrsi)) e s') ->
  rio_ok r -> can_read r -> cksum r = 0 ->
  ahead (io r) = (bytes_of_string "REDIS0009" ++ e) ++ le_encode 8 (checksum_of (bytes_of_string "REDIS0009" ++ e)) ++ rest -> (length e <= fuel)%nat ->
  exists r', rdbLoadRio L fuel (init_state n lrsi) r = Some (r', Some s') /\ ahead (io r') = rest.
Proof.
  intros Hb Hch Hl Hr Hc Hck Ha Hf. unfold rdbLoadRio. set (r1 := set_loading L r). set (body := bytes_of_string "REDIS0009" ++ e) in *.
  assert (Hr1 : rio_ok r1) by (split; [apply Hr|done]). assert (Hc1 : can_read r1) by exact Hc.
  assert (Ha1 : ahead (io r1) = bytes_of_string "REDIS0009" ++ e ++ le_encode 8 (checksum_of body) ++ rest) by (by rewrite app_assoc).
  destruct (loads_read (B := B2) (ld_env L) (bytes_of_string "REDIS0009") 9 eq_refl r1 _ Hr1 Hc1 Ha1) as (r2 & Hm & C2).
  rewrite (lbind_some _ _ _ _ _ Hm). pose proof C2 as (Hr2 & Hc2 & _). pose proof (consumed_rest _ _ _ _ C2 Ha1) as Ha2.
  cbn [take drop]. change (atoi (drop 5 (bytes_of_string "REDIS0009"))) with 9. rewrite bool_decide_true by done. cbn [negb].
  change ((9 <? 1) || (RDB_VERSION <? 9)) with false. cbn iota. change (5 <=? 9) with true. cbn iota.
  change (set_attrs (-1) (-1) (-1) (set_cur 0 (init_state n lrsi))) with (init_state n lrsi).
  destruct (Hl fuel Hf r2 _ Hr2 Hc2 Ha2) as (r3 & Hloop & C3). change 9 with RDB_VERSION. rewrite (lbind_some _ _ _ _ _ Hloop).
  pose proof C3 as (Hr3 & Hc3 & _). pose proof (consumed_rest _ _ _ _ C3 Ha2) as Ha3.
  destruct (rio_consumed_trans r1 _ r2 _ r3 Hr1 Hc1 C2 C3) as (_ & _ & _ & Hsum & _). fold body in Hsum.
  destruct (verify_cksum_ok r3 body rest Hr3 Hc3 Hb) as (r4 & Hv & Ha4).
  { rewrite Hsum. unfold sum_after, r1, set_loading. cbn [update_cksum cksum]. by rewrite Hck. }
  { by rewrite Ha3. }
  exists r4. by rewrite (lbind_some _ _ _ _ _ Hv).
Qed.

End Correct.

(** C3: saving and loading the data set. Whatever the data set of strings, the eviction
    policies, the configuration of checksums and compression of the two instances, the
    streams and the way they split reads and writes, and the order in which the hash
    tables are iterated: there is one file content that saving appends to its stream,
    unless the stream fails, and loading a stream that continues with it succeeds,
    consumes exactly the file, and gives the instance the same keys in the same
    databases, with equal values, expire times and eviction data, except for the keys
    that are already expired where the instance is a master; the scripts and the
    replication identity, offset and selected database are restored as well. *)
Theorem rdb_roundtrip S L iter {B1 : Type} `{RioStream B1} {B2 : Type} `{RioStream B2} dbs rsi :
  server_ok S -> has_memory (ld_env L) -> (forall m, iter m ≡ₚ map_to_list m) -> Forall (fun body => compiles L body = true) (lua_scripts S) ->
  0 <= loading_process_events_interval_bytes L ->
  Forall db_ok dbs -> Z.of_nat (length dbs) < 2 ^ 32 -> (forall i, rsi = Some i -> is_s 32 (repl_stream_db i)) ->
  exists file : bytes,
    (forall r : rio B1, rio_ok r -> cksum r = 0 -> update_cksum r = false ->
       exists r' ok, rdbSaveRio S iter dbs rsi r = Some (r', ok) /\
         if ok : bool then written (io r') = written (io r) ++ file else write_error r' = true) /\
    (forall (r : rio B2) rest lrsi fuel, rio_ok r -> can_read r -> cksum r = 0 -> ahead (io r) = file ++ rest -> (length file <= fuel)%nat ->
       exists r' s', rdbLoadRio L fuel (init_state (length dbs) lrsi) r = Some (r', Some s') /\ ahead (io r') = rest /\
         data_restored S L dbs rsi lrsi s').
Proof.
  intros HS HL Hit Hsc Hch Hdbs Hlen Hrsi.
  destruct (save_all_ok S L iter (B1 := B1) (B2 := B2) HS HL Hit Hsc dbs rsi Hdbs Hlen Hrsi) as (e & n & Hsave & Hload).
  set (body := bytes_of_string "REDIS0009" ++ e) in *. exists (body ++ le_encode 8 (checksum_of S body)). split.
  - intros r Hr Hck Hup. by eapply rdbSaveRio_ok.
  - intros r rest lrsi fuel Hr Hc Hck Ha Hf. destruct (Hload lrsi) as (s' & Hd & Hl). rewrite <- app_assoc in Ha. rewrite length_app in Hf.
    destruct (rdbLoadRio_ok S L e s' lrsi (length dbs) r rest fuel) as (r' & Hr' & Ha'); try done; [apply Hsave| |by exists r', s'].
    unfold body in Hf. rewrite length_app in Hf. lia.
Qed.

(** ** Witness *)

Definition demo_server : server :=
  mk_server demo_env true true false (fun _ _ => 5000) (fun _ _ => 0) 1700000000 1000000 false (replicate 40 97) 1234 [bytes_of_string "return 1"].

Definition demo_loader : loader := mk_loader demo_env true false 1024 true false false 1700000000000 (fun _ => true).

Definition demo_db : redisDb := mk_db {[ bytes_of_string "key" := Raw (bytes_of_string "value") ]} {[ bytes_of_string "key" := 1800000000000 ]}.

Lemma rdb_roundtrip_witness :
  exists file : bytes,
    (forall r : rio rio_buffer, rio_ok r -> cksum r = 0 -> update_cksum r = false ->
       exists r' ok, rdbSaveRio demo_server map_to_list [demo_db] (Some (mk_rsi 0 false [] 0)) r = Some (r', ok) /\
         if ok : bool then written (io r') = written (io r) ++ file else write_error r' = true) /\
    (forall (r : rio rio_buffer) rest lrsi fuel, rio_ok r -> can_read r -> cksum r = 0 -> ahead (io r) = file ++ rest -> (length file <= fuel)%nat ->
       exists r' s', rdbLoadRio demo_loader fuel (init_state 1 lrsi) r = Some (r', Some s') /\ ahead (io r') = rest /\
         data_restored demo_server demo_loader [demo_db] (Some (mk_rsi 0 false [] 0)) lrsi s').
Proof.
  apply (rdb_roundtrip demo_server demo_loader map_to_list [demo_db] (Some (mk_rsi 0 false [] 0))).
  - repeat split; try discriminate; repeat constructor; discriminate.
  - intros n _. reflexivity.
  - intros m. reflexivity.
  - repeat constructor.
  - discriminate.
  - constructor; [|constructor]. split; [|split; [|split; reflexivity]].
    + intros k o Hk. cbn [dict demo_db] in Hk. apply lookup_singleton_Some in Hk as [<- <-].
      split; (split; [repeat constructor; discriminate|reflexivity]).
    + intros k t Hk. cbn [expires demo_db] in Hk. apply lookup_singleton_Some in Hk as [<- <-]. split; [eexists; apply lookup_singleton_eq|]. repeat split; discriminate.
  - reflexivity.
  - intros i [= <-]. repeat split; discriminate.
Defined.

End RdbFile.
