(* ===== verification/Keyspace.v ===== *)
(** * The keyspace ([db.c], [expire.c], [lazyfree.c], [multi.c], [server.c])

    The databases, with the expire times of their keys, and the operations all commands
    are built from: looking keys up, which on a master deletes the expired ones, adding,
    overwriting and deleting them, propagating writes, and marking the clients that watch
    a modified key.  The access times of the eviction policy, keyspace notifications,
    client side caching and clients blocked on keys are not part of the model.

    The second half describes the operations by what they do to one cell of the
    keyspace: a value with its expire time, or nothing. *)

From Stdlib Require Import ZArith Lia.
From stdpp Require Import base option list numbers strings gmap.
From S2P Require Import Prelude Util Rdb.

#[local] Open Scope Z_scope.

Module Keyspace.
Import Util Rdb.

(** ** Data *)

(** The types of objects that are not strings; what they contain is not looked into. *)
Inductive otype := OBJ_LIST | OBJ_SET | OBJ_ZSET | OBJ_HASH | OBJ_STREAM | OBJ_MODULE.

Inductive value := Str (o : robj) | Obj (type : otype) (contents : bytes).

(** A database; [watched_keys] gives the clients that watch a key. *)
Record redisDb := mk_db {
  dict : gmap bytes value;
  expires : gmap bytes Z;
  watched_keys : gmap bytes (list Z);
}.

Definition emptyDb : redisDb := mk_db ∅ ∅ ∅.

Inductive error :=
  | SyntaxErr | WrongType | NotInteger | InvalidExpire | WouldOverflow | OffsetRange | TooLong
  | WrongArgs | UnknownCommand | NoSuchKey | OutOfRange | DbRange | ClusterMode | NestedMulti | WithoutMulti | WatchInMulti
  | ExecAbort | NoAuth | NoPerm | Redirect | Oom | MisConf | NoReplicas | ReadOnly | PubsubContext | MasterDown | Loading
  | BusyScript | ReplicaClient.

Inductive reply :=
  | ROk | RNull | RBulk (b : bytes) | RInt (v : Z) | RErr (e : error) | RArray (n : Z) | RNullArray | RQueued.

(** A client: the database it uses, whether it is the link to the master, the state of
    its transaction and the keys it watches. *)
Record client := mk_client {
  db : Z;
  CLIENT_MASTER : bool;
  CLIENT_MULTI : bool;
  CLIENT_DIRTY_CAS : bool;
  CLIENT_DIRTY_EXEC : bool;
  mstate : list (list bytes);
  c_watched : list (Z * bytes);
}.

(** The server.  [ticks] counts the readings of the clock; [log] holds the commands given
    to the append only file and the replicas, each with its database.  [argv] and [out]
    are the arguments and the replies of the client that is served. *)
Record server := mk_server {
  dbs : gmap Z redisDb;
  clients : gmap Z client;
  masterhost : bool;
  loading : bool;
  paused : bool;
  client_pause_in_transaction : bool;
  ticks : nat;
  mstime_cached : Z;
  fixed_time_expire : Z;
  dirty : Z;
  in_exec : bool;
  propagate_in_transaction : bool;
  log : list (Z * list bytes);
  argv : list bytes;
  out : list reply;
}.

(** The configuration, the readings of the clock, whether the allocator, which stops the
    process otherwise, can hold a string of the given length, and the verdict of the
    access control lists on a queued command of a client at the time of EXEC. *)
Record config := mk_config {
  cfg_env : env;
  dbnum : Z;
  cluster_enabled : bool;
  proto_max_bulk_len : Z;
  lazyfree_lazy_expire : bool;
  lazyfree_lazy_user_del : bool;
  lazyfree_lazy_server_del : bool;
  clock : nat -> Z;
  can_hold : Z -> bool;
  exec_denied : Z -> list bytes -> bool;
}.

(** What the functions need of the client they serve: its database, whether it is the
    link to the master, and whether its command only reads. *)
Record caller := mk_caller { c_db : Z; c_master : bool; c_readonly : bool }.

Definition set_dbs x s := mk_server x (clients s) (masterhost s) (loading s) (paused s) (client_pause_in_transaction s)
  (ticks s) (mstime_cached s) (fixed_time_expire s) (dirty s) (in_exec s) (propagate_in_transaction s) (log s) (argv s) (out s).
Definition set_clients x s := mk_server (dbs s) x (masterhost s) (loading s) (paused s) (client_pause_in_transaction s)
  (ticks s) (mstime_cached s) (fixed_time_expire s) (dirty s) (in_exec s) (propagate_in_transaction s) (log s) (argv s) (out s).
Definition set_pause_in_transaction x s := mk_server (dbs s) (clients s) (masterhost s) (loading s) (paused s) x
  (ticks s) (mstime_cached s) (fixed_time_expire s) (dirty s) (in_exec s) (propagate_in_transaction s) (log s) (argv s) (out s).
Definition set_ticks x s := mk_server (dbs s) (clients s) (masterhost s) (loading s) (paused s) (client_pause_in_transaction s)
  x (mstime_cached s) (fixed_time_expire s) (dirty s) (in_exec s) (propagate_in_transaction s) (log s) (argv s) (out s).
Definition set_cached x y s := mk_server (dbs s) (clients s) (masterhost s) (loading s) (paused s) (client_pause_in_transaction s)
  (ticks s) x y (dirty s) (in_exec s) (propagate_in_transaction s) (log s) (argv s) (out s).
Definition set_dirty x s := mk_server (dbs s) (clients s) (masterhost s) (loading s) (paused s) (client_pause_in_transaction s)
  (ticks s) (mstime_cached s) (fixed_time_expire s) x (in_exec s) (propagate_in_transaction s) (log s) (argv s) (out s).
Definition set_in_exec x s := mk_server (dbs s) (clients s) (masterhost s) (loading s) (paused s) (client_pause_in_transaction s)
  (ticks s) (mstime_cached s) (fixed_time_expire s) (dirty s) x (propagate_in_transaction s) (log s) (argv s) (out s).
Definition set_prop x y s := mk_server (dbs s) (clients s) (masterhost s) (loading s) (paused s) (client_pause_in_transaction s)
  (ticks s) (mstime_cached s) (fixed_time_expire s) (dirty s) (in_exec s) x y (argv s) (out s).
Definition set_argv x s := mk_server (dbs s) (clients s) (masterhost s) (loading s) (paused s) (client_pause_in_transaction s)
  (ticks s) (mstime_cached s) (fixed_time_expire s) (dirty s) (in_exec s) (propagate_in_transaction s) (log s) x (out s).
Definition set_out x s := mk_server (dbs s) (clients s) (masterhost s) (loading s) (paused s) (client_pause_in_transaction s)
  (ticks s) (mstime_cached s) (fixed_time_expire s) (dirty s) (in_exec s) (propagate_in_transaction s) (log s) (argv s) x.

Definition db_at (s : server) (d : Z) : redisDb := default emptyDb (dbs s !! d).
Definition set_db (d : Z) (x : redisDb) (s : server) : server := set_dbs (<[d := x]> (dbs s)) s.

(** ** The monad

    A function of the server changes its state and returns a value; no value means a
    failed assertion, or that memory ran out. *)
Definition M (A : Type) : Type := server -> option (server * A).

Definition mret {A} (x : A) : M A := fun s => Some (s, x).
Definition mbind_ {A B} (m : M A) (k : A -> M B) : M B := fun s =>
  match m s with Some (s, x) => k x s | None => None end.
Definition gets {A} (f : server -> A) : M A := fun s => Some (s, f s).
Definition modify (f : server -> server) : M unit := fun s => Some (f s, tt).
Definition assert (b : bool) : M unit := fun s => if b then Some (s, tt) else None.

Declare Scope keyspace_scope.

Notation "'let*' x := m 'in' k" := (mbind_ m (fun x => k)) (at level 200, x pattern, right associativity) : keyspace_scope.

Notation "'run' m 'in' k" := (mbind_ m (fun _ => k)) (at level 200, right associativity) : keyspace_scope.

#[local] Open Scope keyspace_scope.

Section Operations.

Context (cf : config).

(** ** Clock, replies and propagation *)

Definition mstime : M Z := fun s => Some (set_ticks (S (ticks s)) s, clock cf (ticks s)).

Definition addReply (r : reply) : M unit := modify (fun s => set_out (out s ++ [r]) s).

(** [server.dirty += n;] *)
Definition add_dirty (n : Z) : M unit := modify (fun s => set_dirty (dirty s + n) s).

Definition arg (i : nat) : M bytes := fun s => match argv s !! i with Some a => Some (s, a) | None => None end.

Definition rewriteClientCommandVector (a : list bytes) : M unit := modify (set_argv a).
Definition rewriteClientCommandArgument (i : nat) (a : bytes) : M unit := modify (fun s => set_argv (<[i := a]> (argv s)) s).

(** What [propagate] does once the transaction is opened: the command is given to the
    append only file and to the replicas. *)
Definition feed (dbid : Z) (a : list bytes) : M unit :=
  run (let* p := gets paused in
       let* t := gets client_pause_in_transaction in
       assert (negb (p && negb t))) in
  modify (fun s => set_prop (propagate_in_transaction s) (log s ++ [(dbid, a)]) s).

Definition beforePropagateMulti : M unit :=
  run (let* p := gets propagate_in_transaction in assert (negb p)) in
  modify (fun s => set_prop true (log s) s).

Definition afterPropagateExec : M unit :=
  run (let* p := gets propagate_in_transaction in assert p) in
  modify (fun s => set_prop false (log s) s).

Definition execCommandPropagateMulti (dbid : Z) : M unit :=
  run beforePropagateMulti in feed dbid [bytes_of_string "MULTI"].

Definition propagate (dbid : Z) (a : list bytes) : M unit :=
  let* e := gets in_exec in
  let* p := gets propagate_in_transaction in
  run (if e && negb p then execCommandPropagateMulti dbid else mret tt) in
  feed dbid a.

(** ** Watched keys *)

Definition set_dirty_cas (b : bool) (c : client) : client :=
  mk_client (db c) (CLIENT_MASTER c) (CLIENT_MULTI c) b (CLIENT_DIRTY_EXEC c) (mstate c) (c_watched c).

Definition mark_dirty (l : list Z) (m : gmap Z client) : gmap Z client := foldr (alter (set_dirty_cas true)) m l.

Definition touch (d : Z) (key : bytes) (s : server) : server :=
  match watched_keys (db_at s d) !! key with
  | None => s
  | Some l => set_clients (mark_dirty l (clients s)) s
  end.

Definition touchWatchedKey (d : Z) (key : bytes) : M unit := modify (touch d key).

Definition signalModifiedKey (d : Z) (key : bytes) : M unit := touchWatchedKey d key.

(** ** Entries *)

Definition dictFind (d : Z) (key : bytes) : M (option value) := gets (fun s => dict (db_at s d) !! key).

Definition set_dict (d : Z) (f : gmap bytes value -> gmap bytes value) : M unit :=
  modify (fun s => let x := db_at s d in set_db d (mk_db (f (dict x)) (expires x) (watched_keys x)) s).

Definition set_expires (d : Z) (f : gmap bytes Z -> gmap bytes Z) : M unit :=
  modify (fun s => let x := db_at s d in set_db d (mk_db (dict x) (f (expires x)) (watched_keys x)) s).

(** [dictDelete(db->expires,key) == DICT_OK] *)
Definition delete_expire (d : Z) (key : bytes) : M bool :=
  let* e := gets (fun s => expires (db_at s d) !! key) in
  match e with
  | None => mret false
  | Some _ => run set_expires d (delete key) in mret true
  end.

Definition dbAdd (d : Z) (key : bytes) (val : value) : M unit :=
  let* de := dictFind d key in
  run assert (bool_decide (de = None)) in
  set_dict d (<[key := val]>).

Definition dbOverwrite (d : Z) (key : bytes) (val : value) : M unit :=
  let* de := dictFind d key in
  run assert (bool_decide (is_Some de)) in
  set_dict d (<[key := val]>).

Definition dbSyncDelete (d : Z) (key : bytes) : M bool :=
  run delete_expire d key in
  let* de := dictFind d key in
  match de with
  | Some _ => run set_dict d (delete key) in mret true
  | None => mret false
  end.

Definition dbAsyncDelete (d : Z) (key : bytes) : M bool :=
  run delete_expire d key in
  let* de := dictFind d key in
  match de with
  | Some _ => run set_dict d (delete key) in mret true
  | None => mret false
  end.

Definition dbDelete (d : Z) (key : bytes) : M bool :=
  if lazyfree_lazy_server_del cf then dbAsyncDelete d key else dbSyncDelete d key.

Definition removeExpire (d : Z) (key : bytes) : M bool :=
  let* de := dictFind d key in
  run assert (bool_decide (is_Some de)) in
  delete_expire d key.

Definition setExpire (d : Z) (key : bytes) (when : Z) : M unit :=
  let* kde := dictFind d key in
  run assert (bool_decide (is_Some kde)) in
  set_expires d (<[key := when]>).

Definition getExpire (d : Z) (key : bytes) : M Z :=
  let* de := gets (fun s => expires (db_at s d) !! key) in
  match de with
  | None => mret (-1)
  | Some when =>
      let* kde := dictFind d key in
      run assert (bool_decide (is_Some kde)) in
      mret when
  end.

(** ** Expiration *)

Definition propagateExpire (d : Z) (key : bytes) (lazy : bool) : M unit :=
  propagate d [bytes_of_string (if lazy then "UNLINK" else "DEL"); key].

Definition deleteExpiredKeyAndPropagate (d : Z) (key : bytes) : M unit :=
  run (if lazyfree_lazy_expire cf then dbAsyncDelete d key else dbSyncDelete d key) in
  run signalModifiedKey d key in
  propagateExpire d key (lazyfree_lazy_expire cf).

(** No script is running. *)
Definition keyIsExpired (d : Z) (key : bytes) : M bool :=
  let* when := getExpire d key in
  if when <? 0 then mret false else
  let* l := gets loading in
  if l then mret false else
  let* fixed := gets fixed_time_expire in
  let* now := (if 0 <? fixed then gets mstime_cached else mstime) in
  mret (when <? now).

Definition expireIfNeeded (d : Z) (key : bytes) : M bool :=
  let* e := keyIsExpired d key in
  if negb e then mret false else
  let* m := gets masterhost in
  if m then mret true else
  let* p := gets paused in
  if p then mret true else
  run deleteExpiredKeyAndPropagate d key in
  mret true.

Definition checkAlreadyExpired (when : Z) : M bool :=
  let* now := mstime in
  let* l := gets loading in
  let* m := gets masterhost in
  mret ((when <=? now) && negb l && negb m).

(** An entry of [expires] that the periodic cycle looks at. *)
Definition activeExpireCycleTryExpire (d : Z) (key : bytes) (t now : Z) : M bool :=
  if t <? now then run deleteExpiredKeyAndPropagate d key in mret true else mret false.

(** ** Lookups *)

Definition lookupKey (d : Z) (key : bytes) : M (option value) := dictFind d key.

Definition lookupKeyRead (c : caller) (key : bytes) : M (option value) :=
  let* e := expireIfNeeded (c_db c) key in
  let* m := gets masterhost in
  if e && (negb m || (negb (c_master c) && c_readonly c)) then mret None else
  lookupKey (c_db c) key.

Definition lookupKeyWrite (d : Z) (key : bytes) : M (option value) :=
  run expireIfNeeded d key in lookupKey d key.

Definition lookupKeyReadOrReply (c : caller) (key : bytes) (r : reply) : M (option value) :=
  let* o := lookupKeyRead c key in
  match o with
  | None => run addReply r in mret None
  | Some _ => mret o
  end.

Definition lookupKeyWriteOrReply (c : caller) (key : bytes) (r : reply) : M (option value) :=
  let* o := lookupKeyWrite (c_db c) key in
  match o with
  | None => run addReply r in mret None
  | Some _ => mret o
  end.

Definition genericSetKey (d : Z) (key : bytes) (val : value) (keepttl signal : bool) : M unit :=
  let* o := lookupKeyWrite d key in
  run (match o with None => dbAdd d key val | Some _ => dbOverwrite d key val end) in
  run (if negb keepttl then removeExpire d key else mret false) in
  if signal then signalModifiedKey d key else mret tt.

Definition setKey (d : Z) (key : bytes) (val : value) : M unit := genericSetKey d key val false true.

(** The object is not shared when its encoding is raw. *)
Definition dbUnshareStringValue (d : Z) (key : bytes) (o : robj) : M bytes :=
  match o with
  | Raw s => mret s
  | _ => run dbOverwrite d key (Str (Raw (obj_string o))) in mret (obj_string o)
  end.

End Operations.

(** ** Cells *)

Definition cell : Type := option (value * option Z).

Definition get_cell (d : Z) (k : bytes) (s : server) : cell :=
  (fun v => (v, expires (db_at s d) !! k)) <$> dict (db_at s d) !! k.

Definition put_cell (d : Z) (k : bytes) (c : cell) (s : server) : server :=
  let x := db_at s d in
  set_db d (mk_db (partial_alter (fun _ => fst <$> c) k (dict x)) (partial_alter (fun _ => c ≫= snd) k (expires x)) (watched_keys x)) s.

Definition value_ok (v : value) : Prop := match v with Str o => int_range o /\ blen (obj_string o) < 2 ^ 63 | Obj _ _ => True end.

Definition cell_ok (c : cell) : Prop := match c with Some (v, _) => value_ok v | None => True end.

(** The keys with an expire time exist, integer values are in range and strings fit in
    memory. *)
Definition db_ok (x : redisDb) : Prop :=
  (forall k, is_Some (expires x !! k) -> is_Some (dict x !! k)) /\
  (forall k v, dict x !! k = Some v -> value_ok v).

Definition wf (s : server) : Prop := forall d, db_ok (db_at s d).

(** A command is being executed, and the clients are not paused. *)
Definition running (s : server) : Prop := wf s /\ 0 < fixed_time_expire s /\ paused s = false.

(** The key has reached its expire time. *)
Definition cell_expired (s : server) (c : cell) : bool :=
  match c with
  | Some (_, Some w) => (0 <=? w) && negb (loading s) && (w <? mstime_cached s)
  | _ => false
  end.

Definition key_expired (d : Z) (k : bytes) (s : server) : bool := cell_expired s (get_cell d k s).

(** The command is propagated. *)
Definition propagated (d : Z) (a : list bytes) (s : server) : server :=
  let l := if in_exec s && negb (propagate_in_transaction s) then [(d, [bytes_of_string "MULTI"])] else [] in
  set_prop (in_exec s || propagate_in_transaction s) (log s ++ l ++ [(d, a)]) s.

Definition del_name (lazy : bool) : bytes := bytes_of_string (if lazy then "UNLINK" else "DEL").

(** The key is deleted if it is expired and this instance is a master. *)
Definition purge (cf : config) (d : Z) (k : bytes) (s : server) : server :=
  if key_expired d k s && negb (masterhost s)
  then propagated d [del_name (lazyfree_lazy_expire cf); k] (touch d k (put_cell d k None s))
  else s.

Lemma db_at_set d e x s : db_at (set_db d x s) e = if decide (d = e) then x else db_at s e.
Proof. unfold db_at, set_db, set_dbs. cbn. destruct (decide (d = e)) as [->|?]; by rewrite ?lookup_insert_eq, ?lookup_insert_ne. Qed.

Lemma get_put d k c s : get_cell d k (put_cell d k c s) = c.
Proof.
  unfold get_cell, put_cell. rewrite db_at_set, decide_True by done. cbn.
  rewrite !lookup_partial_alter_eq. by destruct c as [[v o]|].
Qed.

Lemma get_put_ne d k c s d' k' : (d', k') <> (d, k) -> get_cell d' k' (put_cell d k c s) = get_cell d' k' s.
Proof.
  intros Hne. unfold get_cell, put_cell. rewrite db_at_set. case_decide as Hd; [subst d'|done]. cbn.
  rewrite !lookup_partial_alter_ne by congruence. done.
Qed.

Lemma put_put d k c c' s : put_cell d k c (put_cell d k c' s) = put_cell d k c s.
Proof.
  unfold put_cell. rewrite db_at_set, decide_True by done. cbn. unfold set_db, set_dbs. cbn.
  by rewrite insert_insert_eq, !partial_alter_partial_alter_eq.
Qed.

Lemma dict_cell d k s : dict (db_at s d) !! k = fst <$> get_cell d k s.
Proof. unfold get_cell. by destruct (dict (db_at s d) !! k). Qed.

Lemma expires_cell d k s : wf s -> expires (db_at s d) !! k = get_cell d k s ≫= snd.
Proof.
  intros Hwf. unfold get_cell. destruct (dict (db_at s d) !! k) as [v|] eqn:E; [done|]. cbn.
  destruct (expires (db_at s d) !! k) eqn:E2; [|done]. destruct (proj1 (Hwf d) k) as [v Hv]; [by eexists|congruence].
Qed.

Lemma cell_is_ok d k s : wf s -> cell_ok (get_cell d k s).
Proof. intros Hwf. unfold get_cell. destruct (dict (db_at s d) !! k) as [v|] eqn:E; [|done]. cbn. by apply (proj2 (Hwf d) k). Qed.

Lemma wf_put d k c s : wf s -> cell_ok c -> wf (put_cell d k c s).
Proof.
  intros Hwf Hc e. unfold put_cell. rewrite db_at_set. case_decide as Hd; [subst e|apply Hwf].
  split; cbn; intros k'; (destruct (decide (k = k')) as [<-|Hk]; [rewrite ?lookup_partial_alter_eq|rewrite ?lookup_partial_alter_ne by done; apply (Hwf d)]).
  - destruct c as [[v o]|]; cbn; [by eexists|done].
  - intros v. by destruct c as [[v' o]|]; intros [= <-].
Qed.

Lemma partial_alter_same {A} (m : gmap bytes A) k o : m !! k = o -> partial_alter (fun _ => o) k m = m.
Proof. intros <-. apply partial_alter_self. Qed.

(** *** The operations on entries *)

Lemma mbind_ok {A B} (m : M A) (k : A -> M B) s s' x : m s = Some (s', x) -> mbind_ m k s = k x s'.
Proof. unfold mbind_. by intros ->. Qed.

Lemma dbAdd_ok d k v s : wf s -> get_cell d k s = None -> dbAdd d k v s = Some (put_cell d k (Some (v, None)) s, tt).
Proof.
  intros Hwf Hc. unfold dbAdd, dictFind, mbind_, gets, assert, set_dict, modify, put_cell.
  pose proof (expires_cell d k s Hwf) as He. rewrite dict_cell, Hc in *. cbn. by rewrite (partial_alter_same (expires _)).
Qed.

Lemma dbOverwrite_ok d k v v0 e s :
  wf s -> get_cell d k s = Some (v0, e) -> dbOverwrite d k v s = Some (put_cell d k (Some (v, e)) s, tt).
Proof.
  intros Hwf Hc. unfold dbOverwrite, dictFind, mbind_, gets, assert, set_dict, modify, put_cell.
  pose proof (expires_cell d k s Hwf) as He. rewrite dict_cell, Hc in *. cbn. by rewrite (partial_alter_same (expires _)).
Qed.

Lemma delete_expire_ok d k v e s :
  wf s -> get_cell d k s = Some (v, e) ->
  delete_expire d k s = Some (match e with Some _ => put_cell d k (Some (v, None)) s | None => s end, bool_decide (is_Some e)).
Proof.
  intros Hwf Hc. unfold delete_expire, mbind_, gets, set_expires, modify, put_cell.
  pose proof (expires_cell d k s Hwf) as He. pose proof (dict_cell d k s) as Hd. rewrite Hc in *. cbn in He, Hd. rewrite He.
  destruct e as [w|]; [|done]. cbn. by rewrite (partial_alter_same (dict _) k (Some v)).
Qed.

Lemma dbSyncDelete_ok d k s :
  wf s ->
  dbSyncDelete d k s = Some (match get_cell d k s with Some _ => put_cell d k None s | None => s end, bool_decide (is_Some (get_cell d k s))).
Proof.
  intros Hwf. unfold dbSyncDelete. destruct (get_cell d k s) as [[v e]|] eqn:Hc.
  - erewrite mbind_ok by (by apply (delete_expire_ok d k v e)). unfold mbind_, dictFind, gets.
    assert (Hd : forall x, get_cell d k x = Some (v, None) -> wf x ->
      (match dict (db_at x d) !! k with Some _ => run set_dict d (delete k) in mret true | None => mret false end) x = Some (put_cell d k None x, true)).
    { intros x Hx Hw. pose proof (expires_cell d k x Hw) as He. rewrite dict_cell, Hx in *. cbn in *. unfold mbind_, set_dict, modify, mret, put_cell. cbn.
      by rewrite (partial_alter_same (expires _)). }
    pose proof (cell_is_ok d k s Hwf) as Hok. rewrite Hc in Hok.
    destruct e as [w|]; (rewrite Hd; [|by rewrite ?get_put|by try apply wf_put]); [|done]. by rewrite put_put.
  - pose proof (expires_cell d k s Hwf) as He. unfold delete_expire, mbind_, dictFind, gets, mret. rewrite Hc in He. cbn in He. rewrite He, dict_cell, Hc. done.
Qed.

Lemma dbAsyncDelete_eq d k : dbAsyncDelete d k = dbSyncDelete d k.
Proof. done. Qed.

Lemma removeExpire_ok d k v e s :
  wf s -> get_cell d k s = Some (v, e) ->
  removeExpire d k s = Some (match e with Some _ => put_cell d k (Some (v, None)) s | None => s end, bool_decide (is_Some e)).
Proof.
  intros Hwf Hc. unfold removeExpire, dictFind, mbind_ at 1, gets. rewrite dict_cell, Hc. cbn. by apply delete_expire_ok.
Qed.

Lemma setExpire_ok d k v e w s :
  wf s -> get_cell d k s = Some (v, e) -> setExpire d k w s = Some (put_cell d k (Some (v, Some w)) s, tt).
Proof.
  intros Hwf Hc. unfold setExpire, dictFind, mbind_, gets, assert, set_expires, modify, put_cell.
  pose proof (dict_cell d k s) as Hd. rewrite Hc in Hd. cbn in Hd. rewrite Hd. cbn. by rewrite (partial_alter_same (dict _) k (Some v)).
Qed.

Lemma getExpire_ok d k s : wf s -> getExpire d k s = Some (s, default (-1) (get_cell d k s ≫= snd)).
Proof.
  intros Hwf. unfold getExpire, dictFind, mbind_, gets, mret, assert. pose proof (dict_cell d k s) as Hd.
  rewrite (expires_cell d k s Hwf). destruct (get_cell d k s) as [[v [w|]]|]; cbn in *; [by rewrite Hd|done..].
Qed.

(** *** Propagation and expiration *)

Lemma propagate_ok d a s : paused s = false -> propagate d a s = Some (propagated d a s, tt).
Proof.
  intros Hp. destruct s as [? ? ? ? p ? ? ? ? ? e t l ? ?]. cbn in Hp. subst p.
  unfold propagate, propagated, execCommandPropagateMulti, beforePropagateMulti, feed, mbind_, gets, assert, modify, mret. cbn.
  by destruct e, t; cbn; rewrite <- ?app_assoc.
Qed.

Lemma touch_cases d k s : exists m, touch d k s = set_clients m s.
Proof. unfold touch. destruct (watched_keys (db_at s d) !! k); [by eexists|]. exists (clients s). by destruct s. Qed.

Lemma get_touch d k s d' k' : get_cell d' k' (touch d k s) = get_cell d' k' s.
Proof. by destruct (touch_cases d k s) as [m ->]. Qed.

Lemma get_propagated d a s d' k' : get_cell d' k' (propagated d a s) = get_cell d' k' s.
Proof. done. Qed.

Lemma key_expired_eq d k s : key_expired d k s = cell_expired s (get_cell d k s).
Proof. done. Qed.

Lemma keyIsExpired_ok cf d k s : running s -> keyIsExpired cf d k s = Some (s, key_expired d k s).
Proof.
  intros (Hwf & Hf & _). unfold keyIsExpired. erewrite mbind_ok by (by apply getExpire_ok).
  rewrite key_expired_eq. destruct (get_cell d k s) as [[v [w|]]|]; cbn; try done.
  unfold mbind_, gets, mret. destruct (Z.ltb_spec w 0), (Z.leb_spec 0 w); try lia; [done|]. destruct (loading s); [done|].
  by rewrite (proj2 (Z.ltb_lt _ _) Hf).
Qed.

(** The cell a lookup finds: on a master, an expired key does not exist. *)
Definition live (d : Z) (k : bytes) (s : server) : cell :=
  if key_expired d k s && negb (masterhost s) then None else get_cell d k s.

Lemma get_purge cf d k s : get_cell d k (purge cf d k s) = live d k s.
Proof. unfold purge, live. destruct (key_expired d k s && negb (masterhost s)); [|done]. by rewrite get_propagated, get_touch, get_put. Qed.

Lemma get_purge_ne cf d k s d' k' : (d', k') <> (d, k) -> get_cell d' k' (purge cf d k s) = get_cell d' k' s.
Proof.
  intros Hne. unfold purge. destruct (key_expired d k s && negb (masterhost s)); [|done].
  by rewrite get_propagated, get_touch, get_put_ne.
Qed.

(** The states that differ in the databases, the clients and what is propagated only. *)
Definition same_run (s s' : server) : Prop :=
  masterhost s' = masterhost s /\ loading s' = loading s /\ paused s' = paused s /\
  client_pause_in_transaction s' = client_pause_in_transaction s /\ mstime_cached s' = mstime_cached s /\
  fixed_time_expire s' = fixed_time_expire s /\ in_exec s' = in_exec s.

Lemma same_run_refl s : same_run s s.
Proof. by repeat split. Qed.

Lemma same_run_trans s1 s2 s3 : same_run s1 s2 -> same_run s2 s3 -> same_run s1 s3.
Proof. intros (? & ? & ? & ? & ? & ? & ?) (? & ? & ? & ? & ? & ? & ?). repeat split; congruence. Qed.

Lemma wf_same s s' : dbs s' = dbs s -> wf s -> wf s'.
Proof. unfold wf, db_at. by intros ->. Qed.

Lemma running_same s s' : same_run s s' -> wf s' -> running s -> running s'.
Proof. intros (_ & _ & Hp & _ & _ & Hf & _) Hwf (_ & ? & ?). split; [done|]. split; congruence. Qed.

Lemma wf_touch d k s : wf s -> wf (touch d k s).
Proof. destruct (touch_cases d k s) as [m ->]. by apply wf_same. Qed.

Lemma same_run_touch d k s : same_run s (touch d k s).
Proof. destruct (touch_cases d k s) as [m ->]. by repeat split. Qed.

Lemma purge_cases cf d k s :
  purge cf d k s = s \/ purge cf d k s = propagated d [del_name (lazyfree_lazy_expire cf); k] (touch d k (put_cell d k None s)).
Proof. unfold purge. destruct (_ && _); auto. Qed.

Lemma same_run_purge cf d k s : same_run s (purge cf d k s).
Proof.
  destruct (purge_cases cf d k s) as [->| ->]; [apply same_run_refl|].
  eapply same_run_trans; [|by repeat split]. eapply same_run_trans; [|apply same_run_touch]. by repeat split.
Qed.

Lemma running_purge cf d k s : running s -> running (purge cf d k s).
Proof.
  intros Hr. eapply running_same; [apply same_run_purge| |done]. destruct (purge_cases cf d k s) as [->| ->]; [apply Hr|].
  eapply wf_same; [|apply wf_touch, (wf_put d k None s); [apply Hr|done]]. done.
Qed.

Lemma cell_expired_same s s' c : same_run s s' -> cell_expired s' c = cell_expired s c.
Proof. intros (_ & El & _ & _ & Em & _). unfold cell_expired. by rewrite El, Em. Qed.

Lemma live_purge cf d k s : live d k (purge cf d k s) = live d k s.
Proof.
  pose proof (same_run_purge cf d k s) as Hs. unfold live at 1. rewrite key_expired_eq, get_purge, (cell_expired_same s) by done.
  destruct Hs as (-> & _). unfold live, key_expired. destruct (cell_expired s (get_cell d k s)) eqn:E; cbn; [|by rewrite E].
  destruct (masterhost s); cbn; [by rewrite andb_false_r|done].
Qed.

Lemma purge_idem cf d k s : purge cf d k (purge cf d k s) = purge cf d k s.
Proof.
  unfold purge at 1. destruct (key_expired d k (purge cf d k s) && negb (masterhost (purge cf d k s))) eqn:E; [exfalso|done].
  pose proof (live_purge cf d k s) as Hl. unfold live at 1 in Hl. rewrite E in Hl. apply andb_prop in E as [E _].
  unfold key_expired in E. rewrite get_purge, <- Hl in E. done.
Qed.

Lemma deleteExpired_ok cf d k s :
  wf s -> paused s = false -> is_Some (get_cell d k s) ->
  deleteExpiredKeyAndPropagate cf d k s =
    Some (propagated d [del_name (lazyfree_lazy_expire cf); k] (touch d k (put_cell d k None s)), tt).
Proof.
  intros Hwf Hp [x Hx]. unfold deleteExpiredKeyAndPropagate.
  replace (if lazyfree_lazy_expire cf then _ else _) with (dbSyncDelete d k) by (by destruct (lazyfree_lazy_expire cf)).
  erewrite mbind_ok by (by apply dbSyncDelete_ok). rewrite Hx. apply propagate_ok.
  by destruct (touch_cases d k (put_cell d k None s)) as [m ->].
Qed.

Lemma expireIfNeeded_ok cf d k s : running s -> expireIfNeeded cf d k s = Some (purge cf d k s, key_expired d k s).
Proof.
  intros Hr. unfold expireIfNeeded. erewrite mbind_ok by (by apply keyIsExpired_ok). unfold purge.
  destruct (key_expired d k s) eqn:E; [|done]. cbn. unfold mbind_, gets, mret. destruct (masterhost s); [done|].
  rewrite (proj2 (proj2 Hr)), deleteExpired_ok; [done|apply Hr..|].
  unfold key_expired in E. destruct (get_cell d k s); [by eexists|done].
Qed.

(** *** Lookups *)

(** The cell a read-only lookup finds: on a replica, clients other than the master do not
    see expired keys when they only read. *)
Definition readable (c : caller) (k : bytes) (s : server) : cell :=
  if key_expired (c_db c) k s && masterhost s && negb (c_master c) && c_readonly c then None else live (c_db c) k s.

Lemma lookupKeyWrite_ok cf d k s : running s -> lookupKeyWrite cf d k s = Some (purge cf d k s, fst <$> live d k s).
Proof.
  intros Hr. unfold lookupKeyWrite. erewrite mbind_ok by (by apply expireIfNeeded_ok).
  unfold lookupKey, dictFind, gets. by rewrite dict_cell, get_purge.
Qed.

Lemma lookupKeyRead_ok cf c k s : running s -> lookupKeyRead cf c k s = Some (purge cf (c_db c) k s, fst <$> readable c k s).
Proof.
  intros Hr. unfold lookupKeyRead. erewrite mbind_ok by (by apply expireIfNeeded_ok).
  unfold mbind_, lookupKey, dictFind, readable, gets, mret. destruct (same_run_purge cf (c_db c) k s) as (-> & _).
  pose proof (dict_cell (c_db c) k (purge cf (c_db c) k s)) as Hd. rewrite get_purge in Hd. unfold live in *.
  destruct (key_expired (c_db c) k s), (masterhost s), (c_master c), (c_readonly c); cbn in *; by rewrite ?Hd.
Qed.

Lemma genericSetKey_ok cf d k v keepttl s :
  running s -> value_ok v ->
  genericSetKey cf d k v keepttl true s =
    Some (touch d k (put_cell d k (Some (v, if keepttl then live d k s ≫= snd else None)) (purge cf d k s)), tt).
Proof.
  intros Hr Hv. unfold genericSetKey. erewrite mbind_ok by (by apply lookupKeyWrite_ok).
  pose proof (running_purge cf d k s Hr) as (Hwf & _).
  assert (Ha : (match fst <$> live d k s with None => dbAdd d k v | Some _ => dbOverwrite d k v end) (purge cf d k s)
    = Some (put_cell d k (Some (v, live d k s ≫= snd)) (purge cf d k s), tt)).
  { rewrite <- (get_purge cf). destruct (get_cell d k (purge cf d k s)) as [[v0 e]|] eqn:E; cbn; [by eapply dbOverwrite_ok|by apply dbAdd_ok]. }
  erewrite mbind_ok by exact Ha. set (x := put_cell d k _ _). assert (Hx : wf x) by (by apply wf_put).
  destruct keepttl; cbn.
  - done.
  - erewrite mbind_ok by (eapply removeExpire_ok; [done|apply get_put]). unfold signalModifiedKey, touchWatchedKey, modify, x.
    destruct (live d k s ≫= snd); by rewrite ?put_put.
Qed.

End Keyspace.
