(* ===== verification/Strings.v ===== *)
(** * String commands ([t_string.c]) and the commands on expire times ([expire.c])

    The handlers of the commands, on the operations of Keyspace.v, and their meaning: the
    effect of each on the one cell of the keyspace it is about.  INCRBYFLOAT, which uses
    the long doubles of the C library, and STRALGO are not part of the model. *)

From Stdlib Require Import ZArith Lia.
From stdpp Require Import base option list numbers strings gmap.
From S2P Require Import Prelude Util Rdb Keyspace.

#[local] Open Scope Z_scope.

Module Strings.
Import Util Rdb Keyspace.

#[local] Open Scope keyspace_scope.

(** ** Arguments *)

(** [!strcasecmp(opt,name)]; [name] is in lower case. *)
Definition is_opt (name : string) (opt : bytes) : bool := strcase_is opt (bytes_of_string name).

Record flags := mk_flags {
  OBJ_SET_NX : bool; OBJ_SET_XX : bool; OBJ_EX : bool; OBJ_PX : bool; OBJ_KEEPTTL : bool;
  OBJ_SET_GET : bool; OBJ_EXAT : bool; OBJ_PXAT : bool; OBJ_PERSIST : bool;
}.

Definition OBJ_NO_FLAGS : flags := mk_flags false false false false false false false false false.

Inductive time_unit := UNIT_SECONDS | UNIT_MILLISECONDS.

Inductive command_type := COMMAND_GET | COMMAND_SET.

(** No other flag about the expire time is set. *)
Definition no_expire_but (f : flags) (ex px exat pxat : bool) : bool :=
  negb (OBJ_KEEPTTL f) && negb (OBJ_PERSIST f) && (ex || negb (OBJ_EX f)) && (px || negb (OBJ_PX f)) &&
  (exat || negb (OBJ_EXAT f)) && (pxat || negb (OBJ_PXAT f)).

(** The loop over the options; [None] is a syntax error. *)
Fixpoint parse_options (t : command_type) (l : list bytes) (f : flags) (unit : time_unit) (expire : option bytes)
  : option (flags * time_unit * option bytes) :=
  let set := match t with COMMAND_SET => true | COMMAND_GET => false end in
  let 'mk_flags nx xx ex px keep get exat pxat persist := f in
  match l with
  | [] => Some (f, unit, expire)
  | opt :: l =>
      if is_opt "nx" opt && negb xx && negb get && set then
        parse_options t l (mk_flags true xx ex px keep get exat pxat persist) unit expire
      else if is_opt "xx" opt && negb nx && set then
        parse_options t l (mk_flags nx true ex px keep get exat pxat persist) unit expire
      else if is_opt "get" opt && negb nx && set then
        parse_options t l (mk_flags nx xx ex px keep true exat pxat persist) unit expire
      else if is_opt "keepttl" opt && negb persist && negb ex && negb exat && negb px && negb pxat && set then
        parse_options t l (mk_flags nx xx ex px true get exat pxat persist) unit expire
      else if is_opt "persist" opt && negb set && negb ex && negb exat && negb px && negb pxat && negb keep then
        parse_options t l (mk_flags nx xx ex px keep get exat pxat true) unit expire
      else match l with
      | next :: l =>
          if is_opt "ex" opt && no_expire_but f true false false false then
            parse_options t l (mk_flags nx xx true px keep get exat pxat persist) unit (Some next)
          else if is_opt "px" opt && no_expire_but f false true false false then
            parse_options t l (mk_flags nx xx ex true keep get exat pxat persist) UNIT_MILLISECONDS (Some next)
          else if is_opt "exat" opt && no_expire_but f false false true false then
            parse_options t l (mk_flags nx xx ex px keep get true pxat persist) unit (Some next)
          else if is_opt "pxat" opt && no_expire_but f false false false true then
            parse_options t l (mk_flags nx xx ex px keep get exat true persist) UNIT_MILLISECONDS (Some next)
          else None
      | [] => None
      end
  end.

(** An argument as the object the parser of requests creates. *)
Definition arg_object (a : bytes) : robj := if blen a <=? OBJ_ENCODING_EMBSTR_SIZE_LIMIT then Embstr a else Raw a.

Section Commands.

Context (cf : config).

#[local] Notation E := (cfg_env cf).

(** A computation without effects, of which no value means an access out of bounds. *)
Definition lift {A} (x : option A) : M A := fun s => match x with Some v => Some (s, v) | None => None end.

Definition parseExtendedStringArgumentsOrReply (t : command_type) : M (option (flags * time_unit * option bytes)) :=
  let* a := gets argv in
  match parse_options t (drop (match t with COMMAND_GET => 2 | COMMAND_SET => 3 end) a) OBJ_NO_FLAGS UNIT_SECONDS None with
  | None => run addReply (RErr SyntaxErr) in mret None
  | r => mret r
  end.

Definition getLongLongFromObject (o : option robj) : M (option Z) :=
  match o with
  | None => mret (Some 0)
  | Some (Raw s) | Some (Embstr s) => lift (string2ll (s ++ [0]) (blen s))
  | Some (Int _ v) => mret (Some v)
  end.

Definition getLongLongFromObjectOrReply (o : option robj) : M (option Z) :=
  let* v := getLongLongFromObject o in
  match v with
  | None => run addReply (RErr NotInteger) in mret None
  | Some _ => mret v
  end.

Definition checkType (o : option value) : M bool :=
  match o with
  | Some (Obj _ _) => run addReply (RErr WrongType) in mret true
  | _ => mret false
  end.

(** The string object of a value whose type has been checked. *)
Definition string_of (o : option value) : option robj := match o with Some (Str o) => Some o | _ => None end.

Definition stringObjectLen (o : robj) : M Z :=
  match o with
  | Raw s | Embstr s => mret (blen s)
  | Int _ v => lift (sdigits10 v)
  end.

Definition tryEncode (a : bytes) : M robj := lift (tryObjectEncoding E 1 (arg_object a)).

Definition checkStringLength (c : caller) (size : Z) : M bool :=
  if negb (c_master c) && (proto_max_bulk_len cf <? size)
  then run addReply (RErr TooLong) in mret false
  else mret true.

(** ** SET and its variants *)

(** The checks on an expire time, the same in SET and GETEX: the milliseconds of the
    argument and the time at which the key expires. *)
Definition expire_argument (f : flags) (unit : time_unit) (expire : bytes) : M (option (Z * Z)) :=
  let* v := getLongLongFromObjectOrReply (Some (arg_object expire)) in
  match v with
  | None => mret None
  | Some ms =>
      let seconds := match unit with UNIT_SECONDS => true | UNIT_MILLISECONDS => false end in
      if (ms <=? 0) || (seconds && (INT64_MAX / 1000 <? ms)) then run addReply (RErr InvalidExpire) in mret None else
      let ms := if seconds then ms * 1000 else ms in
      let* when := (if OBJ_PX f || OBJ_EX f then let* now := mstime cf in mret (s64 (ms + now)) else mret ms) in
      if when <=? 0 then run addReply (RErr InvalidExpire) in mret None else
      mret (Some (ms, when))
  end.

Definition getGenericCommand (c : caller) : M bool :=
  let* key := arg 1 in
  let* o := lookupKeyReadOrReply cf c key RNull in
  match o with
  | None => mret true
  | Some (Obj _ _) => run addReply (RErr WrongType) in mret false
  | Some (Str o) => run addReply (RBulk (obj_string o)) in mret true
  end.

(** The arguments without GET, wherever it is repeated. *)
Definition strip_get (a : list bytes) : list bytes := take 3 a ++ filter (fun x => is_opt "get" x = false) (drop 3 a).

(** The condition on NX and XX under which nothing is set. *)
Definition set_aborted (d : Z) (f : flags) (key : bytes) : M bool :=
  let* exists_ := (if OBJ_SET_NX f then let* o := lookupKeyWrite cf d key in mret (bool_decide (is_Some o)) else mret false) in
  if exists_ then mret true else
  if OBJ_SET_XX f then let* o := lookupKeyWrite cf d key in mret (bool_decide (o = None)) else mret false.

(** What follows once the expire time, if any, is known. *)
Definition set_checked (c : caller) (f : flags) (key : bytes) (val : robj) (e : option (Z * Z)) (ok_reply abort_reply : reply) : M unit :=
  let d := c_db c in
  let* abort := set_aborted d f key in
  if abort then addReply abort_reply else
  let* got := (if OBJ_SET_GET f then getGenericCommand c else mret true) in
  if negb got then mret tt else
  run genericSetKey cf d key (Str val) (OBJ_KEEPTTL f) true in
  run add_dirty 1 in
  run (match e with
       | None => mret tt
       | Some (ms, when) =>
           run setExpire d key when in
           rewriteClientCommandVector [bytes_of_string "SET"; key; obj_string val;
             bytes_of_string (if OBJ_PXAT f || OBJ_EXAT f then "PXAT" else "PX"); sdec ms]
       end) in
  run (if negb (OBJ_SET_GET f) then addReply ok_reply else mret tt) in
  if OBJ_SET_GET f && bool_decide (e = None) then modify (fun s => set_argv (strip_get (argv s)) s) else mret tt.

(** The expire time of the arguments; no value after an error. *)
Definition expire_arguments (f : flags) (unit : time_unit) (expire : option bytes) : M (option (option (Z * Z))) :=
  match expire with
  | None => mret (Some None)
  | Some x => let* r := expire_argument f unit x in mret (Some <$> r)
  end.

Definition setGenericCommand (c : caller) (f : flags) (key : bytes) (val : robj) (expire : option bytes) (unit : time_unit)
    (ok_reply abort_reply : reply) : M Datatypes.unit :=
  let* e := expire_arguments f unit expire in
  match e with
  | None => mret tt
  | Some e => set_checked c f key val e ok_reply abort_reply
  end.

Definition setCommand (c : caller) : M unit :=
  let* p := parseExtendedStringArgumentsOrReply COMMAND_SET in
  match p with
  | None => mret tt
  | Some (f, unit, expire) =>
      let* key := arg 1 in
      let* a := arg 2 in
      let* val := tryEncode a in
      setGenericCommand c f key val expire unit ROk RNull
  end.

Definition NX_FLAGS : flags := mk_flags true false false false false false false false false.
Definition EX_FLAGS : flags := mk_flags false false true false false false false false false.
Definition PX_FLAGS : flags := mk_flags false false false true false false false false false.

Definition setnxCommand (c : caller) : M unit :=
  let* key := arg 1 in
  let* a := arg 2 in
  let* val := tryEncode a in
  setGenericCommand c NX_FLAGS key val None UNIT_SECONDS (RInt 1) (RInt 0).

Definition setexCommand (c : caller) : M unit :=
  let* key := arg 1 in
  let* expire := arg 2 in
  let* a := arg 3 in
  let* val := tryEncode a in
  setGenericCommand c EX_FLAGS key val (Some expire) UNIT_SECONDS ROk RNull.

Definition psetexCommand (c : caller) : M unit :=
  let* key := arg 1 in
  let* expire := arg 2 in
  let* a := arg 3 in
  let* val := tryEncode a in
  setGenericCommand c PX_FLAGS key val (Some expire) UNIT_MILLISECONDS ROk RNull.

(** ** GET and its variants *)

Definition getCommand (c : caller) : M unit := run getGenericCommand c in mret tt.

(** The deletions that depend on the configuration of lazy freeing. *)
Definition lazy_delete (lazy : bool) (d : Z) (key : bytes) : M bool := if lazy then dbAsyncDelete d key else dbSyncDelete d key.

(** What GETEX does to the expire time of a string. *)
Definition getex_checked (d : Z) (f : flags) (key : bytes) (e : option (Z * Z)) : M unit :=
  let* past := (if OBJ_PXAT f || OBJ_EXAT f
                then checkAlreadyExpired cf (match e with Some (ms, _) => ms | None => 0 end) else mret false) in
  if past then
    let* deleted := lazy_delete (lazyfree_lazy_expire cf) d key in
    run assert deleted in
    run rewriteClientCommandVector [del_name (lazyfree_lazy_expire cf); key] in
    run signalModifiedKey d key in
    add_dirty 1
  else match e with
  | Some (ms, when) =>
      run setExpire d key when in
      run rewriteClientCommandVector
            [bytes_of_string (if OBJ_PXAT f || OBJ_EXAT f then "PEXPIREAT" else "PEXPIRE"); key; sdec ms] in
      run signalModifiedKey d key in
      add_dirty 1
  | None =>
      if OBJ_PERSIST f then
        let* removed := removeExpire d key in
        if removed then
          run signalModifiedKey d key in
          run rewriteClientCommandVector [bytes_of_string "PERSIST"; key] in
          add_dirty 1
        else mret tt
      else mret tt
  end.

(** GETEX once its options are parsed. *)
Definition getex_parsed (c : caller) (f : flags) (unit : time_unit) (expire : option bytes) (key : bytes) : M Datatypes.unit :=
  let* o := lookupKeyReadOrReply cf c key RNull in
  match o with
  | None => mret tt
  | Some (Obj _ _) => addReply (RErr WrongType)
  | Some (Str o) =>
      let* e := expire_arguments f unit expire in
      match e with
      | None => mret tt
      | Some e =>
          run addReply (RBulk (obj_string o)) in
          getex_checked (c_db c) f key e
      end
  end.

Definition getexCommand (c : caller) : M unit :=
  let* p := parseExtendedStringArgumentsOrReply COMMAND_GET in
  match p with
  | None => mret tt
  | Some (f, unit, expire) => let* key := arg 1 in getex_parsed c f unit expire key
  end.

Definition getdelCommand (c : caller) : M unit :=
  let d := c_db c in
  let* got := getGenericCommand c in
  if negb got then mret tt else
  let* key := arg 1 in
  let* deleted := lazy_delete (lazyfree_lazy_user_del cf) d key in
  if deleted then
    run rewriteClientCommandVector [del_name (lazyfree_lazy_user_del cf); key] in
    run signalModifiedKey d key in
    add_dirty 1
  else mret tt.

Definition getsetCommand (c : caller) : M unit :=
  let* got := getGenericCommand c in
  if negb got then mret tt else
  let* key := arg 1 in
  let* a := arg 2 in
  let* val := tryEncode a in
  run setKey cf (c_db c) key (Str val) in
  run add_dirty 1 in
  rewriteClientCommandArgument 0 (bytes_of_string "SET").

(** ** Parts of strings *)

(** The bytes of a string object changed in place. *)
Definition update_string (d : Z) (key s : bytes) : M unit := set_dict d (<[key := Str (Raw s)]>).

(** Memory for a string of [n] bytes. *)
Definition allocate (n : Z) : M unit := assert (can_hold cf n).

Definition sdsgrowzero (s : bytes) (len : Z) : M bytes :=
  if len <=? blen s then mret s else
  run allocate len in mret (s ++ replicate (Z.to_nat (len - blen s)) 0).

(** The string of the key, which is not shared, is overwritten at [offset]. *)
Definition setrange_write (d : Z) (key : bytes) (offset total : Z) (value s : bytes) : M unit :=
  if 0 <? blen value then
    let* s := sdsgrowzero s total in
    let* s := lift (store s offset value) in
    run update_string d key s in
    run signalModifiedKey d key in
    run add_dirty 1 in
    addReply (RInt (blen s))
  else addReply (RInt (blen s)).

Definition setrangeCommand (c : caller) : M unit :=
  let d := c_db c in
  let* key := arg 1 in
  let* a := arg 2 in
  let* value := arg 3 in
  let* offset := getLongLongFromObjectOrReply (Some (arg_object a)) in
  match offset with
  | None => mret tt
  | Some offset =>
      if offset <? 0 then addReply (RErr OffsetRange) else
      let total := u64 (offset + blen value) in
      let* o := lookupKeyWrite cf d key in
      match o with
      | None =>
          if blen value =? 0 then addReply (RInt 0) else
          let* ok := checkStringLength c (s64 total) in
          if negb ok then mret tt else
          run allocate total in
          let s := replicate (Z.to_nat total) 0 in
          run dbAdd d key (Str (Raw s)) in
          setrange_write d key offset total value s
      | Some (Obj _ _) => addReply (RErr WrongType)
      | Some (Str o) =>
          let* olen := stringObjectLen o in
          if blen value =? 0 then addReply (RInt olen) else
          let* ok := checkStringLength c (s64 total) in
          if negb ok then mret tt else
          let* s := dbUnshareStringValue d key o in
          setrange_write d key offset total value s
      end
  end.

(** The text of an integer, through the buffer of the function. *)
Definition string_bytes (o : robj) : M bytes :=
  match o with
  | Raw s | Embstr s => mret s
  | Int _ v =>
      let* w := lift (ll2string (replicate 32 0) 32 v) in
      lift (load (snd w) 0 (fst w))
  end.

Definition getrangeCommand (c : caller) : M unit :=
  let* key := arg 1 in
  let* a := arg 2 in
  let* b := arg 3 in
  let* start := getLongLongFromObjectOrReply (Some (arg_object a)) in
  match start with
  | None => mret tt
  | Some start =>
  let* end_ := getLongLongFromObjectOrReply (Some (arg_object b)) in
  match end_ with
  | None => mret tt
  | Some end_ =>
  let* o := lookupKeyReadOrReply cf c key (RBulk []) in
  match o with
  | None => mret tt
  | Some (Obj _ _) => addReply (RErr WrongType)
  | Some (Str o) =>
      let* str := string_bytes o in
      let strlen := blen str in
      if (start <? 0) && (end_ <? 0) && (end_ <? start) then addReply (RBulk []) else
      let start := if start <? 0 then s64 (strlen + start) else start in
      let end_ := if end_ <? 0 then s64 (strlen + end_) else end_ in
      let start := if start <? 0 then 0 else start in
      let end_ := if end_ <? 0 then 0 else end_ in
      let end_ := if strlen <=? u64 end_ then s64 (u64 (strlen - 1)) else end_ in
      if (end_ <? start) || (strlen =? 0) then addReply (RBulk []) else
      let* s := lift (load str start (end_ - start + 1)) in
      addReply (RBulk s)
  end end end.

Definition append_done (d : Z) (key : bytes) (totlen : Z) : M unit :=
  run signalModifiedKey d key in
  run add_dirty 1 in
  addReply (RInt totlen).

Definition appendCommand (c : caller) : M unit :=
  let d := c_db c in
  let* key := arg 1 in
  let* a := arg 2 in
  let* o := lookupKeyWrite cf d key in
  match o with
  | None =>
      let* val := tryEncode a in
      run dbAdd d key (Str val) in
      let* totlen := stringObjectLen val in
      append_done d key totlen
  | Some (Obj _ _) => addReply (RErr WrongType)
  | Some (Str o) =>
      let* olen := stringObjectLen o in
      let totlen := u64 (olen + blen a) in
      let* ok := checkStringLength c (s64 totlen) in
      if negb ok then mret tt else
      let* s := dbUnshareStringValue d key o in
      run allocate totlen in
      run update_string d key (s ++ a) in
      append_done d key (blen (s ++ a))
  end.

Definition strlenCommand (c : caller) : M unit :=
  let* key := arg 1 in
  let* o := lookupKeyReadOrReply cf c key (RInt 0) in
  match o with
  | None => mret tt
  | Some (Obj _ _) => addReply (RErr WrongType)
  | Some (Str o) => let* n := stringObjectLen o in addReply (RInt n)
  end.

(** ** Counters *)

Definition incrDecrCommand (c : caller) (incr : Z) : M unit :=
  let d := c_db c in
  let* key := arg 1 in
  let* o := lookupKeyWrite cf d key in
  let* wrong := checkType o in
  if wrong then mret tt else
  let o := string_of o in
  let* v := getLongLongFromObjectOrReply o in
  match v with
  | None => mret tt
  | Some oldvalue =>
      if ((incr <? 0) && (oldvalue <? 0) && (incr <? INT64_MIN - oldvalue)) ||
         ((0 <? incr) && (0 <? oldvalue) && (INT64_MAX - oldvalue <? incr))
      then addReply (RErr WouldOverflow) else
      let value := s64 (oldvalue + incr) in
      let new := createStringObjectFromLongLongForValue E value in
      run (match o with
           | Some (Int false _) =>
               if (value <? 0) || (OBJ_SHARED_INTEGERS <=? value)
               then set_dict d (<[key := Str (Int false value)]>)
               else dbOverwrite d key (Str new)
           | Some _ => dbOverwrite d key (Str new)
           | None => dbAdd d key (Str new)
           end) in
      run signalModifiedKey d key in
      run add_dirty 1 in
      addReply (RInt value)
  end.

Definition incrCommand (c : caller) : M unit := incrDecrCommand c 1.
Definition decrCommand (c : caller) : M unit := incrDecrCommand c (-1).

Definition incrbyCommand (c : caller) : M unit :=
  let* a := arg 2 in
  let* incr := getLongLongFromObjectOrReply (Some (arg_object a)) in
  match incr with
  | None => mret tt
  | Some incr => incrDecrCommand c incr
  end.

Definition decrbyCommand (c : caller) : M unit :=
  let* a := arg 2 in
  let* incr := getLongLongFromObjectOrReply (Some (arg_object a)) in
  match incr with
  | None => mret tt
  | Some incr => incrDecrCommand c (s64 (- incr))
  end.

(** ** Expire times *)

Definition expireGenericCommand (c : caller) (basetime : Z) (unit : time_unit) : M Datatypes.unit :=
  let d := c_db c in
  let* key := arg 1 in
  let* param := arg 2 in
  let* v := getLongLongFromObjectOrReply (Some (arg_object param)) in
  match v with
  | None => mret tt
  | Some when =>
      let seconds := match unit with UNIT_SECONDS => true | UNIT_MILLISECONDS => false end in
      if seconds && ((INT64_MAX / 1000 <? when) || (when <? Z.quot INT64_MIN 1000)) then addReply (RErr InvalidExpire) else
      let when := if seconds then when * 1000 else when in
      if INT64_MAX - basetime <? when then addReply (RErr InvalidExpire) else
      let when := when + basetime in
      let* o := lookupKeyWrite cf d key in
      match o with
      | None => addReply (RInt 0)
      | Some _ =>
          let* past := checkAlreadyExpired cf when in
          if past then
            let* deleted := lazy_delete (lazyfree_lazy_expire cf) d key in
            run assert deleted in
            run add_dirty 1 in
            run rewriteClientCommandVector [del_name (lazyfree_lazy_expire cf); key] in
            run signalModifiedKey d key in
            addReply (RInt 1)
          else
            run setExpire d key when in
            run addReply (RInt 1) in
            run signalModifiedKey d key in
            add_dirty 1
      end
  end.

Definition expireCommand (c : caller) : M unit := let* now := mstime cf in expireGenericCommand c now UNIT_SECONDS.
Definition expireatCommand (c : caller) : M unit := expireGenericCommand c 0 UNIT_SECONDS.
Definition pexpireCommand (c : caller) : M unit := let* now := mstime cf in expireGenericCommand c now UNIT_MILLISECONDS.
Definition pexpireatCommand (c : caller) : M unit := expireGenericCommand c 0 UNIT_MILLISECONDS.

Definition ttlGenericCommand (c : caller) (output_ms : bool) : M unit :=
  let d := c_db c in
  let* key := arg 1 in
  let* o := lookupKeyRead cf c key in
  match o with
  | None => addReply (RInt (-2))
  | Some _ =>
      let* expire := getExpire d key in
      let* ttl := (if negb (expire =? -1) then
                     let* now := mstime cf in
                     let ttl := s64 (expire - now) in
                     mret (if ttl <? 0 then 0 else ttl)
                   else mret (-1)) in
      if ttl =? -1 then addReply (RInt (-1)) else
      addReply (RInt (if output_ms then ttl else Z.quot (s64 (ttl + 500)) 1000))
  end.

Definition ttlCommand (c : caller) : M unit := ttlGenericCommand c false.
Definition pttlCommand (c : caller) : M unit := ttlGenericCommand c true.

Definition persistCommand (c : caller) : M unit :=
  let d := c_db c in
  let* key := arg 1 in
  let* o := lookupKeyWrite cf d key in
  match o with
  | Some _ =>
      let* removed := removeExpire d key in
      if removed then
        run signalModifiedKey d key in
        run addReply (RInt 1) in
        add_dirty 1
      else addReply (RInt 0)
  | None => addReply (RInt 0)
  end.

(** ** Commands on several keys *)

Fixpoint mget_loop (c : caller) (keys : list bytes) : M unit :=
  match keys with
  | [] => mret tt
  | key :: keys =>
      let* o := lookupKeyRead cf c key in
      run addReply (match string_of o with Some o => RBulk (obj_string o) | None => RNull end) in
      mget_loop c keys
  end.

Definition mgetCommand (c : caller) : M unit :=
  let* a := gets argv in
  run addReply (RArray (Z.of_nat (length a) - 1)) in
  mget_loop c (drop 1 a).

(** Whether none of the keys exists. *)
Fixpoint msetnx_loop (d : Z) (l : list bytes) : M bool :=
  match l with
  | key :: _ :: l =>
      let* o := lookupKeyWrite cf d key in
      match o with Some _ => mret false | None => msetnx_loop d l end
  | _ => mret true
  end.

Fixpoint mset_loop (d : Z) (l : list bytes) : M unit :=
  match l with
  | key :: a :: l =>
      let* val := tryEncode a in
      run setKey cf d key (Str val) in
      mset_loop d l
  | _ => mret tt
  end.

Definition msetGenericCommand (c : caller) (nx : bool) : M unit :=
  let* a := gets argv in
  let argc := Z.of_nat (length a) in
  if argc mod 2 =? 0 then addReply (RErr WrongArgs) else
  let* free := (if nx then msetnx_loop (c_db c) (drop 1 a) else mret true) in
  if negb free then addReply (RInt 0) else
  run mset_loop (c_db c) (drop 1 a) in
  run add_dirty ((argc - 1) / 2) in
  addReply (if nx then RInt 1 else ROk).

Definition msetCommand (c : caller) : M unit := msetGenericCommand c false.
Definition msetnxCommand (c : caller) : M unit := msetGenericCommand c true.

Fixpoint del_loop (lazy : bool) (d : Z) (keys : list bytes) (numdel : Z) : M Z :=
  match keys with
  | [] => mret numdel
  | key :: keys =>
      run expireIfNeeded cf d key in
      let* deleted := lazy_delete lazy d key in
      if deleted then
        run signalModifiedKey d key in
        run add_dirty 1 in
        del_loop lazy d keys (numdel + 1)
      else del_loop lazy d keys numdel
  end.

Definition delGenericCommand (c : caller) (lazy : bool) : M unit :=
  let* a := gets argv in
  let* numdel := del_loop lazy (c_db c) (drop 1 a) 0 in
  addReply (RInt numdel).

Definition delCommand (c : caller) : M unit := delGenericCommand c (lazyfree_lazy_user_del cf).
Definition unlinkCommand (c : caller) : M unit := delGenericCommand c true.

Fixpoint count_loop (c : caller) (keys : list bytes) (count : Z) : M Z :=
  match keys with
  | [] => mret count
  | key :: keys =>
      let* o := lookupKeyRead cf c key in
      count_loop c keys (match o with Some _ => count + 1 | None => count end)
  end.

Definition existsCommand (c : caller) : M unit :=
  let* a := gets argv in
  let* count := count_loop c (drop 1 a) 0 in
  addReply (RInt count).

Definition touchCommand (c : caller) : M unit :=
  let* a := gets argv in
  let* touched := count_loop c (drop 1 a) 0 in
  addReply (RInt touched).

Definition renameGenericCommand (c : caller) (nx : bool) : M unit :=
  let d := c_db c in
  let* src := arg 1 in
  let* dst := arg 2 in
  let samekey := bool_decide (src = dst) in
  let* o := lookupKeyWriteOrReply cf c src (RErr NoSuchKey) in
  match o with
  | None => mret tt
  | Some o =>
      if samekey then addReply (if nx then RInt 0 else ROk) else
      let* expire := getExpire d src in
      let* t := lookupKeyWrite cf d dst in
      let* stop := (match t with
                    | Some _ => if nx then mret true else run dbDelete cf d dst in mret false
                    | None => mret false
                    end) in
      if stop then addReply (RInt 0) else
      run dbAdd d dst o in
      run (if negb (expire =? -1) then setExpire d dst expire else mret tt) in
      run dbDelete cf d src in
      run signalModifiedKey d src in
      run signalModifiedKey d dst in
      run add_dirty 1 in
      addReply (if nx then RInt 1 else ROk)
  end.

Definition renameCommand (c : caller) : M unit := renameGenericCommand c false.
Definition renamenxCommand (c : caller) : M unit := renameGenericCommand c true.

End Commands.

End Strings.
