(* ===== verification/StringsSpec.v ===== *)
(** * The meaning of the commands on one key

    The keyspace as its clients see it holds byte strings, and objects of other types,
    with an optional expire time.  Each command on one key is given an effect on the cell
    of that key: what is stored, what is answered and what is propagated.  The handlers
    of Strings.v are proved to have exactly that effect, on masters and replicas. *)

From Stdlib Require Import ZArith Lia.
From stdpp Require Import base option list numbers strings gmap.
From S2P Require Import Prelude Util Rdb Keyspace Strings.

#[local] Open Scope Z_scope.

Module StringsSpec.
Import Util Rdb Keyspace Strings.

#[local] Open Scope keyspace_scope.

(** ** Abstract cells and effects *)

Inductive aval := AStr (b : bytes) | AObj (t : otype) (b : bytes).

Definition acell : Type := option (aval * option Z).

Definition abs_value (v : value) : aval := match v with Str o => AStr (obj_string o) | Obj t b => AObj t b end.

Definition abs (c : cell) : acell := prod_map abs_value id <$> c.

(** Whether the key is looked up, what is stored in its cell if it is modified, the
    replies, and the arguments as they are propagated. *)
Record effect (C : Type) := mk_effect { e_lookup : bool; e_write : option C; e_reply : list reply; e_argv : list bytes }.

Arguments mk_effect {C}.
Arguments e_lookup {C}.
Arguments e_write {C}.
Arguments e_reply {C}.
Arguments e_argv {C}.

Definition abs_effect (e : effect cell) : effect acell :=
  mk_effect (e_lookup e) (abs <$> e_write e) (e_reply e) (e_argv e).

(** The state after an effect: a modified key is signalled and counted. *)
Definition apply (cf : config) (d : Z) (k : bytes) (e : effect cell) (s : server) : server :=
  let s := if e_lookup e then purge cf d k s else s in
  let s := match e_write e with Some c => set_dirty (dirty s + 1) (touch d k (put_cell d k c s)) | None => s end in
  set_argv (e_argv e) (set_out (out s ++ e_reply e) s).

(** The integer a string is the text of. *)
Definition as_int (b : bytes) : option Z := default None (string2ll (b ++ [0]) (blen b)).

Definition in_range (v : Z) : bool := (- 2 ^ 63 <=? v) && (v <? 2 ^ 63).

(** What the client sees of a cell. *)
Definition bulk (c : acell) : reply :=
  match c with
  | Some (AStr b, _) => RBulk b
  | Some (AObj _ _, _) => RErr WrongType
  | None => RNull
  end.

Definition is_object (c : acell) : bool := match c with Some (AObj _ _, _) => true | _ => false end.

Definition content (c : acell) : bytes := match c with Some (AStr b, _) => b | _ => [] end.

Definition ttl_of (c : acell) : option Z := c ≫= snd.

(** ** The commands *)

Section Spec.

(** The arguments, the readings of the clock, whether this instance never expires keys
    by itself, whether the client is the master, the cell, and the configuration. *)
Context (cf : config) (a : list bytes) (t : nat -> Z) (follower cmaster : bool) (c : acell).

#[local] Notation key := (nth 1 a []).

(** Nothing is modified. *)
Definition answer (lookup : bool) (r : reply) : effect acell := mk_effect lookup None [r] a.

Definition seconds (u : time_unit) : bool := match u with UNIT_SECONDS => true | UNIT_MILLISECONDS => false end.

(** The milliseconds and the expire time an argument stands for. *)
Definition expire_spec (f : flags) (u : time_unit) (x : bytes) : (Z * Z) + error :=
  match as_int x with
  | None => inr NotInteger
  | Some v =>
      let ms := if seconds u then v * 1000 else v in
      let when := if OBJ_PX f || OBJ_EX f then ms + t 0%nat else ms in
      if (0 <? v) && in_range ms && in_range when then inl (ms, when) else inr InvalidExpire
  end.

(** NX and XX forbid to set the key. *)
Definition set_refused (f : flags) : bool :=
  (OBJ_SET_NX f && bool_decide (is_Some c)) || (OBJ_SET_XX f && bool_decide (c = None)).

Definition set_checked_spec (f : flags) (val : bytes) (e : option (Z * Z)) (ok abort : reply) : effect acell :=
  if set_refused f then answer true abort else
  if OBJ_SET_GET f && is_object c then answer true (RErr WrongType) else
  mk_effect true
    (Some (Some (AStr val, match e with Some (_, when) => Some when | None => if OBJ_KEEPTTL f then ttl_of c else None end)))
    [if OBJ_SET_GET f then bulk c else ok]
    match e with
    | Some (ms, _) => [bytes_of_string "SET"; key; val; bytes_of_string (if OBJ_PXAT f || OBJ_EXAT f then "PXAT" else "PX"); sdec ms]
    | None => if OBJ_SET_GET f then strip_get a else a
    end.

Definition set_spec (f : flags) (val : bytes) (expire : option bytes) (u : time_unit) (ok abort : reply) : effect acell :=
  match expire with
  | None => set_checked_spec f val None ok abort
  | Some x =>
      match expire_spec f u x with
      | inl e => set_checked_spec f val (Some e) ok abort
      | inr e => answer false (RErr e)
      end
  end.

(** What GETEX does with the string [b]; [now] is the reading a time in the past is
    compared with. *)
Definition getex_checked_spec (f : flags) (b : bytes) (ttl : option Z) (e : option (Z * Z)) (now : Z) : effect acell :=
  match e with
  | Some (ms, when) =>
      let absolute := OBJ_PXAT f || OBJ_EXAT f in
      if absolute && (ms <=? now) && negb follower
      then mk_effect true (Some None) [RBulk b] [del_name (lazyfree_lazy_expire cf); key]
      else mk_effect true (Some (Some (AStr b, Some when))) [RBulk b]
             [bytes_of_string (if absolute then "PEXPIREAT" else "PEXPIRE"); key; sdec ms]
  | None =>
      if OBJ_PERSIST f && bool_decide (is_Some ttl)
      then mk_effect true (Some (Some (AStr b, None))) [RBulk b] [bytes_of_string "PERSIST"; key]
      else answer true (RBulk b)
  end.

Definition getex_spec (f : flags) (u : time_unit) (expire : option bytes) : effect acell :=
  match c with
  | Some (AStr b, ttl) =>
      match expire with
      | Some x =>
          match expire_spec f u x with
          | inr e => answer true (RErr e)
          | inl e => getex_checked_spec f b ttl (Some e) (t (if OBJ_PX f || OBJ_EX f then 1 else 0))
          end
      | None => getex_checked_spec f b ttl None 0
      end
  | _ => answer true (bulk c)
  end.

Definition getdel_spec : effect acell :=
  match c with
  | Some (AStr b, _) => mk_effect true (Some None) [RBulk b] [del_name (lazyfree_lazy_user_del cf); key]
  | _ => answer true (bulk c)
  end.

Definition getset_spec (val : bytes) : effect acell :=
  if is_object c then answer true (bulk c) else
  mk_effect true (Some (Some (AStr val, None))) [bulk c] (<[0%nat := bytes_of_string "SET"]> a).

(** [b] with [v] written at [off], zeros filling the gap. *)
Definition overwrite (b : bytes) (off : Z) (v : bytes) : bytes :=
  take (Z.to_nat off) (b ++ replicate (Z.to_nat (off - blen b)) 0) ++ v ++ drop (Z.to_nat off + length v) b.

(** No value means that the process stops for lack of memory. *)
Definition setrange_spec (off v : bytes) : option (effect acell) :=
  match as_int off with
  | None => Some (answer false (RErr NotInteger))
  | Some off =>
      let total := off + blen v in
      if off <? 0 then Some (answer false (RErr OffsetRange)) else
      if is_object c then Some (answer true (RErr WrongType)) else
      if bool_decide (v = []) then Some (answer true (RInt (blen (content c)))) else
      if negb cmaster && (proto_max_bulk_len cf <? s64 total) then Some (answer true (RErr TooLong)) else
      if (blen (content c) <? total) && negb (can_hold cf total) then None else
      let r := overwrite (content c) off v in
      Some (mk_effect true (Some (Some (AStr r, ttl_of c))) [RInt (blen r)] a)
  end.

(** The position an index stands for in a string of length [n]. *)
Definition index (n i : Z) : Z := if i <? 0 then Z.max 0 (n + i) else i.

Definition range (b : bytes) (i j : Z) : bytes :=
  let n := blen b in
  if (i <? 0) && (j <? 0) && (j <? i) then [] else
  let lo := index n i in
  let hi := Z.min (index n j) (n - 1) in
  take (Z.to_nat (hi - lo + 1)) (drop (Z.to_nat lo) b).

Definition getrange_spec (x y : bytes) : effect acell :=
  match as_int x, as_int y with
  | Some i, Some j =>
      match c with
      | Some (AStr b, _) => answer true (RBulk (range b i j))
      | Some (AObj _ _, _) => answer true (RErr WrongType)
      | None => answer true (RBulk [])
      end
  | _, _ => answer false (RErr NotInteger)
  end.

Definition append_spec (v : bytes) : option (effect acell) :=
  match c with
  | None => Some (mk_effect true (Some (Some (AStr v, None))) [RInt (blen v)] a)
  | Some (AObj _ _, _) => Some (answer true (RErr WrongType))
  | Some (AStr b, ttl) =>
      let total := blen b + blen v in
      if negb cmaster && (proto_max_bulk_len cf <? s64 total) then Some (answer true (RErr TooLong)) else
      if negb (can_hold cf total) then None else
      Some (mk_effect true (Some (Some (AStr (b ++ v), ttl))) [RInt total] a)
  end.

Definition strlen_spec : effect acell :=
  match c with
  | None => answer true (RInt 0)
  | Some (AObj _ _, _) => answer true (RErr WrongType)
  | Some (AStr b, _) => answer true (RInt (blen b))
  end.

Definition incr_spec (incr : Z) : effect acell :=
  if is_object c then answer true (RErr WrongType) else
  match (match c with Some (AStr b, _) => as_int b | _ => Some 0 end) with
  | None => answer true (RErr NotInteger)
  | Some v =>
      if in_range (v + incr) then mk_effect true (Some (Some (AStr (sdec (v + incr)), ttl_of c))) [RInt (v + incr)] a
      else answer true (RErr WouldOverflow)
  end.

Definition incrby_spec (x : bytes) : effect acell :=
  match as_int x with
  | None => answer false (RErr NotInteger)
  | Some v => incr_spec v
  end.

(** The negation of the smallest integer is itself. *)
Definition decrby_spec (x : bytes) : effect acell :=
  match as_int x with
  | None => answer false (RErr NotInteger)
  | Some v => incr_spec (s64 (- v))
  end.

(** [now] is the reading the expire time is compared with. *)
Definition expireat_spec (base now : Z) (u : time_unit) (x : bytes) : effect acell :=
  match as_int x with
  | None => answer false (RErr NotInteger)
  | Some v =>
      let ms := if seconds u then v * 1000 else v in
      let when := ms + base in
      if negb (in_range ms && in_range when) then answer false (RErr InvalidExpire) else
      match c with
      | None => answer true (RInt 0)
      | Some (v, _) =>
          if (when <=? now) && negb follower
          then mk_effect true (Some None) [RInt 1] [del_name (lazyfree_lazy_expire cf); key]
          else mk_effect true (Some (Some (v, Some when))) [RInt 1] a
      end
  end.

Definition ttl_spec (ms : bool) : effect acell :=
  match c with
  | None => answer true (RInt (-2))
  | Some (_, None) => answer true (RInt (-1))
  | Some (_, Some w) =>
      let ttl := Z.max 0 (s64 (w - t 0%nat)) in
      answer true (RInt (if w =? -1 then -1 else if ms then ttl else Z.quot (s64 (ttl + 500)) 1000))
  end.

Definition persist_spec : effect acell :=
  match c with
  | Some (v, Some _) => mk_effect true (Some (Some (v, None))) [RInt 1] a
  | _ => answer true (RInt 0)
  end.

End Spec.

(** ** Normal forms of states *)

Lemma server_eq s s' :
  dbs s = dbs s' -> clients s = clients s' -> masterhost s = masterhost s' -> loading s = loading s' -> paused s = paused s' ->
  client_pause_in_transaction s = client_pause_in_transaction s' -> ticks s = ticks s' -> mstime_cached s = mstime_cached s' ->
  fixed_time_expire s = fixed_time_expire s' -> dirty s = dirty s' -> in_exec s = in_exec s' ->
  propagate_in_transaction s = propagate_in_transaction s' -> log s = log s' -> argv s = argv s' -> out s = out s' -> s = s'.
Proof. destruct s, s'. cbn. by intros; subst. Qed.

Lemma touch_setters d k s :
  (forall n, touch d k (set_ticks n s) = set_ticks n (touch d k s)) /\ (forall n, touch d k (set_out n s) = set_out n (touch d k s)) /\
  (forall n, touch d k (set_argv n s) = set_argv n (touch d k s)) /\ (forall n, touch d k (set_dirty n s) = set_dirty n (touch d k s)).
Proof.
  split_and!; intros n; unfold touch, db_at; cbn; by destruct (watched_keys _ !! k).
Qed.

Lemma touch_ticks d k n s : touch d k (set_ticks n s) = set_ticks n (touch d k s).
Proof. apply touch_setters. Qed.
Lemma touch_out d k n s : touch d k (set_out n s) = set_out n (touch d k s).
Proof. apply touch_setters. Qed.
Lemma touch_argv d k n s : touch d k (set_argv n s) = set_argv n (touch d k s).
Proof. apply touch_setters. Qed.
Lemma touch_dirty d k n s : touch d k (set_dirty n s) = set_dirty n (touch d k s).
Proof. apply touch_setters. Qed.

Lemma put_ticks d k c n s : put_cell d k c (set_ticks n s) = set_ticks n (put_cell d k c s).
Proof. done. Qed.
Lemma put_out d k c n s : put_cell d k c (set_out n s) = set_out n (put_cell d k c s).
Proof. done. Qed.
Lemma put_argv d k c n s : put_cell d k c (set_argv n s) = set_argv n (put_cell d k c s).
Proof. done. Qed.
Lemma put_dirty d k c n s : put_cell d k c (set_dirty n s) = set_dirty n (put_cell d k c s).
Proof. done. Qed.

Lemma put_touch d k c d' k' s : put_cell d k c (touch d' k' s) = touch d' k' (put_cell d k c s).
Proof.
  unfold touch. assert (Hw : watched_keys (db_at (put_cell d k c s) d') = watched_keys (db_at s d')).
  { unfold put_cell. rewrite db_at_set. by case_decide; subst. }
  rewrite Hw. by destruct (watched_keys (db_at s d') !! k').
Qed.

Lemma purge_ticks cf d k n s : purge cf d k (set_ticks n s) = set_ticks n (purge cf d k s).
Proof. unfold purge. rewrite put_ticks, touch_ticks. change (key_expired d k (set_ticks n s)) with (key_expired d k s). cbn. by destruct (_ && _). Qed.
Lemma purge_out cf d k n s : purge cf d k (set_out n s) = set_out n (purge cf d k s).
Proof. unfold purge. rewrite put_out, touch_out. change (key_expired d k (set_out n s)) with (key_expired d k s). cbn. by destruct (_ && _). Qed.
Lemma purge_argv cf d k n s : purge cf d k (set_argv n s) = set_argv n (purge cf d k s).
Proof. unfold purge. rewrite put_argv, touch_argv. change (key_expired d k (set_argv n s)) with (key_expired d k s). cbn. by destruct (_ && _). Qed.
Lemma purge_dirty cf d k n s : purge cf d k (set_dirty n s) = set_dirty n (purge cf d k s).
Proof. unfold purge. rewrite put_dirty, touch_dirty. change (key_expired d k (set_dirty n s)) with (key_expired d k s). cbn. by destruct (_ && _). Qed.

Lemma touch_fields d k s :
  ticks (touch d k s) = ticks s /\ dirty (touch d k s) = dirty s /\ argv (touch d k s) = argv s /\ out (touch d k s) = out s /\
  masterhost (touch d k s) = masterhost s /\ loading (touch d k s) = loading s.
Proof. by destruct (touch_cases d k s) as [m ->]. Qed.

Lemma purge_fields cf d k s :
  ticks (purge cf d k s) = ticks s /\ dirty (purge cf d k s) = dirty s /\ argv (purge cf d k s) = argv s /\ out (purge cf d k s) = out s /\
  masterhost (purge cf d k s) = masterhost s /\ loading (purge cf d k s) = loading s.
Proof. destruct (purge_cases cf d k s) as [->| ->]; [done|]. cbn. by destruct (touch_fields d k (put_cell d k None s)) as (-> & -> & -> & -> & -> & ->). Qed.

Lemma field_touch_ticks d k s : ticks (touch d k s) = ticks s. Proof. apply touch_fields. Qed.
Lemma field_touch_dirty d k s : dirty (touch d k s) = dirty s. Proof. apply touch_fields. Qed.
Lemma field_touch_argv d k s : argv (touch d k s) = argv s. Proof. apply touch_fields. Qed.
Lemma field_touch_out d k s : out (touch d k s) = out s. Proof. apply touch_fields. Qed.
Lemma field_purge_ticks cf d k s : ticks (purge cf d k s) = ticks s. Proof. apply purge_fields. Qed.
Lemma field_purge_dirty cf d k s : dirty (purge cf d k s) = dirty s. Proof. apply purge_fields. Qed.
Lemma field_purge_argv cf d k s : argv (purge cf d k s) = argv s. Proof. apply purge_fields. Qed.
Lemma field_purge_out cf d k s : out (purge cf d k s) = out s. Proof. apply purge_fields. Qed.

Lemma field_put_ticks d k c s : ticks (put_cell d k c s) = ticks s. Proof. done. Qed.
Lemma field_put_dirty d k c s : dirty (put_cell d k c s) = dirty s. Proof. done. Qed.
Lemma field_put_argv d k c s : argv (put_cell d k c s) = argv s. Proof. done. Qed.
Lemma field_put_out d k c s : out (put_cell d k c s) = out s. Proof. done. Qed.

Create HintDb state.
#[export] Hint Rewrite touch_ticks touch_out touch_argv touch_dirty put_ticks put_out put_argv put_dirty put_touch put_put
  purge_ticks purge_out purge_argv purge_dirty purge_idem : state.

#[export] Hint Rewrite field_touch_ticks field_touch_dirty field_touch_argv field_touch_out
  field_put_ticks field_put_dirty field_put_argv field_put_out
  field_purge_ticks field_purge_dirty field_purge_argv field_purge_out @app_nil_r : state_fields.

(** Two descriptions of a state agree: bring the changes of the keyspace to the inside and
    compare field by field. *)
Ltac reduce_fields :=
  cbn [dbs clients masterhost loading paused client_pause_in_transaction ticks mstime_cached fixed_time_expire dirty in_exec
       propagate_in_transaction log argv out set_ticks set_out set_argv set_dirty].

Ltac fields := apply server_eq; reduce_fields; autorewrite with state_fields; reduce_fields; reflexivity.

(** The next step of a handler, whose outcome the tactic proves. *)
Tactic Notation "step" tactic3(t) := (erewrite mbind_ok by t); cbn [negb andb]; cbn iota.

Lemma done_eq (s s' : server) : s = s' -> Some (s, tt) = Some (s', tt).
Proof. by intros ->. Qed.

Ltac state_eq := unfold apply, answer; cbn [e_lookup e_write e_reply e_argv]; autorewrite with state; fields.

(** ** Steps of the handlers *)

Lemma lift_ok {A} (x : option A) v s : x = Some v -> lift x s = Some (s, v).
Proof. unfold lift. by intros ->. Qed.

Lemma arg_ok i x s : argv s !! i = Some x -> arg i s = Some (s, x).
Proof. unfold arg. by intros ->. Qed.

Lemma as_int_ok b : string2ll (b ++ [0]) (blen b) = Some (as_int b).
Proof.
  unfold as_int. destruct (string2ll_spec (b ++ [0]) (blen b)) as (r & -> & _); [|done].
  rewrite blen_app. change (blen [0]) with 1. blia.
Qed.

Lemma as_int_spec b v : as_int b = Some v <-> is_s 64 v /\ b = sdec v.
Proof.
  destruct (string2ll_spec (b ++ [0]) (blen b)) as (r & E & Hr); [rewrite blen_app; change (blen [0]) with 1; blia|].
  rewrite as_int_ok in E. injection E as ->. rewrite Hr. unfold blen. by rewrite Nat2Z.id, take_app_length.
Qed.

Lemma in_range_spec v : in_range v = true <-> is_s 64 v.
Proof. unfold in_range. rewrite andb_true_iff, Z.leb_le, Z.ltb_lt. done. Qed.

Lemma arg_object_string x : obj_string (arg_object x) = x.
Proof. unfold arg_object. by destruct (_ <=? _). Qed.

Lemma object_int o : int_range o -> forall s,
  getLongLongFromObject (Some o) s = Some (s, as_int (obj_string o)).
Proof.
  intros Ho s. destruct o as [b|b|sh v]; cbn [getLongLongFromObject obj_string]; [apply lift_ok, as_int_ok..|].
  unfold mret. by rewrite (proj2 (as_int_spec (sdec v) v) (conj Ho eq_refl)).
Qed.

Lemma getLongLong_ok o s : int_range o ->
  getLongLongFromObjectOrReply (Some o) s =
    Some (match as_int (obj_string o) with Some _ => s | None => set_out (out s ++ [RErr NotInteger]) s end, as_int (obj_string o)).
Proof.
  intros Ho. unfold getLongLongFromObjectOrReply. erewrite mbind_ok by (by apply object_int). by destruct (as_int (obj_string o)).
Qed.

Lemma getLongLong_arg x s :
  getLongLongFromObjectOrReply (Some (arg_object x)) s =
    Some (match as_int x with Some _ => s | None => set_out (out s ++ [RErr NotInteger]) s end, as_int x).
Proof. rewrite getLongLong_ok; [by rewrite arg_object_string|]. unfold arg_object. by destruct (_ <=? _). Qed.

(** [b], extended with zeros to [n] bytes. *)
Definition grown (b : bytes) (n : Z) : bytes := if n <=? blen b then b else b ++ replicate (Z.to_nat (n - blen b)) 0.

Lemma grown_length b n : blen (grown b n) = Z.max n (blen b).
Proof. unfold grown. destruct (Z.leb_spec n (blen b)); unfold blen in *; rewrite ?length_app, ?length_replicate; lia. Qed.

Lemma overwrite_store b off v : 0 <= off -> store (grown b (off + blen v)) off v = Some (overwrite b off v).
Proof.
  intros Hoff. pose proof (grown_length b (off + blen v)) as Hg. unfold store. rewrite decide_True by lia. unfold overwrite, grown.
  destruct (Z.leb_spec (off + blen v) (blen b)) as [Hl|Hl]; do 2 f_equal.
  - replace (Z.to_nat (off - blen b)) with 0%nat by (unfold blen in *; lia). by rewrite app_nil_r.
  - rewrite !take_app, !take_replicate. do 2 f_equal. unfold blen in *. lia.
  - f_equal. rewrite !drop_ge; [done|unfold blen in *; rewrite ?length_app, ?length_replicate; lia..].
Qed.

Lemma overwrite_length b off v : 0 <= off -> blen (overwrite b off v) = Z.max (off + blen v) (blen b).
Proof.
  intros Hoff. pose proof (store_length _ _ _ _ (overwrite_store b off v Hoff)) as Hl. rewrite <- grown_length. unfold blen at 1 3. by rewrite Hl.
Qed.

Lemma overwrite_zeros off v : 0 <= off -> overwrite (replicate (Z.to_nat (off + blen v)) 0) off v = overwrite [] off v.
Proof.
  intros Hoff. unfold overwrite. rewrite !drop_nil, drop_ge by (rewrite length_replicate; unfold blen; lia). f_equal.
  replace (Z.to_nat (off - blen (replicate (Z.to_nat (off + blen v)) 0))) with 0%nat by (unfold blen; rewrite length_replicate; lia).
  cbn [replicate app]. rewrite app_nil_r, !take_replicate. f_equal. unfold blen. cbn. lia.
Qed.

(** ** The handlers have their effects *)

Section Refinement.

Context (cf : config).

(** The clock, and the memory the allocator can give. *)
Context (Hclock : forall n, 0 <= clock cf n < 2 ^ 63) (Hhold : forall n, can_hold cf n = true -> n < 2 ^ 63).

(** The handler has the effect [x] on the key [k] of the database [d]. *)
Definition does (m : M unit) (d : Z) (k : bytes) (s : server) (x : effect acell) : Prop :=
  exists e n, m s = Some (apply cf d k e (set_ticks n s), tt) /\ abs_effect e = x /\
    match e_write e with Some c => cell_ok c | None => True end.

(** A handler that only answers, with or without a lookup. *)
Lemma does_answer m d k s (lookup : bool) r n :
  m s = Some (set_out (out s ++ [r]) (set_ticks n (if lookup then purge cf d k s else s)), tt) ->
  does m d k s (answer (argv s) lookup r).
Proof.
  intros E. exists (mk_effect lookup None [r] (argv s)), n. split; [|done]. rewrite E. do 2 f_equal.
  destruct lookup; state_eq.
Qed.

(** A handler that stores a cell. *)
Lemma does_write m d k s c r a n :
  cell_ok c ->
  m s = Some (set_argv a (set_out (out s ++ [r]) (set_ticks n (set_dirty (dirty s + 1) (touch d k (put_cell d k c (purge cf d k s)))))), tt) ->
  does m d k s (mk_effect true (Some (abs c)) [r] a).
Proof.
  intros Hc E. exists (mk_effect true (Some c) [r] a), n. split; [|done]. rewrite E. do 2 f_equal. state_eq.
Qed.

Lemma key_nth (a : list bytes) k : a !! 1%nat = Some k -> nth 1 a [] = k.
Proof. intros H. by apply nth_lookup_Some with (d := []) in H. Qed.

Section Handler.

Context (c : caller) (s : server) (Hrun : running s) (key : bytes) (Hkey : argv s !! 1%nat = Some key).

#[local] Notation d := (c_db c).

#[local] Notation seen := (abs (readable c key s)).

Lemma seen_value : abs_value <$> (fst <$> readable c key s) = fst <$> seen.
Proof. unfold abs. by destruct (readable c key s). Qed.

Lemma lookupOrReply_ok r :
  lookupKeyReadOrReply cf c key r s =
    Some (match readable c key s with Some _ => purge cf d key s | None => set_out (out s ++ [r]) (purge cf d key s) end, fst <$> readable c key s).
Proof.
  unfold lookupKeyReadOrReply. erewrite mbind_ok by (by apply lookupKeyRead_ok). destruct (readable c key s) as [[v e]|]; [done|].
  cbn. unfold mbind_, addReply, modify. by rewrite field_purge_out.
Qed.

Lemma getGeneric_ok :
  getGenericCommand cf c s = Some (set_out (out s ++ [bulk seen]) (purge cf d key s), negb (is_object seen)).
Proof.
  unfold getGenericCommand. erewrite mbind_ok by (by apply arg_ok). erewrite mbind_ok by apply lookupOrReply_ok.
  unfold abs. destruct (readable c key s) as [[[o|t b] e]|]; cbn; unfold mbind_, addReply, modify, mret; by rewrite ?field_purge_out.
Qed.

Lemma getCommand_ok : does (getCommand cf c) d key s (answer (argv s) true (bulk seen)).
Proof.
  apply (does_answer _ _ _ _ true _ (ticks s)). unfold getCommand. erewrite mbind_ok by apply getGeneric_ok. unfold mret. do 2 f_equal.
  fields.
Qed.

End Handler.

(** *** Commands that may write *)

Section Writing.

Context (c : caller) (s : server) (Hrun : running s) (key : bytes) (Hkey : argv s !! 1%nat = Some key) (Hwrite : c_readonly c = false).

#[local] Notation d := (c_db c).

#[local] Notation seen := (abs (live d key s)).

#[local] Notation p := (purge cf d key s).

Lemma readable_live s' : readable c key s' = live d key s'.
Proof. unfold readable. by rewrite Hwrite, andb_false_r. Qed.

Lemma purged_running : running p.
Proof. by apply running_purge. Qed.

Lemma purge_id : p = set_ticks (ticks s) (set_out (out s) p).
Proof. fields. Qed.

Lemma set_aborted_ok f :
  set_aborted cf d f key s = Some (if OBJ_SET_NX f || OBJ_SET_XX f then p else s, set_refused seen f).
Proof.
  unfold set_aborted, set_refused, abs, mbind_, mret. destruct (OBJ_SET_NX f), (OBJ_SET_XX f); cbn [orb andb]; try done.
  all: rewrite lookupKeyWrite_ok by done; destruct (live d key s) as [v|] eqn:El; cbn [fmap option_fmap option_map]; try done.
  rewrite bool_decide_false by (by intros []). cbn iota. rewrite lookupKeyWrite_ok, purge_idem, live_purge, El by apply purged_running. done.
Qed.

(** The state before or after the key has been looked up. *)
Lemma get_either x :
  x = s \/ x = p ->
  getGenericCommand cf c x = Some (set_ticks (ticks s) (set_out (out s ++ [bulk seen]) p), negb (is_object seen)).
Proof.
  intros Hx. assert (Hr : running x) by (destruct Hx as [->| ->]; [done|apply purged_running]).
  rewrite (getGeneric_ok c x Hr key) by (destruct Hx as [->| ->]; by rewrite ?field_purge_argv). rewrite readable_live.
  assert (Ep : purge cf d key x = p) by (destruct Hx as [->| ->]; by rewrite ?purge_idem).
  assert (El : live d key x = live d key s) by (destruct Hx as [->| ->]; by rewrite ?live_purge).
  assert (Eo : out x = out s) by (destruct Hx as [->| ->]; by rewrite ?field_purge_out).
  rewrite Ep, El, Eo. do 2 f_equal. fields.
Qed.

Lemma set_either x o v keepttl :
  x = set_out o s \/ x = set_ticks (ticks s) (set_out o p) -> value_ok v ->
  genericSetKey cf d key v keepttl true x =
    Some (set_ticks (ticks s) (set_out o (touch d key (put_cell d key (Some (v, if keepttl then live d key s ≫= snd else None)) p))), tt).
Proof.
  intros [->| ->] Hv.
  - rewrite genericSetKey_ok by done. change (live d key (set_out o s)) with (live d key s). do 2 f_equal. autorewrite with state.
    fields.
  - rewrite genericSetKey_ok by (done || exact purged_running).
    change (live d key (set_ticks (ticks s) (set_out o p))) with (live d key p). rewrite live_purge. do 2 f_equal. by autorewrite with state.
Qed.

Lemma set_out_id x : set_out (out x) x = x.
Proof. by destruct x. Qed.

(** The state after storing [cell_], with the replies [o] and the arguments [a]. *)
Definition stored (cell_ : cell) (o : list reply) (a : list bytes) : server :=
  set_argv a (set_out o (set_ticks (ticks s) (set_dirty (dirty s + 1) (touch d key (put_cell d key cell_ p))))).

Lemma set_tail f val e ttl ok o :
  value_ok (Str val) ->
  (run add_dirty 1 in
   run (match e with
        | None => mret tt
        | Some (ms, when) =>
            run setExpire d key when in
            rewriteClientCommandVector [bytes_of_string "SET"; key; obj_string val;
              bytes_of_string (if OBJ_PXAT f || OBJ_EXAT f then "PXAT" else "PX"); sdec ms]
        end) in
   run (if negb (OBJ_SET_GET f) then addReply ok else mret tt) in
   if OBJ_SET_GET f && bool_decide (e = None) then modify (fun s => set_argv (strip_get (argv s)) s) else mret tt)
    (set_ticks (ticks s) (set_out o (touch d key (put_cell d key (Some (Str val, ttl)) p)))) =
  Some (stored (Some (Str val, match e with Some (_, when) => Some when | None => ttl end)) (o ++ if OBJ_SET_GET f then [] else [ok])
    match e with
    | Some (ms, _) => [bytes_of_string "SET"; key; obj_string val; bytes_of_string (if OBJ_PXAT f || OBJ_EXAT f then "PXAT" else "PX"); sdec ms]
    | None => if OBJ_SET_GET f then strip_get (argv s) else argv s
    end, tt).
Proof.
  intros Hv. unfold stored. set (T := set_ticks (ticks s) _). erewrite mbind_ok by done.
  assert (He : (match e with
        | None => mret tt
        | Some (ms, when) =>
            run setExpire d key when in
            rewriteClientCommandVector [bytes_of_string "SET"; key; obj_string val;
              bytes_of_string (if OBJ_PXAT f || OBJ_EXAT f then "PXAT" else "PX"); sdec ms]
        end) (set_dirty (dirty T + 1) T) =
     Some (set_argv match e with
           | Some (ms, _) => [bytes_of_string "SET"; key; obj_string val; bytes_of_string (if OBJ_PXAT f || OBJ_EXAT f then "PXAT" else "PX"); sdec ms]
           | None => argv s
           end (set_out o (set_ticks (ticks s) (set_dirty (dirty s + 1) (touch d key (put_cell d key (Some (Str val, match e with Some (_, when) => Some when | None => ttl end)) p))))), tt)).
  { destruct e as [[ms when]|].
    - erewrite mbind_ok.
      2: { eapply setExpire_ok; [|etransitivity; [apply get_touch|apply get_put]]. apply (wf_touch d key (put_cell d key (Some (Str val, ttl)) p)), wf_put; [apply purged_running|done]. }
      unfold rewriteClientCommandVector, modify, T. do 2 f_equal. autorewrite with state. fields.
    - unfold mret, T. do 2 f_equal. fields. }
  erewrite mbind_ok by exact He. unfold mbind_, addReply, modify, mret.
  destruct (OBJ_SET_GET f); cbn [negb andb].
  - rewrite app_nil_r. case_bool_decide as Hb; [subst e|destruct e as [[ms when]|]; [|congruence]]; apply done_eq; fields.
  - apply done_eq. fields.
Qed.

Lemma set_checked_ok f val e ok abort :
  value_ok (Str val) ->
  does (set_checked cf c f key val e ok abort) d key s (set_checked_spec (argv s) seen f (obj_string val) e ok abort).
Proof.
  intros Hv. unfold set_checked, set_checked_spec. rewrite (key_nth _ _ Hkey).
  assert (Ha : exists x, (x = s \/ x = p) /\ (set_refused seen f = true -> x = p) /\ set_aborted cf d f key s = Some (x, set_refused seen f)).
  { eexists. split; [|split; [|apply set_aborted_ok]]; unfold set_refused; destruct (OBJ_SET_NX f), (OBJ_SET_XX f); auto; done. }
  destruct Ha as (x & Hx & Hp & Ha). destruct (set_refused seen f).
  { apply (does_answer _ _ _ _ true _ (ticks s)). erewrite mbind_ok by exact Ha. rewrite Hp by done.
    unfold addReply, modify. do 2 f_equal. fields. }
  destruct (OBJ_SET_GET f && is_object seen) eqn:Eg.
  { apply andb_prop in Eg as [Eg Eo]. apply (does_answer _ _ _ _ true _ (ticks s)). erewrite mbind_ok by exact Ha. rewrite Eg.
    erewrite mbind_ok by (by apply get_either). rewrite Eo. unfold mret. cbn. unfold abs in *. by destruct (live d key s) as [[[]]|]. }
  set (ttl0 := if OBJ_KEEPTTL f then live d key s ≫= snd else None).
  set (a' := match e with Some _ => _ | None => _ end). set (ttl := match e with Some _ => _ | None => _ end).
  replace (Some (AStr (obj_string val), ttl)) with (abs (Some (Str val, match e with Some (_, when) => Some when | None => ttl0 end))).
  2: { unfold ttl, ttl0, abs, ttl_of. cbn. destruct e as [[ms when]|]; [done|]. destruct (OBJ_KEEPTTL f); [|done]. by destruct (live d key s) as [[? ?]|]. }
  assert (Hgot : exists y o, (if OBJ_SET_GET f then getGenericCommand cf c else mret true) x = Some (y, true) /\
    (y = set_out o s \/ y = set_ticks (ticks s) (set_out o p)) /\
    o ++ (if OBJ_SET_GET f then [] else [ok]) = out s ++ [if OBJ_SET_GET f then bulk seen else ok]).
  { destruct (OBJ_SET_GET f); cbn in Eg.
    - do 2 eexists. split; [rewrite get_either by done; by rewrite Eg|]. split; [by right|]. by rewrite app_nil_r.
    - exists x, (out s). split; [done|]. split; [|done]. destruct Hx as [->| ->]; [left; by rewrite set_out_id|right; apply purge_id]. }
  destruct Hgot as (y & o & Hgot & Hy & Ho).
  apply (does_write _ _ _ _ _ _ _ (ticks s)); [done|]. erewrite mbind_ok by exact Ha. cbn iota.
  erewrite mbind_ok by exact Hgot. cbn [negb].
  erewrite mbind_ok by (apply (set_either y o); done). etransitivity; [by apply set_tail|]. unfold stored. by rewrite Ho.
Qed.

End Writing.

(** *** The commands *)

(** The readings of the clock from here on. *)
Definition readings (s : server) (i : nat) : Z := clock cf (i + ticks s).

Lemma does_ticks m m' d k s n x : m s = m' (set_ticks n s) -> does m' d k (set_ticks n s) x -> does m d k s x.
Proof. intros E (e & n' & Hm & Hx). exists e, n'. by rewrite E. Qed.

Lemma tryEncode_ok a s : blen a < 2 ^ 63 -> exists o, tryEncode cf a s = Some (s, o) /\ obj_string o = a /\ value_ok (Str o).
Proof.
  intros Ha. destruct (tryObjectEncoding_ok (cfg_env cf) (arg_object a)) as (o & Ho & Hs & Hb); [unfold arg_object; by destruct (_ <=? _)|].
  rewrite arg_object_string in Hs. exists o. split; [by apply lift_ok|]. split; [done|]. split; [by destruct o|by rewrite Hs].
Qed.

Lemma expire_argument_ok f u x s :
  exists n, (forall e, expire_spec (readings s) f u x = inl e -> n = ((if OBJ_PX f || OBJ_EX f then 1 else 0) + ticks s)%nat) /\
  expire_argument cf f u x s =
    match expire_spec (readings s) f u x with
    | inl e => Some (set_ticks n s, Some e)
    | inr er => Some (set_out (out s ++ [RErr er]) (set_ticks n s), None)
    end.
Proof.
  unfold expire_argument, expire_spec. setoid_rewrite mbind_ok; [|apply getLongLong_arg].
  assert (Ht : set_ticks (ticks s) s = s) by (by destruct s).
  destruct (as_int x) as [v|] eqn:Ev; [|exists (ticks s); by rewrite Ht]. apply as_int_spec in Ev as [Hv _].
  change (readings s 0) with (clock cf (ticks s)). pose proof (Hclock (ticks s)) as Hc.
  unfold seconds, in_range, INT64_MAX. change ((2 ^ 63 - 1) / 1000) with 9223372036854775.
  set (sec := match u with UNIT_SECONDS => true | UNIT_MILLISECONDS => false end).
  set (ms := if sec then v * 1000 else v).
  destruct ((v <=? 0) || (sec && (9223372036854775 <? v))) eqn:E1.
  { exists (ticks s). rewrite Ht. replace ((0 <? v) && _ && _) with false by (subst ms; destruct sec; cbn in *; lia). done. }
  assert (Hms : 0 < ms < 2 ^ 63) by (subst ms; destruct sec; cbn in *; unfold is_s in Hv; lia).
  assert (Hw : forall when, 0 < when < 2 ^ 64 -> s64 when = if when <? 2 ^ 63 then when else when - 2 ^ 64).
  { intros when Hwhen. unfold wraps. change (64 - 1) with 63. destruct (Z.ltb_spec when (2 ^ 63)); zwidth; Z.div_mod_to_equations; lia. }
  destruct (OBJ_PX f || OBJ_EX f); unfold mbind_, mstime, mret.
  - exists (S (ticks s)). rewrite Hw by lia. destruct (Z.ltb_spec (ms + clock cf (ticks s)) (2 ^ 63)).
    + replace (ms + clock cf (ticks s) <=? 0) with false by lia. replace ((0 <? v) && _ && _) with true by (subst ms; destruct sec; cbn in *; lia). done.
    + replace (ms + clock cf (ticks s) - 2 ^ 64 <=? 0) with true by lia. replace ((0 <? v) && _ && _) with false by lia. done.
  - exists (ticks s). rewrite Ht. replace (ms <=? 0) with false by lia. replace ((0 <? v) && _ && _) with true by (subst ms; destruct sec; cbn in *; lia). done.
Qed.

(** An expire argument is there exactly when one of its options is. *)
Definition expire_given (f : flags) : bool := OBJ_EX f || OBJ_PX f || OBJ_EXAT f || OBJ_PXAT f.

Lemma parse_options_given t l f u e f' u' e' :
  expire_given f = bool_decide (is_Some e) -> parse_options t l f u e = Some (f', u', e') -> expire_given f' = bool_decide (is_Some e').
Proof.
  remember (length l) as n eqn:Hn. revert l f u e Hn. induction (lt_wf n) as [n _ IH]. intros l [nx xx ex px keep get exat pxat persist] u e -> Hf.
  destruct l as [|opt l]; cbn [parse_options]; [by intros [= <- <- <-]|].
  assert (H1 : forall f1, expire_given f1 = bool_decide (is_Some e) -> parse_options t l f1 u e = Some (f', u', e') -> expire_given f' = bool_decide (is_Some e'))
    by (intros f1 Hf1; eapply IH; [|reflexivity|done]; cbn; lia).
  repeat case_match; try (by apply H1); try done.
  all: match goal with |- parse_options _ ?l' ?f1 ?u1 (Some ?x) = _ -> _ =>
    intros Hp; eapply (IH (length l') ltac:(cbn; lia) l' f1 u1 (Some x)); [reflexivity| |exact Hp] end;
    unfold expire_given; cbn [OBJ_EX OBJ_PX OBJ_EXAT OBJ_PXAT]; rewrite ?orb_true_r; done.
Qed.

Section Writers.

Context (c : caller) (s : server) (Hrun : running s) (key : bytes) (Hkey : argv s !! 1%nat = Some key) (Hwrite : c_readonly c = false).
Context (Hargs : Forall (fun x => blen x < 2 ^ 63) (argv s)).

#[local] Notation d := (c_db c).

#[local] Notation seen := (abs (live d key s)).

#[local] Notation p := (purge cf d key s).

Lemma arg_short i x : argv s !! i = Some x -> blen x < 2 ^ 63.
Proof. intros Hx. by apply (Forall_lookup_1 _ _ _ _ Hargs Hx). Qed.

Lemma setGeneric_ok f val expire u ok abort :
  value_ok (Str val) ->
  does (setGenericCommand cf c f key val expire u ok abort) d key s (set_spec (argv s) (readings s) seen f (obj_string val) expire u ok abort).
Proof.
  intros Hv. unfold setGenericCommand, set_spec, expire_arguments. destruct expire as [x|].
  - destruct (expire_argument_ok f u x s) as (n & _ & Hn). destruct (expire_spec (readings s) f u x) as [e|er].
    + eapply (does_ticks _ (set_checked cf c f key val (Some e) ok abort) _ _ _ n).
      * unfold mbind_. by rewrite Hn.
      * by apply (set_checked_ok c (set_ticks n s) Hrun key Hkey Hwrite).
    + apply (does_answer _ _ _ _ false _ n). unfold mbind_. by rewrite Hn.
  - exact (set_checked_ok c s Hrun key Hkey Hwrite f val None ok abort Hv).
Qed.

(** Parsed options. *)
Definition parsed (l : list bytes) : (flags -> time_unit -> option bytes -> effect acell) -> command_type -> effect acell := fun k t =>
  match parse_options t l OBJ_NO_FLAGS UNIT_SECONDS None with
  | None => answer (argv s) false (RErr SyntaxErr)
  | Some (f, u, e) => k f u e
  end.

Lemma setCommand_ok a :
  argv s !! 2%nat = Some a ->
  does (setCommand cf c) d key s (parsed (drop 3 (argv s)) (fun f u e => set_spec (argv s) (readings s) seen f a e u ROk RNull) COMMAND_SET).
Proof.
  intros Ha. unfold setCommand, parsed, parseExtendedStringArgumentsOrReply.
  destruct (parse_options COMMAND_SET (drop 3 (argv s)) OBJ_NO_FLAGS UNIT_SECONDS None) as [[[f u] e]|] eqn:E.
  - destruct (tryEncode_ok a s (arg_short _ _ Ha)) as (o & Ho & Hs & Hv).
    destruct (setGeneric_ok f o e u ROk RNull Hv) as (x & n & Hm & Hx). rewrite Hs in Hx. exists x, n. split; [|done].
    unfold mbind_ at 1 2, gets. rewrite E. unfold mret at 1. by do 3 (erewrite mbind_ok by (by apply arg_ok || exact Ho)).
  - apply (does_answer _ _ _ _ false _ (ticks s)). unfold mbind_, gets. rewrite E. unfold addReply, modify, mret. apply done_eq. fields.
Qed.

Lemma setnxCommand_ok a :
  argv s !! 2%nat = Some a -> does (setnxCommand cf c) d key s (set_spec (argv s) (readings s) seen NX_FLAGS a None UNIT_SECONDS (RInt 1) (RInt 0)).
Proof.
  intros Ha. destruct (tryEncode_ok a s (arg_short _ _ Ha)) as (o & Ho & Hs & Hv).
  destruct (setGeneric_ok NX_FLAGS o None UNIT_SECONDS (RInt 1) (RInt 0) Hv) as (x & n & Hm & Hx). rewrite Hs in Hx. exists x, n. split; [|done].
  unfold setnxCommand. by do 3 (erewrite mbind_ok by (by apply arg_ok || exact Ho)).
Qed.

Lemma setexCommand_ok e a :
  argv s !! 2%nat = Some e -> argv s !! 3%nat = Some a ->
  does (setexCommand cf c) d key s (set_spec (argv s) (readings s) seen EX_FLAGS a (Some e) UNIT_SECONDS ROk RNull).
Proof.
  intros He Ha. destruct (tryEncode_ok a s (arg_short _ _ Ha)) as (o & Ho & Hs & Hv).
  destruct (setGeneric_ok EX_FLAGS o (Some e) UNIT_SECONDS ROk RNull Hv) as (x & n & Hm & Hx). rewrite Hs in Hx. exists x, n. split; [|done].
  unfold setexCommand. by do 4 (erewrite mbind_ok by (by apply arg_ok || exact Ho)).
Qed.

Lemma psetexCommand_ok e a :
  argv s !! 2%nat = Some e -> argv s !! 3%nat = Some a ->
  does (psetexCommand cf c) d key s (set_spec (argv s) (readings s) seen PX_FLAGS a (Some e) UNIT_MILLISECONDS ROk RNull).
Proof.
  intros He Ha. destruct (tryEncode_ok a s (arg_short _ _ Ha)) as (o & Ho & Hs & Hv).
  destruct (setGeneric_ok PX_FLAGS o (Some e) UNIT_MILLISECONDS ROk RNull Hv) as (x & n & Hm & Hx). rewrite Hs in Hx. exists x, n. split; [|done].
  unfold psetexCommand. by do 4 (erewrite mbind_ok by (by apply arg_ok || exact Ho)).
Qed.

(** The state once the key has been looked up. *)
Lemma looked_up n o : wf (set_ticks n (set_out o p)) /\ get_cell d key (set_ticks n (set_out o p)) = live d key s /\ argv (set_ticks n (set_out o p)) !! 1%nat = Some key.
Proof. split; [apply (running_purge cf d key s Hrun)|]. split; [apply get_purge|]. reduce_fields. by rewrite field_purge_argv. Qed.

Lemma lazy_delete_ok lazy n o :
  lazy_delete lazy d key (set_ticks n (set_out o p)) =
    Some (match live d key s with Some _ => put_cell d key None (set_ticks n (set_out o p)) | None => set_ticks n (set_out o p) end, bool_decide (is_Some (live d key s))).
Proof.
  destruct (looked_up n o) as (Hw & Hg & _). transitivity (dbSyncDelete d key (set_ticks n (set_out o p))); [by destruct lazy|].
  rewrite dbSyncDelete_ok by done. by rewrite Hg.
Qed.

Lemma getdelCommand_ok : does (getdelCommand cf c) d key s (getdel_spec cf (argv s) seen).
Proof.
  unfold getdelCommand, getdel_spec. rewrite (key_nth _ _ Hkey). pose proof (get_either c s Hrun key Hkey Hwrite s (or_introl eq_refl)) as Hget.
  pose proof (lazy_delete_ok (lazyfree_lazy_user_del cf) (ticks s) (out s ++ [bulk seen])) as Hdel.
  destruct (looked_up (ticks s) (out s ++ [bulk seen])) as (_ & _ & Hk). destruct (live d key s) as [[[o|t b] ttl]|] eqn:El; cbn -[bytes_of_string] in *.
  - change (Some (@None (aval * option Z))) with (Some (abs None)). apply (does_write _ _ _ _ None _ _ (ticks s)); [done|].
    step exact Hget. step (by apply arg_ok). step exact Hdel.
    unfold mbind_, rewriteClientCommandVector, signalModifiedKey, touchWatchedKey, add_dirty, modify. apply done_eq. autorewrite with state. fields.
  - apply (does_answer _ _ _ _ true _ (ticks s)). step exact Hget. done.
  - apply (does_answer _ _ _ _ true _ (ticks s)). step exact Hget. step (by apply arg_ok). step exact Hdel. done.
Qed.

Lemma getsetCommand_ok a : argv s !! 2%nat = Some a -> does (getsetCommand cf c) d key s (getset_spec (argv s) seen a).
Proof.
  intros Ha. unfold getsetCommand, getset_spec. pose proof (get_either c s Hrun key Hkey Hwrite s (or_introl eq_refl)) as Hget.
  destruct (is_object seen) eqn:Eo.
  { apply (does_answer _ _ _ _ true _ (ticks s)). step exact Hget. done. }
  set (y := set_ticks (ticks s) (set_out (out s ++ [bulk seen]) p)) in *.
  assert (Hav : argv y = argv s) by (unfold y; reduce_fields; apply field_purge_argv).
  destruct (tryEncode_ok a y (arg_short _ _ Ha)) as (o & Ho & Hs & Hv). rewrite <- Hs.
  apply (does_write _ _ _ _ (Some (Str o, None)) _ _ (ticks s)); [done|].
  erewrite mbind_ok by exact Hget. cbn [negb]. do 3 (erewrite mbind_ok by (exact Ho || (apply arg_ok; rewrite Hav; done))).
  unfold setKey. erewrite mbind_ok by (by apply (set_either c s Hrun key y); [right|]).
  unfold mbind_, add_dirty, rewriteClientCommandArgument, modify. apply done_eq. fields.
Qed.

(** The rest of a handler, from the state [y] on. *)
Definition from (m : M unit) (y : server) : M unit := fun _ => m y.

Lemma getex_checked_ok f e n b ob ttl :
  live d key s = Some (Str ob, ttl) -> obj_string ob = b -> expire_given f = bool_decide (is_Some e) ->
  does (from (getex_checked cf d f key e) (set_ticks n (set_out (out s ++ [RBulk b]) p))) d key s
    (getex_checked_spec cf (argv s) (loading s || masterhost s) f b ttl e (clock cf n)).
Proof.
  intros El Hb Hgiven. set (y := set_ticks n (set_out (out s ++ [RBulk b]) p)).
  destruct (looked_up n (out s ++ [RBulk b])) as (Hwf & Hg & _). rewrite El in Hg. fold y in Hwf, Hg.
  pose proof (lazy_delete_ok (lazyfree_lazy_expire cf)) as Hdel. rewrite El in Hdel.
  assert (Hok : value_ok (Str ob)) by (pose proof (cell_is_ok d key y Hwf) as H; by rewrite Hg in H).
  unfold from, getex_checked, getex_checked_spec. rewrite (key_nth _ _ Hkey). destruct e as [[ms when]|].
  - set (absolute := OBJ_PXAT f || OBJ_EXAT f). set (past := absolute && (ms <=? clock cf n) && negb (loading s || masterhost s)).
    assert (Hp : exists n', (if absolute then checkAlreadyExpired cf ms else mret false) y = Some (set_ticks n' y, past)).
    { unfold past. destruct absolute; [|by exists n]. exists (S n). unfold checkAlreadyExpired, mbind_, mstime, gets, mret, y. reduce_fields.
      destruct (purge_fields cf d key s) as (_ & _ & _ & _ & -> & ->). do 2 f_equal. destruct (ms <=? clock cf n), (loading s), (masterhost s); done. }
    destruct Hp as [n' Hp]. destruct past.
    + apply (does_write _ _ _ _ None _ _ n'); [done|]. step exact Hp. step (apply Hdel). step done.
      unfold mbind_, rewriteClientCommandVector, signalModifiedKey, touchWatchedKey, add_dirty, modify. apply done_eq. autorewrite with state. fields.
    + rewrite <- Hb. apply (does_write _ _ _ _ (Some (Str ob, Some when)) _ _ n'); [done|]. step exact Hp. step (by apply (setExpire_ok d key (Str ob) ttl)).
      unfold mbind_, rewriteClientCommandVector, signalModifiedKey, touchWatchedKey, add_dirty, modify, y. apply done_eq. autorewrite with state. rewrite Hb. fields.
  - assert (OBJ_PXAT f || OBJ_EXAT f = false) as -> by (unfold expire_given in Hgiven; cbn in Hgiven; destruct (OBJ_PXAT f), (OBJ_EXAT f), (OBJ_EX f), (OBJ_PX f); done).
    step done. destruct (OBJ_PERSIST f); cbn [andb].
    + pose proof (removeExpire_ok d key (Str ob) ttl y Hwf Hg) as Hrem. destruct ttl as [w|].
      * rewrite <- Hb. apply (does_write _ _ _ _ (Some (Str ob, None)) _ _ n); [done|]. step exact Hrem.
        unfold mbind_, rewriteClientCommandVector, signalModifiedKey, touchWatchedKey, add_dirty, modify, y. apply done_eq. autorewrite with state. rewrite Hb. fields.
      * apply (does_answer _ _ _ _ true _ n). step exact Hrem. apply done_eq. unfold y. fields.
    + apply (does_answer _ _ _ _ true _ n). apply done_eq. unfold y. fields.
Qed.

Lemma getex_parsed_ok f u expire :
  expire_given f = bool_decide (is_Some expire) ->
  does (getex_parsed cf c f u expire key) d key s (getex_spec cf (argv s) (readings s) (loading s || masterhost s) seen f u expire).
Proof.
  intros Hgiven. unfold getex_parsed, getex_spec. pose proof (lookupOrReply_ok c s Hrun key RNull) as Hl. rewrite readable_live in Hl by done.
  assert (Hpid : p = set_ticks (ticks s) (set_out (out s) p)) by (apply purge_id).
  destruct (live d key s) as [[[ob|t b] ttl]|] eqn:El; cbn [abs fmap option_fmap option_map prod_map abs_value fst snd] in *.
  2: { apply (does_answer _ _ _ _ true _ (ticks s)). step exact Hl. unfold addReply, modify. apply done_eq. fields. }
  2: { apply (does_answer _ _ _ _ true _ (ticks s)). step exact Hl. unfold mret. apply done_eq. fields. }
  destruct expire as [x|].
  - destruct (expire_argument_ok f u x p) as (n & Hn & He).
    assert (Er : expire_spec (readings p) f u x = expire_spec (readings s) f u x) by (unfold readings; by rewrite field_purge_ticks). rewrite Er in *.
    rewrite field_purge_ticks in Hn. destruct (expire_spec (readings s) f u x) as [e|er].
    + specialize (Hn e eq_refl). pose proof (getex_checked_ok f (Some e) n (obj_string ob) ob ttl El eq_refl Hgiven) as (e' & n' & Hm & Hx).
      subst n. exists e', n'. split; [|exact Hx]. rewrite <- Hm. unfold from. step exact Hl. unfold expire_arguments, mbind_. rewrite He. unfold mret, addReply, modify.
      cbn [fmap option_fmap option_map]. f_equal. fields.
    + apply (does_answer _ _ _ _ true _ n). step exact Hl. unfold expire_arguments, mbind_. rewrite He. unfold mret. apply done_eq. fields.
  - pose proof (getex_checked_ok f None (ticks s) (obj_string ob) ob ttl El eq_refl Hgiven) as (e' & n' & Hm & Hx).
    exists e', n'. split; [|exact Hx]. rewrite <- Hm. unfold from. step exact Hl. unfold expire_arguments. step done. unfold mbind_, addReply, modify.
    f_equal. fields.
Qed.

Lemma getexCommand_ok :
  does (getexCommand cf c) d key s (parsed (drop 2 (argv s)) (getex_spec cf (argv s) (readings s) (loading s || masterhost s) seen) COMMAND_GET).
Proof.
  unfold getexCommand, parsed, parseExtendedStringArgumentsOrReply.
  destruct (parse_options COMMAND_GET (drop 2 (argv s)) OBJ_NO_FLAGS UNIT_SECONDS None) as [[[f u] expire]|] eqn:E.
  - pose proof (parse_options_given _ _ _ _ _ _ _ _ (eq_refl : expire_given OBJ_NO_FLAGS = bool_decide (is_Some (@None bytes))) E) as Hgiven.
    destruct (getex_parsed_ok f u expire Hgiven) as (e & n & Hm & Hx). exists e, n. split; [|done]. rewrite <- Hm.
    unfold mbind_ at 1 2, gets. rewrite E. unfold mret at 1. step (by apply arg_ok). done.
  - apply (does_answer _ _ _ _ false _ (ticks s)). unfold mbind_, gets. rewrite E. unfold addReply, modify, mret. apply done_eq. fields.
Qed.

(** *** Strings that grow *)

(** The same, where memory may run out. *)
Definition may_do (m : M unit) (x : option (effect acell)) : Prop :=
  match x with Some x => does m d key s x | None => m s = None end.

Lemma lookup_ok : lookupKeyWrite cf d key s = Some (set_ticks (ticks s) (set_out (out s) p), fst <$> live d key s).
Proof. rewrite <- purge_id. by apply lookupKeyWrite_ok. Qed.

Lemma live_ok : cell_ok (live d key s).
Proof. unfold live. destruct (_ && _); [done|]. apply cell_is_ok, Hrun. Qed.

Lemma stringObjectLen_ok o y : int_range o -> stringObjectLen o y = Some (y, blen (obj_string o)).
Proof. destruct o as [b|b|sh v]; [done..|]. intros Hv. by apply lift_ok, sdigits10_sdec. Qed.

Lemma checkStringLength_ok n y :
  checkStringLength cf c n y =
    if negb (c_master c) && (proto_max_bulk_len cf <? n) then Some (set_out (out y ++ [RErr TooLong]) y, false) else Some (y, true).
Proof. unfold checkStringLength. by destruct (_ && _). Qed.

Lemma update_string_ok b v0 e y :
  wf y -> get_cell d key y = Some (v0, e) -> update_string d key b y = Some (put_cell d key (Some (Str (Raw b), e)) y, tt).
Proof.
  intros Hwf Hc. rewrite <- (dbOverwrite_ok d key (Str (Raw b)) v0 e y Hwf Hc). unfold update_string, dbOverwrite, dictFind, mbind_, gets, assert.
  by rewrite dict_cell, Hc.
Qed.

Lemma unshare_ok o ttl y :
  wf y -> get_cell d key y = Some (Str o, ttl) ->
  exists y', dbUnshareStringValue d key o y = Some (y', obj_string o) /\
    forall b, update_string d key b y' = Some (put_cell d key (Some (Str (Raw b), ttl)) y, tt).
Proof.
  intros Hwf Hc. assert (Hok : value_ok (Str o)) by (pose proof (cell_is_ok d key y Hwf) as H; by rewrite Hc in H).
  assert (H : exists y', (run dbOverwrite d key (Str (Raw (obj_string o))) in mret (obj_string o)) y = Some (y', obj_string o) /\
    forall b, update_string d key b y' = Some (put_cell d key (Some (Str (Raw b), ttl)) y, tt)).
  { eexists. split; [by step (by apply (dbOverwrite_ok d key _ _ ttl y Hwf Hc))|]. intros b. erewrite update_string_ok; [by rewrite put_put| |apply get_put].
    apply wf_put; [done|]. by destruct Hok. }
  destruct o as [b|b|sh v]; [|exact H..]. exists y. split; [done|]. intros b'. by apply (update_string_ok b' (Str (Raw b))).
Qed.

(** Fetch the arguments and look the key up. *)
Ltac fetch Hl := repeat (step (by apply arg_ok)); step exact Hl.

Lemma appendCommand_ok a : argv s !! 2%nat = Some a -> may_do (appendCommand cf c) (append_spec cf (argv s) (c_master c) seen a).
Proof.
  intros Ha. pose proof (arg_short _ _ Ha) as Hs. unfold appendCommand, append_spec. pose proof lookup_ok as Hl. pose proof live_ok as Hv.
  destruct (looked_up (ticks s) (out s)) as (Hwf & Hg & _). set (y := set_ticks (ticks s) (set_out (out s) p)) in *.
  destruct (live d key s) as [[[o|t b] ttl]|] eqn:El; cbn [abs fmap option_fmap option_map prod_map abs_value fst snd] in *.
  - destruct Hv as [Hi Hlen]. assert (Hu : u64 (blen (obj_string o) + blen a) = blen (obj_string o) + blen a) by (apply wrapu_small; split; blia).
    set (total := blen (obj_string o) + blen a) in *. set (bad := negb (c_master c) && _). destruct bad eqn:Eb; [|destruct (can_hold cf total) eqn:Eh]; cbn [negb may_do].
    + apply (does_answer _ _ _ _ true _ (ticks s)). fetch Hl. step (by apply stringObjectLen_ok). fold total; rewrite Hu.
      step (rewrite checkStringLength_ok; fold bad; rewrite Eb; reflexivity). unfold mret. apply done_eq. unfold y. fields.
    + destruct (unshare_ok o ttl y Hwf Hg) as (y' & Hun & Hup).
      change (AStr (obj_string o ++ a)) with (abs_value (Str (Raw (obj_string o ++ a)))).
      apply (does_write _ _ _ _ (Some (Str (Raw (obj_string o ++ a)), ttl)) _ _ (ticks s)).
      { split; [done|]. cbn [obj_string]. rewrite blen_app. by apply Hhold. }
      fetch Hl. step (by apply stringObjectLen_ok). fold total; rewrite Hu.
      step (rewrite checkStringLength_ok; fold bad; rewrite Eb; reflexivity). step exact Hun. step (unfold allocate, assert; rewrite Eh; reflexivity). step (apply Hup).
      unfold append_done, mbind_, signalModifiedKey, touchWatchedKey, add_dirty, addReply, modify, y. apply done_eq. rewrite blen_app. fold total. autorewrite with state. fields.
    + destruct (unshare_ok o ttl y Hwf Hg) as (y' & Hun & _). fetch Hl. step (by apply stringObjectLen_ok). fold total; rewrite Hu.
      step (rewrite checkStringLength_ok; fold bad; rewrite Eb; reflexivity). step exact Hun. unfold mbind_ at 1, allocate, assert. by rewrite Eh.
  - apply (does_answer _ _ _ _ true _ (ticks s)). fetch Hl. unfold addReply, modify. apply done_eq. unfold y. fields.
  - destruct (tryEncode_ok a y Hs) as (o & Ho & Hos & Hov). rewrite <- Hos at 1. cbn [may_do].
    apply (does_write _ _ _ _ (Some (Str o, None)) _ _ (ticks s)); [done|]. fetch Hl. step exact Ho. step (by apply dbAdd_ok).
    step (by apply stringObjectLen_ok, Hov). rewrite Hos. unfold append_done, mbind_, signalModifiedKey, touchWatchedKey, add_dirty, addReply, modify, y.
    apply done_eq. autorewrite with state. fields.
Qed.

(** Writing into a string that is already stored, in the state [y]. *)
Lemma setrange_write_ok off v b ttl y y' :
  0 <= off -> v <> [] ->
  (forall b, update_string d key b y' = Some (put_cell d key (Some (Str (Raw b), ttl)) y, tt)) ->
  setrange_write cf d key off (off + blen v) v b y' =
    if (blen b <? off + blen v) && negb (can_hold cf (off + blen v)) then None else
    Some (set_out (out y ++ [RInt (blen (overwrite b off v))]) (set_dirty (dirty y + 1) (touch d key (put_cell d key (Some (Str (Raw (overwrite b off v)), ttl)) y))), tt).
Proof.
  intros Hoff Hv Hup. unfold setrange_write. assert (0 < blen v) by (destruct v; [done|unfold blen; cbn; lia]). rewrite (proj2 (Z.ltb_lt 0 (blen v))) by done.
  pose proof (overwrite_store b off v Hoff) as Hst. unfold sdsgrowzero, grown in *.
  assert (blen b <? off + blen v = negb (off + blen v <=? blen b)) as -> by (apply Z.ltb_antisym). destruct (Z.leb_spec (off + blen v) (blen b)); cbn [negb andb]; [|destruct (can_hold cf (off + blen v)) eqn:Eh; cbn [negb]].
  3: { unfold mbind_, allocate, assert. by rewrite Eh. }
  1: step done. 2: step (unfold mbind_, allocate, assert; rewrite Eh; reflexivity).
  all: step (apply lift_ok, Hst); step (apply Hup); unfold mbind_, signalModifiedKey, touchWatchedKey, add_dirty, addReply, modify; apply done_eq; fields.
Qed.

Lemma setrangeCommand_ok x v :
  argv s !! 2%nat = Some x -> argv s !! 3%nat = Some v -> may_do (setrangeCommand cf c) (setrange_spec cf (argv s) (c_master c) seen x v).
Proof.
  intros Hx Hv. pose proof (arg_short _ _ Hv) as Hs. unfold setrange_spec. pose proof lookup_ok as Hl. pose proof live_ok as Hok.
  pose proof (getLongLong_arg x s) as Hint. destruct (as_int x) as [off|] eqn:Ex.
  2: { apply (does_answer _ _ _ _ false _ (ticks s)). unfold setrangeCommand. do 3 step (by apply arg_ok). step exact Hint. unfold mret. apply done_eq. fields. }
  apply as_int_spec in Ex as [Hr _]. destruct (Z.ltb_spec off 0) as [Hneg|Hoff].
  { apply (does_answer _ _ _ _ false _ (ticks s)). unfold setrangeCommand. do 3 step (by apply arg_ok). step exact Hint. rewrite (proj2 (Z.ltb_lt off 0)) by done.
    unfold addReply, modify. apply done_eq. fields. }
  assert (Hlt : off <? 0 = false) by lia. assert (Hu : u64 (off + blen v) = off + blen v) by (apply wrapu_small; unfold is_u, is_s in *; blia).
  destruct (looked_up (ticks s) (out s)) as (Hwf & Hg & _). set (y := set_ticks (ticks s) (set_out (out s) p)) in *.
  assert (Hz : (blen v =? 0) = bool_decide (v = [])) by (by destruct v; [|rewrite bool_decide_false]).
  set (total := off + blen v) in *.
  destruct (live d key s) as [[[o|t b] ttl]|] eqn:El; cbn [abs fmap option_fmap option_map prod_map abs_value fst snd is_object content ttl_of mbind option_bind] in *.
  2: { apply (does_answer _ _ _ _ true _ (ticks s)). unfold setrangeCommand. do 3 step (by apply arg_ok). step exact Hint. rewrite Hlt. step exact Hl.
    unfold addReply, modify. apply done_eq. unfold y. fields. }
  - set (bad := negb (c_master c) && _). case_bool_decide as Hv0; [|destruct bad eqn:Eb]; cbn [may_do].
    + apply (does_answer _ _ _ _ true _ (ticks s)). unfold setrangeCommand. do 3 step (by apply arg_ok). step exact Hint. rewrite Hlt. step exact Hl.
      step (by apply stringObjectLen_ok, Hok). rewrite Hz. unfold addReply, modify. apply done_eq. unfold y. fields.
    + apply (does_answer _ _ _ _ true _ (ticks s)). unfold setrangeCommand. do 3 step (by apply arg_ok). step exact Hint. rewrite Hlt. step exact Hl.
      step (by apply stringObjectLen_ok, Hok). rewrite Hz. fold total. rewrite Hu.
      step (rewrite checkStringLength_ok; fold bad; rewrite Eb; reflexivity). unfold mret. apply done_eq. unfold y. fields.
    + destruct (unshare_ok o ttl y Hwf Hg) as (y' & Hun & Hup). pose proof (setrange_write_ok off v (obj_string o) ttl y y' Hoff Hv0 Hup) as Hw. fold total in Hw.
      assert (Hm : setrangeCommand cf c s = setrange_write cf d key off total v (obj_string o) y').
      { unfold setrangeCommand. do 3 step (by apply arg_ok). step exact Hint. rewrite Hlt. step exact Hl. step (by apply stringObjectLen_ok, Hok). rewrite Hz.
        fold total. rewrite Hu. step (rewrite checkStringLength_ok; fold bad; rewrite Eb; reflexivity). step exact Hun. done. }
      rewrite Hw in Hm. destruct ((blen (obj_string o) <? total) && negb (can_hold cf total)) eqn:Ehold; cbn [may_do]; [exact Hm|].
      change (AStr (overwrite (obj_string o) off v)) with (abs_value (Str (Raw (overwrite (obj_string o) off v)))).
      apply (does_write _ _ _ _ (Some (Str (Raw (overwrite (obj_string o) off v)), ttl)) _ _ (ticks s)).
      { split; [done|]. cbn [obj_string]. rewrite overwrite_length by done. fold total. pose proof (Hhold total). destruct Hok. destruct (can_hold cf total); lia. }
      rewrite Hm. apply done_eq. unfold y. autorewrite with state. fields.
  - set (bad := negb (c_master c) && _). case_bool_decide as Hv0; [|destruct bad eqn:Eb]; cbn [may_do].
    + apply (does_answer _ _ _ _ true _ (ticks s)). unfold setrangeCommand. do 3 step (by apply arg_ok). step exact Hint. rewrite Hlt. step exact Hl.
      rewrite Hz. unfold addReply, modify. apply done_eq. unfold y. fields.
    + apply (does_answer _ _ _ _ true _ (ticks s)). unfold setrangeCommand. do 3 step (by apply arg_ok). step exact Hint. rewrite Hlt. step exact Hl.
      rewrite Hz. fold total. rewrite Hu. step (rewrite checkStringLength_ok; fold bad; rewrite Eb; reflexivity). unfold mret. apply done_eq. unfold y. fields.
    + assert (Hpos : 0 < total) by (unfold total; destruct v; [done|unfold blen; cbn; lia]). change (blen []) with 0. rewrite (proj2 (Z.ltb_lt 0 total)) by done. cbn [andb].
      set (zeros := replicate (Z.to_nat total) 0). assert (Hz' : blen zeros = total) by (unfold blen, zeros; rewrite length_replicate; lia).
      assert (Hm : setrangeCommand cf c s = (run allocate cf total in run dbAdd d key (Str (Raw zeros)) in setrange_write cf d key off total v zeros) y).
      { unfold setrangeCommand. do 3 step (by apply arg_ok). step exact Hint. rewrite Hlt. step exact Hl. rewrite Hz.
        fold total. rewrite Hu. step (rewrite checkStringLength_ok; fold bad; rewrite Eb; reflexivity). done. }
      assert (Hw : (run allocate cf total in run dbAdd d key (Str (Raw zeros)) in setrange_write cf d key off total v zeros) y =
        if can_hold cf total then Some (set_out (out y ++ [RInt (blen (overwrite [] off v))]) (set_dirty (dirty y + 1) (touch d key (put_cell d key (Some (Str (Raw (overwrite [] off v)), None)) y))), tt) else None).
      { unfold mbind_ at 1, allocate, assert. pose proof (Hhold total) as Hh. destruct (can_hold cf total); [|done].
        step (by apply dbAdd_ok). unfold total at 1. erewrite (setrange_write_ok off v zeros None y); [|done..|].
        - rewrite Hz'. fold total. rewrite Z.ltb_irrefl. cbn [andb]. unfold zeros, total. by rewrite overwrite_zeros.
        - intros b. erewrite update_string_ok; [by rewrite put_put|apply wf_put; [done|split; [done|cbn [obj_string]; lia]]|apply get_put]. }
      rewrite Hw in Hm. pose proof (Hhold total) as Hh. destruct (can_hold cf total); cbn [negb may_do]; [|exact Hm].
      change (AStr (overwrite [] off v)) with (abs_value (Str (Raw (overwrite [] off v)))).
      apply (does_write _ _ _ _ (Some (Str (Raw (overwrite [] off v)), None)) _ _ (ticks s)).
      { split; [done|]. cbn [obj_string]. rewrite overwrite_length by done. fold total. change (blen []) with 0. lia. }
      rewrite Hm. apply done_eq. unfold y. autorewrite with state. fields.
Qed.

(** *** Counters *)

Lemma overflow_check v incr :
  is_s 64 v -> is_s 64 incr ->
  ((incr <? 0) && (v <? 0) && (incr <? INT64_MIN - v)) || ((0 <? incr) && (0 <? v) && (INT64_MAX - v <? incr)) = negb (in_range (v + incr)).
Proof. unfold is_s, in_range, INT64_MIN, INT64_MAX. change (64 - 1) with 63. intros. lia. Qed.

Lemma incrDecr_ok incr : is_s 64 incr -> does (incrDecrCommand cf c incr) d key s (incr_spec (argv s) seen incr).
Proof.
  intros Hincr. unfold incr_spec. pose proof lookup_ok as Hl. pose proof live_ok as Hok.
  destruct (looked_up (ticks s) (out s)) as (Hwf & Hg & _). set (y := set_ticks (ticks s) (set_out (out s) p)) in *.
  destruct (is_object seen) eqn:Eobj.
  { apply (does_answer _ _ _ _ true _ (ticks s)). unfold incrDecrCommand. fetch Hl. destruct (live d key s) as [[[o|t b] ttl]|]; [done| |done].
    step done. apply done_eq. unfold y. fields. }
  set (old := match seen with Some (AStr b, _) => as_int b | _ => Some 0 end).
  assert (Hint : getLongLongFromObjectOrReply (string_of (fst <$> live d key s)) y =
    Some (match old with Some _ => y | None => set_out (out y ++ [RErr NotInteger]) y end, old)).
  { unfold old. destruct (live d key s) as [[[o|t b] ttl]|]; [|done..]. apply getLongLong_ok, Hok. }
  assert (Hty : checkType (fst <$> live d key s) y = Some (y, false)) by (by destruct (live d key s) as [[[o|t b] ttl]|]).
  assert (Hold : forall v, old = Some v -> is_s 64 v).
  { intros v. unfold old. destruct seen as [[[b|t b] ttl]|]; [by intros [? _]%as_int_spec|intros [= <-]; done..]. }
  destruct old as [v|].
  2: { apply (does_answer _ _ _ _ true _ (ticks s)). unfold incrDecrCommand. fetch Hl. step exact Hty. step exact Hint. apply done_eq. unfold y. fields. }
  specialize (Hold v eq_refl). destruct (in_range (v + incr)) eqn:Er.
  2: { apply (does_answer _ _ _ _ true _ (ticks s)). unfold incrDecrCommand. fetch Hl. step exact Hty. step exact Hint. rewrite overflow_check, Er by done.
       apply done_eq. unfold y. fields. }
  pose proof (proj1 (in_range_spec _) Er) as Hr. assert (Hs : s64 (v + incr) = v + incr) by (by apply wraps_small).
  set (new := createStringObjectFromLongLongForValue (cfg_env cf) (v + incr)).
  assert (Hst : exists sh, (match string_of (fst <$> live d key s) with
           | Some (Int false _) =>
               if (v + incr <? 0) || (OBJ_SHARED_INTEGERS <=? v + incr)
               then set_dict d (<[key := Str (Int false (v + incr))]>)
               else dbOverwrite d key (Str new)
           | Some _ => dbOverwrite d key (Str new)
           | None => dbAdd d key (Str new)
           end) y = Some (put_cell d key (Some (Str (Int sh (v + incr)), live d key s ≫= snd)) y, tt)).
  { destruct (live d key s) as [[[o|t b] ttl]|] eqn:El; cbn [fmap option_fmap option_map fst snd string_of mbind option_bind]; [|done|].
    2: { eexists. by apply dbAdd_ok. }
    assert (Hov : exists sh, dbOverwrite d key (Str new) y = Some (put_cell d key (Some (Str (Int sh (v + incr)), ttl)) y, tt))
      by (eexists; by apply (dbOverwrite_ok d key _ (Str o))).
    destruct o as [b|b|[] w]; [exact Hov..|]. destruct (_ || _); [|exact Hov]. exists false.
    rewrite <- (dbOverwrite_ok d key (Str (Int false (v + incr))) (Str (Int false w)) ttl y Hwf Hg). unfold dbOverwrite, dictFind, mbind_, gets, assert.
    by rewrite dict_cell, Hg. }
  destruct Hst as [sh Hst]. replace (ttl_of seen) with (live d key s ≫= snd) by (by destruct (live d key s) as [[? ?]|]).
  set (ttl := live d key s ≫= snd) in *. change (Some (AStr (sdec (v + incr)), ttl)) with (abs (Some (Str (Int sh (v + incr)), ttl))).
  apply (does_write _ _ _ _ _ _ _ (ticks s)).
  { split; [exact Hr|]. cbn [obj_string]. pose proof (sdec_length_bound _ Hr). lia. }
  unfold incrDecrCommand. fetch Hl. step exact Hty. step exact Hint. rewrite overflow_check, Er by done. cbn [negb]. rewrite Hs.
  step exact Hst. unfold mbind_, signalModifiedKey, touchWatchedKey, add_dirty, addReply, modify, y. apply done_eq. autorewrite with state. fields.
Qed.

Lemma incrbyCommand_ok x : argv s !! 2%nat = Some x -> does (incrbyCommand cf c) d key s (incrby_spec (argv s) seen x).
Proof.
  intros Hx. unfold incrby_spec. pose proof (getLongLong_arg x s) as Hint. destruct (as_int x) as [v|] eqn:E.
  - apply as_int_spec in E as [Hv _]. destruct (incrDecr_ok v Hv) as (e & n & Hm & He). exists e, n. split; [|done]. rewrite <- Hm.
    unfold incrbyCommand. step (by apply arg_ok). by step exact Hint.
  - apply (does_answer _ _ _ _ false _ (ticks s)). unfold incrbyCommand. step (by apply arg_ok). step exact Hint. apply done_eq. fields.
Qed.

Lemma decrbyCommand_ok x : argv s !! 2%nat = Some x -> does (decrbyCommand cf c) d key s (decrby_spec (argv s) seen x).
Proof.
  intros Hx. unfold decrby_spec. pose proof (getLongLong_arg x s) as Hint. destruct (as_int x) as [v|] eqn:E.
  - destruct (incrDecr_ok (s64 (- v)) ltac:(by apply wraps_range)) as (e & n & Hm & He). exists e, n. split; [|done]. rewrite <- Hm.
    unfold decrbyCommand. step (by apply arg_ok). by step exact Hint.
  - apply (does_answer _ _ _ _ false _ (ticks s)). unfold decrbyCommand. step (by apply arg_ok). step exact Hint. apply done_eq. fields.
Qed.

(** *** Expire times *)

Lemma checkAlreadyExpired_ok when n o :
  checkAlreadyExpired cf when (set_ticks n (set_out o p)) =
    Some (set_ticks (S n) (set_out o p), (when <=? clock cf n) && negb (loading s || masterhost s)).
Proof.
  unfold checkAlreadyExpired, mbind_, mstime, gets, mret. reduce_fields. destruct (purge_fields cf d key s) as (_ & _ & _ & _ & -> & ->).
  f_equal. f_equal. destruct (when <=? clock cf n), (loading s), (masterhost s); done.
Qed.

Lemma expireGeneric_ok base u x :
  argv s !! 2%nat = Some x -> 0 <= base < 2 ^ 63 ->
  does (expireGenericCommand cf c base u) d key s (expireat_spec cf (argv s) (loading s || masterhost s) seen base (clock cf (ticks s)) u x).
Proof.
  intros Hx Hbase. unfold expireat_spec. rewrite (key_nth _ _ Hkey). pose proof lookup_ok as Hl. pose proof live_ok as Hok.
  destruct (looked_up (S (ticks s)) (out s)) as (Hwf & Hg & _). pose proof (lazy_delete_ok (lazyfree_lazy_expire cf) (S (ticks s)) (out s)) as Hdel.
  pose proof (getLongLong_arg x s) as Hint. destruct (as_int x) as [v|] eqn:Ex.
  2: { apply (does_answer _ _ _ _ false _ (ticks s)). unfold expireGenericCommand. do 2 step (by apply arg_ok). step exact Hint. apply done_eq. fields. }
  apply as_int_spec in Ex as [Hv _]. set (ms := if seconds u then v * 1000 else v).
  assert (Hms : seconds u && ((INT64_MAX / 1000 <? v) || (v <? Z.quot INT64_MIN 1000)) = negb (in_range ms)).
  { change (INT64_MAX / 1000) with 9223372036854775. change (Z.quot INT64_MIN 1000) with (-9223372036854775). unfold ms, in_range, is_s in *. change (64 - 1) with 63 in Hv.
    destruct (seconds u); cbn [andb]; lia. }
  assert (Hb : in_range ms = true -> (INT64_MAX - base <? ms) = negb (in_range (ms + base))) by (unfold in_range, INT64_MAX; intros; lia).
  destruct (in_range ms && in_range (ms + base)) eqn:Er; cbn [negb].
  2: { apply (does_answer _ _ _ _ false _ (ticks s)). unfold expireGenericCommand. do 2 step (by apply arg_ok). step exact Hint. fold (seconds u). rewrite Hms. fold ms.
       destruct (in_range ms); cbn [negb andb] in *; [rewrite Hb, Er by done; cbn [negb]|]; apply done_eq; fields. }
  apply andb_prop in Er as [Er1 Er2]. set (when := ms + base).
  destruct (live d key s) as [[o ttl]|] eqn:El; cbn [abs fmap option_fmap option_map prod_map fst snd id] in *.
  - set (past := (when <=? clock cf (ticks s)) && negb (loading s || masterhost s)). destruct past eqn:Ep.
    + apply (does_write _ _ _ _ None _ _ (S (ticks s))); [done|]. unfold expireGenericCommand. do 2 step (by apply arg_ok). step exact Hint. fold (seconds u).
      rewrite Hms, Er1. fold ms. cbn [negb]. rewrite Hb, Er2 by done. cbn [negb]. step exact Hl. fold when. step (apply checkAlreadyExpired_ok). fold past. rewrite Ep.
      step exact Hdel. step done. unfold mbind_, rewriteClientCommandVector, signalModifiedKey, touchWatchedKey, add_dirty, addReply, modify. apply done_eq.
      autorewrite with state. fields.
    + apply (does_write _ _ _ _ (Some (o, Some when)) _ _ (S (ticks s))); [done|]. unfold expireGenericCommand. do 2 step (by apply arg_ok). step exact Hint. fold (seconds u).
      rewrite Hms, Er1. fold ms. cbn [negb]. rewrite Hb, Er2 by done. cbn [negb]. step exact Hl. fold when. step (apply checkAlreadyExpired_ok). fold past. rewrite Ep.
      step (by apply (setExpire_ok d key o ttl)). unfold mbind_, rewriteClientCommandVector, signalModifiedKey, touchWatchedKey, add_dirty, addReply, modify. apply done_eq.
      autorewrite with state. fields.
  - apply (does_answer _ _ _ _ true _ (ticks s)). unfold expireGenericCommand. do 2 step (by apply arg_ok). step exact Hint. fold (seconds u). rewrite Hms, Er1. fold ms. cbn [negb].
    rewrite Hb, Er2 by done. cbn [negb]. step exact Hl. apply done_eq. fields.
Qed.

Lemma persistCommand_ok : does (persistCommand cf c) d key s (persist_spec (argv s) seen).
Proof.
  unfold persist_spec. pose proof lookup_ok as Hl. pose proof live_ok as Hok. destruct (looked_up (ticks s) (out s)) as (Hwf & Hg & _).
  destruct (live d key s) as [[v ttl]|] eqn:El; cbn [abs fmap option_fmap option_map prod_map fst snd id] in *.
  - pose proof (removeExpire_ok d key v ttl _ Hwf Hg) as Hrem. destruct ttl as [w|].
    + apply (does_write _ _ _ _ (Some (v, None)) _ _ (ticks s)); [done|]. unfold persistCommand. fetch Hl. step exact Hrem.
      unfold mbind_, signalModifiedKey, touchWatchedKey, add_dirty, addReply, modify. apply done_eq. autorewrite with state. fields.
    + apply (does_answer _ _ _ _ true _ (ticks s)). unfold persistCommand. fetch Hl. step exact Hrem. apply done_eq. fields.
  - apply (does_answer _ _ _ _ true _ (ticks s)). unfold persistCommand. fetch Hl. apply done_eq. fields.
Qed.

End Writers.

(** *** Commands that only read *)

Section Readers.

Context (c : caller) (s : server) (Hrun : running s) (key : bytes) (Hkey : argv s !! 1%nat = Some key).

#[local] Notation d := (c_db c).

#[local] Notation seen := (abs (readable c key s)).

#[local] Notation p := (purge cf d key s).

Lemma readable_ok : cell_ok (readable c key s).
Proof. unfold readable, live. destruct (_ && c_readonly c); [done|]. destruct (_ && _); [done|]. apply cell_is_ok, Hrun. Qed.

Lemma strlenCommand_ok : does (strlenCommand cf c) d key s (strlen_spec (argv s) seen).
Proof.
  unfold strlen_spec. pose proof (lookupOrReply_ok c s Hrun key (RInt 0)) as Hl. pose proof readable_ok as Hok.
  destruct (readable c key s) as [[[o|t b] ttl]|]; cbn [abs fmap option_fmap option_map prod_map abs_value fst snd] in *;
    apply (does_answer _ _ _ _ true _ (ticks s)); unfold strlenCommand; step (by apply arg_ok); step exact Hl; [|apply done_eq; fields..].
  step (by apply stringObjectLen_ok, Hok). apply done_eq. fields.
Qed.

Lemma string_bytes_ok o y : int_range o -> string_bytes o y = Some (y, obj_string o).
Proof.
  destruct o as [b|b|sh v]; [done..|]. intros Hv. cbn [string_bytes obj_string int_range] in *.
  pose proof (sdec_length_bound v Hv) as Hb. step (apply lift_ok; rewrite ll2string_spec by (done || (unfold blen; rewrite length_replicate; lia)); rewrite (proj2 (Z.ltb_lt _ 32)) by lia; reflexivity).
  apply lift_ok. by apply load_prefix.
Qed.

(** The bounds that are computed select the range. *)
Lemma range_load b i j :
  is_s 64 i -> is_s 64 j -> blen b < 2 ^ 63 ->
  let strlen := blen b in
  let start := if i <? 0 then s64 (strlen + i) else i in
  let end_ := if j <? 0 then s64 (strlen + j) else j in
  let start := if start <? 0 then 0 else start in
  let end_ := if end_ <? 0 then 0 else end_ in
  let end_ := if strlen <=? u64 end_ then s64 (u64 (strlen - 1)) else end_ in
  (if (i <? 0) && (j <? 0) && (j <? i) then Some [] else
   if (end_ <? start) || (strlen =? 0) then Some [] else load b start (end_ - start + 1)) = Some (range b i j).
Proof.
  intros Hi Hj Hb strlen start end_ start' end1 end2. unfold range. destruct ((i <? 0) && (j <? 0) && (j <? i)) eqn:E0; [done|].
  assert (Hn : 0 <= strlen) by (unfold strlen, blen; lia). unfold is_s in *. change (64 - 1) with 63 in *.
  assert (Es : start' = index strlen i).
  { unfold start', start, index. destruct (Z.ltb_spec i 0); [|destruct (Z.ltb_spec i 0); lia]. rewrite wraps_small by (unfold is_s; change (64 - 1) with 63; lia || done).
    destruct (Z.ltb_spec (strlen + i) 0); lia. }
  assert (Ee : end1 = index strlen j).
  { unfold end1, end_, index. destruct (Z.ltb_spec j 0); [|destruct (Z.ltb_spec j 0); lia]. rewrite wraps_small by (unfold is_s; change (64 - 1) with 63; lia || done).
    destruct (Z.ltb_spec (strlen + j) 0); lia. }
  assert (Hin : 0 <= index strlen i < 2 ^ 63 /\ 0 <= index strlen j < 2 ^ 63) by (unfold index; split; [destruct (Z.ltb_spec i 0)|destruct (Z.ltb_spec j 0)]; lia).
  rewrite Es. destruct (Z.eqb_spec strlen 0) as [E1|E1].
  { rewrite orb_true_r. assert (b = []) as -> by (destruct b; [done|unfold strlen, blen in E1; cbn in E1; lia]). by rewrite drop_nil, take_nil. }
  assert (E2 : end2 = Z.min (index strlen j) (strlen - 1)).
  { unfold end2. rewrite Ee, !wrapu_small by (unfold is_u; lia). destruct (Z.leb_spec strlen (index strlen j)); [|lia].
    rewrite wraps_small by (unfold is_s; change (64 - 1) with 63; lia || done). lia. }
  rewrite E2, orb_false_r. fold strlen. set (hi := Z.min _ _). destruct (Z.ltb_spec hi (index strlen i)).
  - replace (Z.to_nat (hi - index strlen i + 1)) with 0%nat by lia. done.
  - apply load_Some; lia.
Qed.

Lemma getrangeCommand_ok x y :
  argv s !! 2%nat = Some x -> argv s !! 3%nat = Some y -> does (getrangeCommand cf c) d key s (getrange_spec (argv s) seen x y).
Proof.
  intros Hx Hy. unfold getrange_spec. pose proof (lookupOrReply_ok c s Hrun key (RBulk [])) as Hl. pose proof readable_ok as Hok.
  pose proof (getLongLong_arg x s) as Hix. pose proof (getLongLong_arg y s) as Hiy.
  destruct (as_int x) as [i|] eqn:Ex.
  2: { apply (does_answer _ _ _ _ false _ (ticks s)). unfold getrangeCommand. do 3 step (by apply arg_ok). step exact Hix. apply done_eq. fields. }
  destruct (as_int y) as [j|] eqn:Ey.
  2: { apply (does_answer _ _ _ _ false _ (ticks s)). unfold getrangeCommand. do 3 step (by apply arg_ok). step exact Hix. step exact Hiy. apply done_eq. fields. }
  apply as_int_spec in Ex as [Hi _]. apply as_int_spec in Ey as [Hj _].
  destruct (readable c key s) as [[[o|t b] ttl]|]; cbn [abs fmap option_fmap option_map prod_map abs_value fst snd] in *;
    apply (does_answer _ _ _ _ true _ (ticks s)); unfold getrangeCommand; do 3 step (by apply arg_ok); step exact Hix; step exact Hiy; step exact Hl; [|apply done_eq; fields..].
  destruct Hok as [Hint Hlen]. step (by apply string_bytes_ok). pose proof (range_load (obj_string o) i j Hi Hj Hlen) as Hr. cbn zeta in Hr.
  destruct ((i <? 0) && (j <? 0) && (j <? i)); [injection Hr as <-; apply done_eq; fields|].
  match goal with |- (if ?b then _ else _) _ = _ => destruct b; [injection Hr as <-; apply done_eq; fields|] end.
  step (apply lift_ok, Hr). apply done_eq. fields.
Qed.

Lemma readable_ttl v ttl : readable c key s = Some (v, ttl) -> live d key s = Some (v, ttl).
Proof. unfold readable. by destruct (_ && c_readonly c). Qed.

Lemma ttlGeneric_ok ms : does (ttlGenericCommand cf c ms) d key s (ttl_spec (argv s) (readings s) seen ms).
Proof.
  unfold ttl_spec. pose proof (lookupKeyRead_ok cf c key s Hrun) as Hl. pose proof (running_purge cf d key s Hrun) as Hp.
  destruct (readable c key s) as [[v ttl]|] eqn:Er; cbn [abs fmap option_fmap option_map prod_map fst snd id] in *.
  - pose proof (getExpire_ok d key p (proj1 Hp)) as Hg. rewrite get_purge, (readable_ttl _ _ Er) in Hg. cbn [mbind option_bind snd] in Hg. destruct ttl as [w|]; cbn [default id] in Hg.
    + change (readings s 0) with (clock cf (ticks s)). destruct (Z.eqb_spec w (-1)) as [->|Hw].
      * apply (does_answer _ _ _ _ true _ (ticks s)). unfold ttlGenericCommand. step (by apply arg_ok). step exact Hl. step exact Hg. step done. apply done_eq. fields.
      * apply (does_answer _ _ _ _ true _ (S (ticks s))). unfold ttlGenericCommand. step (by apply arg_ok). step exact Hl. step exact Hg.
        rewrite (proj2 (Z.eqb_neq w (-1))) by done. cbn [negb]. set (left := s64 (w - clock cf (ticks s))).
        step (unfold mbind_, mstime, mret; rewrite field_purge_ticks; fold left; reflexivity).
        replace (if left <? 0 then 0 else left) with (Z.max 0 left) by (destruct (Z.ltb_spec left 0); lia).
        replace (Z.max 0 left =? -1) with false by lia. apply done_eq. fields.
    + apply (does_answer _ _ _ _ true _ (ticks s)). unfold ttlGenericCommand. step (by apply arg_ok). step exact Hl. step exact Hg. step done. apply done_eq. fields.
  - apply (does_answer _ _ _ _ true _ (ticks s)). unfold ttlGenericCommand. step (by apply arg_ok). step exact Hl. apply done_eq. fields.
Qed.

End Readers.

End Refinement.

End StringsSpec.
