(* ===== verification/Commands.v ===== *)
(** * The commands on the keyspace ([server.c], [t_string.c], [db.c], [expire.c])

    The entries of the command table for the modelled commands, their handlers, and what
    holds of all of them: a command on one key has exactly the effect of its
    specification, and whatever a command does, the keyspace stays well formed and every
    client that watches a modified key is marked. *)

From Stdlib Require Import ZArith Lia.
From stdpp Require Import base option list numbers strings gmap.
From S2P Require Import Prelude Util Rdb Keyspace Strings StringsSpec.

#[local] Open Scope Z_scope.

Module Commands.
Import Util Rdb Keyspace Strings StringsSpec.

#[local] Open Scope keyspace_scope.

(** ** The command table *)

Inductive command :=
  | Get | Getex | Getdel | Set_ | Setnx | Setex | Psetex | Append | Strlen | Del | Unlink | Exists
  | Setrange | Getrange | Incr | Decr | Mget | Incrby | Decrby | Getset | Mset | Msetnx
  | Rename | Renamenx | Expire | Expireat | Pexpire | Pexpireat | Ttl | Touch | Pttl | Persist.

#[export] Instance command_eq_dec : EqDecision command.
Proof. solve_decision. Defined.

(** The name, the arity (negative when more arguments may follow) and whether the command
    is flagged read-only; the others are write commands. *)
Definition redisCommandTable : list (string * command * Z * bool) := [
  ("get", Get, 2, true); ("getex", Getex, -2, false); ("getdel", Getdel, 2, false); ("set", Set_, -3, false);
  ("setnx", Setnx, 3, false); ("setex", Setex, 4, false); ("psetex", Psetex, 4, false); ("append", Append, 3, false);
  ("strlen", Strlen, 2, true); ("del", Del, -2, false); ("unlink", Unlink, -2, false); ("exists", Exists, -2, true);
  ("setrange", Setrange, 4, false); ("getrange", Getrange, 4, true); ("substr", Getrange, 4, true); ("incr", Incr, 2, false);
  ("decr", Decr, 2, false); ("mget", Mget, -2, true); ("incrby", Incrby, 3, false); ("decrby", Decrby, 3, false);
  ("getset", Getset, 3, false); ("mset", Mset, -3, false); ("msetnx", Msetnx, -3, false); ("rename", Rename, 3, false);
  ("renamenx", Renamenx, 3, false); ("expire", Expire, 3, false); ("expireat", Expireat, 3, false); ("pexpire", Pexpire, 3, false);
  ("pexpireat", Pexpireat, 3, false); ("ttl", Ttl, 2, true); ("touch", Touch, -2, true); ("pttl", Pttl, 2, true);
  ("persist", Persist, 2, false)]%string.

(** The table is a hash table whose keys are compared without regard to case. *)
Definition lookupCommand (name : bytes) : option (command * Z * bool) :=
  (fun x => (snd (fst (fst x)), snd (fst x), snd x)) <$>
  find (fun x => bool_decide (tolower <$> name = bytes_of_string (fst (fst (fst x))))) redisCommandTable.

(** The check of the number of arguments in [processCommand]. *)
Definition wrong_arity (arity argc : Z) : bool := ((0 <? arity) && negb (arity =? argc)) || (argc <? - arity).

Definition proc (cf : config) (cmd : command) (c : caller) : M unit :=
  match cmd with
  | Get => getCommand cf c | Getex => getexCommand cf c | Getdel => getdelCommand cf c | Set_ => setCommand cf c
  | Setnx => setnxCommand cf c | Setex => setexCommand cf c | Psetex => psetexCommand cf c | Append => appendCommand cf c
  | Strlen => strlenCommand cf c | Del => delCommand cf c | Unlink => unlinkCommand cf c | Exists => existsCommand cf c
  | Setrange => setrangeCommand cf c | Getrange => getrangeCommand cf c | Incr => incrCommand cf c | Decr => decrCommand cf c
  | Mget => mgetCommand cf c | Incrby => incrbyCommand cf c | Decrby => decrbyCommand cf c | Getset => getsetCommand cf c
  | Mset => msetCommand cf c | Msetnx => msetnxCommand cf c | Rename => renameCommand cf c | Renamenx => renamenxCommand cf c
  | Expire => expireCommand cf c | Expireat => expireatCommand cf c | Pexpire => pexpireCommand cf c | Pexpireat => pexpireatCommand cf c
  | Ttl => ttlCommand cf c | Touch => touchCommand cf c | Pttl => pttlCommand cf c | Persist => persistCommand cf c
  end.

(** ** The commands on one key *)

(** The effect of a command with the arguments [a] on the cell of its key; no value when
    the command is not about one key, no effect when memory runs out. *)
Definition spec1 (cf : config) (cmd : command) (a : list bytes) (t : nat -> Z) (follower cmaster : bool) (c : acell) : option (option (effect acell)) :=
  let x := nth 2 a [] in
  let y := nth 3 a [] in
  let options n type k :=
    match parse_options type (drop n a) OBJ_NO_FLAGS UNIT_SECONDS None with
    | None => answer a false (RErr SyntaxErr)
    | Some (f, u, e) => k f u e
    end in
  match cmd with
  | Get => Some (Some (answer a true (bulk c)))
  | Getex => Some (Some (options 2%nat COMMAND_GET (getex_spec cf a t follower c)))
  | Getdel => Some (Some (getdel_spec cf a c))
  | Set_ => Some (Some (options 3%nat COMMAND_SET (fun f u e => set_spec a t c f x e u ROk RNull)))
  | Setnx => Some (Some (set_spec a t c NX_FLAGS x None UNIT_SECONDS (RInt 1) (RInt 0)))
  | Setex => Some (Some (set_spec a t c EX_FLAGS y (Some x) UNIT_SECONDS ROk RNull))
  | Psetex => Some (Some (set_spec a t c PX_FLAGS y (Some x) UNIT_MILLISECONDS ROk RNull))
  | Append => Some (append_spec cf a cmaster c x)
  | Strlen => Some (Some (strlen_spec a c))
  | Setrange => Some (setrange_spec cf a cmaster c x y)
  | Getrange => Some (Some (getrange_spec a c x y))
  | Incr => Some (Some (incr_spec a c 1))
  | Decr => Some (Some (incr_spec a c (-1)))
  | Incrby => Some (Some (incrby_spec a c x))
  | Decrby => Some (Some (decrby_spec a c x))
  | Getset => Some (Some (getset_spec a c x))
  | Expire => Some (Some (expireat_spec cf a follower c (t 0%nat) (t 1%nat) UNIT_SECONDS x))
  | Expireat => Some (Some (expireat_spec cf a follower c 0 (t 0%nat) UNIT_SECONDS x))
  | Pexpire => Some (Some (expireat_spec cf a follower c (t 0%nat) (t 1%nat) UNIT_MILLISECONDS x))
  | Pexpireat => Some (Some (expireat_spec cf a follower c 0 (t 0%nat) UNIT_MILLISECONDS x))
  | Ttl => Some (Some (ttl_spec a t c false))
  | Pttl => Some (Some (ttl_spec a t c true))
  | Persist => Some (Some (persist_spec a c))
  | Mget | Mset | Msetnx | Del | Unlink | Exists | Touch | Rename | Renamenx => None
  end.

(** The configurations the theorems are about: the clock gives times that fit, and so do
    the strings the allocator can hold. *)
Definition config_ok (cf : config) : Prop :=
  (forall n, 0 <= clock cf n < 2 ^ 63) /\ (forall n, can_hold cf n = true -> n < 2 ^ 63).

(** A request for an entry of the table, with the right number of arguments. *)
Definition request (cmd : command) (arity : Z) (readonly : bool) (c : caller) (s : server) : Prop :=
  (exists name, (name, cmd, arity, readonly) ∈ redisCommandTable) /\ wrong_arity arity (Z.of_nat (length (argv s))) = false /\
  c_readonly c = readonly /\ Forall (fun x => blen x < 2 ^ 63) (argv s).

Lemma lookup_nth (a : list bytes) i : (i < length a)%nat -> a !! i = Some (nth i a []).
Proof. intros Hi. destruct (lookup_lt_is_Some_2 a i Hi) as [x Hx]. rewrite Hx. by apply nth_lookup_Some with (d := []) in Hx as ->. Qed.

(** The arity and the flag of a command, which all its names share. *)
Definition signature (cmd : command) : Z * bool :=
  match find (fun x => bool_decide (snd (fst (fst x)) = cmd)) redisCommandTable with
  | Some x => (snd (fst x), snd x)
  | None => (0, true)
  end.

Lemma table_signature name cmd arity readonly : (name, cmd, arity, readonly) ∈ redisCommandTable -> signature cmd = (arity, readonly).
Proof.
  intros H. unfold redisCommandTable in H.
  repeat (apply elem_of_cons in H as [[= -> -> -> ->]|H]; [reflexivity|]). by apply elem_of_nil in H.
Qed.

Lemma request_signature cmd arity readonly c s : request cmd arity readonly c s -> signature cmd = (arity, readonly).
Proof. intros ((name & H) & _). by eapply table_signature. Qed.

Lemma single_key_ok cf cmd arity readonly c s x :
  config_ok cf -> running s -> request cmd arity readonly c s ->
  spec1 cf cmd (argv s) (readings cf s) (loading s || masterhost s) (c_master c) (abs (readable c (nth 1 (argv s) []) s)) = Some x ->
  may_do cf c s (nth 1 (argv s) []) (proc cf cmd c) x.
Proof.
  intros [Hclock Hhold] Hrun Hreq Hspec. pose proof (request_signature _ _ _ _ _ Hreq) as Hsig. destruct Hreq as (_ & Har & Hro & Hargs).
  set (a := argv s) in *.
  assert (Hlen : forall i, (i < length a)%nat -> a !! i = Some (nth i a [])) by apply lookup_nth.
  assert (Hwk : readonly = false -> readable c (nth 1 a []) s = live (c_db c) (nth 1 a []) s) by (intros ->; by apply readable_live).
  unfold wrong_arity in Har.
  destruct cmd; cbn [spec1] in Hspec; try discriminate Hspec; injection Hspec as <-; injection Hsig as <- <-; cbn [proc may_do]; try rewrite Hwk by done.
  all: assert (Hk : a !! 1%nat = Some (nth 1 a [])) by (apply Hlen; lia).
  all: try (assert (H2 : a !! 2%nat = Some (nth 2 a [])) by (apply Hlen; lia)); try (assert (H3 : a !! 3%nat = Some (nth 3 a [])) by (apply Hlen; lia)).
  - by apply getCommand_ok.
  - by apply getexCommand_ok.
  - by apply getdelCommand_ok.
  - by apply setCommand_ok.
  - by apply setnxCommand_ok.
  - by apply setexCommand_ok.
  - by apply psetexCommand_ok.
  - by apply appendCommand_ok.
  - by apply strlenCommand_ok.
  - by apply setrangeCommand_ok.
  - by apply getrangeCommand_ok.
  - by apply incrDecr_ok.
  - by apply incrDecr_ok.
  - by apply incrbyCommand_ok.
  - by apply decrbyCommand_ok.
  - by apply getsetCommand_ok.
  - eapply (does_ticks _ _ _ _ _ _ (S (ticks s))); [reflexivity|]. apply (expireGeneric_ok cf c (set_ticks (S (ticks s)) s)); try done; apply Hclock.
  - by apply expireGeneric_ok.
  - eapply (does_ticks _ _ _ _ _ _ (S (ticks s))); [reflexivity|]. apply (expireGeneric_ok cf c (set_ticks (S (ticks s)) s)); try done; apply Hclock.
  - by apply expireGeneric_ok.
  - by apply ttlGeneric_ok.
  - by apply ttlGeneric_ok.
  - by apply persistCommand_ok.
Qed.

(** ** What all commands respect *)

#[export] Instance otype_eq_dec : EqDecision otype.
Proof. solve_decision. Defined.

#[export] Instance value_eq_dec : EqDecision value.
Proof. solve_decision. Defined.

(** What is propagated: commands of the table and, before the first of them, the MULTI of
    the transaction that is executed. *)
Definition is_data (a : list bytes) : Prop := is_Some (lookupCommand (hd [] a)).

Lemma deletion_is_data lazy k : is_data [del_name lazy; k].
Proof. destruct lazy; by eexists. Qed.

Definition log_grows (s s' : server) : Prop :=
  exists d b, log s' = log s ++ (if negb (propagate_in_transaction s) && propagate_in_transaction s' then [(d, [bytes_of_string "MULTI"])] else []) ++ b /\
    Forall (fun e => is_data (snd e)) b /\
    if in_exec s then (b = [] /\ propagate_in_transaction s' = propagate_in_transaction s) \/ propagate_in_transaction s' = true
    else propagate_in_transaction s' = propagate_in_transaction s.

Lemma log_grows_same s s' : log s' = log s -> propagate_in_transaction s' = propagate_in_transaction s -> log_grows s s'.
Proof.
  intros El Ep. exists 0, []. rewrite El, Ep. destruct (propagate_in_transaction s); cbn; rewrite app_nil_r; (split; [done|]; split; [constructor|]; destruct (in_exec s); auto).
Qed.

Lemma log_grows_trans s1 s2 s3 : in_exec s2 = in_exec s1 -> log_grows s1 s2 -> log_grows s2 s3 -> log_grows s1 s3.
Proof.
  intros Ee (d & b & El & Hb & Hp) (d' & b' & El' & Hb' & Hp'). rewrite Ee in Hp'. exists (if propagate_in_transaction s2 then d else d'), (b ++ b').
  rewrite El', El. split; [|split; [by apply Forall_app|]].
  - destruct (in_exec s1); [destruct Hp as [[-> Ep]|Ep], Hp' as [[-> Ep']|Ep']|rewrite Hp', Hp]; rewrite ?Ep', ?Ep;
      destruct (propagate_in_transaction s1); cbn; try destruct (propagate_in_transaction s3); cbn; by rewrite ?app_nil_r, <- ?app_assoc.
  - destruct (in_exec s1); [|congruence]. destruct Hp as [[-> Ep]|Ep], Hp' as [[-> Ep']|Ep']; [left; split; [done|congruence]|right; congruence..].
Qed.

(** From one state to a later one while a command runs: the role of the instance and the
    time do not change, the keyspace stays well formed, the watched keys stay the same,
    clients only get marked, those that watch a modified key are, and those that watch
    nothing are not. *)
Record evolves (s s' : server) : Prop := mk_evolves {
  ev_run : same_run s s';
  ev_wf : wf s -> wf s';
  ev_watched : forall d, watched_keys (db_at s' d) = watched_keys (db_at s d);
  ev_clients : forall i, clients s' !! i = clients s !! i \/ clients s' !! i = set_dirty_cas true <$> clients s !! i;
  ev_marked : forall d k l i, get_cell d k s' <> get_cell d k s -> watched_keys (db_at s d) !! k = Some l -> i ∈ l ->
    clients s' !! i = set_dirty_cas true <$> clients s !! i;
  ev_log : log_grows s s';
  ev_data : is_data (argv s) -> is_data (argv s');
  ev_dirty : dirty s <= dirty s';
  ev_unmarked : forall i, (forall d k, i ∉ default [] (watched_keys (db_at s d) !! k)) -> clients s' !! i = clients s !! i;
}.

Lemma dirty_twice (o : option client) : set_dirty_cas true <$> (set_dirty_cas true <$> o) = set_dirty_cas true <$> o.
Proof. by destruct o. Qed.

Lemma evolves_refl s : evolves s s.
Proof. split; [apply same_run_refl|done|done|by left|done|by apply log_grows_same|done..]. Qed.

Lemma evolves_trans s1 s2 s3 : evolves s1 s2 -> evolves s2 s3 -> evolves s1 s3.
Proof.
  intros [R1 W1 D1 C1 M1 L1 A1 I1 U1] [R2 W2 D2 C2 M2 L2 A2 I2 U2]. split.
  - by eapply same_run_trans.
  - auto.
  - intros d. by rewrite D2.
  - intros i. destruct (C1 i) as [E1|E1], (C2 i) as [E2|E2]; rewrite E2, E1, ?dirty_twice; auto.
  - intros d k l i Hne Hw Hi. destruct (decide (get_cell d k s2 = get_cell d k s1)) as [E|E].
    + rewrite (M2 d k l i) by (rewrite ?D1; congruence || done). destruct (C1 i) as [->| ->]; by rewrite ?dirty_twice.
    + pose proof (M1 d k l i E Hw Hi) as E1. destruct (C2 i) as [->| ->]; by rewrite E1, ?dirty_twice.
  - eapply log_grows_trans; [apply R1|done|done].
  - auto.
  - lia.
  - intros i Hi. rewrite U2; [by apply U1|]. intros d k. rewrite D1. apply Hi.
Qed.

(** The databases and the clients stay as they are. *)
Lemma evolves_unchanged s s' : same_run s s' -> dbs s' = dbs s -> clients s' = clients s -> log_grows s s' -> (is_data (argv s) -> is_data (argv s')) ->
  dirty s <= dirty s' -> evolves s s'.
Proof.
  intros Hr Hd Hc Hl Ha Hi. assert (Hg : forall d k, get_cell d k s' = get_cell d k s) by (intros; unfold get_cell, db_at; by rewrite Hd).
  split; [done|by apply wf_same|intros d; unfold db_at; by rewrite Hd|left; by rewrite Hc| |done..|by rewrite Hc]. intros d k l i Hne. by rewrite Hg in Hne.
Qed.

Lemma evolves_same s s' :
  same_run s s' -> dbs s' = dbs s -> clients s' = clients s -> log s' = log s -> propagate_in_transaction s' = propagate_in_transaction s ->
  argv s' = argv s -> dirty s <= dirty s' -> evolves s s'.
Proof. intros Hr Hd Hc Hl Hp Ha Hi. apply evolves_unchanged; [done..|by apply log_grows_same|by rewrite Ha|done]. Qed.

Lemma evolves_dirty n s : dirty s <= n -> evolves s (set_dirty n s).
Proof. intros Hn. by apply evolves_same. Qed.

Lemma mark_dirty_lookup l m i : mark_dirty l m !! i = if bool_decide (i ∈ l) then set_dirty_cas true <$> m !! i else m !! i.
Proof.
  induction l as [|j l IH]; [done|]. cbn [mark_dirty foldr]. fold (mark_dirty l m). destruct (decide (i = j)) as [->|Hne].
  - rewrite bool_decide_true by set_solver. rewrite lookup_alter_eq, IH. case_bool_decide; by rewrite ?dirty_twice.
  - rewrite lookup_alter_ne, IH by done. replace (bool_decide (i ∈ j :: l)) with (bool_decide (i ∈ l)); [done|]. apply bool_decide_ext. set_solver.
Qed.

Lemma evolves_write d k c s : cell_ok c -> evolves s (touch d k (put_cell d k c s)).
Proof.
  intros Hc. assert (Hw : forall e, watched_keys (db_at (put_cell d k c s) e) = watched_keys (db_at s e)).
  { intros e. unfold put_cell. rewrite db_at_set. by case_decide; subst. }
  assert (Hcl : forall i, clients (touch d k (put_cell d k c s)) !! i =
    if bool_decide (i ∈ default [] (watched_keys (db_at s d) !! k)) then set_dirty_cas true <$> clients s !! i else clients s !! i).
  { intros i. unfold touch. rewrite Hw. destruct (watched_keys (db_at s d) !! k) as [l|]; cbn [default]; [apply mark_dirty_lookup|done]. }
  split.
  - eapply same_run_trans; [|apply same_run_touch]. by repeat split.
  - intros Hwf. by apply wf_touch, wf_put.
  - intros e. rewrite <- Hw. destruct (touch_cases d k (put_cell d k c s)) as [m ->]. done.
  - intros i. rewrite Hcl. case_bool_decide; auto.
  - intros d' k' l i Hne Hl Hi. rewrite get_touch in Hne. destruct (decide ((d', k') = (d, k))) as [[= -> ->]|Hd]; [|by rewrite get_put_ne in Hne].
    rewrite Hcl, Hl. by rewrite bool_decide_true.
  - destruct (touch_cases d k (put_cell d k c s)) as [m ->]. by apply log_grows_same.
  - by rewrite field_touch_argv.
  - by rewrite field_touch_dirty.
  - intros i Hi. by rewrite Hcl, bool_decide_false by apply Hi.
Qed.

Lemma evolves_propagated d a s : is_data a -> evolves s (propagated d a s).
Proof.
  intros Ha. apply evolves_unchanged; [by repeat split|done|done| |done|done]. exists d, [(d, a)]. unfold propagated. cbn.
  destruct (in_exec s) eqn:Ee, (propagate_in_transaction s); cbn; (split; [done|]; split; [by repeat constructor|]); auto.
Qed.

Lemma evolves_purge cf d k s : evolves s (purge cf d k s).
Proof.
  destruct (purge_cases cf d k s) as [->| ->]; [apply evolves_refl|]. eapply evolves_trans; [by apply (evolves_write d k None)|apply evolves_propagated, deletion_is_data].
Qed.

Lemma evolves_apply cf d k e s n :
  match e_write e with Some c => cell_ok c | None => True end -> (is_data (argv s) -> is_data (e_argv e)) ->
  evolves s (apply cf d k e (set_ticks n s)).
Proof.
  intros Hc Ha. eapply evolves_trans; [by apply (evolves_same s (set_ticks n s))|]. unfold apply. set (x := set_ticks n s).
  assert (H1 : evolves x (if e_lookup e then purge cf d k x else x)) by (destruct (e_lookup e); [apply evolves_purge|apply evolves_refl]).
  set (y := if e_lookup e then _ else _) in *. assert (Hy : argv y = argv s) by (unfold y; destruct (e_lookup e); by rewrite ?field_purge_argv).
  eapply evolves_trans; [exact H1|]. destruct (e_write e) as [c|].
  - eapply evolves_trans; [by apply (evolves_write d k c)|]. apply evolves_unchanged; [by repeat split|done..|by apply log_grows_same| |cbn; rewrite field_touch_dirty; cbn; lia].
    cbn. rewrite field_touch_argv. change (argv (put_cell d k c y)) with (argv y). by rewrite Hy.
  - apply evolves_unchanged; [by repeat split|done..|by apply log_grows_same| |done]. cbn. by rewrite Hy.
Qed.

(** The commands are propagated under names of the table. *)
Lemma spec1_argv cf cmd a t follower cmaster c x :
  spec1 cf cmd a t follower cmaster c = Some (Some x) -> is_data a -> is_data (e_argv x).
Proof.
  intros Hs Ha. assert (Hset : forall l, is_data (bytes_of_string "SET" :: l)) by (intros; by eexists).
  assert (Hk : forall y r, is_data (e_argv (answer a y r))) by done.
  assert (Hex : forall u b now x, is_data (e_argv (expireat_spec cf a follower c b now u x))).
  { intros u b now y. unfold expireat_spec. repeat case_match; try done; apply deletion_is_data. }
  assert (Hget : is_data (strip_get a)) by (unfold strip_get; by destruct a as [|n a]).
  assert (Hst : forall f v e u ok ab, is_data (e_argv (set_spec a t c f v e u ok ab))).
  { intros f v e u ok ab. unfold set_spec, set_checked_spec. repeat case_match; first [done|apply Hset|apply Hget]. }
  assert (Hgc : forall f b ttl e now, is_data (e_argv (getex_checked_spec cf a follower f b ttl e now))).
  { intros f b ttl [[ms when]|] now; unfold getex_checked_spec; [destruct (_ && negb follower); [apply deletion_is_data|]|destruct (_ && _); [|done]]; [|by eexists].
    destruct (_ || _); by eexists. }
  assert (Hgx : forall f u e, is_data (e_argv (getex_spec cf a t follower c f u e))).
  { intros f u e. unfold getex_spec. destruct c as [[[b|] ttl]|]; try done. destruct e as [y|]; [destruct (expire_spec _ _ _ _)|]; first [apply Hgc|done]. }
  destruct cmd; cbn [spec1] in Hs; try discriminate Hs; injection Hs as Hs; subst; try done.
  - destruct (parse_options _ _ _ _ _) as [[[f u] e]|]; [apply Hgx|done].
  - unfold getdel_spec. repeat case_match; try done. apply deletion_is_data.
  - repeat case_match; done.
  - exact (Hst NX_FLAGS (nth 2 a []) None UNIT_SECONDS (RInt 1) (RInt 0)).
  - exact (Hst EX_FLAGS (nth 3 a []) (Some (nth 2 a [])) UNIT_SECONDS ROk RNull).
  - exact (Hst PX_FLAGS (nth 3 a []) (Some (nth 2 a [])) UNIT_MILLISECONDS ROk RNull).
  - unfold append_spec in Hs. repeat case_match; by simplify_eq.
  - unfold strlen_spec. by repeat case_match.
  - unfold setrange_spec in Hs. repeat case_match; by simplify_eq.
  - unfold getrange_spec. by repeat case_match.
  - unfold incr_spec. by repeat case_match.
  - unfold incr_spec. by repeat case_match.
  - unfold incrby_spec, incr_spec. by repeat case_match.
  - unfold decrby_spec, incr_spec. by repeat case_match.
  - unfold getset_spec. case_match; [done|]. cbn. destruct a; [done|]. apply Hset.
  - unfold ttl_spec. by repeat case_match.
  - unfold ttl_spec. by repeat case_match.
  - unfold persist_spec. by repeat case_match.
Qed.

(** ** The commands on several keys *)

Section Loops.

Context (cf : config) (d : Z).

Lemma running_evolves s s' : evolves s s' -> running s -> running s'.
Proof. intros [R W _ _ _ _ _ _ _] Hr. eapply running_same; [exact R|apply W, Hr|done]. Qed.

Lemma live_purge_all d' k' k s : live d' k' (purge cf d k s) = live d' k' s.
Proof.
  destruct (decide ((d', k') = (d, k))) as [[= -> ->]|Hne]; [apply live_purge|]. pose proof (same_run_purge cf d k s) as Hs.
  unfold live, key_expired. rewrite get_purge_ne, (cell_expired_same s) by done. by destruct Hs as (-> & _).
Qed.

Lemma readable_purge c k' k s : readable c k' (purge cf d k s) = readable c k' s.
Proof.
  destruct (masterhost s) eqn:Em; [unfold purge; by rewrite Em, andb_false_r|]. unfold readable. rewrite live_purge_all.
  destruct (purge_fields cf d k s) as (_ & _ & _ & _ & -> & _). by rewrite Em, !andb_false_r.
Qed.

(** All the keys are looked up. *)
Definition purge_all (keys : list bytes) (s : server) : server := foldl (fun s k => purge cf d k s) s keys.

Lemma evolves_purge_all keys s : evolves s (purge_all keys s).
Proof. revert s. induction keys as [|k keys IH]; intros s; [apply evolves_refl|]. eapply evolves_trans; [apply evolves_purge|apply IH]. Qed.

Lemma purge_all_out keys o s : purge_all keys (set_out o s) = set_out o (purge_all keys s).
Proof. revert s. induction keys as [|k keys IH]; intros s; [done|]. cbn. rewrite purge_out. apply IH. Qed.

Definition count_live (c : caller) (keys : list bytes) (s : server) : Z :=
  Z.of_nat (length (filter (fun k => is_Some (readable c k s)) keys)).

Lemma count_loop_ok c keys n s :
  running s -> c_db c = d -> count_loop cf c keys n s = Some (purge_all keys s, n + count_live c keys s).
Proof.
  intros Hr Hd. revert n s Hr. induction keys as [|k keys IH]; intros n s Hr; cbn [count_loop]; [by rewrite Z.add_0_r|].
  step (by apply lookupKeyRead_ok). rewrite Hd, IH by (by apply running_purge). do 2 f_equal. unfold count_live. rewrite filter_cons.
  assert (He : forall k', readable c k' (purge cf d k s) = readable c k' s) by (intros; apply readable_purge).
  erewrite (list_filter_iff _ (fun k => is_Some (readable c k s)) keys) by (intros; by rewrite He).
  destruct (readable c k s) as [x|]; cbn [fmap option_fmap option_map].
  - rewrite decide_True by done. cbn [length]. lia.
  - rewrite decide_False by (by intros []). lia.
Qed.

Definition value_reply (c : caller) (s : server) (k : bytes) : reply :=
  match readable c k s with Some (Str o, _) => RBulk (obj_string o) | _ => RNull end.

Lemma mget_loop_ok c keys s :
  running s -> c_db c = d -> mget_loop cf c keys s = Some (set_out (out s ++ (value_reply c s <$> keys)) (purge_all keys s), tt).
Proof.
  intros Hr Hd. revert s Hr. induction keys as [|k keys IH]; intros s Hr; cbn [mget_loop].
  { cbn. rewrite app_nil_r. apply done_eq. by rewrite set_out_id. }
  step (by apply lookupKeyRead_ok). rewrite Hd. set (r := match string_of _ with Some _ => _ | None => _ end).
  assert (Er : r = value_reply c s k) by (unfold r, value_reply; by destruct (readable c k s) as [[[]]|]).
  step done. rewrite IH by (apply (running_purge cf d k s Hr)). apply done_eq. rewrite field_purge_out.
  rewrite purge_all_out. change (purge_all (k :: keys) s) with (purge_all keys (purge cf d k s)). rewrite Er.
  apply server_eq; reduce_fields; try reflexivity. cbn [fmap list_fmap]. rewrite <- app_assoc. cbn [app]. do 2 f_equal.
  apply list_fmap_ext. intros i k' _. unfold value_reply. change (readable c k' (set_out ?o ?x)) with (readable c k' x). by rewrite readable_purge.
Qed.

(** *** Deleting keys *)

Definition del1 (s : server) (k : bytes) : server :=
  let p := purge cf d k s in
  match live d k s with
  | Some _ => set_dirty (dirty p + 1) (touch d k (put_cell d k None p))
  | None => p
  end.

Lemma evolves_del1 s k : evolves s (del1 s k).
Proof.
  eapply evolves_trans; [apply (evolves_purge cf d k)|]. unfold del1. destruct (live d k s); [|apply evolves_refl].
  eapply evolves_trans; [by apply (evolves_write d k None)|]. apply evolves_dirty. rewrite field_touch_dirty. cbn. lia.
Qed.

Lemma evolves_foldl {A} (f : server -> A -> server) l s : (forall s x, evolves s (f s x)) -> evolves s (foldl f s l).
Proof. intros Hf. revert s. induction l as [|x l IH]; intros s; [apply evolves_refl|]. eapply evolves_trans; [apply Hf|apply IH]. Qed.

Lemma del_loop_ok lazy keys n s :
  running s -> del_loop cf lazy d keys n s = Some (foldl del1 s keys, n + (dirty (foldl del1 s keys) - dirty s)).
Proof.
  revert n s. induction keys as [|k keys IH]; intros n s Hr; cbn [del_loop foldl]; [by rewrite Z.sub_diag, Z.add_0_r|].
  pose proof (running_purge cf d k s Hr) as Hp. step (by apply expireIfNeeded_ok).
  assert (Hd : lazy_delete lazy d k (purge cf d k s) =
    Some (match live d k s with Some _ => put_cell d k None (purge cf d k s) | None => purge cf d k s end, bool_decide (is_Some (live d k s)))).
  { transitivity (dbSyncDelete d k (purge cf d k s)); [by destruct lazy|]. rewrite dbSyncDelete_ok by apply Hp. by rewrite get_purge. }
  step exact Hd. set (b := bool_decide (is_Some (live d k s))).
  assert (E : (if b then run signalModifiedKey d k in run add_dirty 1 in del_loop cf lazy d keys (n + 1) else del_loop cf lazy d keys n)
      (match live d k s with Some _ => put_cell d k None (purge cf d k s) | None => purge cf d k s end) = del_loop cf lazy d keys (n + Z.b2z b) (del1 s k)
      /\ dirty (del1 s k) = dirty s + Z.b2z b).
  { unfold b, del1. destruct (live d k s) as [x|].
    - rewrite bool_decide_true by (by eexists). unfold mbind_, signalModifiedKey, touchWatchedKey, add_dirty, modify. rewrite field_touch_dirty. split; [done|].
      reduce_fields. by rewrite field_purge_dirty.
    - rewrite bool_decide_false by (by intros []). cbn [Z.b2z]. rewrite Z.add_0_r, field_purge_dirty. split; [done|lia]. }
  destruct E as [-> E]. rewrite IH by (by apply (running_evolves s); [apply evolves_del1|]). do 2 f_equal. lia.
Qed.

(** *** Setting keys *)

(** The object an argument is stored as. *)
Definition encoded (a : bytes) : robj := default (Raw a) (tryObjectEncoding (cfg_env cf) 1 (arg_object a)).

Lemma encoded_ok a : blen a < 2 ^ 63 -> (forall s, tryEncode cf a s = Some (s, encoded a)) /\ obj_string (encoded a) = a /\ value_ok (Str (encoded a)).
Proof.
  intros Ha. unfold encoded, tryEncode. destruct (tryObjectEncoding_ok (cfg_env cf) (arg_object a)) as (o & Ho & Hs & Hb); [unfold arg_object; by destruct (_ <=? _)|].
  rewrite arg_object_string in Hs. rewrite Ho. cbn [default id from_option]. split; [done|]. split; [done|]. split; [by destruct o|]. change (blen (obj_string o) < 2 ^ 63). by rewrite Hs.
Qed.

Definition set1 (s : server) (kv : bytes * bytes) : server :=
  touch d (fst kv) (put_cell d (fst kv) (Some (Str (encoded (snd kv)), None)) (purge cf d (fst kv) s)).

Lemma evolves_set1 s kv : blen (snd kv) < 2 ^ 63 -> evolves s (set1 s kv).
Proof.
  intros Hl. eapply evolves_trans; [apply (evolves_purge cf d (fst kv))|]. apply evolves_write, (encoded_ok (snd kv) Hl).
Qed.

Fixpoint pairs (l : list bytes) : list (bytes * bytes) :=
  match l with k :: v :: l => (k, v) :: pairs l | _ => [] end.

Lemma pairs_short l : Forall (fun x => blen x < 2 ^ 63) l -> Forall (fun kv => blen (snd kv) < 2 ^ 63) (pairs l).
Proof.
  remember (length l) as n eqn:Hn. revert l Hn. induction (lt_wf n) as [n _ IH]. intros [|k [|v l]] -> H; cbn [pairs]; [constructor..|].
  apply Forall_cons_1 in H as [_ [Hv H]%Forall_cons_1]. constructor; [done|]. eapply IH; [|reflexivity|done]. cbn. lia.
Qed.

Lemma evolves_set_all l s : Forall (fun kv => blen (snd kv) < 2 ^ 63) l -> evolves s (foldl set1 s l).
Proof.
  intros H. revert s. induction H as [|kv l Hkv _ IH]; intros s; [apply evolves_refl|]. eapply evolves_trans; [by apply evolves_set1|apply IH].
Qed.

Lemma mset_loop_ok l s :
  running s -> Forall (fun x => blen x < 2 ^ 63) l -> mset_loop cf d l s = Some (foldl set1 s (pairs l), tt).
Proof.
  remember (length l) as n eqn:Hn. revert l s Hn. induction (lt_wf n) as [n _ IH]. intros [|k [|v l]] s -> Hr H; cbn [pairs mset_loop foldl]; [done..|].
  apply Forall_cons_1 in H as [_ [Hv H]%Forall_cons_1]. destruct (encoded_ok v Hv) as (He & _ & Hok).
  step (apply He). unfold setKey. step (by apply (genericSetKey_ok cf d k (Str (encoded v)) false s)).
  fold (set1 s (k, v)). eapply IH; [|reflexivity| |done]; [cbn; lia|]. by apply (running_evolves s); [apply evolves_set1|].
Qed.

(** The keys before the first that exists, and that one, are looked up. *)
Fixpoint until_live (keys : list bytes) (s : server) : list bytes * bool :=
  match keys with
  | [] => ([], true)
  | k :: keys =>
      match live d k s with
      | Some _ => ([k], false)
      | None => let r := until_live keys s in (k :: fst r, snd r)
      end
  end.

Lemma until_live_same keys s s' : (forall k, live d k s' = live d k s) -> until_live keys s' = until_live keys s.
Proof. intros Hl. induction keys as [|k keys IH]; [done|]. cbn. by rewrite Hl, IH. Qed.

Lemma msetnx_loop_ok l s :
  running s -> msetnx_loop cf d l s = Some (purge_all (fst (until_live (fst <$> pairs l) s)) s, snd (until_live (fst <$> pairs l) s)).
Proof.
  remember (length l) as n eqn:Hn. revert l s Hn. induction (lt_wf n) as [n _ IH]. intros [|k [|v l]] s -> Hr; cbn [pairs msetnx_loop fmap list_fmap until_live fst]; [done..|].
  step (by apply lookupKeyWrite_ok). destruct (live d k s) as [x|] eqn:El; cbn [fmap option_fmap option_map]; [done|].
  rewrite (IH (length l)); [|cbn; lia|done|by apply running_purge].
  rewrite (until_live_same _ s (purge cf d k s)) by (intros; apply live_purge_all). done.
Qed.

(** *** Renaming *)

Lemma mark_dirty_comm l l' m : mark_dirty l (mark_dirty l' m) = mark_dirty l' (mark_dirty l m).
Proof. apply map_eq. intros i. rewrite !mark_dirty_lookup. repeat case_bool_decide; done. Qed.

Lemma touch_comm k k' s : touch d k (touch d k' s) = touch d k' (touch d k s).
Proof.
  assert (Hw : forall x m, watched_keys (db_at (set_clients m x) d) = watched_keys (db_at x d)) by done.
  unfold touch. destruct (watched_keys (db_at s d) !! k) as [l|] eqn:E, (watched_keys (db_at s d) !! k') as [l'|] eqn:E';
    rewrite ?Hw, ?E, ?E'; [|done..]. apply server_eq; try done. cbn. apply mark_dirty_comm.
Qed.

(** The cell a renamed key leaves behind at its new name. *)
Definition renamed (v : value) (ttl : option Z) : cell := Some (v, if default (-1) ttl =? -1 then None else ttl).

Definition moved (src dst : bytes) (c : cell) (s : server) : server :=
  touch d dst (touch d src (put_cell d src None (put_cell d dst c s))).

Lemma evolves_moved src dst c s : cell_ok c -> evolves s (moved src dst c s).
Proof.
  intros Hc. unfold moved. rewrite touch_comm, <- put_touch. eapply evolves_trans; [by apply (evolves_write d dst c)|by apply evolves_write].
Qed.

(** The state and the reply of RENAME and RENAMENX. *)
Definition rename_spec (nx : bool) (src dst : bytes) (s : server) : server :=
  let p := purge cf d src s in
  let p2 := purge cf d dst p in
  let reply r x := set_out (out s ++ [r]) x in
  match live d src s with
  | None => reply (RErr NoSuchKey) p
  | Some (v, ttl) =>
      if bool_decide (src = dst) then reply (if nx then RInt 0 else ROk) p else
      match nx, live d dst s with
      | true, Some _ => reply (RInt 0) p2
      | _, _ => reply (if nx then RInt 1 else ROk) (set_dirty (dirty s + 1) (moved src dst (renamed v ttl) p2))
      end
  end.

Lemma dbDelete_ok k s : wf s -> is_Some (get_cell d k s) -> dbDelete cf d k s = Some (put_cell d k None s, true).
Proof.
  intros Hw [x Hx]. transitivity (dbSyncDelete d k s); [unfold dbDelete; by destruct (lazyfree_lazy_server_del cf)|]. rewrite dbSyncDelete_ok by done. by rewrite Hx.
Qed.

Lemma rename_tail src dst v ttl r s :
  wf s -> src <> dst -> value_ok v -> get_cell d src s = Some (v, ttl) -> get_cell d dst s = None ->
  (run dbAdd d dst v in
   run (if negb (default (-1) ttl =? -1) then setExpire d dst (default (-1) ttl) else mret tt) in
   run dbDelete cf d src in
   run signalModifiedKey d src in
   run signalModifiedKey d dst in
   run add_dirty 1 in
   addReply r) s = Some (set_out (out s ++ [r]) (set_dirty (dirty s + 1) (moved src dst (renamed v ttl) s)), tt).
Proof.
  intros Hw Hne Hv Hs Hd. step (by apply dbAdd_ok). set (x := put_cell d dst (Some (v, None)) s). assert (Hx : wf x) by (by apply wf_put).
  assert (He : (if negb (default (-1) ttl =? -1) then setExpire d dst (default (-1) ttl) else mret tt) x = Some (put_cell d dst (renamed v ttl) s, tt)).
  { unfold renamed. destruct ttl as [w|]; cbn [default from_option id]; [|done]. destruct (w =? -1); [done|]. cbn [negb].
    rewrite (setExpire_ok d dst v None w x Hx) by apply get_put. unfold x. by rewrite put_put. }
  step exact He. step (apply dbDelete_ok; [by apply wf_put|]; rewrite get_put_ne by congruence; rewrite Hs; by eexists).
  unfold mbind_, signalModifiedKey, touchWatchedKey, add_dirty, addReply, modify, moved. apply done_eq. fields.
Qed.

Lemma rename_ok (nx : bool) src dst c s :
  running s -> c_db c = d -> argv s !! 1%nat = Some src -> argv s !! 2%nat = Some dst ->
  renameGenericCommand cf c nx s = Some (rename_spec nx src dst s, tt).
Proof.
  intros Hr Hd H1 H2. unfold renameGenericCommand, rename_spec. rewrite Hd. do 2 step (by apply arg_ok).
  set (p := purge cf d src s). set (p2 := purge cf d dst p). assert (Hp : running p) by (by apply running_purge). assert (Hp2 : running p2) by (by apply running_purge).
  assert (Hl : lookupKeyWriteOrReply cf c src (RErr NoSuchKey) s =
    Some (match live d src s with Some _ => p | None => set_out (out s ++ [RErr NoSuchKey]) p end, fst <$> live d src s)).
  { unfold lookupKeyWriteOrReply. rewrite Hd. step (by apply lookupKeyWrite_ok). destruct (live d src s); [done|]. cbn. unfold mbind_, addReply, modify, p. by rewrite field_purge_out. }
  step exact Hl. destruct (live d src s) as [[v ttl]|] eqn:El; cbn [fmap option_fmap option_map fst]; [|done].
  case_bool_decide as Heq; [unfold addReply, modify; apply done_eq; unfold p; by rewrite field_purge_out|].
  assert (Hcell : get_cell d src p = Some (v, ttl)) by (unfold p; by rewrite get_purge).
  assert (Hcell2 : get_cell d src p2 = Some (v, ttl)) by (unfold p2; rewrite get_purge_ne; [done|congruence]).
  step (by apply getExpire_ok, Hp). rewrite Hcell. cbn [mbind option_bind snd]. step (by apply lookupKeyWrite_ok). fold p2.
  assert (Hdst : live d dst p = live d dst s) by (unfold p; apply live_purge_all). rewrite Hdst.
  assert (Hout : out p2 = out s) by (unfold p2, p; by rewrite !field_purge_out). assert (Hdirty : dirty p2 = dirty s) by (unfold p2, p; by rewrite !field_purge_dirty).
  assert (Hvok : value_ok v) by (pose proof (cell_is_ok d src p (proj1 Hp)) as H; by rewrite Hcell in H).
  destruct (live d dst s) as [x|] eqn:Ed; cbn [fmap option_fmap option_map]; [destruct nx|].
  { step done. unfold addReply, modify. by rewrite Hout. }
  - assert (Hg : is_Some (get_cell d dst p2)) by (unfold p2; rewrite get_purge, Hdst; by eexists).
    step (step (apply dbDelete_ok; [apply Hp2|exact Hg]); reflexivity).
    rewrite (rename_tail src dst v ttl); [|apply wf_put; [apply Hp2|done]|done|done|by rewrite get_put_ne by congruence|apply get_put].
    apply done_eq. unfold moved. rewrite put_put. reduce_fields. by rewrite <- Hout, <- Hdirty.
  - step done. rewrite (rename_tail src dst v ttl); [|apply Hp2|done|done|done|unfold p2; by rewrite get_purge, Hdst].
    rewrite Hout, Hdirty. by destruct nx.
Qed.

Lemma evolves_rename (nx : bool) src dst s : wf s -> evolves s (rename_spec nx src dst s).
Proof.
  intros Hw. unfold rename_spec. set (p := purge cf d src s). set (p2 := purge cf d dst p).
  assert (H1 : evolves s p) by apply evolves_purge. assert (H2 : evolves s p2) by (eapply evolves_trans; [exact H1|apply evolves_purge]).
  assert (Hreply : forall r x, evolves s x -> evolves s (set_out (out s ++ [r]) x)) by (intros r x Hx; eapply evolves_trans; [exact Hx|by apply evolves_same]).
  destruct (live d src s) as [[v ttl]|] eqn:El; [|by apply Hreply]. case_bool_decide; [by apply Hreply|].
  assert (Hv : value_ok v) by (unfold live in El; destruct (_ && _); [done|]; pose proof (cell_is_ok d src s Hw) as H3; by rewrite El in H3).
  destruct nx, (live d dst s); try (by apply Hreply); apply Hreply; (eapply evolves_trans; [exact H2|]);
    (eapply evolves_trans; [by apply (evolves_moved src dst (renamed v ttl))|]);
    apply evolves_dirty; unfold moved; rewrite !field_touch_dirty; cbn; unfold p2, p; rewrite !field_purge_dirty; lia.
Qed.

End Loops.

(** *** The handlers *)

Section Handlers.

Context (cf : config) (c : caller) (s : server) (Hrun : running s).

#[local] Notation d := (c_db c).

Lemma delGeneric_ok lazy :
  let s' := foldl (del1 cf d) s (drop 1 (argv s)) in
  delGenericCommand cf c lazy s = Some (set_out (out s' ++ [RInt (dirty s' - dirty s)]) s', tt).
Proof. cbn zeta. unfold delGenericCommand. step done. step (by apply del_loop_ok). done. Qed.

Lemma count_ok :
  let s' := purge_all cf d (drop 1 (argv s)) s in
  existsCommand cf c s = Some (set_out (out s' ++ [RInt (count_live c (drop 1 (argv s)) s)]) s', tt) /\ touchCommand cf c s = existsCommand cf c s.
Proof. cbn zeta. split; [|done]. unfold existsCommand. step done. step (by apply count_loop_ok). done. Qed.

Lemma mget_ok :
  mgetCommand cf c s =
    Some (set_out (out s ++ RArray (Z.of_nat (length (argv s)) - 1) :: (value_reply c s <$> drop 1 (argv s))) (purge_all cf d (drop 1 (argv s)) s), tt).
Proof.
  unfold mgetCommand. step done. step done. rewrite (mget_loop_ok cf d) by done. apply done_eq. rewrite purge_all_out. reduce_fields.
  by rewrite <- app_assoc.
Qed.

(** The keys MSETNX looks at, and whether none exists. *)
Definition nx_keys (nx : bool) : list bytes * bool := if nx then until_live d (fst <$> pairs (drop 1 (argv s))) s else ([], true).

(** The states of MSET and MSETNX. *)
Definition mset_spec (nx : bool) : server :=
  let l := pairs (drop 1 (argv s)) in
  let reply r x := set_out (out x ++ [r]) x in
  if Z.of_nat (length (argv s)) mod 2 =? 0 then reply (RErr WrongArgs) s else
  let '(keys, free) := nx_keys nx in
  let p := purge_all cf d keys s in
  if negb free then reply (RInt 0) p else
  let s' := foldl (set1 cf d) p l in
  reply (if nx then RInt 1 else ROk) (set_dirty (dirty s' + (Z.of_nat (length (argv s)) - 1) / 2) s').

Lemma mset_ok nx : Forall (fun x => blen x < 2 ^ 63) (argv s) -> msetGenericCommand cf c nx s = Some (mset_spec nx, tt).
Proof.
  intros Hargs. assert (Hdrop : Forall (fun x => blen x < 2 ^ 63) (drop 1 (argv s))) by (by apply Forall_drop).
  unfold msetGenericCommand, mset_spec. step done. destruct (_ mod 2 =? 0); [done|].
  assert (Hl : (if nx then msetnx_loop cf d (drop 1 (argv s)) else mret true) s =
    Some (purge_all cf d (fst (nx_keys nx)) s, snd (nx_keys nx)))
    by (destruct nx; [by apply msetnx_loop_ok|done]).
  step exact Hl. destruct (nx_keys nx) as [keys free]. cbn [fst snd]. destruct free; [|done]. cbn [negb].
  step (apply mset_loop_ok; [|done]; by apply (running_evolves s); [apply evolves_purge_all|]). done.
Qed.

Lemma evolves_mset nx : Forall (fun x => blen x < 2 ^ 63) (argv s) -> evolves s (mset_spec nx).
Proof.
  intros Hargs. unfold mset_spec. destruct (_ mod 2 =? 0) eqn:Eodd; [by apply evolves_same|]. destruct (nx_keys nx) as [keys free].
  eapply evolves_trans; [apply (evolves_purge_all cf d keys)|]. destruct free; [|by apply evolves_same]. cbn [negb].
  eapply evolves_trans; [apply (evolves_set_all cf d (pairs (drop 1 (argv s)))); by apply pairs_short, Forall_drop|].
  set (s' := foldl _ _ _). set (n := _ `div` 2).
  eapply (evolves_trans _ (set_dirty (dirty s' + n) s')); [|by apply evolves_same]. apply evolves_dirty.
  assert (Hn : Z.of_nat (length (argv s)) <> 0) by (intros E; by rewrite E in Eodd).
  pose proof (Z.div_pos (Z.of_nat (length (argv s)) - 1) 2). lia.
Qed.

End Handlers.

(** A command with the right number of arguments fails no assertion and, unless the
    process stops for lack of memory, leads to a later state. *)
Lemma command_evolves cf cmd arity readonly c s :
  config_ok cf -> running s -> request cmd arity readonly c s ->
  (exists s', proc cf cmd c s = Some (s', tt) /\ evolves s s') \/
  (spec1 cf cmd (argv s) (readings cf s) (loading s || masterhost s) (c_master c) (abs (readable c (nth 1 (argv s) []) s)) = Some None /\ proc cf cmd c s = None).
Proof.
  intros Hcf Hrun Hreq. destruct (spec1 cf cmd (argv s) (readings cf s) (loading s || masterhost s) (c_master c) (abs (readable c (nth 1 (argv s) []) s))) as [x|] eqn:Es.
  - pose proof (single_key_ok cf cmd arity readonly c s x Hcf Hrun Hreq Es) as H. destruct x as [x|]; cbn [may_do] in H; [left|by right].
    destruct H as (e & n & Hm & He & Hok). eexists. split; [exact Hm|]. apply evolves_apply; [done|].
    intros Ha. rewrite <- He in Es. by apply spec1_argv in Es.
  - left. pose proof (request_signature _ _ _ _ _ Hreq) as Hsig. destruct Hreq as (_ & Har & _ & Hargs). unfold wrong_arity in Har.
    destruct cmd; cbn [spec1] in Es; try discriminate Es; injection Hsig as <- <-; cbn [proc].
    + eexists. split; [by apply delGeneric_ok|]. eapply evolves_trans; [apply (evolves_foldl (del1 cf (c_db c)))|by apply evolves_same]. intros; apply evolves_del1.
    + eexists. split; [by apply delGeneric_ok|]. eapply evolves_trans; [apply (evolves_foldl (del1 cf (c_db c)))|by apply evolves_same]. intros; apply evolves_del1.
    + destruct (count_ok cf c s Hrun) as [H _]. eexists. split; [exact H|]. eapply evolves_trans; [apply evolves_purge_all|by apply evolves_same].
    + eexists. split; [by apply mget_ok|]. eapply evolves_trans; [apply (evolves_purge_all cf (c_db c) (drop 1 (argv s)))|by apply evolves_same].
    + eexists. split; [by apply (mset_ok cf c s Hrun false)|]. by apply evolves_mset.
    + eexists. split; [by apply (mset_ok cf c s Hrun true)|]. by apply evolves_mset.
    + eexists. split; [apply (rename_ok cf (c_db c) false (nth 1 (argv s) []) (nth 2 (argv s) [])); try done; apply lookup_nth; lia|]. apply evolves_rename, Hrun.
    + eexists. split; [apply (rename_ok cf (c_db c) true (nth 1 (argv s) []) (nth 2 (argv s) [])); try done; apply lookup_nth; lia|]. apply evolves_rename, Hrun.
    + destruct (count_ok cf c s Hrun) as [H1 H2]. eexists. split; [rewrite H2; exact H1|]. eapply evolves_trans; [apply evolves_purge_all|by apply evolves_same].
Qed.

(** ** Correctness *)

(** From [s], a command had the effect [x] on the key [k] of the database [d], and no
    other, and [s'] is the state after it: the cell, the other cells, the replies, the
    arguments that will be propagated, the number of changes, and what is propagated
    already, the deletion of the key if it was found expired. *)
Record performed (cf : config) (d : Z) (k : bytes) (x : effect acell) (s s' : server) : Prop := mk_performed {
  pf_cell : abs (get_cell d k s') = match e_write x with Some v => v | None => abs (if e_lookup x then live d k s else get_cell d k s) end;
  pf_others : forall d' k', (d', k') <> (d, k) -> get_cell d' k' s' = get_cell d' k' s;
  pf_reply : out s' = out s ++ e_reply x;
  pf_argv : argv s' = e_argv x;
  pf_dirty : dirty s' = dirty s + Z.b2z (bool_decide (is_Some (e_write x)));
  pf_log : log s' = log (if e_lookup x then purge cf d k s else s);
}.

Lemma field_touch_log d k s : log (touch d k s) = log s.
Proof. by destruct (touch_cases d k s) as [m ->]. Qed.

Lemma performed_apply cf d k e s n : performed cf d k (abs_effect e) s (apply cf d k e (set_ticks n s)).
Proof.
  set (p := if e_lookup e then purge cf d k (set_ticks n s) else set_ticks n s).
  assert (Hp : p = set_ticks n (if e_lookup e then purge cf d k s else s)) by (unfold p; destruct (e_lookup e); [apply purge_ticks|done]).
  assert (Hg : forall d' k', get_cell d' k' (apply cf d k e (set_ticks n s)) = get_cell d' k' (match e_write e with Some c => put_cell d k c p | None => p end)).
  { intros d' k'. unfold apply. fold p. destruct (e_write e); [apply get_touch|done]. }
  assert (Ho : out p = out s /\ dirty p = dirty s /\ log p = log (if e_lookup e then purge cf d k s else s))
    by (rewrite Hp; cbn; destruct (e_lookup e); rewrite ?field_purge_out, ?field_purge_dirty; done).
  destruct Ho as (Ho & Hd & Hl). split.
  - rewrite Hg. destruct e as [lk [c|] r a]; cbn in *; [by rewrite get_put|]. rewrite Hp. destruct lk; [|done]. by rewrite <- (get_purge cf).
  - intros d' k' Hne. rewrite Hg. destruct (e_write e); [rewrite get_put_ne by done|]; rewrite Hp; destruct (e_lookup e); try done; by apply (get_purge_ne cf d k s).
  - unfold apply. fold p. destruct (e_write e); cbn; by rewrite ?field_touch_out, <- Ho.
  - done.
  - unfold apply. fold p. destruct e as [lk [c|] r a]; cbn in *; [by rewrite Hd|lia].
  - unfold apply. fold p. destruct (e_write e); cbn; by rewrite ?field_touch_log, <- Hl.
Qed.

(** C4: every command on one key (GET, GETEX, GETDEL, SET with all its options, SETNX,
    SETEX, PSETEX, APPEND, STRLEN, SETRANGE, GETRANGE, INCR, DECR, INCRBY, DECRBY,
    GETSET, the EXPIRE family, TTL, PTTL, PERSIST) does to its key, whatever the encoding
    of the value, exactly what the specification of the command says of the string and
    the expire time, and to no other; it gives the specified replies, leaves the
    arguments to be propagated in the specified form, counts a change exactly when it
    made one, keeps the keyspace well formed and marks the clients that watch the key if
    it changed.  No assertion fails; the only case without a result is the allocation of
    a string that the allocator cannot hold. *)
Theorem single_key_correct cf cmd arity readonly c s x :
  config_ok cf -> running s -> request cmd arity readonly c s ->
  spec1 cf cmd (argv s) (readings cf s) (loading s || masterhost s) (c_master c) (abs (readable c (nth 1 (argv s) []) s)) = Some x ->
  match x with
  | Some x => exists s', proc cf cmd c s = Some (s', tt) /\ performed cf (c_db c) (nth 1 (argv s) []) x s s' /\ evolves s s'
  | None => proc cf cmd c s = None
  end.
Proof.
  intros Hcf Hrun Hreq Hspec. pose proof (single_key_ok cf cmd arity readonly c s x Hcf Hrun Hreq Hspec) as H.
  destruct x as [x|]; [|exact H]. destruct H as (e & n & Hm & <- & Hok). eexists. split; [exact Hm|].
  split; [apply performed_apply|apply evolves_apply; [done|]]. intros Ha. by apply spec1_argv in Hspec.
Qed.

(** C17: a well-formed keyspace stays so.  Any command of the table with the right number
    of arguments (the commands on several keys, MGET, MSET, MSETNX, DEL, UNLINK, EXISTS,
    TOUCH, RENAME and RENAMENX, included) fails no assertion and, unless it needs a
    string the allocator cannot hold, gives a state in which every key with an expire
    time exists, integers are in range and strings fit; the role and the time of the
    server are what they were, clients are only marked, and all those that watch a
    modified key are. *)
Theorem commands_type_safe cf cmd arity readonly c s :
  config_ok cf -> running s -> request cmd arity readonly c s ->
  (exists s', proc cf cmd c s = Some (s', tt) /\ running s' /\ evolves s s') \/
  (spec1 cf cmd (argv s) (readings cf s) (loading s || masterhost s) (c_master c) (abs (readable c (nth 1 (argv s) []) s)) = Some None /\
   cmd ∈ [Append; Setrange] /\ proc cf cmd c s = None).
Proof.
  intros Hcf Hrun Hreq. destruct (command_evolves cf cmd arity readonly c s Hcf Hrun Hreq) as [(s' & H & He)|[Hs H]]; [left|right].
  - exists s'. split; [done|]. split; [by apply (running_evolves s)|done].
  - split; [done|]. split; [|done]. destruct cmd; cbn [spec1] in Hs; try discriminate Hs; set_solver.
Qed.

(** DECRBY by the least integer does the opposite of what it should: its opposite
    does not fit, and negating it gives it back.  A value that is not negative is
    decreased by 2^63 instead of the command being refused, and a negative value, to
    which 2^63 could be added, is refused. *)
Theorem decrby_min_decrements cf c s k v ttl o :
  config_ok cf -> running s -> argv s = [bytes_of_string "decrby"; k; sdec (- 2 ^ 63)] -> blen k < 2 ^ 63 -> c_readonly c = false ->
  live (c_db c) k s = Some (Str o, ttl) -> as_int (obj_string o) = Some v ->
  exists s', decrbyCommand cf c s = Some (s', tt) /\
    if 0 <=? v
    then abs (get_cell (c_db c) k s') = Some (AStr (sdec (v - 2 ^ 63)), ttl) /\ out s' = out s ++ [RInt (v - 2 ^ 63)]
    else abs (get_cell (c_db c) k s') = abs (Some (Str o, ttl)) /\ out s' = out s ++ [RErr WouldOverflow].
Proof.
  intros Hcf Hrun Ha Hk Hro Hl Hv. pose proof (proj1 (proj1 (as_int_spec _ _) Hv)) as Hr.
  assert (Hreq : request Decrby 3 false c s).
  { split; [exists "decrby"%string; by apply (bool_decide_unpack _)|]. rewrite Ha. split; [done|]. split; [done|]. repeat (apply Forall_cons; split); done. }
  assert (Hi : as_int (sdec (- 2 ^ 63)) = Some (- 2 ^ 63)) by (apply as_int_spec; split; [split; vm_compute; (discriminate || reflexivity)|done]).
  destruct (single_key_ok cf Decrby 3 false c s _ Hcf Hrun Hreq eq_refl) as (e & n & Hm & He & _).
  exists (apply cf (c_db c) (nth 1 (argv s) []) e (set_ticks n s)). split; [exact Hm|].
  destruct (performed_apply cf (c_db c) (nth 1 (argv s) []) e s n) as [Hc _ Ho _ _ _]. rewrite He in Hc, Ho. rewrite Ha in *. cbn [nth] in *.
  rewrite readable_live, Hl in Hc, Ho by done. unfold decrby_spec in Hc, Ho. rewrite Hi in Hc, Ho. change (s64 (- - 2 ^ 63)) with (- 2 ^ 63) in *.
  unfold incr_spec in Hc, Ho. cbn [abs is_object fmap option_fmap option_map prod_map abs_value fst snd] in Hc, Ho. rewrite Hv in Hc, Ho.
  unfold in_range in Hc, Ho. unfold is_s in Hr. change (2 ^ (64 - 1)) with (2 ^ 63) in Hr.
  destruct (Z.leb_spec 0 v).
  - rewrite (proj2 (Z.leb_le (- 2 ^ 63) _)), (proj2 (Z.ltb_lt _ (2 ^ 63))) in Hc, Ho by lia.
    cbn [andb e_write e_reply ttl_of mbind option_bind snd] in Hc, Ho. split; [exact Hc|exact Ho].
  - rewrite (proj2 (Z.leb_gt (- 2 ^ 63) _)) in Hc, Ho by lia. cbn [andb answer e_write e_reply e_lookup] in Hc, Ho.
    split; [exact Hc|exact Ho].
Qed.

Lemma content_short c : cell_ok c -> blen (content (abs c)) < 2 ^ 63.
Proof. destruct c as [[[o|t b] e]|]; cbn [abs fmap option_fmap option_map prod_map abs_value content fst]; [by intros []|intros _; unfold blen; cbn [length]; lia..]. Qed.

Lemma live_is_ok d k s : wf s -> cell_ok (live d k s).
Proof. intros Hw. unfold live. destruct (key_expired d k s && negb (masterhost s)); [done|by apply cell_is_ok]. Qed.

(** C38: the length SETRANGE checks is that of the result as a signed integer.  An offset
    near the greatest integer makes it negative, so that the check passes and the
    process stops for lack of memory instead of refusing the command. *)
Theorem setrange_overflow_stops cf c s k off v :
  config_ok cf -> running s -> argv s = [bytes_of_string "setrange"; k; sdec off; v] -> Forall (fun x => blen x < 2 ^ 63) [k; v] ->
  c_readonly c = false -> 0 <= proto_max_bulk_len cf -> 0 <= off < 2 ^ 63 -> 2 ^ 63 <= off + blen v ->
  is_object (abs (live (c_db c) k s)) = false ->
  setrangeCommand cf c s = None.
Proof.
  intros Hcf Hrun Ha Hlen Hro Hmax Hoff Hsum Hobj. assert (Hr : is_s 64 off) by (unfold is_s; change (2 ^ (64 - 1)) with (2 ^ 63); lia).
  apply Forall_cons_1 in Hlen as [Hk [Hv _]%Forall_cons_1].
  assert (Hreq : request Setrange 4 false c s).
  { split; [exists "setrange"%string; by apply (bool_decide_unpack _)|]. rewrite Ha. split; [done|]. split; [done|].
    repeat (apply Forall_cons; split); try done. pose proof (sdec_length_bound off Hr). lia. }
  pose proof (single_key_ok cf Setrange 4 false c s _ Hcf Hrun Hreq eq_refl) as H.
  rewrite Ha in H. cbn [nth] in H. rewrite readable_live in H by done. unfold setrange_spec in H.
  rewrite (proj2 (as_int_spec (sdec off) off) (conj Hr eq_refl)) in H. rewrite (proj2 (Z.ltb_ge off 0)), Hobj in H by lia.
  rewrite bool_decide_false in H by (intros ->; unfold blen in Hsum; cbn in Hsum; lia).
  assert (Hneg : s64 (off + blen v) < 0) by (unfold wraps; change (2 ^ (64 - 1)) with (2 ^ 63); rewrite <- (Z.mod_unique _ (2 ^ 64) 1 (off + blen v - 2 ^ 63)); lia).
  rewrite (proj2 (Z.ltb_ge _ (s64 _))), andb_false_r in H by lia.
  assert (Hlive : blen (content (abs (live (c_db c) k s))) < 2 ^ 63) by (apply content_short, live_is_ok, Hrun).
  rewrite (proj2 (Z.ltb_lt _ (off + _))) in H by lia.
  assert (Hh : can_hold cf (off + blen v) = false) by (destruct (can_hold cf (off + blen v)) eqn:E; [|done]; apply Hcf in E; lia).
  rewrite Hh in H. exact H.
Qed.

(** A master with one database of two keys, the second already expired. *)
Definition demo_config : config := mk_config demo_env 16 false (2 ^ 29) false false false (fun _ => 1000) (fun n => n <? 2 ^ 40) (fun _ _ => false).

Definition demo_key : bytes := bytes_of_string "key".

Definition demo_keyspace : redisDb :=
  mk_db {[ demo_key := Str (Int false 7); bytes_of_string "old" := Obj OBJ_SET [] ]} {[ bytes_of_string "old" := 10 ]} {[ demo_key := [1] ]}.

Definition demo_clients : gmap Z client := {[ 1 := mk_client 0 false true false false [] [(0, demo_key)] ]}.

Definition demo_state (a : list bytes) : server :=
  mk_server {[ 0 := demo_keyspace ]} demo_clients false false false false 0 1000 1 0 false false [] a [].

Lemma demo_config_ok : config_ok demo_config.
Proof. split; [intros n; vm_compute; split; (discriminate || reflexivity)|]. intros n Hn. apply Z.ltb_lt in Hn. lia. Qed.

Lemma demo_running a : running (demo_state a).
Proof.
  split; [|by split]. intros d. unfold db_at. cbn [dbs demo_state]. destruct (decide (d = 0)) as [->|Hd].
  - rewrite lookup_singleton_eq. split; cbn [default from_option id demo_keyspace dict expires].
    + intros k Hk. apply lookup_singleton_is_Some in Hk as <-. eexists. by vm_compute.
    + intros k v Hk. apply lookup_insert_Some in Hk as [[_ <-]|[_ Hk]].
      * by vm_compute.
      * apply lookup_singleton_Some in Hk as [_ <-]. done.
  - rewrite lookup_singleton_ne by done. split; [intros k []%is_Some_None|done].
Qed.

Definition demo_caller : caller := mk_caller 0 false false.

Lemma single_key_correct_witness :
  exists s', proc demo_config Incrby demo_caller (demo_state [bytes_of_string "INCRBY"; demo_key; bytes_of_string "35"]) = Some (s', tt) /\
    abs (get_cell 0 demo_key s') = Some (AStr (bytes_of_string "42"), None) /\ out s' = [RInt 42] /\ dirty s' = 1.
Proof.
  set (s := demo_state _).
  assert (Hreq : request Incrby 3 false demo_caller s).
  { split; [exists "incrby"%string; by apply (bool_decide_unpack _)|]. split; [done|]. split; [done|]. repeat (apply Forall_cons; split); done. }
  destruct (single_key_correct demo_config Incrby 3 false demo_caller s _ demo_config_ok (demo_running _) Hreq eq_refl) as (s' & H & [Hc _ Ho _ Hd _] & _).
  exists s'. split; [exact H|]. split; [etransitivity; [exact Hc|vm_compute; reflexivity]|].
  split; [etransitivity; [exact Ho|vm_compute; reflexivity]|]. etransitivity; [exact Hd|vm_compute; reflexivity].
Defined.

Lemma commands_type_safe_witness :
  exists s', proc demo_config Rename demo_caller (demo_state [bytes_of_string "rename"; demo_key; bytes_of_string "old"]) = Some (s', tt) /\ running s'.
Proof.
  set (s := demo_state _).
  assert (Hreq : request Rename 3 false demo_caller s).
  { split; [exists "rename"%string; by apply (bool_decide_unpack _)|]. split; [done|]. split; [done|]. repeat (apply Forall_cons; split); done. }
  destruct (commands_type_safe demo_config Rename 3 false demo_caller s demo_config_ok (demo_running _) Hreq) as [(s' & H & Hr & _)|(H & _)]; [|discriminate H].
  by exists s'.
Defined.

Lemma decrby_min_decrements_witness :
  exists s', decrbyCommand demo_config demo_caller (demo_state [bytes_of_string "decrby"; demo_key; sdec (- 2 ^ 63)]) = Some (s', tt) /\
    out s' = [RInt (7 - 2 ^ 63)].
Proof.
  destruct (decrby_min_decrements demo_config demo_caller (demo_state [bytes_of_string "decrby"; demo_key; sdec (- 2 ^ 63)]) demo_key 7 None (Int false 7)
    demo_config_ok (demo_running _) eq_refl eq_refl eq_refl eq_refl eq_refl) as (s' & H & _ & Ho).
  exists s'. split; [exact H|]. rewrite Ho. reflexivity.
Defined.

Lemma setrange_overflow_stops_witness :
  setrangeCommand demo_config demo_caller (demo_state [bytes_of_string "setrange"; demo_key; sdec (2 ^ 63 - 1); [120]]) = None.
Proof.
  apply (setrange_overflow_stops demo_config demo_caller (demo_state [bytes_of_string "setrange"; demo_key; sdec (2 ^ 63 - 1); [120]]) demo_key (2 ^ 63 - 1) [120]
    demo_config_ok (demo_running _) eq_refl); [repeat (apply Forall_cons; split); done|done|done|lia|vm_compute; discriminate|reflexivity].
Defined.

End Commands.
