(* ===== verification/Multi.v ===== *)
(** * Executing requests: transactions ([multi.c]) and the admission of commands ([server.c])

    The clients with their transactions and watched keys, the execution of a command with
    its propagation, MULTI, EXEC, DISCARD, WATCH and UNWATCH, and the checks a request
    passes before it is executed or queued.  Access control lists, scripts, MONITOR and
    eviction are outside the model: their verdicts are given. *)

From Stdlib Require Import ZArith Lia.
From stdpp Require Import base option list numbers strings gmap.
From S2P Require Import Prelude Util Rdb Keyspace Strings StringsSpec Commands.

#[local] Open Scope Z_scope.

Module Multi.
Import Util Rdb Keyspace Strings StringsSpec Commands.

#[local] Open Scope keyspace_scope.

(** ** Commands *)

Inductive any := Data (cmd : command) (readonly : bool) | Select | Multi_ | Exec | Discard | Watch | Unwatch.

#[export] Instance any_eq_dec : EqDecision any.
Proof. solve_decision. Defined.

Definition other_commands : list (string * any * Z) :=
  [("select", Select, 2); ("multi", Multi_, 1); ("exec", Exec, 1); ("discard", Discard, 1); ("watch", Watch, -2); ("unwatch", Unwatch, 1)]%string.

Definition lookup_any (name : bytes) : option (any * Z) :=
  match lookupCommand name with
  | Some (cmd, arity, readonly) => Some (Data cmd readonly, arity)
  | None =>
      (fun x => (snd (fst x), snd x)) <$> find (fun x => bool_decide (tolower <$> name = bytes_of_string (fst (fst x)))) other_commands
  end.

(** The flags of the table. *)
Definition CMD_WRITE (x : any) : bool := match x with Data _ readonly => negb readonly | _ => false end.
Definition CMD_READONLY (x : any) : bool := match x with Data _ readonly => readonly | _ => false end.
Definition CMD_DENYOOM (x : any) : bool :=
  match x with
  | Data (Set_ | Setnx | Setex | Psetex | Append | Setrange | Incr | Decr | Incrby | Decrby | Getset | Mset | Msetnx) _ => true
  | _ => false
  end.
Definition CMD_STALE (x : any) : bool := match x with Data _ _ => false | _ => true end.
Definition CMD_LOADING (x : any) : bool := match x with Data _ _ => false | _ => true end.

(** ** Clients *)

Definition the_client (i : Z) : M client := fun s => match clients s !! i with Some c => Some (s, c) | None => None end.

Definition update_client (i : Z) (f : client -> client) : M unit := modify (fun s => set_clients (alter f i (clients s)) s).

Definition set_transaction (multi cas exec : bool) (q : list (list bytes)) (c : client) : client :=
  mk_client (db c) (CLIENT_MASTER c) multi cas exec q (c_watched c).

Definition set_watched (w : list (Z * bytes)) (c : client) : client :=
  mk_client (db c) (CLIENT_MASTER c) (CLIENT_MULTI c) (CLIENT_DIRTY_CAS c) (CLIENT_DIRTY_EXEC c) (mstate c) w.

Definition set_client_db (d : Z) (c : client) : client :=
  mk_client d (CLIENT_MASTER c) (CLIENT_MULTI c) (CLIENT_DIRTY_CAS c) (CLIENT_DIRTY_EXEC c) (mstate c) (c_watched c).

Definition rewatch (d : Z) (f : gmap bytes (list Z) -> gmap bytes (list Z)) (s : server) : server :=
  let x := db_at s d in set_db d (mk_db (dict x) (expires x) (f (watched_keys x))) s.

Definition set_watchers (d : Z) (f : gmap bytes (list Z) -> gmap bytes (list Z)) : M unit := modify (rewatch d f).

Section Transactions.

Context (cf : config).

(** ** WATCH *)

Definition watchForKey (i : Z) (key : bytes) : M unit :=
  let* c := the_client i in
  if bool_decide ((db c, key) ∈ c_watched c) then mret tt else
  let* l := gets (fun s => watched_keys (db_at s (db c)) !! key) in
  run set_watchers (db c) (<[key := default [] l ++ [i]]>) in
  update_client i (set_watched (c_watched c ++ [(db c, key)])).

Fixpoint watch_loop (i : Z) (keys : list bytes) : M unit :=
  match keys with
  | [] => mret tt
  | key :: keys => run watchForKey i key in watch_loop i keys
  end.

Definition watchCommand (i : Z) : M unit :=
  let* c := the_client i in
  if CLIENT_MULTI c then addReply (RErr WatchInMulti) else
  let* a := gets argv in
  run watch_loop i (drop 1 a) in
  addReply ROk.

(** [listDelNode(clients,listSearchKey(clients,c))] *)
Fixpoint remove_client (i : Z) (l : list Z) : option (list Z) :=
  match l with
  | [] => None
  | j :: l => if i =? j then Some l else cons j <$> remove_client i l
  end.

(** The client is removed from the lists of the keys. *)
Fixpoint unwatch_loop (i : Z) (l : list (Z * bytes)) : M unit :=
  match l with
  | [] => mret tt
  | (d, key) :: l =>
      let* w := gets (fun s => watched_keys (db_at s d) !! key) in
      match w ≫= remove_client i with
      | None => fun _ => None
      | Some [] => run set_watchers d (delete key) in unwatch_loop i l
      | Some w => run set_watchers d (<[key := w]>) in unwatch_loop i l
      end
  end.

Definition unwatchAllKeys (i : Z) : M unit :=
  let* c := the_client i in
  run unwatch_loop i (c_watched c) in
  update_client i (set_watched []).

Definition unwatchCommand (i : Z) : M unit :=
  run unwatchAllKeys i in
  run update_client i (set_dirty_cas false) in
  addReply ROk.

Fixpoint watched_expired (l : list (Z * bytes)) : M bool :=
  match l with
  | [] => mret false
  | (d, key) :: l => let* e := keyIsExpired cf d key in if e then mret true else watched_expired l
  end.

Definition isWatchedKeyExpired (i : Z) : M bool := let* c := the_client i in watched_expired (c_watched c).

(** ** MULTI *)

Definition queueMultiCommand (i : Z) : M unit :=
  let* c := the_client i in
  if CLIENT_DIRTY_EXEC c then mret tt else
  let* a := gets argv in
  update_client i (fun c => set_transaction (CLIENT_MULTI c) (CLIENT_DIRTY_CAS c) (CLIENT_DIRTY_EXEC c) (mstate c ++ [a]) c).

Definition discardTransaction (i : Z) : M unit :=
  run update_client i (set_transaction false false false []) in
  unwatchAllKeys i.

Definition flagTransaction (i : Z) : M unit :=
  let* c := the_client i in
  if CLIENT_MULTI c then update_client i (fun c => set_transaction (CLIENT_MULTI c) (CLIENT_DIRTY_CAS c) true (mstate c) c) else mret tt.

Definition multiCommand (i : Z) : M unit :=
  let* c := the_client i in
  if CLIENT_MULTI c then addReply (RErr NestedMulti) else
  run update_client i (fun c => set_transaction true (CLIENT_DIRTY_CAS c) (CLIENT_DIRTY_EXEC c) (mstate c) c) in
  addReply ROk.

Definition discardCommand (i : Z) : M unit :=
  let* c := the_client i in
  if negb (CLIENT_MULTI c) then addReply (RErr WithoutMulti) else
  run discardTransaction i in
  addReply ROk.

Definition selectCommand (i : Z) : M unit :=
  let* a := arg 1 in
  let* v := getLongLongFromObjectOrReply (Some (arg_object a)) in
  match v with
  | None => mret tt
  | Some id =>
      if (id <? INT32_MIN) || (INT32_MAX <? id) then addReply (RErr OutOfRange) else
      if cluster_enabled cf && negb (id =? 0) then addReply (RErr ClusterMode) else
      if (id <? 0) || (dbnum cf <=? id) then addReply (RErr DbRange) else
      run update_client i (set_client_db id) in
      addReply ROk
  end.

(** ** Execution *)

(** [call]: the handler runs with a fixed time, and the command is propagated, as the
    handler left it, when it changed the data set. *)
Definition call (i : Z) (handler : M unit) (prop : bool) : M unit :=
  let* dirty0 := gets dirty in
  let* fixed := gets fixed_time_expire in
  run (if fixed =? 0 then let* now := mstime cf in modify (set_cached now (fixed + 1))
       else modify (fun s => set_cached (mstime_cached s) (fixed + 1) s)) in
  run handler in
  let* dirty1 := gets dirty in
  run (if prop && (0 <? dirty1 - dirty0) then
         let* c := the_client i in
         let* a := gets argv in
         propagate (db c) a
       else mret tt) in
  modify (fun s =>
    let s := if in_exec s then s else set_pause_in_transaction false s in
    set_cached (mstime_cached s) (fixed_time_expire s - 1) s).

(** The handlers; EXEC, which runs other commands, is apart, and is never queued. *)
Definition simple_proc (i : Z) (x : any) : M unit :=
  match x with
  | Data cmd readonly => let* c := the_client i in proc cf cmd (mk_caller (db c) (CLIENT_MASTER c) readonly)
  | Select => selectCommand i
  | Multi_ => multiCommand i
  | Discard => discardCommand i
  | Watch => watchCommand i
  | Unwatch => unwatchCommand i
  | Exec => fun _ => None
  end.

Fixpoint exec_loop (i : Z) (q : list (list bytes)) : M unit :=
  match q with
  | [] => mret tt
  | a :: q =>
      match lookup_any (hd [] a) with
      | None => fun _ => None
      | Some (x, _) =>
          run modify (set_argv a) in
          let* l := gets loading in
          run (if exec_denied cf i a then addReply (RErr NoPerm) else call i (simple_proc i x) (negb l)) in
          exec_loop i q
      end
  end.

(** What follows the last command. *)
Definition exec_done : M unit :=
  run (let* p := gets propagate_in_transaction in
       if p then run add_dirty 1 in afterPropagateExec else mret tt) in
  modify (set_in_exec false).

Definition execCommand (i : Z) : M unit :=
  let* c := the_client i in
  if negb (CLIENT_MULTI c) then addReply (RErr WithoutMulti) else
  let* e := isWatchedKeyExpired i in
  run (if e then update_client i (set_dirty_cas true) else mret tt) in
  let* c := the_client i in
  if CLIENT_DIRTY_CAS c || CLIENT_DIRTY_EXEC c then
    run addReply (if CLIENT_DIRTY_EXEC c then RErr ExecAbort else RNullArray) in
    discardTransaction i
  else
    run unwatchAllKeys i in
    run modify (set_in_exec true) in
    let* orig_argv := gets argv in
    run addReply (RArray (Z.of_nat (length (mstate c)))) in
    run exec_loop i (mstate c) in
    run modify (set_argv orig_argv) in
    run discardTransaction i in
    exec_done.

Definition any_proc (i : Z) (x : any) : M unit := match x with Exec => execCommand i | _ => simple_proc i x end.

(** ** Admission *)

(** What the checks depend on besides the model: authentication and permissions, the
    verdict of the cluster, memory, persistence and replication. *)
Record circumstances := mk_circumstances {
  auth_required : bool;
  acl_denied : bool;
  redirected : bool;
  out_of_memory : bool;
  disk_error : bool;
  few_replicas : bool;
  repl_slave_ro : bool;
  pubsub_resp2 : bool;
  master_link_stale : bool;
  lua_timedout : bool;
  from_replica : bool;
  pause_all : bool;
}.

(** Whether the command, or one of those EXEC is going to run, has the flag. *)
Definition has_flag (f : any -> bool) (x : any) (q : list (list bytes)) : bool :=
  f x || (bool_decide (x = Exec) && existsb (fun a => match lookup_any (hd [] a) with Some (y, _) => f y | None => false end) q).

(** The checks that come after the redirection of the cluster: the error a command is
    rejected with, or nothing when it is admitted. *)
Definition rejection (k : circumstances) (s : server) (c : client) (x : any) : option error :=
  let has f := has_flag f x (mstate c) in
  let lacks f := has_flag (fun y => negb (f y)) x (mstate c) in
  let queueing := CLIENT_MULTI c && negb (bool_decide (x ∈ [Exec; Discard])) in
  if out_of_memory k && (has CMD_DENYOOM || queueing) then Some Oom else
  if disk_error k && negb (masterhost s) && has CMD_WRITE then Some MisConf else
  if negb (masterhost s) && has CMD_WRITE && few_replicas k then Some NoReplicas else
  if masterhost s && repl_slave_ro k && negb (CLIENT_MASTER c) && has CMD_WRITE then Some ReadOnly else
  if pubsub_resp2 k then Some PubsubContext else
  if masterhost s && master_link_stale k && lacks CMD_STALE then Some MasterDown else
  if loading s && lacks CMD_LOADING then Some Loading else
  if lua_timedout k && negb (bool_decide (x ∈ [Multi_; Discard; Watch; Unwatch])) then Some BusyScript else
  if from_replica k && (has CMD_WRITE || has CMD_READONLY) then Some ReplicaClient else
  None.

Definition rejectCommand (i : Z) (x : option any) (e : error) : M unit :=
  run flagTransaction i in
  if bool_decide (x = Some Exec) then run discardTransaction i in addReply (RErr e)
  else addReply (RErr e).

(** The errors found before the redirection. *)
Definition early_rejection (k : circumstances) (arity : Z) (a : list bytes) : option error :=
  if wrong_arity arity (Z.of_nat (length a)) then Some WrongArgs else
  if auth_required k then Some NoAuth else
  if acl_denied k then Some NoPerm else None.

(** The commands with keys, and EXEC, are given to the cluster. *)
Definition has_keys (x : any) : bool := match x with Data _ _ | Exec | Watch => true | _ => false end.

Definition queued (c : client) (x : any) : bool := CLIENT_MULTI c && negb (bool_decide (x ∈ [Exec; Discard; Multi_; Watch])).

(** Whether the command was processed, or the client is blocked until a pause ends. *)
Inductive outcome := Processed | Blocked.

(** A command that passed the early checks. *)
Definition process_known (k : circumstances) (i : Z) (x : any) : M outcome :=
  let* c := the_client i in
  if redirected k && negb (CLIENT_MASTER c) && has_keys x then
    run (if bool_decide (x = Exec) then discardTransaction i else flagTransaction i) in
    run addReply (RErr Redirect) in
    mret Processed
  else
  let* s := gets id in
  match rejection k s c x with
  | Some e => run rejectCommand i (Some x) e in mret Processed
  | None =>
      if negb (from_replica k) && paused s && (pause_all k || has_flag CMD_WRITE x (mstate c)) then mret Blocked else
      run (if queued c x then run queueMultiCommand i in addReply RQueued else call i (any_proc i x) true) in
      mret Processed
  end.

(** No other command is being executed, unless a script is. *)
Definition not_nested (k : circumstances) : M unit :=
  if lua_timedout k then mret tt else
  let* s := gets id in
  run assert (negb (propagate_in_transaction s)) in
  assert (negb (in_exec s)).

Definition processCommand (k : circumstances) (i : Z) (a : list bytes) : M outcome :=
  run not_nested k in
  run modify (set_argv a) in
  match lookup_any (hd [] a) with
  | None => run rejectCommand i None UnknownCommand in mret Processed
  | Some (x, arity) =>
      match early_rejection k arity a with
      | Some e => run rejectCommand i (Some x) e in mret Processed
      | None => process_known k i x
      end
  end.

End Transactions.

(** ** The invariant *)

Definition short (a : list bytes) : Prop := Forall (fun x => blen x < 2 ^ 63) a.

(** What a transaction may contain. *)
Definition queueable (a : list bytes) : Prop :=
  exists x arity, lookup_any (hd [] a) = Some (x, arity) /\ wrong_arity arity (Z.of_nat (length a)) = false /\
    x ∉ [Exec; Discard; Multi_; Watch] /\ short a.

Definition watchers (s : server) (d : Z) (k : bytes) : list Z := default [] (watched_keys (db_at s d) !! k).

(** The lists of watched keys of the clients and those of the databases agree, and the
    queued commands can be executed. *)
Record clients_ok (s : server) : Prop := mk_clients_ok {
  co_watched : forall d k i, i ∈ watchers s d k <-> exists c, clients s !! i = Some c /\ (d, k) ∈ c_watched c;
  co_keys : forall i c, clients s !! i = Some c -> NoDup (c_watched c);
  co_clients : forall d k, NoDup (watchers s d k);
  co_queue : forall i c, clients s !! i = Some c -> Forall queueable (mstate c);
}.

(** What the client [j] relies on: its watched keys stay watched and its mark stays, and it
    is marked if one of these keys is modified. *)
Definition respects (j : Z) (s s' : server) : Prop :=
  forall c, clients s !! j = Some c -> exists c', clients s' !! j = Some c' /\
    (CLIENT_DIRTY_CAS c = true -> CLIENT_DIRTY_CAS c' = true) /\
    forall d k, (d, k) ∈ c_watched c -> (d, k) ∈ c_watched c' /\ (get_cell d k s' <> get_cell d k s -> CLIENT_DIRTY_CAS c' = true).

Lemma respects_refl j s : respects j s s.
Proof. intros c Hc. by exists c. Qed.

Lemma respects_trans j s1 s2 s3 : respects j s1 s2 -> respects j s2 s3 -> respects j s1 s3.
Proof.
  intros H1 H2 c Hc. destruct (H1 c Hc) as (c2 & Hc2 & Hd & Hw). destruct (H2 c2 Hc2) as (c3 & Hc3 & Hd' & Hw'). exists c3.
  split; [done|]. split; [auto|]. intros d k Hk. destruct (Hw d k Hk) as [Hk2 Hm]. destruct (Hw' d k Hk2) as [Hk3 Hm']. split; [done|].
  intros Hne. destruct (decide (get_cell d k s2 = get_cell d k s1)) as [E|E]; [apply Hm'; congruence|auto].
Qed.

(** The server went on from [s] to [s']: its role is the same, the invariants are kept, the
    clients are still there and those of [P] were respected. *)
Record keeps (P : Z -> Prop) (s s' : server) : Prop := mk_keeps {
  kp_role : masterhost s' = masterhost s /\ loading s' = loading s /\ paused s' = paused s;
  kp_wf : wf s -> wf s';
  kp_ok : clients_ok s -> clients_ok s';
  kp_dom : forall j, is_Some (clients s !! j) -> is_Some (clients s' !! j);
  kp_respects : clients_ok s -> forall j, P j -> respects j s s';
}.

Lemma keeps_refl P s : keeps P s s.
Proof. split; [done..|]. intros _ j _. apply respects_refl. Qed.

Lemma keeps_trans P s1 s2 s3 : keeps P s1 s2 -> keeps P s2 s3 -> keeps P s1 s3.
Proof.
  intros [(R1 & R2 & R3) W1 O1 D1 K1] [(R1' & R2' & R3') W2 O2 D2 K2]. split; [split_and!; congruence|auto..|].
  intros Ho j Hj. eapply respects_trans; auto.
Qed.

Lemma keeps_weaken (P Q : Z -> Prop) s s' : (forall j, Q j -> P j) -> keeps P s s' -> keeps Q s s'.
Proof. intros H [R W O D K]. split; auto. Qed.

(** The databases and the clients stay as they are. *)
Lemma keeps_same P s s' :
  masterhost s' = masterhost s -> loading s' = loading s -> paused s' = paused s -> dbs s' = dbs s -> clients s' = clients s -> keeps P s s'.
Proof.
  intros Hm Hl Hp Hd Hc. split; [done|by apply wf_same| |by rewrite Hc|].
  - intros [H1 H2 H3 H4]. split; unfold watchers, db_at in *; rewrite ?Hd, ?Hc; auto.
  - intros _ j _ c Hj. exists c. rewrite Hc. split; [done|]. split; [done|]. intros d k Hk. split; [done|].
    intros Hne. exfalso. apply Hne. unfold get_cell, db_at. by rewrite Hd.
Qed.

Lemma keeps_evolves P s s' : evolves s s' -> keeps P s s'.
Proof.
  intros [R W Hw Hc Hm _].
  assert (Hback : forall i c', clients s' !! i = Some c' -> exists c, clients s !! i = Some c /\ (c' = c \/ c' = set_dirty_cas true c)).
  { intros i c' Hi. destruct (Hc i) as [E|E]; rewrite Hi in E; [by exists c'; auto|]. destruct (clients s !! i) as [c|]; [|done]. injection E as ->. eauto. }
  assert (Hwt : forall d k, watchers s' d k = watchers s d k) by (intros; unfold watchers; by rewrite Hw).
  split; [split_and!; apply R|done| | |].
  - intros [H1 H2 H3 H4]. split.
    + intros d k i. rewrite Hwt, H1. split; intros (c & Hi & Hk).
      * destruct (Hc i) as [E|E]; rewrite Hi in E; eauto.
      * destruct (Hback i c Hi) as (c0 & Hi0 & [->| ->]); eauto.
    + intros i c Hi. destruct (Hback i c Hi) as (c0 & Hi0 & [->| ->]); [by eauto|]. apply (H2 i c0 Hi0).
    + intros d k. rewrite Hwt. apply H3.
    + intros i c Hi. destruct (Hback i c Hi) as (c0 & Hi0 & [->| ->]); [by eauto|]. apply (H4 i c0 Hi0).
  - intros j [c Hj]. destruct (Hc j) as [->| ->]; rewrite Hj; by eexists.
  - intros [H1 _ _ _] j _ c Hj.
    assert (Hk : forall d k, (d, k) ∈ c_watched c -> get_cell d k s' <> get_cell d k s -> clients s' !! j = set_dirty_cas true <$> clients s !! j).
    { intros d k Hk Hne. assert (Hin : j ∈ watchers s d k) by (apply H1; eauto). unfold watchers in Hin.
      destruct (watched_keys (db_at s d) !! k) as [l|] eqn:El; [|by apply elem_of_nil in Hin]. by apply (Hm d k l j). }
    destruct (Hc j) as [E|E]; rewrite Hj in E; (eexists; split; [exact E|]; split; [done|]); intros d k Hdk; (split; [done|]); intros Hne; [|done].
    pose proof (Hk d k Hdk Hne) as E'. rewrite Hj, E in E'. by injection E' as ->.
Qed.

(** *** Clients and watched keys *)

(** Only the clients and the lists of those that watch keys differ. *)
Definition quiet (s s' : server) : Prop :=
  (exists m cl, s' = set_clients cl (set_dbs m s)) /\
  forall d, dict (db_at s' d) = dict (db_at s d) /\ expires (db_at s' d) = expires (db_at s d).

Lemma quiet_refl s : quiet s s.
Proof. split; [|done]. exists (dbs s), (clients s). by destruct s. Qed.

Lemma quiet_trans s1 s2 s3 : quiet s1 s2 -> quiet s2 s3 -> quiet s1 s3.
Proof.
  intros [(m & cl & ->) H1] [(m' & cl' & ->) H2]. split; [by exists m', cl'|]. intros d. destruct (H1 d), (H2 d). split; congruence.
Qed.

Lemma quiet_clients s cl : quiet s (set_clients cl s).
Proof. split; [|done]. exists (dbs s), cl. by destruct s. Qed.

Lemma quiet_rewatch s d f : quiet s (rewatch d f s).
Proof.
  split; [eexists _, (clients s); reflexivity|]. intros e. unfold rewatch. rewrite db_at_set. by case_decide; subst.
Qed.

Lemma quiet_cell s s' d k : quiet s s' -> get_cell d k s' = get_cell d k s.
Proof. intros [_ H]. unfold get_cell. by destruct (H d) as [-> ->]. Qed.

Lemma watched_rewatch d f s e : watched_keys (db_at (rewatch d f s) e) = if decide (d = e) then f (watched_keys (db_at s d)) else watched_keys (db_at s e).
Proof. unfold rewatch. rewrite db_at_set. by case_decide. Qed.

(** The clients of [P] keep what they watch and their marks. *)
Lemma keeps_quiet (P : Z -> Prop) s s' :
  quiet s s' -> (clients_ok s -> clients_ok s') ->
  (forall j c, clients s !! j = Some c -> exists c', clients s' !! j = Some c' /\
     (P j -> (CLIENT_DIRTY_CAS c = true -> CLIENT_DIRTY_CAS c' = true) /\ forall x, x ∈ c_watched c -> x ∈ c_watched c')) ->
  keeps P s s'.
Proof.
  intros Hq Hok Hc. split; [by destruct Hq as [(m & cl & ->) _]| |done| |].
  - intros Hw d. destruct Hq as [_ Hd]. destruct (Hd d) as [E1 E2]. destruct (Hw d) as [W1 W2]. split; intros k; rewrite ?E1, ?E2; [apply W1|apply W2].
  - intros j [c Hj]. destruct (Hc j c Hj) as (c' & H & _). by exists c'.
  - intros _ j Hj c Hcj. destruct (Hc j c Hcj) as (c' & Hc' & HP). destruct (HP Hj) as [Hd Hx]. exists c'. split; [done|]. split; [done|].
    intros d k Hk. split; [auto|]. intros []. by apply quiet_cell.
Qed.

Lemma keeps_client (P : Z -> Prop) i f s :
  (forall c, c_watched (f c) = c_watched c) -> (forall c, Forall queueable (mstate c) -> Forall queueable (mstate (f c))) ->
  (P i -> forall c, CLIENT_DIRTY_CAS c = true -> CLIENT_DIRTY_CAS (f c) = true) ->
  keeps P s (set_clients (alter f i (clients s)) s).
Proof.
  intros Hw Hm Hd. set (s' := set_clients _ s).
  assert (Hc : forall j, clients s' !! j = if decide (i = j) then f <$> clients s !! j else clients s !! j).
  { intros j. cbn. case_decide as E; [subst; apply lookup_alter_eq|by apply lookup_alter_ne]. }
  apply keeps_quiet; [apply quiet_clients| |].
  - intros [H1 H2 H3 H4]. split; [|intros j c|done|intros j c].
    + intros d k j. change (watchers s' d k) with (watchers s d k). rewrite H1, Hc. case_decide as E; [subst j|done].
      split; [intros (c & -> & Hk); exists (f c); by rewrite Hw|]. destruct (clients s !! i) as [c|]; intros (c' & [= <-] & Hk). exists c. by rewrite <- Hw.
    + rewrite Hc. case_decide as E; [subst j|apply H2]. destruct (clients s !! i) as [c0|] eqn:E; [|done]. intros [= <-]. rewrite Hw. by apply (H2 i).
    + rewrite Hc. case_decide as E; [subst j|apply H4]. destruct (clients s !! i) as [c0|] eqn:E; [|done]. intros [= <-]. by apply Hm, (H4 i).
  - intros j c Hj. rewrite Hc, Hj. case_decide as E; [subst j|by exists c]. exists (f c). split; [done|]. intros HP. rewrite Hw. auto.
Qed.

Lemma update_client_ok i f s : update_client i f s = Some (set_clients (alter f i (clients s)) s, tt).
Proof. done. Qed.

Lemma the_client_ok i c s : clients s !! i = Some c -> the_client i s = Some (s, c).
Proof. unfold the_client. by intros ->. Qed.

Lemma filter_absent (i : Z) (l : list Z) : i ∉ l -> filter (fun j => j <> i) l = l.
Proof.
  induction l as [|j l IH]; intros Hi; [done|]. apply not_elem_of_cons in Hi as [Hne Hi]. rewrite filter_cons, decide_True by congruence. by rewrite IH.
Qed.

Lemma remove_client_ok (i : Z) (l : list Z) : i ∈ l -> NoDup l -> remove_client i l = Some (filter (fun j => j <> i) l).
Proof.
  induction l as [|j l IH]; intros Hi Hd; [by apply elem_of_nil in Hi|]. apply NoDup_cons in Hd as [Hj Hd]. cbn [remove_client]. rewrite filter_cons.
  destruct (Z.eqb_spec i j) as [->|Hne].
  - rewrite decide_False by (by intros []). by rewrite filter_absent.
  - rewrite decide_True by done. apply elem_of_cons in Hi as [->|Hi]; [done|]. by rewrite IH.
Qed.

Lemma watchers_rewatch d f s e k : watchers (rewatch d f s) e k = default [] ((if decide (d = e) then f (watched_keys (db_at s d)) else watched_keys (db_at s e)) !! k).
Proof. unfold watchers. by rewrite watched_rewatch. Qed.

(** One key is taken from the client, which is not among those that watch it any more. *)
Lemma unwatch_one i d k s :
  i ∈ watchers s d k -> NoDup (watchers s d k) ->
  exists s', (forall l, unwatch_loop i ((d, k) :: l) s = unwatch_loop i l s') /\ quiet s s' /\ clients s' = clients s /\
    forall e k', watchers s' e k' = if decide ((e, k') = (d, k)) then filter (fun j => j <> i) (watchers s d k) else watchers s e k'.
Proof.
  intros Hi Hnd. unfold watchers in Hi, Hnd. destruct (watched_keys (db_at s d) !! k) as [w|] eqn:Ew; [|by apply elem_of_nil in Hi]. cbn [default] in Hi, Hnd.
  set (w' := filter (fun j => j <> i) w).
  assert (Hf : forall f : gmap bytes (list Z) -> gmap bytes (list Z), (forall m k', default [] (f m !! k') = if decide (k' = k) then w' else default [] (m !! k')) ->
    forall e k', watchers (rewatch d f s) e k' = if decide ((e, k') = (d, k)) then filter (fun j => j <> i) (watchers s d k) else watchers s e k').
  { intros f Hf e k'. rewrite watchers_rewatch. unfold watchers. rewrite Ew. cbn [default]. case_decide as E; [subst e|by rewrite decide_False by congruence].
    rewrite Hf. repeat case_decide; done || congruence. }
  assert (Hr : remove_client i w = Some w') by (by apply remove_client_ok).
  destruct w' as [|j l0] eqn:Ew'; [exists (rewatch d (delete k) s)|exists (rewatch d (<[k := j :: l0]>) s)];
    (split; [intros l; cbn [unwatch_loop]; unfold mbind_ at 1, gets; rewrite Ew; cbn [mbind option_bind]; by rewrite Hr|]; split; [apply quiet_rewatch|]; split; [done|]);
    apply Hf; intros m k'; (case_decide as E; [subst k'; by rewrite ?lookup_delete_eq, ?lookup_insert_eq|by rewrite ?lookup_delete_ne, ?lookup_insert_ne by congruence]).
Qed.

Lemma unwatch_loop_ok i l s :
  NoDup l -> (forall d k, (d, k) ∈ l -> i ∈ watchers s d k) -> (forall d k, NoDup (watchers s d k)) ->
  exists s', unwatch_loop i l s = Some (s', tt) /\ quiet s s' /\ clients s' = clients s /\
    forall d k, watchers s' d k = if decide ((d, k) ∈ l) then filter (fun j => j <> i) (watchers s d k) else watchers s d k.
Proof.
  revert s. induction l as [|[d k] l IH]; intros s Hl Hi Hnd.
  { exists s. split; [done|]. split; [apply quiet_refl|]. split; [done|]. intros d k. by rewrite decide_False by apply not_elem_of_nil. }
  apply NoDup_cons in Hl as [Hdk Hl]. destruct (unwatch_one i d k s) as (s1 & Hs & Hq & Hc & Hw); [by apply Hi, list_elem_of_here|done|].
  destruct (IH s1) as (s2 & Hs2 & Hq2 & Hc2 & Hw2); [done| | |].
  - intros d' k' H. rewrite Hw, decide_False by congruence. by apply Hi, list_elem_of_further.
  - intros d' k'. rewrite Hw. case_decide; [by apply NoDup_filter|done].
  - exists s2. rewrite Hs. split; [done|]. split; [by eapply quiet_trans|]. split; [congruence|]. intros d' k'. rewrite Hw2, Hw.
    destruct (decide ((d', k') = (d, k))) as [E|E]; [injection E as -> ->; rewrite decide_False by done; by rewrite decide_True by apply list_elem_of_here|].
    destruct (decide ((d', k') ∈ l)); [by rewrite decide_True by (by apply list_elem_of_further)|]. rewrite decide_False; [done|]. by intros [?|?]%elem_of_cons.
Qed.

(** All clients but [i]. *)
Definition others (i j : Z) : Prop := j <> i.

Lemma unwatchAllKeys_ok i c s :
  clients_ok s -> clients s !! i = Some c ->
  exists s', unwatchAllKeys i s = Some (s', tt) /\ quiet s s' /\ clients s' = alter (set_watched []) i (clients s) /\ clients_ok s'.
Proof.
  intros [H1 H2 H3 H4] Hc. destruct (unwatch_loop_ok i (c_watched c) s) as (s1 & Hs & Hq & Hc1 & Hw); [by apply (H2 i)|intros d k Hk; apply H1; eauto|done|].
  set (s2 := set_clients (alter (set_watched []) i (clients s1)) s1). exists s2.
  assert (Hl : forall j, clients s2 !! j = if decide (i = j) then set_watched [] <$> clients s !! j else clients s !! j).
  { intros j. cbn. rewrite Hc1. case_decide as E; [subst; apply lookup_alter_eq|by apply lookup_alter_ne]. }
  split; [unfold unwatchAllKeys; step (by apply the_client_ok); by step exact Hs|]. split; [eapply quiet_trans; [exact Hq|apply quiet_clients]|].
  split; [cbn; by rewrite Hc1|]. split.
  - intros d k j. change (watchers s2 d k) with (watchers s1 d k). rewrite Hw, Hl. destruct (decide (i = j)) as [<-|Hne].
    + split; [|intros (c' & Hc' & Hk); rewrite Hc in Hc'; injection Hc' as <-; by apply elem_of_nil in Hk].
      intros Hin. exfalso. case_decide as E; [by apply list_elem_of_filter in Hin as [? _]|]. apply H1 in Hin as (c' & Hc' & Hk). congruence.
    + rewrite <- H1. case_decide; [|done]. rewrite list_elem_of_filter. split; [by intros []|done].
  - intros j c'. rewrite Hl. case_decide; [|apply H2]. destruct (clients s !! j); [|done]. intros [= <-]. constructor.
  - intros d k. change (watchers s2 d k) with (watchers s1 d k). rewrite Hw. case_decide; [by apply NoDup_filter|done].
  - intros j c'. rewrite Hl. case_decide; [|apply H4]. destruct (clients s !! j) as [c0|] eqn:E; [|done]. intros [= <-]. by apply (H4 j c0).
Qed.

(** What a handler does to the server. *)
Definition handled (P : Z -> Prop) (s s' : server) : Prop := keeps P s s' /\ same_run s s' /\ log_grows s s' /\ dirty s <= dirty s'.

Lemma handled_refl P s : handled P s s.
Proof. split; [apply keeps_refl|]. split; [apply same_run_refl|]. split; [by apply log_grows_same|done]. Qed.

Lemma handled_trans P s1 s2 s3 : handled P s1 s2 -> handled P s2 s3 -> handled P s1 s3.
Proof.
  intros (K1 & R1 & L1 & D1) (K2 & R2 & L2 & D2). split; [by eapply keeps_trans|]. split; [by eapply same_run_trans|].
  split; [eapply log_grows_trans; [apply R1|done|done]|lia].
Qed.

Lemma handled_weaken (P Q : Z -> Prop) s s' : (forall j, Q j -> P j) -> handled P s s' -> handled Q s s'.
Proof. intros HPQ (K & R). split; [by eapply keeps_weaken|done]. Qed.

Lemma handled_evolves P s s' : evolves s s' -> handled P s s'.
Proof. intros He. split; [by apply keeps_evolves|]. split_and!; apply He. Qed.

Lemma handled_quiet P s s' : quiet s s' -> keeps P s s' -> handled P s s'.
Proof. intros [(m & cl & ->) _] Hk. split; [done|]. split; [by repeat split|]. split; [by apply log_grows_same|done]. Qed.

Lemma handled_out P s o : handled P s (set_out o s).
Proof. apply handled_evolves, evolves_same; by repeat split. Qed.

Lemma running_handled P s s' : handled P s s' -> running s -> running s'.
Proof. intros (K & R & _) Hr. eapply running_same; [exact R|apply K, Hr|done]. Qed.

(** *** WATCH *)

Definition all (j : Z) : Prop := True.

Lemma watchForKey_ok i key c s :
  clients_ok s -> clients s !! i = Some c ->
  exists s' c', watchForKey i key s = Some (s', tt) /\ quiet s s' /\ keeps all s s' /\ clients s' !! i = Some c' /\
    (db c, key) ∈ c_watched c' /\ db c' = db c /\ CLIENT_MULTI c' = CLIENT_MULTI c.
Proof.
  intros Hok Hc. unfold watchForKey. step (by apply the_client_ok). case_bool_decide as Hin.
  { exists s, c. split; [done|]. split; [apply quiet_refl|]. split; [apply keeps_refl|done]. }
  unfold mbind_, gets, set_watchers, modify, update_client. set (w := default [] _ ++ [i]). set (s1 := rewatch _ _ s). set (c' := set_watched (c_watched c ++ [(db c, key)]) c).
  set (s2 := set_clients (alter (set_watched (c_watched c ++ [(db c, key)])) i (clients s1)) s1). exists s2, c'.
  assert (Hl : forall j, clients s2 !! j = if decide (i = j) then Some c' else clients s !! j).
  { intros j. cbn. case_decide as E; [subst; by rewrite lookup_alter_eq, Hc|by apply lookup_alter_ne]. }
  assert (Hw : forall e k, watchers s2 e k = if decide ((e, k) = (db c, key)) then watchers s (db c) key ++ [i] else watchers s e k).
  { intros e k. change (watchers s2 e k) with (watchers s1 e k). unfold s1. rewrite watchers_rewatch. unfold watchers.
    case_decide as E; [subst e|by rewrite decide_False by congruence]. destruct (decide (k = key)) as [->|Hne].
    - by rewrite lookup_insert_eq, decide_True.
    - by rewrite lookup_insert_ne, decide_False by congruence. }
  assert (Hq : quiet s s2) by (eapply quiet_trans; [apply quiet_rewatch|apply quiet_clients]).
  assert (Hni : i ∉ watchers s (db c) key) by (intros (c0 & Hc0 & Hk)%(co_watched _ Hok); congruence).
  split; [done|]. split; [done|]. split; [|split; [by rewrite Hl, decide_True|]; split; [apply elem_of_app; right; by apply list_elem_of_singleton|done]].
  apply keeps_quiet; [done| |].
  - intros [H1 H2 H3 H4]. split.
    + intros e k j. rewrite Hw, Hl. destruct (decide ((e, k) = (db c, key))) as [[= -> ->]|Hne].
      * rewrite elem_of_app, list_elem_of_singleton, H1. destruct (decide (i = j)) as [<-|Hij]; [|split; [by intros [?| ->]|by left]].
        split; [|by right]. intros _. exists c'. split; [done|]. apply elem_of_app. right. by apply list_elem_of_singleton.
      * rewrite H1. destruct (decide (i = j)) as [<-|Hij]; [|done]. rewrite Hc. split; intros (c0 & [= <-] & Hk).
        -- exists c'. split; [done|]. apply elem_of_app. by left.
        -- exists c. split; [done|]. apply elem_of_app in Hk as [Hk|Hk]; [done|]. by apply list_elem_of_singleton in Hk.
    + intros j c0. rewrite Hl. case_decide; [intros [= <-]|apply H2]. apply NoDup_app. split; [by apply (H2 i)|].
      split; [intros x Hx Hx'; apply list_elem_of_singleton in Hx'; congruence|apply NoDup_singleton].
    + intros e k. rewrite Hw. case_decide; [|done]. apply NoDup_app. split; [done|]. split; [|apply NoDup_singleton].
      intros x Hx Hx'. apply list_elem_of_singleton in Hx'. congruence.
    + intros j c0. rewrite Hl. case_decide; [intros [= <-]|apply H4]. apply (H4 i c Hc).
  - intros j c0 Hj. rewrite Hl. case_decide as E; [subst j|by exists c0]. exists c'. split; [done|]. intros _. rewrite Hc in Hj. injection Hj as <-.
    split; [done|]. intros x Hx. apply elem_of_app. by left.
Qed.

Lemma watch_loop_ok i keys c s :
  clients_ok s -> clients s !! i = Some c ->
  exists s' c', watch_loop i keys s = Some (s', tt) /\ quiet s s' /\ keeps all s s' /\ clients s' !! i = Some c' /\
    Forall (fun key => (db c, key) ∈ c_watched c') keys.
Proof.
  revert c s. induction keys as [|key keys IH]; intros c s Hok Hc; cbn [watch_loop].
  { exists s, c. split; [done|]. split; [apply quiet_refl|]. split; [apply keeps_refl|]. by split. }
  destruct (watchForKey_ok i key c s Hok Hc) as (s1 & c1 & H1 & Hq1 & Hk1 & Hc1 & Hin & Hdb & _).
  destruct (IH c1 s1 (kp_ok _ _ _ Hk1 Hok) Hc1) as (s2 & c2 & H2 & Hq2 & Hk2 & Hc2 & Hall). exists s2, c2. step exact H1.
  split; [done|]. split; [by eapply quiet_trans|]. split; [by eapply keeps_trans|]. split; [done|]. rewrite Hdb in Hall. constructor; [|done].
  destruct (kp_respects _ _ _ Hk2 (kp_ok _ _ _ Hk1 Hok) i I c1 Hc1) as (c2' & Hc2' & _ & Hw). rewrite Hc2 in Hc2'. injection Hc2' as <-. by apply Hw.
Qed.

(** *** Transactions *)

Definition cleared (c : client) : client := mk_client (db c) (CLIENT_MASTER c) false false false [] [].

Lemma keeps_others i s s' :
  quiet s s' -> (clients_ok s -> clients_ok s') -> (forall j, j <> i -> clients s' !! j = clients s !! j) -> is_Some (clients s' !! i) -> keeps (others i) s s'.
Proof.
  intros Hq Hok Hc [c Hi]. apply keeps_quiet; [done..|]. intros j c0 Hj. destruct (decide (j = i)) as [->|Hne]; [|rewrite Hc by done; by exists c0].
  exists c. split; [done|]. by intros [].
Qed.

Lemma discardTransaction_ok i c s :
  clients_ok s -> clients s !! i = Some c ->
  exists s', discardTransaction i s = Some (s', tt) /\ quiet s s' /\ keeps (others i) s s' /\ clients s' !! i = Some (cleared c).
Proof.
  intros Hok Hc. set (s1 := set_clients (alter (set_transaction false false false []) i (clients s)) s).
  assert (K1 : keeps (others i) s s1) by (apply keeps_client; [done|constructor|by intros []]).
  assert (Hc1 : clients s1 !! i = Some (set_transaction false false false [] c)) by (cbn; by rewrite lookup_alter_eq, Hc).
  destruct (unwatchAllKeys_ok i _ s1 (kp_ok _ _ _ K1 Hok) Hc1) as (s2 & Hs & Hq & Hcl & Hok2). exists s2.
  assert (Hc2 : clients s2 !! i = Some (cleared c)) by (by rewrite Hcl, lookup_alter_eq, Hc1).
  split; [exact Hs|]. split; [eapply quiet_trans; [apply quiet_clients|exact Hq]|]. split; [|done].
  eapply keeps_trans; [exact K1|]. apply keeps_others; [done|done|intros j Hj; rewrite Hcl; by apply lookup_alter_ne|by eexists].
Qed.

Lemma flagTransaction_ok i c s :
  clients s !! i = Some c ->
  exists s', flagTransaction i s = Some (s', tt) /\ quiet s s' /\ keeps all s s' /\
    clients s' !! i = Some (if CLIENT_MULTI c then set_transaction (CLIENT_MULTI c) (CLIENT_DIRTY_CAS c) true (mstate c) c else c).
Proof.
  intros Hc. unfold flagTransaction. step (by apply the_client_ok). destruct (CLIENT_MULTI c) eqn:E.
  - eexists. split; [apply update_client_ok|]. split; [apply quiet_clients|]. split; [by apply keeps_client|cbn; rewrite lookup_alter_eq, Hc; cbn; by rewrite E].
  - exists s. split; [done|]. split; [apply quiet_refl|]. split; [apply keeps_refl|done].
Qed.

(** The keyspace is the same, no change is counted and nothing is propagated. *)
Definition same_data (s s' : server) : Prop :=
  (forall d k, get_cell d k s' = get_cell d k s) /\ dirty s' = dirty s /\ log s' = log s /\ propagate_in_transaction s' = propagate_in_transaction s.

Lemma quiet_data s s' : quiet s s' -> same_data s s'.
Proof. intros Hq. split; [intros d k; by apply quiet_cell|]. by destruct Hq as [(m & cl & ->) _]. Qed.

(** *** The handlers *)

(** The clients that keep what they watch when [i] runs [x]. *)
Definition kept (i : Z) (x : any) (j : Z) : Prop := j <> i \/ x ∉ [Exec; Discard; Unwatch].

(** The length of the string that APPEND and SETRANGE have to allocate, from the value
    of the key. *)
Definition needed (cmd : command) (a : list bytes) (v : acell) : option Z :=
  match cmd, v with
  | Append, Some (AStr b, _) => Some (blen b + blen (nth 2 a []))
  | Setrange, _ => off ← as_int (nth 2 a []); Some (off + blen (nth 3 a []))
  | _, _ => None
  end.

Lemma spec1_needed cf cmd a t follower cmaster v :
  spec1 cf cmd a t follower cmaster v = Some None -> exists n, needed cmd a v = Some n /\ can_hold cf n = false.
Proof.
  intros H. destruct cmd; cbn [spec1] in H; try discriminate H; injection H as H; cbn [needed].
  - unfold append_spec in H. destruct v as [[[b|] ttl]|]; try discriminate H. destruct (_ && _); [discriminate H|].
    destruct (can_hold cf _) eqn:E; [discriminate H|]. by eexists.
  - unfold setrange_spec in H. destruct (as_int _) as [off|]; [|discriminate H]. cbn [mbind option_bind].
    destruct (off <? 0); [discriminate H|]. destruct (is_object v); [discriminate H|]. case_bool_decide; [discriminate H|].
    destruct (_ && (proto_max_bulk_len cf <? _)); [discriminate H|]. destruct (_ <? _), (can_hold cf _) eqn:E; try discriminate H. by eexists.
Qed.

(** The handler of the command of the client [i] cannot allocate the string it needs. *)
Definition starved (cf : config) (i : Z) (x : any) (s : server) : Prop :=
  exists cmd readonly c n, x = Data cmd readonly /\ clients s !! i = Some c /\
    needed cmd (argv s) (abs (readable (mk_caller (db c) (CLIENT_MASTER c) readonly) (nth 1 (argv s) []) s)) = Some n /\
    can_hold cf n = false.

(** A known command, with the right number of arguments. *)
Definition known (a : list bytes) (x : any) : Prop :=
  exists arity, lookup_any (hd [] a) = Some (x, arity) /\ wrong_arity arity (Z.of_nat (length a)) = false /\ short a.

Lemma lookup_any_cases n x arity :
  lookup_any n = Some (x, arity) ->
  (exists cmd readonly, x = Data cmd readonly /\ lookupCommand n = Some (cmd, arity, readonly)) \/ (exists name, (name, x, arity) ∈ other_commands).
Proof.
  unfold lookup_any. destruct (lookupCommand n) as [[[cmd ar] ro]|]; [intros [= <- <-]; eauto|].
  destruct (find _ other_commands) as [[[name y] ar]|] eqn:E; cbn [fmap option_fmap option_map fst snd]; [|done]. intros [= -> ->].
  right. exists name. apply list_elem_of_In. by apply find_some in E as [? _].
Qed.

Lemma other_arity name x arity :
  (name, x, arity) ∈ other_commands ->
  match x with Data _ _ => False | Select => arity = 2 | Watch => arity = -2 | _ => arity = 1 end.
Proof. intros H. unfold other_commands in H. repeat (apply elem_of_cons in H as [[= -> -> ->]|H]; [done|]). by apply elem_of_nil in H. Qed.

Lemma lookup_data n cmd readonly arity :
  lookup_any n = Some (Data cmd readonly, arity) -> lookupCommand n = Some (cmd, arity, readonly) /\ exists name, (name, cmd, arity, readonly) ∈ redisCommandTable.
Proof.
  intros [(cmd' & ro & [= <- <-] & H)|(name & H)]%lookup_any_cases; [|by apply other_arity in H]. split; [done|].
  unfold lookupCommand in H. destruct (find _ redisCommandTable) as [[[[name c] a] r]|] eqn:E; [|done]. injection H as -> -> ->.
  exists name. apply list_elem_of_In. by apply find_some in E as [? _].
Qed.

Section Handlers.

Context (cf : config) (Hcf : config_ok cf).

Lemma data_ok i cmd readonly c s :
  running s -> clients_ok s -> clients s !! i = Some c -> known (argv s) (Data cmd readonly) ->
  (exists s', simple_proc cf i (Data cmd readonly) s = Some (s', tt) /\ handled all s s' /\ is_data (argv s')) \/
  (starved cf i (Data cmd readonly) s /\ simple_proc cf i (Data cmd readonly) s = None).
Proof.
  intros Hr Hok Hc (arity & Hl & Ha & Hs). set (cl := mk_caller (db c) (CLIENT_MASTER c) readonly).
  assert (Hreq : request cmd arity readonly cl s) by (split; [by eapply lookup_data|by repeat split]).
  assert (Hd : is_data (argv s)) by (apply lookup_data in Hl as [H _]; by eexists).
  cbn [simple_proc]. rewrite (mbind_ok _ _ _ _ _ (the_client_ok i c s Hc)). fold cl.
  destruct (command_evolves cf cmd arity readonly cl s Hcf Hr Hreq) as [(s' & H & He)|[Hsp H]]; [left|right].
  - exists s'. split; [done|]. split; [by apply handled_evolves|by apply He].
  - split; [|done]. apply spec1_needed in Hsp as (n & Hn & Hno). by exists cmd, readonly, c, n.
Qed.

Lemma select_ok i c s :
  clients_ok s -> clients s !! i = Some c -> known (argv s) Select ->
  exists s', selectCommand cf i s = Some (s', tt) /\ handled all s s' /\ same_data s s'.
Proof.
  intros Hok Hc (arity & Hl & Ha & _). apply lookup_any_cases in Hl as [(? & ? & [=] & _)|(name & ->%other_arity)]. unfold wrong_arity in Ha.
  assert (H1 : argv s !! 1%nat = Some (nth 1 (argv s) [])) by (apply lookup_nth; lia).
  clear Ha. unfold selectCommand. step (by apply arg_ok). step (apply getLongLong_arg). set (x := nth 1 (argv s) []).
  destruct (as_int x) as [v|]; [|eexists; split; [reflexivity|]; split; [apply handled_out|by split]].
  assert (Hans : forall r y, handled all s y -> same_data s y ->
    exists s', addReply r y = Some (s', tt) /\ handled all s s' /\ same_data s s').
  { intros r y Hy Hg. eexists. split; [reflexivity|]. split; [eapply handled_trans; [exact Hy|apply handled_out]|exact Hg]. }
  destruct (_ || _); [apply Hans; [apply handled_refl|by split]|]. destruct (_ && _); [apply Hans; [apply handled_refl|by split]|].
  destruct (_ || _); [apply Hans; [apply handled_refl|by split]|]. step (apply update_client_ok).
  apply Hans; [|by split]. apply handled_quiet; [apply quiet_clients|by apply keeps_client].
Qed.

(** The commands on transactions leave the keyspace as it is. *)
Lemma transaction_ok i x c s :
  clients_ok s -> clients s !! i = Some c -> x ∈ [Multi_; Discard; Watch; Unwatch] ->
  exists s', simple_proc cf i x s = Some (s', tt) /\ handled (kept i x) s s' /\ same_data s s'.
Proof.
  intros Hok Hc Hx.
  assert (Hans : forall P r y, quiet s y -> keeps P s y ->
    exists s', addReply r y = Some (s', tt) /\ handled P s s' /\ same_data s s').
  { intros P r y Hy Hk. eexists. split; [reflexivity|]. split; [eapply handled_trans; [by apply handled_quiet|apply handled_out]|]. exact (quiet_data s y Hy). }
  assert (Hkept : forall y, y ∈ [Discard; Unwatch] -> forall j, kept i y j -> others i j) by (intros y Hy j [Hj|Hj]; [done|set_solver]).
  repeat (apply elem_of_cons in Hx as [->|Hx]); [..|by apply elem_of_nil in Hx]; cbn [simple_proc].
  - unfold multiCommand. step (by apply the_client_ok). destruct (CLIENT_MULTI c); [apply Hans; [apply quiet_refl|apply keeps_refl]|].
    step (apply update_client_ok). apply Hans; [apply quiet_clients|by apply keeps_client].
  - unfold discardCommand. step (by apply the_client_ok). destruct (CLIENT_MULTI c); cbn [negb]; [|apply Hans; [apply quiet_refl|apply keeps_refl]].
    destruct (discardTransaction_ok i c s Hok Hc) as (s1 & H & Hq & Hk & _). step exact H. apply Hans; [done|]. eapply keeps_weaken; [|exact Hk]. apply Hkept. set_solver.
  - unfold watchCommand. step (by apply the_client_ok). destruct (CLIENT_MULTI c); [apply Hans; [apply quiet_refl|apply keeps_refl]|]. step done.
    destruct (watch_loop_ok i (drop 1 (argv s)) c s Hok Hc) as (s1 & c1 & H & Hq & Hk & _). step exact H. apply Hans; [done|]. by eapply keeps_weaken; [|exact Hk].
  - unfold unwatchCommand. destruct (unwatchAllKeys_ok i c s Hok Hc) as (s1 & H & Hq & Hcl & Hok1). step exact H. step (apply update_client_ok).
    apply Hans; [eapply quiet_trans; [exact Hq|apply quiet_clients]|]. eapply keeps_weaken; [apply Hkept; set_solver|].
    eapply keeps_trans; [|by apply keeps_client; [done|done|intros []]].
    apply keeps_others; [done|done|intros j Hj; rewrite Hcl; by apply lookup_alter_ne|rewrite Hcl, lookup_alter_eq, Hc; by eexists].
Qed.

Lemma simple_proc_ok i x c s :
  running s -> clients_ok s -> clients s !! i = Some c -> known (argv s) x -> x <> Exec ->
  (exists s', simple_proc cf i x s = Some (s', tt) /\ handled (kept i x) s s' /\ (same_data s s' \/ is_data (argv s'))) \/
  (starved cf i x s /\ simple_proc cf i x s = None).
Proof.
  intros Hr Hok Hc Hk Hx. assert (Hall : forall y j, kept i y j -> all j) by done. destruct x as [cmd ro| | | | | |].
  - destruct (data_ok i cmd ro c s Hr Hok Hc Hk) as [(s' & H & Hh & Hd)|H]; [left|by right]. exists s'. split; [done|]. split; [|by right]. by apply (handled_weaken all).
  - left. destruct (select_ok i c s Hok Hc Hk) as (s' & H & Hh & Hd). exists s'. split; [done|]. split; [|by left]. by apply (handled_weaken all).
  - left. destruct (transaction_ok i Multi_ c s Hok Hc) as (s' & H & Hh & Hd); [set_solver|]. exists s'. by split; [|split; [|left]].
  - done.
  - left. destruct (transaction_ok i Discard c s Hok Hc) as (s' & H & Hh & Hd); [set_solver|]. exists s'. by split; [|split; [|left]].
  - left. destruct (transaction_ok i Watch c s Hok Hc) as (s' & H & Hh & Hd); [set_solver|]. exists s'. by split; [|split; [|left]].
  - left. destruct (transaction_ok i Unwatch c s Hok Hc) as (s' & H & Hh & Hd); [set_solver|]. exists s'. by split; [|split; [|left]].
Qed.

(** *** Calls *)

(** The state in which the handler starts, and the one after the call when the handler,
    started at [s], ended in [s2]. *)
Definition started (s : server) : server :=
  if fixed_time_expire s =? 0 then set_cached (clock cf (ticks s)) (fixed_time_expire s + 1) (set_ticks (S (ticks s)) s)
  else set_cached (mstime_cached s) (fixed_time_expire s + 1) s.

Definition fed (prop : bool) (d : Z) (s s2 : server) : server := if prop && (0 <? dirty s2 - dirty s) then propagated d (argv s2) s2 else s2.

Definition finished (s3 : server) : server :=
  let s4 := if in_exec s3 then s3 else set_pause_in_transaction false s3 in
  set_cached (mstime_cached s4) (fixed_time_expire s4 - 1) s4.

Lemma started_begin s :
  (if fixed_time_expire s =? 0 then let* now := mstime cf in modify (set_cached now (fixed_time_expire s + 1))
   else modify (fun y => set_cached (mstime_cached y) (fixed_time_expire s + 1) y)) s = Some (started s, tt).
Proof. unfold started. by destruct (_ =? 0). Qed.

Lemma call_eq i h prop s s2 c2 :
  h (started s) = Some (s2, tt) -> paused s2 = false -> clients s2 !! i = Some c2 ->
  call cf i h prop s = Some (finished (fed prop (db c2) s s2), tt).
Proof.
  intros Hh Hp Hc. unfold call. do 2 step done. step (apply started_begin). step exact Hh. step done. unfold fed.
  destruct (prop && (0 <? dirty s2 - dirty s)).
  - step (step (by apply the_client_ok); step done; by apply propagate_ok). done.
  - step done. done.
Qed.

Lemma call_none i h prop s : h (started s) = None -> call cf i h prop s = None.
Proof.
  intros Hh. unfold call. do 2 step done. step (apply started_begin). unfold mbind_ at 1. by rewrite Hh.
Qed.

Lemma keeps_started P s : keeps P s (started s).
Proof. unfold started. destruct (_ =? 0); by apply keeps_same. Qed.

Lemma started_fields s :
  fixed_time_expire (started s) = fixed_time_expire s + 1 /\ in_exec (started s) = in_exec s /\ paused (started s) = paused s /\
  dirty (started s) = dirty s /\ argv (started s) = argv s /\ log (started s) = log s /\ clients (started s) = clients s /\
  propagate_in_transaction (started s) = propagate_in_transaction s /\ out (started s) = out s /\ dbs (started s) = dbs s.
Proof. unfold started. by destruct (_ =? 0). Qed.

Lemma keeps_finished P s : keeps P s (finished s).
Proof. unfold finished. destruct (in_exec s); by apply keeps_same. Qed.

Lemma handled_fed P prop d s s1 s2 :
  handled P s1 s2 -> dirty s1 = dirty s -> (same_data s1 s2 \/ is_data (argv s2)) -> handled P s1 (fed prop d s s2).
Proof.
  intros Hh Hd Ha. unfold fed. destruct (prop && _) eqn:E; [|done]. eapply handled_trans; [exact Hh|]. apply handled_evolves, evolves_propagated.
  destruct Ha as [[_ Ha]|Ha]; [|done]. rewrite andb_true_iff, Z.ltb_lt in E. lia.
Qed.

(** Changes are counted only if something was propagated. *)
Definition counted (s s' : server) : Prop := propagate_in_transaction s' = true \/ dirty s' = dirty s.

(** A call, from its handler; inside EXEC the time stays the same as well. *)
Lemma call_ok i h prop P s s2 :
  h (started s) = Some (s2, tt) -> handled P (started s) s2 -> paused s = false -> is_Some (clients s !! i) -> (same_data (started s) s2 \/ is_data (argv s2)) ->
  exists s', call cf i h prop s = Some (s', tt) /\ keeps P s s' /\ log_grows s s' /\ in_exec s' = in_exec s /\ dirty s <= dirty s' /\
    fixed_time_expire s' = fixed_time_expire s /\ (in_exec s = true -> fixed_time_expire s <> 0 -> same_run s s') /\
    (in_exec s = true -> prop = true -> counted s s').
Proof.
  intros Hh Hd Hp Hc Ha. destruct (started_fields s) as (F1 & F2 & F3 & F4 & F5 & F6 & F7 & F8 & _). destruct (Hd) as (K & R & _).
  assert (Hc2 : is_Some (clients s2 !! i)) by (apply (kp_dom _ _ _ K); by rewrite F7). destruct Hc2 as [c2 Hc2].
  assert (Hp2 : paused s2 = false) by (destruct (kp_role _ _ _ K) as (_ & _ & ->); congruence).
  pose proof (handled_fed P prop (db c2) s (started s) s2 Hd F4 Ha) as (K3 & R3 & L3 & D3). set (s3 := fed prop (db c2) s s2) in *.
  exists (finished s3). split; [by apply call_eq|].
  assert (Hx : in_exec s3 = in_exec s) by (destruct R3 as (_ & _ & _ & _ & _ & _ & ->); done).
  assert (Hf : fixed_time_expire s3 = fixed_time_expire s + 1) by (destruct R3 as (_ & _ & _ & _ & _ & -> & _); done).
  split; [eapply keeps_trans; [apply keeps_started|]; eapply keeps_trans; [exact K3|apply keeps_finished]|]. split; [|split; [|split; [|split; [|split]]]].
  - destruct L3 as (d & b & El & Hb & Hpit). rewrite F6, F8, F2 in *. exists d, b. unfold finished. by destruct (in_exec s3).
  - rewrite <- Hx. unfold finished. by destruct (in_exec s3) eqn:E.
  - unfold finished. rewrite F4 in D3. by destruct (in_exec s3).
  - unfold finished. destruct (in_exec s3); cbn; lia.
  - intros Ee Hne. unfold finished. rewrite Hx, Ee. destruct R3 as (R1 & R2 & R4 & R5 & R6 & _ & _). unfold started in R1, R2, R4, R5, R6.
    rewrite (proj2 (Z.eqb_neq _ 0) Hne) in *. cbn in *. repeat split; cbn; try congruence. lia.
  - intros Ee ->. unfold counted, finished. rewrite Hx, Ee. cbn. unfold s3, fed. cbn [andb].
    destruct (Z.ltb_spec 0 (dirty s2 - dirty s)); [left|right].
    + unfold propagated. cbn. by replace (in_exec s2) with true by (destruct R as (_ & _ & _ & _ & _ & _ & ->); congruence).
    + destruct Hd as (_ & _ & _ & Hd). lia.
Qed.

(** *** EXEC *)

Lemma queueable_known a : queueable a -> exists x, known a x /\ x ∉ [Exec; Discard; Multi_; Watch].
Proof. intros (x & arity & H & Ha & Hx & Hs). exists x. split; [by exists arity|done]. Qed.

Lemma running_started s : wf s -> paused s = false -> 0 <= fixed_time_expire s -> running (started s).
Proof.
  intros Hw Hp Hf. destruct (started_fields s) as (F1 & _ & F3 & _ & _ & _ & _ & _ & _ & F10). split; [by eapply wf_same|]. split; [lia|congruence].
Qed.

(** The queue stops at a command that cannot allocate its string, when those before it
    have been executed. *)
Definition loop_starved (i : Z) (q : list (list bytes)) (s : server) : Prop :=
  exists q1 a q2 s' x, q = q1 ++ a :: q2 /\ exec_loop cf i q1 s = Some (s', tt) /\ known a x /\ starved cf i x (started (set_argv a s')).

(** One command of the queue. *)
Lemma exec_one i a s :
  running s -> in_exec s = true -> clients_ok s -> is_Some (clients s !! i) -> queueable a ->
  (exists s', (forall q, exec_loop cf i (a :: q) s = exec_loop cf i q s') /\ handled (others i) s s' /\ (loading s = false -> counted s s') /\
     ((exists o, s' = set_out o (set_argv a s)) \/
      exists x, known a x /\ x ∉ [Exec; Discard; Multi_; Watch] /\ call cf i (simple_proc cf i x) (negb (loading s)) (set_argv a s) = Some (s', tt))) \/
  ((forall q, exec_loop cf i (a :: q) s = None) /\ exists x, known a x /\ starved cf i x (started (set_argv a s))).
Proof.
  intros Hr He Hok Hi (x & Hk & Hx)%queueable_known. destruct (Hk) as (arity & Hl & _). set (s1 := set_argv a s).
  assert (Hr1 : running (started s1)) by (apply running_started; [apply Hr|apply Hr|apply Z.lt_le_incl, Hr]).
  destruct (started_fields s1) as (F1 & F2 & F3 & F4 & F5 & F6 & F7 & _ & _ & _). destruct (Hi) as [c Hc].
  assert (Hok1 : clients_ok (started s1)) by (apply (kp_ok all s1); [apply keeps_started|]; apply (kp_ok all s); [by apply keeps_same|done]).
  assert (Hs1 : handled (others i) s s1) by (split; [by apply keeps_same|]; split; [by repeat split|]; split; [by apply log_grows_same|done]).
  assert (Hloop : forall q, exec_loop cf i (a :: q) s =
    (run (if exec_denied cf i a then addReply (RErr NoPerm) else call cf i (simple_proc cf i x) (negb (loading s))) in exec_loop cf i q) s1).
  { intros q. cbn [exec_loop]. rewrite Hl. step done. by step done. }
  destruct (exec_denied cf i a).
  { left. eexists. split; [intros q; rewrite Hloop; step done; reflexivity|]. split; [eapply handled_trans; [exact Hs1|apply handled_out]|]. split; [by right|left; by eexists]. }
  destruct (simple_proc_ok i x c (started s1) Hr1 Hok1) as [(s2 & H & Hh & Ha)|[Hg H]]; [by rewrite F7|by rewrite F5|set_solver|left|right].
  - destruct (call_ok i (simple_proc cf i x) (negb (loading s1)) (kept i x) s1 s2 H Hh (proj2 (proj2 Hr)) Hi Ha) as (s3 & Hcall & K & L & E & D & F & R & C).
    exists s3. split; [intros q; rewrite Hloop; by step exact Hcall|]. split; [|split; [intros Hlo; apply C; [done|cbn; by rewrite Hlo]|right; by exists x]]. eapply handled_trans; [exact Hs1|]. split; [eapply keeps_weaken; [|exact K]; by left|].
    split; [|done]. apply R; [done|]. destruct Hr as (_ & ? & _). cbn. lia.
  - split; [|by exists x]. intros q. rewrite Hloop. unfold mbind_ at 1. by rewrite (call_none i (simple_proc cf i x) _ s1 H).
Qed.

Lemma exec_loop_ok i q s :
  running s -> in_exec s = true -> clients_ok s -> is_Some (clients s !! i) -> Forall queueable q ->
  (exists s', exec_loop cf i q s = Some (s', tt) /\ handled (others i) s s' /\ (loading s = false -> counted s s')) \/
  (exec_loop cf i q s = None /\ loop_starved i q s).
Proof.
  intros Hr He Hok Hi Hq. revert s Hr He Hok Hi. induction Hq as [|a q Ha Hq IH]; intros s Hr He Hok Hi; [left; exists s; split; [done|]; split; [apply handled_refl|by right]|].
  destruct (exec_one i a s Hr He Hok Hi Ha) as [(s1 & E & Hh & C & _)|(E & x & Hx)]; [|right; split; [done|]; by exists [], a, q, s, x].
  rewrite E. destruct (Hh) as (K & R & _). destruct (IH s1) as [(s2 & E2 & Hh2 & C2)|(E2 & q1 & b & q2 & s2 & x & -> & Hq1 & Hx)].
  - by eapply running_handled.
  - by destruct R as (_ & _ & _ & _ & _ & _ & ->).
  - by apply K.
  - by apply K.
  - left. exists s2. split; [done|]. split; [by eapply handled_trans|]. intros Hlo. destruct R as (_ & Rl & _ & _ & _ & _ & Re).
    destruct (C2 ltac:(congruence)) as [Hp|Hd2]; [by left|]. destruct (C Hlo) as [Hp|Hd1]; [|right; congruence]. left.
    destruct Hh2 as (_ & _ & (d & b & _ & _ & Hl) & _). rewrite Re, He in Hl. destruct Hl as [[_ ->]|]; done.
  - right. split; [done|]. exists (a :: q1), b, q2, s2, x. by rewrite E.
Qed.

Lemma watched_expired_ok l s : running s -> watched_expired cf l s = Some (s, existsb (fun x => key_expired (fst x) (snd x) s) l).
Proof.
  intros Hr. induction l as [|[d k] l IH]; [done|]. cbn [watched_expired existsb fst snd]. step (by apply keyIsExpired_ok). by destruct (key_expired d k s).
Qed.

(** Whether EXEC does not execute the transaction. *)
Definition exec_aborts (c : client) (s : server) : bool :=
  CLIENT_DIRTY_CAS c || CLIENT_DIRTY_EXEC c || existsb (fun x => key_expired (fst x) (snd x) s) (c_watched c).

Lemma exec_refused i c s :
  running s -> clients_ok s -> clients s !! i = Some c -> negb (CLIENT_MULTI c) || exec_aborts c s = true ->
  exists s' r, execCommand cf i s = Some (s', tt) /\ handled (others i) s s' /\ same_data s s' /\ log s' = log s /\ argv s' = argv s /\
    out s' = out s ++ [r] /\ propagate_in_transaction s' = propagate_in_transaction s /\
    r = (if negb (CLIENT_MULTI c) then RErr WithoutMulti else if CLIENT_DIRTY_EXEC c then RErr ExecAbort else RNullArray).
Proof.
  intros Hr Hok Hc Ha. unfold execCommand. step (by apply the_client_ok). destruct (CLIENT_MULTI c); cbn [negb orb] in Ha |- *.
  2: { eexists _, _. split; [reflexivity|]. split; [apply handled_out|]. by repeat split. }
  step (unfold isWatchedKeyExpired; step (by apply the_client_ok); by apply watched_expired_ok). unfold exec_aborts in Ha. set (e := existsb _ _) in *.
  set (c1 := if e then set_dirty_cas true c else c). set (s1 := if e then set_clients (alter (set_dirty_cas true) i (clients s)) s else s).
  assert (H1 : (if e then update_client i (set_dirty_cas true) else mret tt) s = Some (s1, tt)) by (unfold s1; by destruct e).
  assert (Hq1 : quiet s s1) by (unfold s1; destruct e; [apply quiet_clients|apply quiet_refl]).
  assert (K1 : keeps (others i) s s1) by (unfold s1; destruct e; [by apply keeps_client|apply keeps_refl]).
  assert (Hc1 : clients s1 !! i = Some c1) by (unfold s1, c1; destruct e; [cbn; by rewrite lookup_alter_eq, Hc|done]).
  step exact H1. step (by apply the_client_ok).
  assert (Hcond : CLIENT_DIRTY_CAS c1 || CLIENT_DIRTY_EXEC c1 = true) by (unfold c1; destruct e; [done|by rewrite orb_false_r in Ha]).
  rewrite Hcond. assert (Hex : CLIENT_DIRTY_EXEC c1 = CLIENT_DIRTY_EXEC c) by (unfold c1; by destruct e). rewrite Hex. set (r := if CLIENT_DIRTY_EXEC c then _ else _).
  step done. set (s2 := set_out (out s1 ++ [r]) s1).
  destruct (discardTransaction_ok i c1 s2) as (s3 & H3 & Hq3 & K3 & _); [apply (kp_ok all s1); [by apply keeps_same|by apply K1]|done|].
  exists s3, r. split; [exact H3|]. destruct Hq1 as [(m1 & cl1 & E1) Hd1]. destruct (Hq3) as [(m3 & cl3 & E3) _].
  assert (Hs : handled (others i) s s3).
  { eapply handled_trans; [apply handled_quiet; [|exact K1]; split; [by eexists _, _|done]|]. eapply handled_trans; [apply handled_out|by apply handled_quiet]. }
  split; [done|]. split; [split|].
  - intros d k. rewrite (quiet_cell s2 s3 d k Hq3). unfold get_cell. change (db_at s2 d) with (db_at s1 d). by destruct (Hd1 d) as [-> ->].
  - rewrite E3. unfold s2. by rewrite E1.
  - rewrite E3. unfold s2. by rewrite E1.
Qed.

(** The state after the last command. *)
Definition ended (s : server) : server :=
  set_in_exec false (if propagate_in_transaction s then set_prop false (log s) (set_dirty (dirty s + 1) s) else s).

Lemma exec_done_ok s : exec_done s = Some (ended s, tt).
Proof.
  unfold exec_done, ended. destruct (propagate_in_transaction s) eqn:E; [|step (step done; by rewrite E); done].
  step (step done; rewrite E; step done; unfold afterPropagateExec; step (step done; cbn; by rewrite E); done). done.
Qed.

(** The commands are executed one after the other; [s1] is the state before the first of
    them, [s2] the one after the last. *)
Lemma exec_executed i c s :
  running s -> in_exec s = false -> clients_ok s -> clients s !! i = Some c -> CLIENT_MULTI c = true -> exec_aborts c s = false ->
  exists s1, quiet s s1 /\ keeps (others i) s s1 /\
    let s1' := set_out (out s ++ [RArray (Z.of_nat (length (mstate c)))]) (set_in_exec true s1) in
    match exec_loop cf i (mstate c) s1' with
    | Some (s2, _) =>
        handled (others i) s1' s2 /\ (loading s = false -> counted s1' s2) /\
        exists s3, quiet (set_argv (argv s) s2) s3 /\ keeps (others i) s2 s3 /\ execCommand cf i s = Some (ended s3, tt)
    | None => execCommand cf i s = None /\ loop_starved i (mstate c) s1'
    end.
Proof.
  intros Hr He Hok Hc Hm Ha. unfold execCommand. step (by apply the_client_ok). rewrite Hm. cbn [negb].
  apply orb_false_iff in Ha as [Hd Hx].
  step (unfold isWatchedKeyExpired; step (by apply the_client_ok); by apply watched_expired_ok). rewrite Hx. step done. step (by apply the_client_ok). rewrite Hd.
  destruct (unwatchAllKeys_ok i c s Hok Hc) as (s1 & H1 & Hq1 & Hcl1 & Hok1). exists s1. split; [done|].
  assert (Hc1 : clients s1 !! i = Some (set_watched [] c)) by (by rewrite Hcl1, lookup_alter_eq, Hc).
  assert (K1 : keeps (others i) s s1) by (apply keeps_others; [done|done|intros j Hj; rewrite Hcl1; by apply lookup_alter_ne|by eexists]). split; [done|].
  step exact H1. step done. step done. step done. destruct (Hq1) as [(m & cl & E1) _].
  replace (argv (set_in_exec true s1)) with (argv s) by (by rewrite E1). replace (out (set_in_exec true s1)) with (out s) by (by rewrite E1).
  set (s1' := set_out _ (set_in_exec true s1)). cbn zeta.
  assert (Kx : keeps all s1 s1') by (by apply keeps_same).
  destruct (exec_loop_ok i (mstate c) s1') as [(s2 & H2 & Hh & C2)|(H2 & Hg)]; [|done|by apply Kx|by eexists|by apply (co_queue _ Hok i)| |].
  { split; [apply (kp_wf _ _ _ Kx), (kp_wf _ _ _ K1), Hr|]. unfold s1'. rewrite E1. split; apply Hr. }
  - rewrite H2. split; [done|]. split; [intros Hlo; apply C2; unfold s1'; by rewrite E1|]. step exact H2. step done. destruct (Hh) as (K2 & _). pose proof (kp_dom _ _ _ K2 i (ex_intro _ _ Hc1)) as [c2 Hc2].
    set (s2' := set_argv (argv s) s2). assert (K2' : keeps all s2 s2') by (by apply keeps_same).
    destruct (discardTransaction_ok i c2 s2') as (s3 & H3 & Hq3 & K3 & _); [by apply K2', K2, Kx|done|].
    exists s3. split; [done|]. split; [eapply keeps_trans; [|exact K3]; by eapply keeps_weaken; [|exact K2']|]. step exact H3. apply exec_done_ok.
  - rewrite H2. split; [|done]. unfold mbind_ at 1. by rewrite H2.
Qed.

End Handlers.

End Multi.
