(* ===== verification/Requests.v ===== *)
(** * Serving requests ([server.c], [multi.c])

    What holds of [processCommand] on a server between two requests: it serves any request
    of any client without failing an assertion and leaves a well-formed server; a
    transaction is executed only if the keys its client watches did not change; it reaches
    the replicas as one block; and a read-only replica keeps its data. *)

From Stdlib Require Import ZArith Lia.
From stdpp Require Import base option list numbers strings gmap.
From S2P Require Import Prelude Util Rdb Keyspace Strings StringsSpec Commands Multi.

#[local] Open Scope Z_scope.

Module Requests.
Import Util Rdb Keyspace Strings StringsSpec Commands Multi.

#[local] Open Scope keyspace_scope.

(** ** The server between two requests *)

Record idle (s : server) : Prop := mk_idle {
  id_wf : wf s;
  id_clients : clients_ok s;
  id_paused : paused s = false;
  id_fixed : fixed_time_expire s = 0;
  id_exec : in_exec s = false;
  id_multi : propagate_in_transaction s = false;
}.

(** What the command adds to the stream of commands: for EXEC nothing or one block from
    MULTI to EXEC, for the others commands of the table. *)
Definition log_shape (x : any) (a : list bytes) (b : list (Z * list bytes)) : Prop :=
  match x with
  | Exec => b = [] \/ exists d d' l, b = (d, [bytes_of_string "MULTI"]) :: l ++ [(d', a)] /\ Forall (fun e => is_data (snd e)) l
  | _ => Forall (fun e => is_data (snd e)) b
  end.

Lemma cell_same s s' d k : dbs s' = dbs s -> get_cell d k s' = get_cell d k s.
Proof. intros E. unfold get_cell, db_at. by rewrite E. Qed.

Section Requests.

Context (cf : config) (Hcf : config_ok cf).

(** The allocator cannot hold the string that the command [x] of the client [i], whose
    handler starts when the call has read the clock, needs; or [x] is an EXEC, and this
    is so of a queued command when those before it have been executed, from the data
    of [s]. *)
Definition runs_out (i : Z) (x : any) (c : client) (s : server) : Prop :=
  match x with
  | Exec => exists s1, running s1 /\ in_exec s1 = true /\ keeps (others i) s s1 /\ (forall d k, get_cell d k s1 = get_cell d k s) /\
      loop_starved cf i (mstate c) s1
  | _ => starved cf i x (started cf s)
  end.

Lemma started_idle s : idle s -> running (started cf s) /\ clients_ok (started cf s).
Proof.
  intros [Hw Hc Hp Hf _ _]. split; [apply running_started; [done|done|lia]|]. by apply (kp_ok all s); [apply keeps_started|].
Qed.

Lemma idle_finished P s s3 :
  idle s -> keeps P (started cf s) s3 -> fixed_time_expire s3 = 1 -> in_exec s3 = false -> propagate_in_transaction s3 = false ->
  idle (finished s3) /\ keeps P s (finished s3).
Proof.
  intros Hid K Hf He Hp. assert (Ks : keeps P s (finished s3)).
  { eapply keeps_trans; [apply keeps_started|]. eapply keeps_trans; [exact K|apply keeps_finished]. }
  split; [|done]. destruct Hid as [Hw Hc Hpa _ _ _]. split.
  - by apply Ks.
  - by apply Ks.
  - by destruct (kp_role _ _ _ Ks) as (_ & _ & ->).
  - unfold finished. rewrite He. cbn. lia.
  - unfold finished. by rewrite He.
  - unfold finished. by rewrite He.
Qed.

Lemma finished_fields s :
  log (finished s) = log s /\ out (finished s) = out s /\ dbs (finished s) = dbs s /\ clients (finished s) = clients s.
Proof. unfold finished. by destruct (in_exec s). Qed.

Lemma simple_call_ok i x c s :
  idle s -> clients s !! i = Some c -> known (argv s) x -> x <> Exec ->
  (exists s', call cf i (any_proc cf i x) true s = Some (s', tt) /\ idle s' /\ keeps (kept i x) s s' /\ exists b, log s' = log s ++ b /\ log_shape x (argv s) b) \/
  (call cf i (any_proc cf i x) true s = None /\ runs_out i x c s).
Proof.
  intros Hid Hc Hk Hx. destruct (started_idle s Hid) as [Hr Hok]. destruct (started_fields cf s) as (F1 & F2 & F3 & F4 & F5 & F6 & F7 & F8 & _).
  replace (any_proc cf i x) with (simple_proc cf i x) by (by destruct x).
  destruct (simple_proc_ok cf Hcf i x c (started cf s) Hr Hok) as [(s2 & H & Hh & Ha)|[Hg H]]; [by rewrite F7|by rewrite F5|done|left|right].
  - destruct (call_ok cf i (simple_proc cf i x) true (kept i x) s s2 H Hh (id_paused s Hid) ltac:(by eexists) Ha) as (s' & Hcall & K & L & E & _ & F & _).
    exists s'. split; [done|]. destruct L as (d & b & El & Hb & Hp). rewrite (id_exec s Hid) in Hp.
    split; [|split; [done|]].
    + split; [by apply K, Hid|by apply K, Hid| | | |]; [|rewrite F; apply Hid|rewrite E; apply Hid|rewrite Hp; apply Hid].
      destruct (kp_role _ _ _ K) as (_ & _ & ->). apply Hid.
    + exists b. rewrite El, Hp. split; [by destruct (propagate_in_transaction s)|]. by destruct x.
  - split; [by apply call_none|]. by destruct x.
Qed.

Lemma fed_same d s s2 : dirty s2 = dirty s -> fed true d s s2 = s2.
Proof. intros Hd. unfold fed. by rewrite Hd, Z.sub_diag. Qed.

(** The reply of an EXEC that does not execute anything. *)
Definition exec_refusal (c : client) : reply :=
  if negb (CLIENT_MULTI c) then RErr WithoutMulti else if CLIENT_DIRTY_EXEC c then RErr ExecAbort else RNullArray.

Lemma exec_call_refused i c s :
  idle s -> clients s !! i = Some c -> negb (CLIENT_MULTI c) || exec_aborts c (started cf s) = true ->
  exists s', call cf i (execCommand cf i) true s = Some (s', tt) /\ idle s' /\ keeps (others i) s s' /\
    (forall d k, get_cell d k s' = get_cell d k s) /\ log s' = log s /\ out s' = out s ++ [exec_refusal c].
Proof.
  intros Hid Hc Ha. destruct (started_idle s Hid) as [Hr Hok]. destruct (started_fields cf s) as (F1 & F2 & F3 & F4 & F5 & F6 & F7 & F8 & F9 & F10).
  destruct (exec_refused cf i c (started cf s) Hr Hok) as (s2 & r & H & Hh & [Hg (Hd & _)] & Hl & _ & Ho & Hp & ->); [by rewrite F7|done|].
  destruct Hh as (K & R & _). pose proof (kp_dom _ _ _ K i) as Hdom. rewrite F7 in Hdom. destruct (Hdom ltac:(by eexists)) as [c2 Hc2].
  exists (finished s2). assert (Hp2 : paused s2 = false) by (destruct R as (_ & _ & -> & _); rewrite F3; apply Hid).
  split; [|split; [|split; [|split; [|split]]]].
  - rewrite (call_eq cf i _ true s s2 c2 H Hp2 Hc2). by rewrite fed_same by congruence.
  - eapply idle_finished; [done|exact K|destruct R as (_ & _ & _ & _ & _ & -> & _); rewrite F1; destruct Hid; lia|destruct R as (_ & _ & _ & _ & _ & _ & ->); rewrite F2; apply Hid|rewrite Hp, F8; apply Hid].
  - eapply keeps_trans; [apply keeps_started|]. eapply keeps_trans; [exact K|apply keeps_finished].
  - intros d k. destruct (finished_fields s2) as (_ & _ & E & _). rewrite (cell_same s2 _ d k E), Hg. by apply cell_same.
  - destruct (finished_fields s2) as (-> & _). congruence.
  - destruct (finished_fields s2) as (_ & -> & _). rewrite Ho. by rewrite F9.
Qed.

(** The transaction of the client [c] was executed between [s] and [s']: its commands ran
    one after the other from the data of [s], except those access control denies by then,
    which are answered with an error. *)
Definition executed (i : Z) (c : client) (s s' : server) : Prop :=
  exists s1 s2, exec_loop cf i (mstate c) s1 = Some (s2, tt) /\ running s1 /\ in_exec s1 = true /\ keeps (others i) s s1 /\ out s1 = out s ++ [RArray (Z.of_nat (length (mstate c)))] /\
    (forall d k, get_cell d k s1 = get_cell d k s) /\ (forall d k, get_cell d k s' = get_cell d k s2) /\ out s' = out s2.

Lemma fed_fields prop d s s2 :
  in_exec s2 = false -> propagate_in_transaction s2 = false ->
  let s3 := fed prop d s s2 in
  in_exec s3 = false /\ propagate_in_transaction s3 = false /\ fixed_time_expire s3 = fixed_time_expire s2 /\ out s3 = out s2 /\ dbs s3 = dbs s2 /\
  keeps all s2 s3 /\ log s3 = log s2 ++ (if prop && (0 <? dirty s2 - dirty s) then [(d, argv s2)] else []).
Proof.
  intros He Hp. cbn zeta. unfold fed. destruct (prop && _); [|rewrite app_nil_r; split_and!; try done; apply keeps_refl].
  unfold propagated. cbn. rewrite He, Hp. split_and!; try done. by apply keeps_same.
Qed.

Lemma ended_fields s :
  in_exec (ended s) = false /\ propagate_in_transaction (ended s) = false /\ fixed_time_expire (ended s) = fixed_time_expire s /\ out (ended s) = out s /\
  dbs (ended s) = dbs s /\ clients (ended s) = clients s /\ log (ended s) = log s /\ argv (ended s) = argv s /\ paused (ended s) = paused s /\
  keeps all s (ended s) /\ dirty (ended s) = dirty s + Z.b2z (propagate_in_transaction s).
Proof. unfold ended. destruct (propagate_in_transaction s) eqn:E; cbn; split_and!; try done; try (by apply keeps_same); lia. Qed.

(** What the stream of commands gains. *)
Lemma exec_log s1 s2 a d' :
  propagate_in_transaction s1 = false -> in_exec s1 = true -> log_grows s1 s2 -> counted s1 s2 -> dirty s1 <= dirty s2 ->
  exists b, log s2 ++ (if 0 <? dirty s2 + Z.b2z (propagate_in_transaction s2) - dirty s1 then [(d', a)] else []) = log s1 ++ b /\ log_shape Exec a b.
Proof.
  intros Hp He (d & b & El & Hb & Hx) Hc Hd. rewrite He in Hx. rewrite El, Hp. cbn [negb andb]. destruct (propagate_in_transaction s2) eqn:E2.
  - rewrite (proj2 (Z.ltb_lt 0 _)) by (cbn; lia). exists ((d, [bytes_of_string "MULTI"]) :: b ++ [(d', a)]). split; [by rewrite <- !app_assoc|]. right. by exists d, d', b.
  - destruct Hc as [Hc|Hc]; [congruence|]. rewrite (proj2 (Z.ltb_ge 0 _)) by (cbn; lia). destruct Hx as [[-> _]|Hx]; [|congruence].
    exists []. split; [by rewrite !app_nil_r|by left].
Qed.

Lemma exec_call_executed i c s :
  idle s -> clients s !! i = Some c -> CLIENT_MULTI c = true -> exec_aborts c (started cf s) = false ->
  (exists s', call cf i (execCommand cf i) true s = Some (s', tt) /\ idle s' /\ keeps (others i) s s' /\ executed i c s s' /\
     (loading s = false -> exists b, log s' = log s ++ b /\ log_shape Exec (argv s) b)) \/
  (call cf i (execCommand cf i) true s = None /\ runs_out i Exec c s).
Proof.
  intros Hid Hc Hm Ha. destruct (started_idle s Hid) as [Hr Hok]. destruct (started_fields cf s) as (F1 & F2 & F3 & F4 & F5 & F6 & F7 & F8 & F9 & F10).
  set (t := started cf s) in *. assert (Hlo : loading t = loading s) by (unfold t, started; by destruct (_ =? 0)).
  destruct (exec_executed cf Hcf i c t Hr) as (s1 & Hq1 & K1 & H); [rewrite F2; apply Hid|done|by rewrite F7|done|done|].
  set (s1' := set_out _ (set_in_exec true s1)) in H. cbn zeta in H. destruct (Hq1) as [(m1 & cl1 & E1) _].
  assert (K' : keeps (others i) s s1') by (eapply keeps_trans; [apply keeps_started|]; eapply keeps_trans; [exact K1|by apply keeps_same]).
  assert (Hr1 : running s1') by (split; [by apply K', Hid|]; unfold s1'; rewrite E1; split; apply Hr).
  assert (Hg1 : forall d k, get_cell d k s1' = get_cell d k s).
  { intros d k. change (get_cell d k s1') with (get_cell d k s1). rewrite (quiet_cell t s1 d k Hq1). by apply cell_same. }
  destruct (exec_loop cf i (mstate c) s1') as [[s2 []]|] eqn:El; [left|right; destruct H; split; [by apply call_none|by exists s1']].
  destruct H as ((K2 & R2 & L2 & D2) & C2 & s3 & Hq3 & K3 & Hx). destruct (Hq3) as [(m3 & cl3 & E3) _].
  destruct (ended_fields s3) as (N1 & N2 & N3 & N4 & N5 & N6 & N7 & N8 & N9 & N10 & N11).
  assert (Kt : keeps (others i) t (ended s3)).
  { eapply keeps_trans; [exact K1|]. eapply (keeps_trans _ _ s1'); [by apply keeps_same|]. eapply keeps_trans; [exact K2|]. eapply keeps_trans; [exact K3|]. by apply (keeps_weaken all). }
  pose proof (kp_dom _ _ _ Kt i) as Hdom. rewrite F7 in Hdom. destruct (Hdom ltac:(by eexists)) as [c3 Hc3].
  assert (Hpz : paused (ended s3) = false) by (destruct (kp_role _ _ _ Kt) as (_ & _ & ->); rewrite F3; apply Hid).
  destruct (fed_fields true (db c3) s (ended s3) N1 N2) as (G1 & G2 & G3 & G4 & G5 & G6 & G7). set (s4 := fed true (db c3) s (ended s3)) in *. cbn zeta in *.
  assert (Hfix : fixed_time_expire s4 = 1).
  { rewrite G3, N3, E3. cbn. destruct R2 as (_ & _ & _ & _ & _ & -> & _). cbn. rewrite E1. cbn. rewrite F1, (id_fixed s Hid). done. }
  assert (K4 : keeps (others i) t s4) by (eapply keeps_trans; [exact Kt|by apply (keeps_weaken all)]).
  destruct (idle_finished _ s s4 Hid K4 Hfix G1 G2) as [Hid' Ks]. destruct (finished_fields s4) as (Lf & Of & Df & _).
  exists (finished s4). split; [by apply call_eq|]. split; [done|]. split; [done|]. split.
  - exists s1', s2. split; [done|]. split; [done|]. split; [done|]. split; [done|].
    split; [cbn; by rewrite F9|]. split; [done|split].
    + intros d k. transitivity (get_cell d k s3); [apply cell_same; congruence|exact (quiet_cell _ _ d k Hq3)].
    + rewrite Of, G4, N4, E3. done.
  - intros Hnl. rewrite Lf, G7, N7, N8, N11. cbn [andb]. rewrite E3. cbn. rewrite F5.
    assert (Es : log s = log s1' /\ dirty s = dirty s1') by (cbn; rewrite E1; cbn; by rewrite F4, F6). destruct Es as [-> ->].
    apply exec_log; [|done|done|apply C2; congruence|done]. cbn. rewrite E1. cbn. rewrite F8. apply Hid.
Qed.

(** ** Admission *)

(** The replies [r] were given, and otherwise only the clients changed. *)
Definition answered (P : Z -> Prop) (r : list reply) (s s' : server) : Prop :=
  exists s1, quiet s s1 /\ keeps P s s1 /\ s' = set_out (out s ++ r) s1.

Lemma answered_ok P r s s' :
  answered P r s s' -> keeps P s s' /\ (forall d k, get_cell d k s' = get_cell d k s) /\ log s' = log s /\ out s' = out s ++ r /\ (idle s -> idle s').
Proof.
  intros (s1 & Hq & K & ->). assert (K' : keeps P s (set_out (out s ++ r) s1)) by (eapply keeps_trans; [exact K|by apply keeps_same]).
  split; [done|]. split; [intros d k; by apply (quiet_cell s s1)|]. destruct (Hq) as [(m & cl & ->) _]. split; [done|]. split; [done|].
  intros [Hw Hc Hp Hf He Hm]. split; try done; by apply K'.
Qed.

Lemma answered_quiet (P Q : Z -> Prop) r s s1 : quiet s s1 -> keeps P s s1 -> (forall j, Q j -> P j) -> answered Q [r] s (set_out (out s1 ++ [r]) s1).
Proof.
  intros Hq K HPQ. exists s1. split; [done|]. split; [by eapply keeps_weaken|]. by destruct Hq as [(m & cl & ->) _].
Qed.

Lemma answered_weaken (P Q : Z -> Prop) r s s' : (forall j, Q j -> P j) -> answered P r s s' -> answered Q r s s'.
Proof. intros H (s1 & Hq & K & E). exists s1. split; [done|]. split; [by eapply keeps_weaken|done]. Qed.

(** The clients whose watched keys are kept when [i] sends the command [x], if it is known. *)
Definition kept_opt (i : Z) (x : option any) (j : Z) : Prop := match x with Some x => kept i x j | None => True end.

Lemma rejectCommand_ok i x e c s :
  clients_ok s -> clients s !! i = Some c -> exists s', rejectCommand i x e s = Some (s', tt) /\ answered (kept_opt i x) [RErr e] s s'.
Proof.
  intros Hok Hc. unfold rejectCommand. destruct (flagTransaction_ok i c s Hc) as (s1 & H1 & Hq1 & K1 & Hc1). step exact H1.
  case_bool_decide as Hx.
  - destruct (discardTransaction_ok i _ s1 (kp_ok _ _ _ K1 Hok) Hc1) as (s2 & H2 & Hq2 & K2 & _). step exact H2. eexists. split; [reflexivity|].
    eapply (answered_quiet (others i)); [by eapply quiet_trans|eapply keeps_trans; [by apply (keeps_weaken all)|done]|]. subst x. intros j [Hj|Hj]; [done|set_solver].
  - eexists. split; [reflexivity|]. by apply (answered_quiet all).
Qed.

Lemma redirect_ok i x c s :
  clients_ok s -> clients s !! i = Some c ->
  exists s', (run (if bool_decide (x = Exec) then discardTransaction i else flagTransaction i) in run addReply (RErr Redirect) in mret Processed) s = Some (s', Processed) /\
    answered (kept i x) [RErr Redirect] s s'.
Proof.
  intros Hok Hc. case_bool_decide as Hx.
  - destruct (discardTransaction_ok i c s Hok Hc) as (s1 & H1 & Hq1 & K1 & _). step exact H1. eexists. split; [reflexivity|].
    apply (answered_quiet (others i)); [done..|]. subst x. intros j [Hj|Hj]; [done|set_solver].
  - destruct (flagTransaction_ok i c s Hc) as (s1 & H1 & Hq1 & K1 & _). step exact H1. eexists. split; [reflexivity|]. by apply (answered_quiet all).
Qed.

Lemma queue_ok i x c s :
  clients_ok s -> clients s !! i = Some c -> known (argv s) x -> queued c x = true ->
  exists s', (run queueMultiCommand i in addReply RQueued) s = Some (s', tt) /\ answered all [RQueued] s s'.
Proof.
  intros Hok Hc (arity & Hl & Ha & Hs) Hq. unfold queued in Hq. rewrite andb_true_iff, negb_true_iff, bool_decide_eq_false in Hq. destruct Hq as [_ Hx].
  set (s1 := if CLIENT_DIRTY_EXEC c then s else
    set_clients (alter (fun c => set_transaction (CLIENT_MULTI c) (CLIENT_DIRTY_CAS c) (CLIENT_DIRTY_EXEC c) (mstate c ++ [argv s]) c) i (clients s)) s).
  assert (H : queueMultiCommand i s = Some (s1, tt)).
  { unfold queueMultiCommand, s1. step (by apply the_client_ok). by destruct (CLIENT_DIRTY_EXEC c). }
  assert (K : quiet s s1 /\ keeps all s s1).
  { unfold s1. destruct (CLIENT_DIRTY_EXEC c); [split; [apply quiet_refl|apply keeps_refl]|]. split; [apply quiet_clients|].
    apply keeps_client; [done| |done]. intros c0 H0. apply Forall_app. split; [done|]. repeat constructor. exists x, arity. done. }
  destruct K as [Hq K]. step exact H. eexists. split; [reflexivity|]. by apply (answered_quiet all).
Qed.

(** Whether a known command is executed. *)
Definition served (k : circumstances) (c : client) (x : any) (s : server) : bool :=
  negb (redirected k && negb (CLIENT_MASTER c) && has_keys x) && match rejection k s c x with Some _ => false | None => true end && negb (queued c x).

Definition not_array (r : list reply) : Prop := r = [] \/ r = [RQueued] \/ exists e, r = [RErr e].

Lemma not_array_err e : not_array [RErr e].
Proof. right. right. by exists e. Qed.

Lemma process_cases k i x c s :
  clients_ok s -> clients s !! i = Some c -> known (argv s) x -> paused s = false ->
  if served k c x s then
    process_known cf k i x s = match call cf i (any_proc cf i x) true s with Some (s', _) => Some (s', Processed) | None => None end
  else exists s' r, process_known cf k i x s = Some (s', Processed) /\ answered (kept i x) r s s' /\ not_array r.
Proof.
  intros Hok Hc Hk Hp. unfold served, process_known. rewrite (mbind_ok _ _ _ _ _ (the_client_ok i c s Hc)).
  destruct (redirected k && negb (CLIENT_MASTER c) && has_keys x); cbn [negb andb].
  { destruct (redirect_ok i x c s Hok Hc) as (s' & H & Ha). exists s', [RErr Redirect]. split; [done|]. split; [done|]. apply not_array_err. }
  rewrite (mbind_ok (gets id) _ s s s eq_refl). destruct (rejection k s c x) as [e|].
  { destruct (rejectCommand_ok i (Some x) e c s Hok Hc) as (s' & H & Ha). exists s', [RErr e]. cbn [andb]. split; [by step exact H|]. split; [done|]. apply not_array_err. }
  rewrite Hp, andb_false_r. cbn [andb]. destruct (queued c x) eqn:Eq; cbn [negb].
  - destruct (queue_ok i x c s Hok Hc Hk Eq) as (s' & H & Ha). exists s', [RQueued]. split; [by step exact H|]. split; [by apply (answered_weaken all)|]. right. by left.
  - unfold mbind_. by destruct (call cf i (any_proc cf i x) true s) as [[s' []]|].
Qed.

Lemma any_call_ok i x c s :
  idle s -> clients s !! i = Some c -> known (argv s) x ->
  (exists s', call cf i (any_proc cf i x) true s = Some (s', tt) /\ idle s' /\ keeps (kept i x) s s' /\
     (loading s = false -> exists b, log s' = log s ++ b /\ log_shape x (argv s) b)) \/
  (call cf i (any_proc cf i x) true s = None /\ runs_out i x c s).
Proof.
  intros Hid Hc Hk. destruct (decide (x = Exec)) as [->|Hx].
  - assert (Ho : forall j, kept i Exec j -> others i j) by (intros j [Hj|Hj]; [done|set_solver]). cbn [any_proc].
    destruct (negb (CLIENT_MULTI c) || exec_aborts c (started cf s)) eqn:E.
    + destruct (exec_call_refused i c s Hid Hc E) as (s' & H & Hid' & K & _ & Hl & _). left. exists s'. split; [done|]. split; [done|].
      split; [by eapply keeps_weaken|]. intros _. exists []. rewrite app_nil_r. split; [done|by left].
    + apply orb_false_iff in E as [Em Ea]. rewrite negb_false_iff in Em.
      destruct (exec_call_executed i c s Hid Hc Em Ea) as [(s' & H & Hid' & K & _ & Hl)|[H Hg]]; [left|by right].
      exists s'. split; [done|]. split; [done|]. split; [by eapply keeps_weaken|done].
  - destruct (simple_call_ok i x c s Hid Hc Hk Hx) as [(s' & H & Hid' & K & Hl)|[H Hg]]; [left|by right]. by exists s'.
Qed.

(** The command a request names. *)
Definition named (a : list bytes) : option any := fst <$> lookup_any (hd [] a).

Definition request_shape (a : list bytes) (b : list (Z * list bytes)) : Prop :=
  match named a with Some x => log_shape x a b | None => b = [] end.

Lemma shape_nil x a : log_shape x a [].
Proof. by destruct x; [..|left| | |]; constructor. Qed.

Lemma idle_argv a s : idle s -> idle (set_argv a s).
Proof. intros [Hw Hc Hp Hf He Hm]. split; try done. by apply (kp_ok all s); [apply keeps_same|]. Qed.

Lemma not_nested_ok k s : idle s -> not_nested k s = Some (s, tt).
Proof.
  intros Hid. unfold not_nested. destruct (lua_timedout k); [done|]. unfold mbind_, gets, assert. cbn [id]. by rewrite (id_multi s Hid), (id_exec s Hid).
Qed.

Lemma processCommand_ok k i a c s :
  idle s -> clients s !! i = Some c -> short a ->
  (exists s' o, processCommand cf k i a s = Some (s', o) /\ idle s' /\ keeps (kept_opt i (named a)) s s' /\
     (loading s = false -> exists b, log s' = log s ++ b /\ request_shape a b)) \/
  (processCommand cf k i a s = None /\ exists x, known a x /\ runs_out i x c (set_argv a s)).
Proof.
  intros Hid Hc Hs. unfold processCommand. set (s1 := set_argv a s). pose proof (idle_argv a s Hid) as Hid1. fold s1 in Hid1.
  step (by apply not_nested_ok). step done. fold s1. pose proof (id_clients s1 Hid1) as Hok1. assert (K1 : keeps all s s1) by (by apply keeps_same).
  assert (Hans : forall x r s', named a = x -> answered (kept_opt i x) r s1 s' ->
    idle s' /\ keeps (kept_opt i (named a)) s s' /\ (loading s = false -> exists b, log s' = log s ++ b /\ request_shape a b)).
  { intros x r s' Hx Ha. destruct (answered_ok _ _ _ _ Ha) as (K & _ & Hl & _ & Hi). split; [auto|]. split; [rewrite Hx; eapply keeps_trans; [by apply (keeps_weaken all)|done]|].
    intros _. exists []. rewrite app_nil_r. split; [done|]. unfold request_shape. rewrite Hx. destruct x; [apply shape_nil|done]. }
  destruct (lookup_any (hd [] a)) as [[x arity]|] eqn:El.
  2: { destruct (rejectCommand_ok i None UnknownCommand c s1 Hok1 Hc) as (s' & H & Ha). left. exists s', Processed. split; [by step exact H|].
       eapply Hans; [|exact Ha]. unfold named. by rewrite El. }
  assert (Hn : named a = Some x) by (unfold named; by rewrite El).
  destruct (early_rejection k arity a) as [e|] eqn:Ee.
  { destruct (rejectCommand_ok i (Some x) e c s1 Hok1 Hc) as (s' & H & Ha). left. exists s', Processed. split; [by step exact H|]. by eapply Hans. }
  assert (Hk : known a x) by (exists arity; unfold early_rejection in Ee; destruct (wrong_arity _ _) eqn:Ew; done).
  pose proof (process_cases k i x c s1 Hok1 Hc Hk (id_paused s1 Hid1)) as Hp. destruct (served k c x s1).
  - rewrite Hp. destruct (any_call_ok i x c s1 Hid1 Hc Hk) as [(s' & H & Hid' & K & Hl)|[H Hg]]; rewrite H; [left|right; split; [done|by exists x]].
    exists s', Processed. split; [done|]. split; [done|]. unfold request_shape. rewrite Hn. split; [eapply keeps_trans; [by apply (keeps_weaken all)|done]|done].
  - destruct Hp as (s' & r & H & Ha & _). left. exists s', Processed. split; [done|]. by eapply Hans.
Qed.

(** ** Runs of the server *)

(** The periodic cycle looks at an entry with an expire time. *)
Definition expire_cycle (d : Z) (key : bytes) (now : Z) : M unit :=
  let* m := gets masterhost in
  let* p := gets paused in
  if m || p then mret tt else
  let* t := gets (fun s => expires (db_at s d) !! key) in
  match t with
  | None => mret tt
  | Some t => run activeExpireCycleTryExpire cf d key t now in mret tt
  end.

(** Requests of any client and steps of the periodic cycle, in any order. *)
Inductive event := Request (k : circumstances) (i : Z) (a : list bytes) | ExpireCycle (d : Z) (key : bytes) (now : Z).

Definition serve (e : event) : M unit :=
  match e with
  | Request k i a => run processCommand cf k i a in mret tt
  | ExpireCycle d key now => expire_cycle d key now
  end.

Fixpoint serve_all (l : list event) : M unit :=
  match l with
  | [] => mret tt
  | e :: l => run serve e in serve_all l
  end.

Definition event_ok (e : event) : Prop := match e with Request _ _ a => short a | ExpireCycle _ _ _ => True end.

(** The client gives up its watched keys. *)
Definition unwatches (j : Z) (e : event) : Prop :=
  match e with Request _ i a => i = j /\ named a ∈ [Some Exec; Some Discard; Some Unwatch] | ExpireCycle _ _ _ => False end.

Lemma expire_cycle_ok d key now s : idle s -> exists s', expire_cycle d key now s = Some (s', tt) /\ idle s' /\ keeps all s s'.
Proof.
  intros Hid. unfold expire_cycle. do 2 step done. rewrite (id_paused s Hid), orb_false_r.
  assert (Hsame : exists s', mret tt s = Some (s', tt) /\ idle s' /\ keeps all s s') by (exists s; split; [done|]; split; [done|apply keeps_refl]).
  destruct (masterhost s); [done|]. step done. destruct (expires (db_at s d) !! key) as [t|] eqn:Et; [|done].
  unfold activeExpireCycleTryExpire. destruct (t <? now); [|done].
  assert (Hg : is_Some (get_cell d key s)).
  { rewrite (expires_cell d key s (id_wf s Hid)) in Et. destruct (get_cell d key s); [by eexists|done]. }
  set (p := put_cell d key None s). set (s' := propagated d [del_name (lazyfree_lazy_expire cf); key] (touch d key p)).
  assert (Hev : evolves s s') by (eapply evolves_trans; [by apply (evolves_write d key None)|apply evolves_propagated, deletion_is_data]).
  step (step (apply deleteExpired_ok; [apply Hid|apply Hid|exact Hg]); done). exists s'. split; [done|]. pose proof (keeps_evolves all s s' Hev) as K. split; [|done].
  destruct Hev as [(R1 & R2 & R3 & R4 & R5 & R6 & R7) _ _ _ _ (d0 & b & _ & _ & L) _ _ _]. rewrite (id_exec s Hid) in L.
  split; [apply K, Hid|apply K, Hid|rewrite R3; apply Hid|rewrite R6; apply Hid|rewrite R7; apply Hid|rewrite L; apply Hid].
Qed.

Lemma no_client k i a s : idle s -> clients s !! i = None -> processCommand cf k i a s = None.
Proof.
  intros Hid Hc. assert (Ht : forall s', clients s' = clients s -> the_client i s' = None) by (intros s' E; unfold the_client; by rewrite E, Hc).
  unfold processCommand. step (by apply not_nested_ok). step done. assert (Hf : forall s', clients s' = clients s -> flagTransaction i s' = None) by (intros s' E; unfold flagTransaction, mbind_; by rewrite Ht).
  assert (Hr : forall x e s', clients s' = clients s -> (run rejectCommand i x e in mret Processed) s' = None) by (intros x e s' E; unfold rejectCommand, mbind_; by rewrite Hf).
  destruct (lookup_any (hd [] a)) as [[x arity]|]; [|by apply Hr]. destruct (early_rejection k arity a); [by apply Hr|].
  unfold process_known, mbind_ at 1. by rewrite Ht.
Qed.

Lemma serve_ok e s s' j :
  idle s -> event_ok e -> ~ unwatches j e -> serve e s = Some (s', tt) -> idle s' /\ keeps (eq j) s s'.
Proof.
  intros Hid He Hu Hs. destruct e as [k i a|d key now]; cbn [serve event_ok unwatches] in *.
  - destruct (clients s !! i) as [c|] eqn:Hc; [|unfold mbind_ in Hs; by rewrite (no_client k i a s Hid Hc) in Hs].
    unfold mbind_ in Hs. destruct (processCommand_ok k i a c s Hid Hc He) as [(s2 & o & H & Hid' & K & _)|[H _]]; rewrite H in Hs; [|done]. injection Hs as <-.
    split; [done|]. eapply keeps_weaken; [|exact K]. intros ? <-. unfold kept_opt. destruct (named a) as [x|]; [|done].
    destruct (decide (j = i)) as [->|Hne]; [right|by left]. intros Hx. apply Hu. split; [done|]. set_solver.
  - destruct (expire_cycle_ok d key now s Hid) as (s2 & H & Hid' & K). rewrite H in Hs. injection Hs as <-. split; [done|]. by apply (keeps_weaken all).
Qed.

Lemma serve_all_ok l s s' j :
  idle s -> Forall event_ok l -> Forall (fun e => ~ unwatches j e) l -> serve_all l s = Some (s', tt) -> idle s' /\ keeps (eq j) s s'.
Proof.
  intros Hid Ho Hu. revert s Hid. induction l as [|e l IH]; intros s Hid Hs; [injection Hs as <-; split; [done|apply keeps_refl]|].
  apply Forall_cons_1 in Ho as [Ho1 Ho]. apply Forall_cons_1 in Hu as [Hu1 Hu]. cbn [serve_all] in Hs. unfold mbind_ in Hs.
  destruct (serve e s) as [[s1 []]|] eqn:E; [|done]. destruct (serve_ok e s s1 j Hid Ho1 Hu1 E) as [Hid1 K1].
  destruct (IH Ho Hu s1 Hid1 Hs) as [Hid2 K2]. split; [done|]. by eapply keeps_trans.
Qed.

(** *** WATCH and EXEC *)

(** Whether the request of an EXEC by the client [c] executes its transaction. *)
Definition runs (k : circumstances) (a : list bytes) (c : client) (s : server) : bool :=
  let t := set_argv a s in
  match early_rejection k 1 a with
  | Some _ => false
  | None => served k c Exec t && CLIENT_MULTI c && negb (exec_aborts c (started cf t))
  end.

(** Nothing was executed, and the reply is not that of an executed transaction. *)
Definition not_executed (s s' : server) : Prop :=
  (forall d key, get_cell d key s' = get_cell d key s) /\ exists r, out s' = out s ++ r /\ (not_array r \/ r = [RNullArray]).

Lemma named_exec a : named a = Some Exec -> lookup_any (hd [] a) = Some (Exec, 1).
Proof.
  unfold named. destruct (lookup_any (hd [] a)) as [[x arity]|] eqn:E; [|done]. intros [= ->].
  apply lookup_any_cases in E as [(? & ? & [=] & _)|(name & H)]. by apply other_arity in H as ->.
Qed.

Lemma not_executed_answered P r a s s' : answered P r (set_argv a s) s' -> not_array r -> not_executed s s'.
Proof. intros Ha Hr. destruct (answered_ok _ _ _ _ Ha) as (_ & Hg & _ & Ho & _). split; [done|]. exists r. split; [done|by left]. Qed.

Lemma executed_argv i c a s s' : executed i c (set_argv a s) s' -> executed i c s s'.
Proof.
  intros (s1 & s2 & H & Hr & He & K & Hx). exists s1, s2. split; [done|]. split; [done|]. split; [done|]. split; [|done].
  eapply keeps_trans; [|exact K]. by apply keeps_same.
Qed.

Lemma exec_request k i a c s s' o :
  idle s -> clients s !! i = Some c -> named a = Some Exec -> short a -> processCommand cf k i a s = Some (s', o) ->
  if runs k a c s then executed i c s s' else not_executed s s'.
Proof.
  intros Hid Hc Hn Hs. pose proof (named_exec a Hn) as El. unfold processCommand, runs. set (t := set_argv a s). pose proof (idle_argv a s Hid) as Hidt. fold t in Hidt.
  rewrite (mbind_ok _ _ _ _ _ (not_nested_ok k s Hid)), (mbind_ok (modify (set_argv a)) _ s t tt eq_refl), El. pose proof (id_clients t Hidt) as Hok.
  destruct (early_rejection k 1 a) as [e|] eqn:Ee.
  { destruct (rejectCommand_ok i (Some Exec) e c t Hok Hc) as (s1 & H & Ha). rewrite (mbind_ok _ _ _ _ _ H). intros [= <- _].
    eapply not_executed_answered; [exact Ha|]. apply not_array_err. }
  assert (Hk : known a Exec) by (exists 1; unfold early_rejection in Ee; destruct (wrong_arity _ _) eqn:Ew; done).
  pose proof (process_cases k i Exec c t Hok Hc Hk (id_paused t Hidt)) as Hp. destruct (served k c Exec t); cbn [andb].
  2: { destruct Hp as (s1 & r & H & Ha & Hr). rewrite H. intros [= <- _]. by eapply not_executed_answered. }
  rewrite Hp. cbn [any_proc]. destruct (CLIENT_MULTI c && negb (exec_aborts c (started cf t))) eqn:E.
  - apply andb_prop in E as [Em Ea]. rewrite negb_true_iff in Ea.
    destruct (exec_call_executed i c t Hidt Hc Em Ea) as [(s1 & H & _ & _ & Hx & _)|[H _]]; rewrite H; [|done].
    intros [= <- _]. by apply (executed_argv i c a).
  - assert (E' : negb (CLIENT_MULTI c) || exec_aborts c (started cf t) = true) by (by destruct (CLIENT_MULTI c), (exec_aborts c (started cf t))).
    destruct (exec_call_refused i c t Hidt Hc E') as (s1 & H & _ & _ & Hg & _ & Ho). rewrite H. intros [= <- _]. split; [done|].
    exists [exec_refusal c]. split; [done|]. unfold exec_refusal. destruct (negb (CLIENT_MULTI c)); [left; apply not_array_err|].
    destruct (CLIENT_DIRTY_EXEC c); [left; apply not_array_err|by right].
Qed.

Lemma watch_accepted k i w keys c s s' o :
  idle s -> clients s !! i = Some c -> named (w :: keys) = Some Watch -> short (w :: keys) ->
  processCommand cf k i (w :: keys) s = Some (s', o) -> out s' = out s ++ [ROk] ->
  (forall d key, get_cell d key s' = get_cell d key s) /\
  exists c', clients s' !! i = Some c' /\ Forall (fun key => (db c, key) ∈ c_watched c') keys.
Proof.
  intros Hid Hc Hn Hs. set (a := w :: keys) in *. set (t := set_argv a s). pose proof (idle_argv a s Hid) as Hidt. fold t in Hidt. pose proof (id_clients t Hidt) as Hok.
  unfold processCommand. rewrite (mbind_ok _ _ _ _ _ (not_nested_ok k s Hid)), (mbind_ok (modify (set_argv a)) _ s t tt eq_refl).
  unfold named in Hn. destruct (lookup_any (hd [] a)) as [[x arity]|] eqn:El; [|done]. injection Hn as ->.
  assert (Hbad : forall P r s1, answered P r t s1 -> not_array r -> out s1 = out s ++ [ROk] -> False).
  { intros P r s1 Ha Hr Ho. destruct (answered_ok _ _ _ _ Ha) as (_ & _ & _ & Ho' & _). rewrite Ho' in Ho. change (out t) with (out s) in Ho. apply app_inv_head in Ho. subst r.
    by destruct Hr as [|[|[? ?]]]. }
  destruct (early_rejection k arity a) as [e|] eqn:Ee.
  { destruct (rejectCommand_ok i (Some Watch) e c t Hok Hc) as (s1 & H & Ha). rewrite (mbind_ok _ _ _ _ _ H). intros [= <- _] Ho. exfalso.
    eapply Hbad; [exact Ha| |exact Ho]. apply not_array_err. }
  assert (Hk : known a Watch) by (exists arity; unfold early_rejection in Ee; destruct (wrong_arity _ _) eqn:Ew; done).
  pose proof (process_cases k i Watch c t Hok Hc Hk (id_paused t Hidt)) as Hp. destruct (served k c Watch t).
  2: { destruct Hp as (s1 & r & H & Ha & Hr). rewrite H. intros [= <- _] Ho. exfalso. by eapply Hbad. }
  rewrite Hp. cbn [any_proc simple_proc]. destruct (started_idle t Hidt) as [Hr Hokt]. destruct (started_fields cf t) as (F1 & F2 & F3 & F4 & F5 & F6 & F7 & F8 & F9 & F10).
  assert (Hct : clients (started cf t) !! i = Some c) by (by rewrite F7).
  destruct (CLIENT_MULTI c) eqn:Em.
  { rewrite (call_eq cf i (watchCommand i) true t (set_out (out (started cf t) ++ [RErr WatchInMulti]) (started cf t)) c); [|unfold watchCommand; step (by apply the_client_ok); by rewrite Em|etransitivity; [exact F3|apply Hid]|done].
    rewrite fed_same by exact F4. intros [= <- _] Ho. destruct (finished_fields (set_out (out (started cf t) ++ [RErr WatchInMulti]) (started cf t))) as (_ & E & _).
    rewrite E in Ho. cbn in Ho. rewrite F9 in Ho. by apply app_inv_head in Ho. }
  destruct (watch_loop_ok i keys c (started cf t) Hokt Hct) as (s1 & c1 & H1 & Hq & K & Hc1 & Hall). set (s2 := set_out (out s1 ++ [ROk]) s1).
  assert (Hw : watchCommand i (started cf t) = Some (s2, tt)).
  { unfold watchCommand. step (by apply the_client_ok). rewrite Em. step done. rewrite F5. cbn [a t argv set_argv drop]. by step exact H1. }
  destruct (Hq) as [(m & cl & E1) _]. rewrite (call_eq cf i (watchCommand i) true t s2 c1 Hw); [|unfold s2; rewrite E1; cbn; rewrite F3; apply Hid|done].
  rewrite fed_same by (unfold s2; rewrite E1; exact F4). intros [= <- _] _. destruct (finished_fields s2) as (_ & _ & Ed & Ec). split.
  - intros d key. rewrite (cell_same s2 _ d key Ed). change (get_cell d key s2) with (get_cell d key s1). rewrite (quiet_cell _ s1 d key Hq). by apply (cell_same t).
  - exists c1. rewrite Ec. split; [done|exact Hall].
Qed.

(** *** Read-only commands on a replica *)

Definition same_cells (s s' : server) : Prop := forall d k, get_cell d k s' = get_cell d k s.

Lemma same_cells_trans s1 s2 s3 : same_cells s1 s2 -> same_cells s2 s3 -> same_cells s1 s3.
Proof. intros H1 H2 d k. by rewrite H2. Qed.

Lemma same_cells_dbs s s' : dbs s' = dbs s -> same_cells s s'.
Proof. intros E d k. by apply cell_same. Qed.

Lemma purge_replica d k s : masterhost s = true -> purge cf d k s = s.
Proof. intros Hm. unfold purge. by rewrite Hm, andb_false_r. Qed.

Lemma purge_all_replica d keys s : masterhost s = true -> purge_all cf d keys s = s.
Proof. intros Hm. unfold purge_all. induction keys as [|k keys IH]; [done|]. cbn. by rewrite purge_replica. Qed.

Lemma readonly_proc cmd arity c s s' :
  running s -> request cmd arity true c s -> masterhost s = true -> proc cf cmd c s = Some (s', tt) -> same_cells s s'.
Proof.
  intros Hr Hreq Hm Hp. pose proof (request_signature _ _ _ _ _ Hreq) as Hsig.
  assert (Hone : forall x, spec1 cf cmd (argv s) (readings cf s) (loading s || masterhost s) (c_master c) (abs (readable c (nth 1 (argv s) []) s)) = Some (Some x) ->
    e_write x = None -> same_cells s s').
  { intros x Hx Hw. pose proof (single_key_ok cf cmd arity true c s (Some x) Hcf Hr Hreq Hx) as (e & n & H & He & _). rewrite H in Hp. injection Hp as <-.
    assert (E : e_write e = None) by (rewrite <- He in Hw; cbn in Hw; by destruct (e_write e)). unfold apply. rewrite E, purge_replica by done. by destruct (e_lookup e). }
  destruct cmd; try discriminate Hsig; cbn [spec1 proc] in *.
  - eapply Hone; [reflexivity|done].
  - eapply Hone; [reflexivity|]. unfold strlen_spec. by repeat case_match.
  - destruct (count_ok cf c s Hr) as [H _]. rewrite H in Hp. injection Hp as <-. by rewrite purge_all_replica.
  - eapply Hone; [reflexivity|]. unfold getrange_spec. by repeat case_match.
  - rewrite (mget_ok cf c s Hr) in Hp. injection Hp as <-. by rewrite purge_all_replica.
  - eapply Hone; [reflexivity|]. unfold ttl_spec. by repeat case_match.
  - destruct (count_ok cf c s Hr) as [H1 H2]. rewrite H2, H1 in Hp. injection Hp as <-. by rewrite purge_all_replica.
  - eapply Hone; [reflexivity|]. unfold ttl_spec. by repeat case_match.
Qed.

Lemma readonly_simple i x c s s' :
  running s -> clients_ok s -> clients s !! i = Some c -> known (argv s) x -> masterhost s = true -> CMD_WRITE x = false -> x <> Exec ->
  simple_proc cf i x s = Some (s', tt) -> same_cells s s'.
Proof.
  intros Hr Hok Hc Hk Hm Hw Hx Hp. destruct (decide (x ∈ [Multi_; Discard; Watch; Unwatch])) as [Ht|Ht].
  { destruct (transaction_ok cf Hcf i x c s Hok Hc Ht) as (s2 & H & _ & [Hg _]). rewrite H in Hp. by injection Hp as <-. }
  destruct x as [cmd ro| | | | | |]; [| |exfalso; apply Ht; solve [repeat first [apply list_elem_of_here|apply list_elem_of_further]]|done
    |exfalso; apply Ht; solve [repeat first [apply list_elem_of_here|apply list_elem_of_further]]..].
  - cbn in Hw. destruct ro; [|done]. destruct Hk as (arity & Hl & Ha & Hs). apply lookup_data in Hl as [_ Hn]. cbn [simple_proc] in Hp.
    rewrite (mbind_ok _ _ _ _ _ (the_client_ok i c s Hc)) in Hp. eapply (readonly_proc cmd arity); [done| |done|exact Hp]. by repeat split.
  - destruct (select_ok cf i c s Hok Hc Hk) as (s2 & H & _ & [Hg _]). cbn [simple_proc] in Hp. rewrite H in Hp. by injection Hp as <-.
Qed.

Lemma call_cells i h prop s s2 c2 s' :
  h (started cf s) = Some (s2, tt) -> paused s2 = false -> clients s2 !! i = Some c2 -> call cf i h prop s = Some (s', tt) -> same_cells s2 s'.
Proof.
  intros Hh Hp Hc Hcall. rewrite (call_eq cf i h prop s s2 c2 Hh Hp Hc) in Hcall. injection Hcall as <-. apply same_cells_dbs.
  destruct (finished_fields (fed prop (db c2) s s2)) as (_ & _ & -> & _). unfold fed. by destruct (prop && _).
Qed.

Lemma readonly_call i x c prop s s' :
  wf s -> paused s = false -> 0 <= fixed_time_expire s -> clients_ok s -> clients s !! i = Some c -> known (argv s) x -> masterhost s = true ->
  CMD_WRITE x = false -> x <> Exec -> call cf i (simple_proc cf i x) prop s = Some (s', tt) -> same_cells s s'.
Proof.
  intros Hw Hp Hf Hok Hc Hk Hm Hwr Hx Hcall. pose proof (running_started cf s Hw Hp Hf) as Hr. destruct (started_fields cf s) as (F1 & F2 & F3 & F4 & F5 & F6 & F7 & F8 & F9 & F10).
  pose proof (kp_ok all _ _ (keeps_started cf all s) Hok) as Hok'. destruct (kp_role _ _ _ (keeps_started cf all s)) as (R & _).
  assert (Hct : clients (started cf s) !! i = Some c) by (by rewrite F7). assert (Hkt : known (argv (started cf s)) x) by (by rewrite F5).
  destruct (simple_proc_ok cf Hcf i x c (started cf s) Hr Hok' Hct Hkt Hx) as [(s2 & H & (K & _) & _)|[_ H]]; [|by rewrite (call_none cf i _ prop s H) in Hcall].
  destruct (kp_dom _ _ _ K i ltac:(by eexists)) as [c2 Hc2]. assert (Hp2 : paused s2 = false) by (destruct (kp_role _ _ _ K) as (_ & _ & ->); congruence).
  eapply same_cells_trans; [apply same_cells_dbs, F10|]. eapply same_cells_trans; [|by eapply call_cells].
  eapply (readonly_simple i x c (started cf s) s2); try done. congruence.
Qed.

Lemma readonly_loop i q s s' :
  running s -> in_exec s = true -> clients_ok s -> is_Some (clients s !! i) -> Forall queueable q -> masterhost s = true ->
  existsb (fun a => match lookup_any (hd [] a) with Some (y, _) => CMD_WRITE y | None => false end) q = false ->
  exec_loop cf i q s = Some (s', tt) -> same_cells s s'.
Proof.
  intros Hr He Hok Hi Hq. revert s Hr He Hok Hi. induction Hq as [|a q Ha Hq IH]; intros s Hr He Hok Hi Hm Hw Hx; [by injection Hx as <-|].
  cbn [existsb] in Hw. apply orb_false_iff in Hw as [Hw1 Hw].
  destruct (exec_one cf Hcf i a s Hr He Hok Hi Ha) as [(s1 & E & (K & R & Hh) & _ & Hone)|(E & _)]; [|by rewrite E in Hx].
  rewrite E in Hx.
  eapply same_cells_trans; [|apply (IH s1)]; [|eapply running_handled; [by split|done]|by destruct R as (_ & _ & _ & _ & _ & _ & ->)|by apply K|by apply K|by destruct R as (-> & _)|done|done].
  destruct Hone as [[o ->]|(x & Hk & Hnx & Hcall)]; [by apply same_cells_dbs|]. destruct (Hk) as (arity & Hl & _). rewrite Hl in Hw1. destruct (Hi) as [c Hc].
  apply (readonly_call i x c (negb (loading s)) (set_argv a s) s1); try done; [apply Hr|apply Hr|apply Z.lt_le_incl, Hr|by apply (kp_ok all s); [apply keeps_same|]|set_solver].
Qed.

End Requests.

(** ** Correctness *)

(** C11: on a server between two requests, whatever a client sends, [processCommand]
    fails no assertion and leaves a server that is well formed and ready for the next
    request: expire times belong to keys that exist, integers are in range, the lists of
    watched keys of clients and databases agree, the queued commands can be executed, and
    no execution of a transaction is left open.  No client is lost and the role stays.
    The only case without a result is an APPEND or a SETRANGE for which the allocator
    cannot hold the string that the value of the key and the arguments make up: one that
    the client sends, or one in the queue of an EXEC, when the commands queued before it
    have been executed. *)
Theorem requests_type_safe cf k i a c s :
  config_ok cf -> idle s -> clients s !! i = Some c -> short a ->
  (exists s' o, processCommand cf k i a s = Some (s', o) /\ idle s' /\ masterhost s' = masterhost s /\
     forall j, is_Some (clients s !! j) -> is_Some (clients s' !! j)) \/
  (processCommand cf k i a s = None /\ exists x, known a x /\ runs_out cf i x c (set_argv a s)).
Proof.
  intros Hcf Hid Hc Hs. destruct (processCommand_ok cf Hcf k i a c s Hid Hc Hs) as [(s' & o & H & Hid' & [(R & _) _ _ D _] & _)|H]; [left|by right].
  exists s', o. split; [done|]. split; [done|]. by split.
Qed.

(** C5: optimistic locking.  A client watches keys; then any requests of any clients,
    its own included but for those that give up the watched keys, and steps of the
    periodic expiration follow, in any order; then it sends EXEC.  If the request is
    admitted, a transaction is open, no command was refused while it was queued, the
    client is not marked and no watched key is expired, the queued commands are executed
    one after the other, and every key of the WATCH has exactly the value and the expire
    time it had then.  In all other cases nothing is executed. *)
Theorem transactions_isolated cf k0 k i w keys evs a c0 s0 s1 s2 s3 o0 o :
  config_ok cf -> idle s0 -> clients s0 !! i = Some c0 ->
  named (w :: keys) = Some Watch -> short (w :: keys) -> processCommand cf k0 i (w :: keys) s0 = Some (s1, o0) -> out s1 = out s0 ++ [ROk] ->
  Forall event_ok evs -> Forall (fun e => ~ unwatches i e) evs -> serve_all cf evs s1 = Some (s2, tt) ->
  named a = Some Exec -> short a -> processCommand cf k i a s2 = Some (s3, o) ->
  exists c2, clients s2 !! i = Some c2 /\
    if runs cf k a c2 s2
    then executed cf i c2 s2 s3 /\ Forall (fun key => get_cell (db c0) key s2 = get_cell (db c0) key s0) keys
    else not_executed s2 s3.
Proof.
  intros Hcf Hid0 Hc0 Hw Hws H1 Ho1 Hev Hun H2 Ha Has H3. destruct (watch_accepted cf Hcf k0 i w keys c0 s0 s1 o0 Hid0 Hc0 Hw Hws H1 Ho1) as (Hg1 & c1 & Hc1 & Hall).
  assert (Hid1 : idle s1) by (destruct (processCommand_ok cf Hcf k0 i (w :: keys) c0 s0 Hid0 Hc0 Hws) as [(? & ? & E & ? & _)|[E _]]; congruence).
  destruct (serve_all_ok cf Hcf evs s1 s2 i Hid1 Hev Hun H2) as [Hid2 K]. destruct (kp_respects _ _ _ K (id_clients s1 Hid1) i eq_refl c1 Hc1) as (c2 & Hc2 & _ & Hkeys).
  exists c2. split; [done|]. pose proof (exec_request cf Hcf k i a c2 s2 s3 o Hid2 Hc2 Ha Has H3) as Hx. destruct (runs cf k a c2 s2) eqn:Er; [|done].
  split; [done|]. assert (Hd : CLIENT_DIRTY_CAS c2 = false).
  { unfold runs in Er. destruct (early_rejection k 1 a); [done|]. apply andb_prop in Er as [_ Er]. rewrite negb_true_iff in Er. unfold exec_aborts in Er.
    rewrite !orb_false_iff in Er. apply Er. }
  eapply Forall_impl; [exact Hall|]. intros key Hk. cbn in Hk. destruct (Hkeys _ _ Hk) as [_ Hne]. rewrite <- Hg1.
  destruct (decide (get_cell (db c0) key s2 = get_cell (db c0) key s1)) as [E|E]; [done|]. apply Hne in E. congruence.
Qed.

(** C6: what a request adds to the stream of commands for the replicas and the append
    only file.  A transaction adds nothing, or one block: MULTI, commands of the table
    (its writes and the deletions of keys found expired) and EXEC.  Any other request
    adds commands of the table only, so that blocks are never interleaved or left open. *)
Theorem transactions_propagated cf k i a c s s' o :
  config_ok cf -> idle s -> loading s = false -> clients s !! i = Some c -> short a -> processCommand cf k i a s = Some (s', o) ->
  exists b, log s' = log s ++ b /\ request_shape a b.
Proof.
  intros Hcf Hid Hlo Hc Hs H. destruct (processCommand_ok cf Hcf k i a c s Hid Hc Hs) as [(s2 & o2 & E & _ & _ & Hl)|[E _]]; [|congruence].
  rewrite H in E. injection E as <- <-. by apply Hl.
Qed.

Lemma rejection_readonly k s c x :
  masterhost s = true -> repl_slave_ro k = true -> CLIENT_MASTER c = false -> rejection k s c x = None -> has_flag CMD_WRITE x (mstate c) = false.
Proof.
  intros Hm Hr Hc. unfold rejection. rewrite Hm, Hr, Hc. cbn [negb andb]. rewrite !andb_false_r. cbn [andb].
  destruct (out_of_memory k && _); [done|]. by destruct (has_flag CMD_WRITE x (mstate c)).
Qed.

(** C12: a replica configured as read-only keeps its data: no request of a client that is
    not the link to the master, a transaction that was queued before included, changes
    the value or the expire time of any key, not even by expiring it. *)
Theorem replica_readonly cf k i a c s s' o :
  config_ok cf -> idle s -> masterhost s = true -> repl_slave_ro k = true -> clients s !! i = Some c -> CLIENT_MASTER c = false -> short a ->
  processCommand cf k i a s = Some (s', o) -> forall d key, get_cell d key s' = get_cell d key s.
Proof.
  intros Hcf Hid Hm Hro Hc Hcm Hs. set (t := set_argv a s). pose proof (idle_argv a s Hid) as Hidt. fold t in Hidt. pose proof (id_clients t Hidt) as Hok.
  assert (Hans : forall P r s2, answered P r t s2 -> forall d key, get_cell d key s2 = get_cell d key s) by (intros P r s2 Ha; by destruct (answered_ok _ _ _ _ Ha) as (_ & Hg & _)).
  unfold processCommand. rewrite (mbind_ok _ _ _ _ _ (not_nested_ok k s Hid)), (mbind_ok (modify (set_argv a)) _ s t tt eq_refl).
  destruct (lookup_any (hd [] a)) as [[x arity]|] eqn:El.
  2: { destruct (rejectCommand_ok cf Hcf i None UnknownCommand c t Hok Hc) as (s2 & H & Ha). rewrite (mbind_ok _ _ _ _ _ H). intros [= <- _]. by eapply Hans. }
  destruct (early_rejection k arity a) as [e|] eqn:Ee.
  { destruct (rejectCommand_ok cf Hcf i (Some x) e c t Hok Hc) as (s2 & H & Ha). rewrite (mbind_ok _ _ _ _ _ H). intros [= <- _]. by eapply Hans. }
  assert (Hk : known a x) by (exists arity; unfold early_rejection in Ee; destruct (wrong_arity _ _) eqn:Ew; done).
  pose proof (process_cases cf Hcf k i x c t Hok Hc Hk (id_paused t Hidt)) as Hp. destruct (served k c x t) eqn:Es.
  2: { destruct Hp as (s2 & r & H & Ha & _). rewrite H. intros [= <- _]. by eapply Hans. }
  assert (Hw : has_flag CMD_WRITE x (mstate c) = false).
  { unfold served in Es. destruct (rejection k t c x) eqn:Er; [by rewrite andb_false_r in Es|]. by apply (rejection_readonly k t c x). }
  rewrite Hp. unfold has_flag in Hw. apply orb_false_iff in Hw as [Hw1 Hw2]. destruct (decide (x = Exec)) as [->|Hx].
  - rewrite bool_decide_true in Hw2 by done. cbn [andb any_proc] in *. destruct (negb (CLIENT_MULTI c) || exec_aborts c (started cf t)) eqn:E.
    + destruct (exec_call_refused cf i c t Hidt Hc E) as (s2 & H & _ & _ & Hg & _). rewrite H. by intros [= <- _].
    + apply orb_false_iff in E as [Em Ea]. rewrite negb_false_iff in Em.
      destruct (exec_call_executed cf Hcf i c t Hidt Hc Em Ea) as [(s2 & H & _ & _ & (s1 & s3 & Hl & Hr & He & K & _ & Hg1 & Hg2 & _) & _)|[H _]]; rewrite H; [|done].
      intros [= <- _] d key. rewrite Hg2. transitivity (get_cell d key s1); [|apply Hg1].
      eapply (readonly_loop cf Hcf i (mstate c) s1); [done|done|by apply K|apply K; by eexists|by apply (co_queue _ Hok i)|by destruct (kp_role _ _ _ K) as (-> & _)|done|done].
  - replace (any_proc cf i x) with (simple_proc cf i x) by (by destruct x). destruct (call cf i (simple_proc cf i x) true t) as [[s2 []]|] eqn:Ec; [|done].
    intros [= <- _]. pose proof (readonly_call cf Hcf i x c true t s2) as Hg. apply Hg; try done; [apply Hidt|apply Hidt|rewrite (id_fixed t Hidt); lia].
Qed.

(** *** A run *)

Definition calm (readonly : bool) : circumstances := mk_circumstances false false false false false false readonly false false false false false.

Definition newcomer : client := mk_client 0 false false false false [] [].

(** Two clients, and one key. *)
Definition demo_server (replica : bool) : server :=
  mk_server {[ 0 := mk_db {[ demo_key := Str (Int false 7) ]} ∅ ∅ ]} {[ 1 := newcomer; 2 := newcomer ]}
    replica false false false 0 0 0 0 false false [] [] [].

Lemma demo_idle replica : idle (demo_server replica).
Proof.
  assert (Hd : forall d, db_at (demo_server replica) d = mk_db {[ demo_key := Str (Int false 7) ]} ∅ ∅ \/ db_at (demo_server replica) d = emptyDb).
  { intros d. unfold db_at. cbn [dbs demo_server]. destruct (decide (d = 0)) as [->|Hne]; [left|right]; by rewrite ?lookup_singleton_eq, ?lookup_singleton_ne. }
  assert (Hw : forall d k, watchers (demo_server replica) d k = []) by (intros d k; unfold watchers; destruct (Hd d) as [-> | ->]; done).
  assert (Hc : forall i c, clients (demo_server replica) !! i = Some c -> c = newcomer).
  { intros i c H. cbn [clients demo_server] in H. apply lookup_insert_Some in H as [[_ <-]|[_ H]]; [done|]. by apply lookup_singleton_Some in H as [_ <-]. }
  split; try done.
  - intros d. destruct (Hd d) as [-> | ->]; split; cbn; try done; try (intros k []; done). intros k v Hk. apply lookup_singleton_Some in Hk as [_ <-]. by vm_compute.
  - split.
    + intros d k i. rewrite Hw. split; [by intros ?%elem_of_nil|]. intros (c & Hi & Hk). apply Hc in Hi. subst. by apply elem_of_nil in Hk.
    + intros i c Hi. apply Hc in Hi. subst. constructor.
    + intros d k. rewrite Hw. constructor.
    + intros i c Hi. apply Hc in Hi. subst. constructor.
Qed.

Definition after (k : circumstances) (i : Z) (a : list bytes) (s : server) : server :=
  match processCommand demo_config k i a s with Some (s', _) => s' | None => s end.

Definition watch_request : list bytes := [bytes_of_string "WATCH"; demo_key].
Definition exec_request_args : list bytes := [bytes_of_string "EXEC"].
Definition watched_server : server := after (calm false) 1 watch_request (demo_server false).

(** The client opens a transaction and queues a command, while the other one reads. *)
Definition demo_events : list event :=
  [Request (calm false) 1 [bytes_of_string "MULTI"]; Request (calm false) 2 [bytes_of_string "GET"; demo_key]; Request (calm false) 1 [bytes_of_string "INCR"; demo_key]].

Definition queued_server : server := match serve_all demo_config demo_events watched_server with Some (s, _) => s | None => watched_server end.

Lemma requests_type_safe_witness : exists s' o, processCommand demo_config (calm false) 1 [bytes_of_string "INCR"; demo_key] (demo_server false) = Some (s', o) /\ idle s'.
Proof.
  destruct (requests_type_safe demo_config (calm false) 1 [bytes_of_string "INCR"; demo_key] newcomer (demo_server false) demo_config_ok (demo_idle false) eq_refl) as [(s' & o & H & Hid & _)|[H _]].
  - repeat (apply Forall_cons; split); done.
  - by exists s', o.
  - exfalso. vm_compute in H. discriminate H.
Defined.

Lemma transactions_isolated_witness :
  exists s3, processCommand demo_config (calm false) 1 exec_request_args queued_server = Some (s3, Processed) /\
    (exists c2, executed demo_config 1 c2 queued_server s3) /\ get_cell 0 demo_key queued_server = get_cell 0 demo_key (demo_server false).
Proof.
  exists (after (calm false) 1 exec_request_args queued_server).
  assert (H3 : processCommand demo_config (calm false) 1 exec_request_args queued_server = Some (after (calm false) 1 exec_request_args queued_server, Processed)) by (vm_compute; reflexivity).
  split; [exact H3|].
  destruct (transactions_isolated demo_config (calm false) (calm false) 1 (bytes_of_string "WATCH") [demo_key] demo_events exec_request_args newcomer
    (demo_server false) watched_server queued_server (after (calm false) 1 exec_request_args queued_server) Processed Processed demo_config_ok (demo_idle false) eq_refl eq_refl) as (c2 & Hc2 & H).
  - repeat (apply Forall_cons; split); done.
  - vm_compute. reflexivity.
  - vm_compute. reflexivity.
  - repeat (apply Forall_cons; split); try done; repeat (apply Forall_cons; split); done.
  - repeat (apply Forall_cons; split); [..|done]; (intros [E H]; discriminate E) || (intros [_ H]; revert H; apply (bool_decide_eq_false_1 _); vm_compute; reflexivity).
  - vm_compute. reflexivity.
  - reflexivity.
  - repeat (apply Forall_cons; split); done.
  - exact H3.
  - assert (Hr : runs demo_config (calm false) exec_request_args c2 queued_server = true).
    { assert (E : clients queued_server !! 1 = Some (mk_client 0 false true false false [[bytes_of_string "INCR"; demo_key]] [(0, demo_key)])) by (vm_compute; reflexivity).
      rewrite E in Hc2. injection Hc2 as <-. vm_compute. reflexivity. }
    rewrite Hr in H. destruct H as [Hx Hf]. split; [by exists c2|]. by apply Forall_cons_1 in Hf as [? _].
Defined.

Lemma queued_idle : idle queued_server.
Proof.
  eapply (serve_all_ok demo_config demo_config_ok (Request (calm false) 1 watch_request :: demo_events) (demo_server false) queued_server 3); [apply demo_idle| | |vm_compute; reflexivity].
  - repeat (apply Forall_cons; split); try done; repeat (apply Forall_cons; split); done.
  - repeat (apply Forall_cons; split); [..|done]; intros [E H]; discriminate E.
Qed.

Lemma transactions_propagated_witness :
  log (after (calm false) 1 exec_request_args queued_server) =
    [(0, [bytes_of_string "MULTI"]); (0, [bytes_of_string "INCR"; demo_key]); (0, exec_request_args)] /\
  exists b, log (after (calm false) 1 exec_request_args queued_server) = log queued_server ++ b /\ request_shape exec_request_args b.
Proof.
  split; [vm_compute; reflexivity|].
  apply (transactions_propagated demo_config (calm false) 1 exec_request_args (mk_client 0 false true false false [[bytes_of_string "INCR"; demo_key]] [(0, demo_key)]) queued_server _ Processed
    demo_config_ok queued_idle); [vm_compute; reflexivity|vm_compute; reflexivity|repeat (apply Forall_cons; split); done|vm_compute; reflexivity].
Defined.

Lemma replica_readonly_witness :
  exists s' o, processCommand demo_config (calm true) 1 [bytes_of_string "SET"; demo_key; demo_key] (demo_server true) = Some (s', o) /\
    get_cell 0 demo_key s' = Some (Str (Int false 7), None).
Proof.
  exists (after (calm true) 1 [bytes_of_string "SET"; demo_key; demo_key] (demo_server true)), Processed.
  assert (H : processCommand demo_config (calm true) 1 [bytes_of_string "SET"; demo_key; demo_key] (demo_server true) =
    Some (after (calm true) 1 [bytes_of_string "SET"; demo_key; demo_key] (demo_server true), Processed)) by (vm_compute; reflexivity).
  split; [exact H|]. transitivity (get_cell 0 demo_key (demo_server true)); [|vm_compute; reflexivity].
  apply (replica_readonly demo_config (calm true) 1 [bytes_of_string "SET"; demo_key; demo_key] newcomer (demo_server true) _ Processed
    demo_config_ok (demo_idle true) eq_refl eq_refl eq_refl eq_refl); [|exact H]. repeat (apply Forall_cons; split); done.
Defined.

End Requests.
