(* ===== verification/Convergence.v ===== *)
(** * Replicas converge ([replication.c], [server.c], [multi.c], [db.c])

    A master executes requests and propagates commands; a replica executes these commands
    as requests of its link to the master.  Both run the functions of Multi.v, each with
    its own clock and configuration.  What the master propagates describes what it did:
    the replica ends with the same values and the same volatile keys, whatever was
    rewritten, found expired or executed in a transaction. *)

From Stdlib Require Import ZArith Lia.
From stdpp Require Import base option list numbers strings gmap.
From S2P Require Import Prelude Util Rdb Keyspace Strings StringsSpec Commands Multi Requests Replication.

#[local] Open Scope Z_scope.

Module Convergence.
Import Util Rdb Keyspace Strings StringsSpec Commands Multi Requests.

#[local] Open Scope keyspace_scope.

(** ** Agreement *)

(** The same value, and an expire time on both sides or on none: relative expire times are
    added to different clocks. *)
Definition alike (c c' : acell) : Prop :=
  match c, c' with
  | None, None => True
  | Some (v, t), Some (v', t') =>
      v = v' /\ match t, t' with None, None => True | Some w, Some w' => 0 <= w /\ 0 <= w' | _, _ => False end
  | _, _ => False
  end.

Definition keyspace : Type := Z -> bytes -> acell.

Definition cells (s : server) : keyspace := fun d k => abs (get_cell d k s).

Definition agree (K : keyspace) (r : server) : Prop := forall d k, alike (K d k) (cells r d k).

(** Two keyspaces with the same cells. *)
Definition same (K K' : keyspace) : Prop := forall d k, K' d k = K d k.

Definition upd (d : Z) (k : bytes) (c : acell) (K : keyspace) : keyspace :=
  fun d' k' => if decide ((d', k') = (d, k)) then c else K d' k'.

Definition drop_cells (d : Z) (keys : list bytes) (K : keyspace) : keyspace :=
  fun d' k' => if decide (d' = d /\ k' ∈ keys) then None else K d' k'.

(** The milliseconds a propagated command adds to the clock. *)
Definition relative (a : list bytes) : option Z :=
  match lookupCommand (hd [] a) with
  | Some (Expire, _, _) => (fun v => v * 1000) <$> as_int (nth 2 a [])
  | Some (Pexpire, _, _) => as_int (nth 2 a [])
  | Some (Set_, _, _) =>
      match parse_options COMMAND_SET (drop 3 a) OBJ_NO_FLAGS UNIT_SECONDS None with
      | Some (f, u, Some x) => if OBJ_PX f || OBJ_EX f then (fun v => if seconds u then v * 1000 else v) <$> as_int x else None
      | _ => None
      end
  | _ => None
  end.

(** The expire time such a command gives on this instance fits. *)
Definition in_time (cf : config) (a : list bytes) : Prop := forall ms n, relative a = Some ms -> 0 <= ms + clock cf n < 2 ^ 63.

Lemma alike_some c c' : alike c c' -> bool_decide (is_Some c') = bool_decide (is_Some c) /\ bool_decide (c' = None) = bool_decide (c = None) /\
  is_object c' = is_object c /\ content c' = content c /\ (fst <$> c') = (fst <$> c).
Proof. by destruct c as [[v t]|], c' as [[v' t']|]; cbn [alike]; intros H; try done; destruct H as [<- _]. Qed.

Lemma alike_ttl c c' v : alike c c' -> alike (Some (v, ttl_of c)) (Some (v, ttl_of c')).
Proof. by destruct c as [[? t]|], c' as [[? t']|]; cbn; intros H; try done; destruct H as [_ H]. Qed.

Lemma readable_master d k r : masterhost r = true -> readable (mk_caller d true false) k r = get_cell d k r.
Proof. intros Hm. unfold readable, live. cbn. by rewrite Hm, !andb_false_r. Qed.

Section Converge.

Context (cfm cfr : config) (Hcfm : config_ok cfm) (Hcfr : config_ok cfr).

(** The replica has the memory for what the master could store. *)
Context (Hmem : forall n, can_hold cfm n = true -> can_hold cfr n = true).

(** ** Commands that are executed again *)

(** A replica that agrees with [K] agrees with [K'] after it has executed the command as
    its master's client. *)
Definition redoes (e : Z * list bytes) (K K' : keyspace) : Prop :=
  short (snd e) -> in_time cfr (snd e) ->
  exists cmd arity, lookupCommand (hd [] (snd e)) = Some (cmd, arity, false) /\ wrong_arity arity (Z.of_nat (length (snd e))) = false /\
  forall r, running r -> masterhost r = true -> argv r = snd e -> agree K r ->
    exists r', proc cfr cmd (mk_caller (fst e) true false) r = Some (r', tt) /\ agree K' r'.

Lemma table_of name cmd arity readonly : lookupCommand name = Some (cmd, arity, readonly) -> exists n, (n, cmd, arity, readonly) ∈ redisCommandTable.
Proof.
  intros H. apply (lookup_data name cmd readonly arity). unfold lookup_any. by rewrite H.
Qed.

Lemma redoes_one d a cmd arity w K :
  lookupCommand (hd [] a) = Some (cmd, arity, false) -> wrong_arity arity (Z.of_nat (length a)) = false ->
  (forall n c', in_time cfr a -> alike (K d (nth 1 a [])) c' ->
     exists x w', spec1 cfr cmd a (fun i => clock cfr (i + n)) true true c' = Some (Some x) /\ e_write x = Some w' /\ alike w w') ->
  redoes (d, a) K (upd d (nth 1 a []) w K).
Proof.
  intros Hl Har Hone Hs Ht. exists cmd, arity. split; [done|]. split; [done|]. cbn [fst snd]. intros r Hrun Hm Ha Hag.
  destruct (Hone (ticks r) (cells r d (nth 1 a [])) Ht (Hag d _)) as (x & w' & Hx & Hw & Hal). set (c := mk_caller d true false).
  assert (Hreq : request cmd arity false c r) by (split; [by eapply table_of|]; rewrite Ha; by repeat split).
  assert (Hsp : spec1 cfr cmd (argv r) (readings cfr r) (loading r || masterhost r) (c_master c) (abs (readable c (nth 1 (argv r) []) r)) = Some (Some x)).
  { rewrite Ha, Hm, orb_true_r. unfold c. rewrite readable_master by done. exact Hx. }
  pose proof (single_key_ok cfr cmd arity false c r (Some x) Hcfr Hrun Hreq Hsp) as (e & n & Hp & He & _).
  eexists. split; [exact Hp|]. rewrite Ha in *. destruct (performed_apply cfr d (nth 1 a []) e r n) as [Hc Ho _ _ _ _]. rewrite He, Hw in Hc.
  intros d' k'. unfold upd, cells. case_decide as E.
  - injection E as -> ->. cbn [c_db c]. rewrite Hc. exact Hal.
  - cbn [c_db c]. rewrite Ho by done. apply Hag.
Qed.

Lemma cells_del cf d keys s : same (drop_cells d keys (cells s)) (cells (foldl (del1 cf d) s keys)).
Proof.
  revert s. induction keys as [|k keys IH]; intros s d' k'; cbn [foldl].
  { unfold drop_cells. rewrite decide_False; [done|]. by intros [_ []%elem_of_nil]. }
  rewrite IH. unfold drop_cells.
  assert (Hd : cells (del1 cf d s k) d' k' = if decide ((d', k') = (d, k)) then None else cells s d' k').
  { unfold cells, del1. case_decide as E.
    - injection E as -> ->. destruct (live d k s) as [x|] eqn:El.
      + change (get_cell d k (set_dirty ?n ?y)) with (get_cell d k y). by rewrite get_touch, get_put.
      + by rewrite get_purge, El.
    - destruct (live d k s).
      + change (get_cell d' k' (set_dirty ?n ?y)) with (get_cell d' k' y). by rewrite get_touch, get_put_ne, get_purge_ne.
      + by rewrite get_purge_ne. }
  rewrite Hd. destruct (decide (d' = d /\ k' ∈ keys)) as [[-> Hk]|Hn].
  - by rewrite decide_True by (split; [done|by apply list_elem_of_further]).
  - destruct (decide ((d', k') = (d, k))) as [[= -> ->]|Hne]; [by rewrite decide_True by (split; [done|apply list_elem_of_here])|].
    rewrite decide_False; [done|]. intros [-> [->|Hk]%elem_of_cons]; [done|]. by apply Hn.
Qed.

Lemma drop_agree d keys K r r' : agree K r -> same (drop_cells d keys (cells r)) (cells r') -> agree (drop_cells d keys K) r'.
Proof. intros Ha Hs d' k'. rewrite Hs. unfold drop_cells. case_decide; [done|apply Ha]. Qed.

Lemma redoes_del d a K cmd :
  lookupCommand (hd [] a) = Some (cmd, -2, false) -> cmd = Del \/ cmd = Unlink -> wrong_arity (-2) (Z.of_nat (length a)) = false ->
  redoes (d, a) K (drop_cells d (drop 1 a) K).
Proof.
  intros Hl Hc Har _ _. exists cmd, (-2). split; [done|]. split; [done|]. intros r Hrun Hm Ha Hag. cbn [fst snd] in *.
  set (c := mk_caller d true false). set (s' := foldl (del1 cfr d) r (drop 1 (argv r))).
  exists (set_out (out s' ++ [RInt (dirty s' - dirty r)]) s'). split; [by destruct Hc as [->| ->]; apply (delGeneric_ok cfr c r Hrun)|].
  eapply drop_agree; [exact Hag|]. rewrite <- Ha. intros d' k'. apply (cells_del cfr d (drop 1 (argv r)) r).
Qed.

Lemma redoes_ext e K1 K1' K2 K2' : same K1 K2 -> same K1' K2' -> redoes e K1 K1' -> redoes e K2 K2'.
Proof.
  intros H1 H2 H Hs Ht. destruct (H Hs Ht) as (cmd & arity & Hl & Ha & Hr). exists cmd, arity. split; [done|]. split; [done|].
  intros r Hrun Hm Hargv Hag. destruct (Hr r Hrun Hm Hargv) as (r' & Hp & Hag'); [intros d k; rewrite <- H1; apply Hag|].
  exists r'. split; [done|]. intros d k. rewrite H2. apply Hag'.
Qed.

Lemma redoes_deletion lazy d k K : redoes (d, [del_name lazy; k]) K (upd d k None K).
Proof.
  eapply redoes_ext; [| |apply (redoes_del d [del_name lazy; k] K (if lazy then Unlink else Del)); [by destruct lazy|destruct lazy; auto|done]]; [done|].
  intros d' k'. unfold upd, drop_cells. cbn [drop]. repeat case_decide; try done; exfalso.
  - match goal with H : ~ (_ /\ _), E : (_, _) = _ |- _ => injection E as -> ->; apply H; split; [done|apply list_elem_of_here] end.
  - match goal with H : _ /\ _, E : ~ _ = _ |- _ => destruct H as [-> H%list_elem_of_singleton]; subst; done end.
Qed.

(** *** SET *)

Lemma as_int_sdec v : is_s 64 v -> as_int (sdec v) = Some v.
Proof. intros Hv. by apply as_int_spec. Qed.

Lemma parse_px (absolute : bool) x :
  parse_options COMMAND_SET [bytes_of_string (if absolute then "PXAT" else "PX"); x] OBJ_NO_FLAGS UNIT_SECONDS None =
    Some (mk_flags false false false (negb absolute) false false false absolute false, UNIT_MILLISECONDS, Some x).
Proof. by destruct absolute. Qed.

Lemma redoes_set_px d key val (absolute : bool) ms when K :
  0 < ms -> is_s 64 ms -> 0 <= when ->
  redoes (d, [bytes_of_string "SET"; key; val; bytes_of_string (if absolute then "PXAT" else "PX"); sdec ms]) K (upd d key (Some (AStr val, Some when)) K).
Proof.
  intros Hms Hs Hw. set (a := [_; key; val; _; _]). apply (redoes_one d a Set_ (-3)); [done|done|]. intros n c' Ht _.
  cbn [spec1 a drop nth]. rewrite parse_px. unfold set_spec, expire_spec. rewrite as_int_sdec by done. cbn [seconds OBJ_PX OBJ_EX].
  set (when' := if negb absolute || false then _ else ms).
  assert (Hw' : 0 <= when' < 2 ^ 63).
  { unfold when'. destruct absolute; cbn; [unfold is_s in Hs; change (2 ^ (64 - 1)) with (2 ^ 63) in Hs; lia|]. apply Ht.
    unfold relative, a. cbn [hd drop]. change (lookupCommand (bytes_of_string "SET")) with (Some (Set_, -3, false)). cbn iota. rewrite (parse_px false).
    cbn. by rewrite as_int_sdec. }
  rewrite (proj2 (Z.ltb_lt 0 ms)), (proj2 (in_range_spec ms) Hs), (proj2 (in_range_spec when')) by (done || (split; [|exact (proj2 Hw')]; lia)).
  cbn [andb]. unfold set_checked_spec, set_refused. cbn [OBJ_SET_NX OBJ_SET_XX OBJ_SET_GET andb orb].
  eexists _, _. split; [reflexivity|]. split; [reflexivity|]. cbn. split; [done|]. lia.
Qed.

Definition no_get (f : flags) : flags :=
  mk_flags (OBJ_SET_NX f) (OBJ_SET_XX f) (OBJ_EX f) (OBJ_PX f) (OBJ_KEEPTTL f) false (OBJ_EXAT f) (OBJ_PXAT f) (OBJ_PERSIST f).

Lemma parse_keeps_expire t l f u x r : parse_options t l f u (Some x) = Some r -> snd r <> None.
Proof.
  remember (length l) as n eqn:Hn. revert l f u x Hn. induction (lt_wf n) as [n _ IH]. intros l [nx xx ex px keep get exat pxat persist] u x -> H.
  destruct l as [|opt l]; cbn [parse_options] in H; [by injection H as <-|].
  repeat match type of H with context [if ?b then _ else _] => destruct b; [by eapply (IH (length l)); [cbn; lia|reflexivity|exact H]|] end.
  destruct l as [|y l]; [done|].
  repeat match type of H with context [if ?b then _ else _] => destruct b; [by eapply (IH (length l)); [cbn; lia|reflexivity|exact H]|] end. done.
Qed.

Lemma other_opt name opt : is_opt "get" opt = true -> bytes_of_string name <> bytes_of_string "get" -> is_opt name opt = false.
Proof. unfold is_opt, strcase_is. rewrite bool_decide_eq_true, bool_decide_eq_false. intros H Hne E. congruence. Qed.

(** Without GET the options mean the same otherwise, if they give no expire time. *)
Lemma parse_strip l f u f' u' :
  parse_options COMMAND_SET l f u None = Some (f', u', None) ->
  parse_options COMMAND_SET (filter (fun x => is_opt "get" x = false) l) (no_get f) u None = Some (no_get f', u', None).
Proof.
  revert f u. induction l as [|opt l IH]; intros [nx xx ex px keep get exat pxat persist] u H.
  { cbn in H |- *. by injection H as <- <-. }
  rewrite filter_cons. destruct (is_opt "get" opt) eqn:Eg.
  - rewrite decide_False by done. cbn [parse_options] in H.
    pose proof (fun name => other_opt name opt Eg) as Ho. rewrite (Ho "nx"), (Ho "xx"), (Ho "keepttl"), (Ho "persist"), (Ho "ex"), (Ho "px"), (Ho "exat"), (Ho "pxat"), Eg in H by done. cbn [andb] in H. destruct (negb nx && true); [by apply (IH _ _ H)|].
    by destruct l as [|y l].
  - rewrite decide_True by done. cbn [parse_options no_get OBJ_SET_NX OBJ_SET_XX OBJ_EX OBJ_PX OBJ_KEEPTTL OBJ_EXAT OBJ_PXAT OBJ_PERSIST] in *.
    rewrite Eg in *. cbn [andb negb] in *.
    assert (Hget : is_opt "nx" opt && negb xx && negb get && true = true -> is_opt "nx" opt && negb xx && true && true = true)
      by (intros ?; destruct (is_opt "nx" opt), xx; done).
    destruct (is_opt "nx" opt && negb xx && negb get && true) eqn:E1; [rewrite Hget by done; by apply (IH _ _ H)|].
    destruct (is_opt "nx" opt && negb xx && true && true) eqn:E1'.
    { exfalso. assert (En : is_opt "nx" opt = true) by (by destruct (is_opt "nx" opt)).
      assert (Ho : forall name, bytes_of_string name <> bytes_of_string "nx" -> is_opt name opt = false).
      { intros name Hne. unfold is_opt, strcase_is in *. rewrite bool_decide_eq_true in En. rewrite bool_decide_eq_false. congruence. }
      rewrite (Ho "xx"), (Ho "keepttl"), (Ho "persist"), (Ho "ex"), (Ho "px"), (Ho "exat"), (Ho "pxat") in H by done. cbn [andb] in H. by destruct l. }
    destruct (is_opt "xx" opt && negb nx && true); [by apply (IH _ _ H)|].
    match goal with |- (if ?b then _ else _) = _ => destruct b; [by apply (IH _ _ H)|] end.
    match goal with |- (if ?b then _ else _) = _ => destruct b; [by apply (IH _ _ H)|] end.
    exfalso. destruct l as [|y l]; [done|].
    repeat match type of H with context [if ?b then _ else _] => destruct b; [by apply parse_keeps_expire in H|] end. done.
Qed.

Lemma redoes_set d a f u w K :
  lookupCommand (hd [] a) = Some (Set_, -3, false) -> wrong_arity (-3) (Z.of_nat (length a)) = false ->
  parse_options COMMAND_SET (drop 3 a) OBJ_NO_FLAGS UNIT_SECONDS None = Some (f, u, None) ->
  OBJ_SET_GET f = false -> set_refused (K d (nth 1 a [])) f = false ->
  w = Some (AStr (nth 2 a []), if OBJ_KEEPTTL f then ttl_of (K d (nth 1 a [])) else None) ->
  redoes (d, a) K (upd d (nth 1 a []) w K).
Proof.
  intros Hl Har Hp Hg Href ->. apply (redoes_one d a Set_ (-3)); [done|done|]. intros n c' _ Hal. cbn [spec1]. rewrite Hp.
  unfold set_spec, set_checked_spec. destruct (alike_some _ _ Hal) as (E1 & E2 & _).
  assert (Hr' : set_refused c' f = false) by (unfold set_refused in *; by rewrite E1, E2). rewrite Hr', Hg. cbn [andb].
  eexists _, _. split; [reflexivity|]. split; [reflexivity|]. destruct (OBJ_KEEPTTL f); [by apply alike_ttl|done].
Qed.

Lemma strip_get_ok a : wrong_arity (-3) (Z.of_nat (length a)) = false ->
  hd [] (strip_get a) = hd [] a /\ nth 1 (strip_get a) [] = nth 1 a [] /\ nth 2 (strip_get a) [] = nth 2 a [] /\
  drop 3 (strip_get a) = filter (fun x => is_opt "get" x = false) (drop 3 a) /\ wrong_arity (-3) (Z.of_nat (length (strip_get a))) = false.
Proof.
  unfold wrong_arity. intros Ha. destruct a as [|x [|y [|z l]]]; try discriminate Ha. unfold strip_get. cbn [take drop]. rewrite ?take_0, ?drop_0.
  cbn [app]. split_and!; try done. apply Z.ltb_ge. cbn [length]. lia.
Qed.

(** The times of SET and GETEX. *)
Lemma expire_spec_ok t f u x ms when :
  (forall n, 0 <= t n) -> expire_spec t f u x = inl (ms, when) ->
  0 < ms /\ is_s 64 ms /\ 0 <= when /\ is_s 64 when /\ (OBJ_PX f || OBJ_EX f = false -> when = ms).
Proof.
  intros Ht. unfold expire_spec. destruct (as_int x) as [v|]; [|done]. destruct (_ && _) eqn:E; [|done]. intros [= <- <-].
  apply andb_prop in E as [E Hw]. apply andb_prop in E as [Hv Hms]. apply Z.ltb_lt in Hv. rewrite in_range_spec in Hms, Hw. specialize (Ht 0%nat).
  split; [destruct (seconds u); lia|]. split; [done|]. split; [destruct (_ || _), (seconds u); lia|]. split; [done|]. by intros ->.
Qed.

Lemma set_redone d a t f v e u ok ab x w K :
  (forall n, 0 <= t n) -> set_spec a t (K d (nth 1 a [])) f v e u ok ab = x -> e_write x = Some w ->
  (exists when absolute ms, w = Some (AStr v, Some when) /\ redoes (d, e_argv x) K (upd d (nth 1 a []) w K) /\
     e_argv x = [bytes_of_string "SET"; nth 1 a []; v; bytes_of_string (if absolute : bool then "PXAT" else "PX"); sdec ms]) \/
  (e = None /\ set_refused (K d (nth 1 a [])) f = false /\ w = Some (AStr v, if OBJ_KEEPTTL f then ttl_of (K d (nth 1 a [])) else None) /\
     e_argv x = if OBJ_SET_GET f then strip_get a else a).
Proof.
  intros Ht <-. unfold set_spec, set_checked_spec. destruct e as [y|].
  - destruct (expire_spec t f u y) as [[ms when]|] eqn:E; [|done]. destruct (set_refused _ f); [done|]. destruct (_ && _); [done|]. cbn [e_write e_argv]. intros [= <-].
    destruct (expire_spec_ok t f u y ms when Ht E) as (Hms & Hs & Hw & _). left. exists when, (OBJ_PXAT f || OBJ_EXAT f), ms. split; [done|]. split; [|done].
    by apply redoes_set_px.
  - destruct (set_refused _ f) eqn:Er; [done|]. destruct (_ && _); [done|]. cbn [e_write e_argv]. intros [= <-]. right. done.
Qed.

(** *** Expire times *)

Lemma in_range_pos v : 0 <= v < 2 ^ 63 -> in_range v = true.
Proof. intros Hv. apply in_range_spec. split; [lia|exact (proj2 Hv)]. Qed.

(** Whether the time is relative, and its unit. *)
Definition expire_kind (cmd : command) : option (bool * time_unit) :=
  match cmd with
  | Expire => Some (true, UNIT_SECONDS)
  | Expireat => Some (false, UNIT_SECONDS)
  | Pexpire => Some (true, UNIT_MILLISECONDS)
  | Pexpireat => Some (false, UNIT_MILLISECONDS)
  | _ => None
  end.

Definition in_ms (u : time_unit) (v : Z) : Z := if seconds u then v * 1000 else v.

Lemma redoes_expire d a cmd (rel : bool) u v x ttl when K :
  lookupCommand (hd [] a) = Some (cmd, 3, false) -> wrong_arity 3 (Z.of_nat (length a)) = false -> expire_kind cmd = Some (rel, u) ->
  as_int (nth 2 a []) = Some x -> in_range (in_ms u x) = true -> (rel = false -> 0 <= in_ms u x) ->
  K d (nth 1 a []) = Some (v, ttl) -> 0 <= when ->
  redoes (d, a) K (upd d (nth 1 a []) (Some (v, Some when)) K).
Proof.
  intros Hl Har Hk Hx Hms Habs Hc Hw. apply (redoes_one d a cmd 3); [done|done|]. intros n c' Ht Hal. rewrite Hc in Hal.
  assert (Hbase : forall base now, (rel = true -> exists m, base = clock cfr m) -> (rel = false -> base = 0) ->
    exists w', expireat_spec cfr a true c' base now u (nth 2 a []) = mk_effect true (Some (Some (v, Some w'))) [RInt 1] a /\ 0 <= w').
  { intros base now H1 H2. unfold expireat_spec. rewrite Hx. fold (in_ms u x). rewrite Hms.
    assert (Hwh : 0 <= in_ms u x + base < 2 ^ 63).
    { destruct rel.
      - destruct (H1 eq_refl) as [m ->]. apply Ht. unfold relative. rewrite Hl, Hx. by destruct cmd; try discriminate Hk; injection Hk as <-.
      - rewrite H2, Z.add_0_r by done. split; [by apply Habs|]. apply in_range_spec in Hms. apply Hms. }
    rewrite in_range_pos by done. cbn [andb negb]. destruct c' as [[v' t']|]; [|done]. destruct Hal as [<- _]. rewrite andb_false_r. eexists. split; [reflexivity|]. lia. }
  assert (Hall : forall base now, (rel = true -> exists m, base = clock cfr m) -> (rel = false -> base = 0) ->
    exists x0 w', Some (Some (expireat_spec cfr a true c' base now u (nth 2 a []))) = Some (Some x0) /\ e_write x0 = Some w' /\ alike (Some (v, Some when)) w').
  { intros base now H1 H2. destruct (Hbase base now H1 H2) as (w' & -> & Hw'). eexists _, _. split; [reflexivity|]. split; [reflexivity|]. done. }
  destruct cmd; try discriminate Hk; injection Hk as <- <-; cbn [spec1]; apply Hall; first [done|intros _; by eexists].
Qed.

Lemma expire_redone d a cmd rel u t0 now x w K :
  lookupCommand (hd [] a) = Some (cmd, 3, false) -> wrong_arity 3 (Z.of_nat (length a)) = false -> expire_kind cmd = Some (rel, u) ->
  0 <= now -> (rel = false -> t0 = 0) ->
  expireat_spec cfm a false (K d (nth 1 a [])) t0 now u (nth 2 a []) = x -> e_write x = Some w ->
  redoes (d, e_argv x) K (upd d (nth 1 a []) w K).
Proof.
  intros Hl Har Hk Hnow Ht0 <-. unfold expireat_spec. destruct (as_int (nth 2 a [])) as [y|] eqn:Ey; [|done]. fold (in_ms u y).
  destruct (in_range (in_ms u y)) eqn:Ems; [|done]. cbn [andb]. destruct (in_range (in_ms u y + t0)); [|done]. cbn [negb].
  destruct (K d (nth 1 a [])) as [[v ttl]|] eqn:Ec; [|done]. destruct (Z.leb_spec (in_ms u y + t0) now) as [Hle|Hgt]; cbn [andb negb e_write e_argv]; intros [= <-].
  - apply redoes_deletion.
  - eapply redoes_expire; try done; [|lia]. intros Hr. rewrite (Ht0 Hr), Z.add_0_r in Hgt. lia.
Qed.

Lemma getex_redone d a t f u e x w K :
  (forall n, 0 <= t n) ->
  getex_spec cfm a t false (K d (nth 1 a [])) f u e = x -> e_write x = Some w -> redoes (d, e_argv x) K (upd d (nth 1 a []) w K).
Proof.
  intros Ht <-. unfold getex_spec. destruct (K d (nth 1 a [])) as [[[b|] ttl]|] eqn:Ec; try done. destruct e as [y|].
  - destruct (expire_spec t f u y) as [[ms when]|] eqn:E; [|done]. destruct (expire_spec_ok t f u y ms when Ht E) as (Hms & Hs & Hw & _ & Habs).
    unfold getex_checked_spec. destruct (_ && _ && _); cbn [e_write e_argv]; intros [= <-]; [apply redoes_deletion|].
    set (a' := [_; nth 1 a []; sdec ms]). assert (Hi : as_int (nth 2 a' []) = Some ms) by (by apply as_int_sdec).
    destruct (OBJ_PXAT f || OBJ_EXAT f) eqn:Ea.
    + apply (redoes_expire d a' Pexpireat false UNIT_MILLISECONDS (AStr b) ms ttl when); try done; [by apply in_range_spec|cbn; lia].
    + apply (redoes_expire d a' Pexpire true UNIT_MILLISECONDS (AStr b) ms ttl when); try done. by apply in_range_spec.
  - unfold getex_checked_spec. destruct (OBJ_PERSIST f && _) eqn:E; [|done]. cbn [e_write e_argv]. intros [= <-]. apply andb_prop in E as [_ E].
    apply (redoes_one d [bytes_of_string "PERSIST"; nth 1 a []] Persist 2); [done|done|]. intros n c' _ Hal. cbn [nth] in Hal. rewrite Ec in Hal.
    destruct ttl as [w0|]; [|done]. destruct c' as [[v' [t'|]]|]; try done; [|by destruct Hal]. destruct Hal as [<- _]. eexists _, _. split; [reflexivity|]. done.
Qed.

(** *** All commands on one key *)

Lemma incr_redone d a cmd arity i x w K :
  lookupCommand (hd [] a) = Some (cmd, arity, false) -> wrong_arity arity (Z.of_nat (length a)) = false ->
  (forall cf t follower cmaster c, spec1 cf cmd a t follower cmaster c = Some (Some (incr_spec a c i))) ->
  incr_spec a (K d (nth 1 a [])) i = x -> e_write x = Some w -> redoes (d, e_argv x) K (upd d (nth 1 a []) w K).
Proof.
  intros Hl Har Hsp <-. unfold incr_spec. destruct (is_object _) eqn:Eo; [done|]. set (old := match K d _ with Some (AStr b, _) => _ | _ => _ end).
  destruct old as [v|] eqn:Eold; [|done]. destruct (in_range (v + i)) eqn:Er; [|done]. cbn [e_write e_argv]. intros [= <-].
  apply (redoes_one d a cmd arity); [done|done|]. intros n c' _ Hal. rewrite Hsp. unfold incr_spec. destruct (alike_some _ _ Hal) as (_ & _ & -> & _ & Hf). rewrite Eo.
  assert (E : (match c' with Some (AStr b, _) => as_int b | _ => Some 0 end) = Some v).
  { unfold old in Eold. destruct c' as [[v' t']|], (K d (nth 1 a [])) as [[v0 t0]|]; cbn in Hf; try done. by injection Hf as <-. }
  rewrite E, Er. eexists _, _. split; [reflexivity|]. split; [reflexivity|]. by apply alike_ttl.
Qed.

(** The command only answers. *)
Ltac no_write Hs Hw := injection Hs as <-; discriminate Hw.

Lemma append_redone d a cm v x w K :
  lookupCommand (hd [] a) = Some (Append, 3, false) -> wrong_arity 3 (Z.of_nat (length a)) = false -> v = nth 2 a [] ->
  append_spec cfm a cm (K d (nth 1 a [])) v = Some x -> e_write x = Some w -> redoes (d, e_argv x) K (upd d (nth 1 a []) w K).
Proof.
  intros Hl Har -> Hs Hw.
  assert (Ha : e_argv x = a) by (unfold append_spec in Hs; repeat case_match; by simplify_eq). rewrite Ha.
  apply (redoes_one d a Append 3); [done|done|]. intros n c' _ Hal. cbn [spec1]. unfold append_spec in *. cbn [negb andb].
  destruct (K d (nth 1 a [])) as [[[b|] t]|], c' as [[v' t']|]; cbn [alike] in Hal; try done; [destruct Hal as [<- Ht]|..].
  - destruct (_ && _); [no_write Hs Hw|]. destruct (can_hold cfm _) eqn:E; [|done]. cbn [negb] in Hs. injection Hs as <-. injection Hw as <-.
    rewrite (Hmem _ E). cbn [negb]. eexists _, _. split; [reflexivity|]. split; [reflexivity|]. done.
  - no_write Hs Hw.
  - injection Hs as <-. injection Hw as <-. eexists _, _. split; [reflexivity|]. done.
Qed.

Lemma setrange_redone d a cm off v x w K :
  lookupCommand (hd [] a) = Some (Setrange, 4, false) -> wrong_arity 4 (Z.of_nat (length a)) = false -> off = nth 2 a [] -> v = nth 3 a [] ->
  setrange_spec cfm a cm (K d (nth 1 a [])) off v = Some x -> e_write x = Some w -> redoes (d, e_argv x) K (upd d (nth 1 a []) w K).
Proof.
  intros Hl Har -> -> Hs Hw.
  assert (Ha : e_argv x = a) by (unfold setrange_spec in Hs; repeat case_match; by simplify_eq). rewrite Ha.
  apply (redoes_one d a Setrange 4); [done|done|]. intros n c' _ Hal. cbn [spec1]. destruct (alike_some _ _ Hal) as (_ & _ & Eo & Ec & _).
  unfold setrange_spec in *. cbn [negb andb]. rewrite Eo, Ec. destruct (as_int (nth 2 a [])) as [i|]; [|no_write Hs Hw].
  destruct (i <? 0); [no_write Hs Hw|]. destruct (is_object _); [no_write Hs Hw|]. destruct (bool_decide _); [no_write Hs Hw|].
  destruct (negb cm && _); [no_write Hs Hw|]. set (c := content (K d (nth 1 a []))) in *.
  destruct (blen c <? i + blen (nth 3 a [])); cbn [andb] in *; [destruct (can_hold cfm _) eqn:E; [rewrite (Hmem _ E)|done]|];
    cbn [negb] in *; injection Hs as <-; injection Hw as <-; eexists _, _; (split; [reflexivity|]); (split; [reflexivity|]); by apply alike_ttl.
Qed.

Lemma getset_redone d a x w K :
  wrong_arity 3 (Z.of_nat (length a)) = false -> getset_spec a (K d (nth 1 a [])) (nth 2 a []) = x -> e_write x = Some w ->
  redoes (d, e_argv x) K (upd d (nth 1 a []) w K).
Proof.
  intros Har <-. unfold getset_spec. destruct (is_object _); [done|]. cbn [e_write e_argv]. intros [= <-].
  destruct a as [|n [|k [|v [|y l]]]]; try discriminate Har. 2: { unfold wrong_arity in Har. rewrite (proj2 (Z.eqb_neq 3 _)) in Har by (cbn [length]; lia). discriminate Har. }
  by eapply (redoes_set d [bytes_of_string "SET"; k; v] OBJ_NO_FLAGS).
Qed.

Lemma setcmd_redone d a t f u e x w K :
  lookupCommand (hd [] a) = Some (Set_, -3, false) -> wrong_arity (-3) (Z.of_nat (length a)) = false -> (forall n, 0 <= t n) ->
  parse_options COMMAND_SET (drop 3 a) OBJ_NO_FLAGS UNIT_SECONDS None = Some (f, u, e) ->
  set_spec a t (K d (nth 1 a [])) f (nth 2 a []) e u ROk RNull = x -> e_write x = Some w -> redoes (d, e_argv x) K (upd d (nth 1 a []) w K).
Proof.
  intros Hl Har Ht Hp Hs Hw. destruct (set_redone d a t f _ e u ROk RNull x w K Ht Hs Hw) as [(_ & _ & _ & _ & H & _)|(-> & Hr & Hw' & Ha)]; [done|].
  rewrite Ha. destruct (OBJ_SET_GET f) eqn:Eg; [|by eapply (redoes_set d a f u)].
  destruct (strip_get_ok a Har) as (H0 & H1 & H2 & H3 & H4). rewrite <- H1. eapply (redoes_set d _ (no_get f) u); [congruence|done| |done|..].
  - rewrite H3. by apply (parse_strip _ OBJ_NO_FLAGS).
  - by rewrite H1.
  - by rewrite H1, H2.
Qed.

Lemma setnx_redone d a t x w K :
  lookupCommand (hd [] a) = Some (Setnx, 3, false) -> wrong_arity 3 (Z.of_nat (length a)) = false -> (forall n, 0 <= t n) ->
  set_spec a t (K d (nth 1 a [])) NX_FLAGS (nth 2 a []) None UNIT_SECONDS (RInt 1) (RInt 0) = x -> e_write x = Some w ->
  redoes (d, e_argv x) K (upd d (nth 1 a []) w K).
Proof.
  intros Hl Har Ht Hs Hw. destruct (set_redone d a t _ _ None _ _ _ x w K Ht Hs Hw) as [(_ & _ & _ & _ & H & _)|(_ & Hr & -> & Ha)]; [done|].
  cbn [OBJ_SET_GET NX_FLAGS] in Ha. rewrite Ha. apply (redoes_one d a Setnx 3); [done|done|]. intros n c' _ Hal. cbn [spec1]. unfold set_spec, set_checked_spec.
  destruct (alike_some _ _ Hal) as (E1 & E2 & _). assert (Hr' : set_refused c' NX_FLAGS = false) by (unfold set_refused in *; by rewrite E1, E2).
  rewrite Hr'. cbn [OBJ_SET_GET NX_FLAGS andb OBJ_KEEPTTL]. eexists _, _. split; [reflexivity|]. split; [reflexivity|]. done.
Qed.

Lemma persist_redone d a x w K :
  lookupCommand (hd [] a) = Some (Persist, 2, false) -> wrong_arity 2 (Z.of_nat (length a)) = false ->
  persist_spec a (K d (nth 1 a [])) = x -> e_write x = Some w -> redoes (d, e_argv x) K (upd d (nth 1 a []) w K).
Proof.
  intros Hl Har <-. unfold persist_spec. destruct (K d (nth 1 a [])) as [[v [ttl|]]|] eqn:Ec; [|done..]. cbn [e_write e_argv]. intros [= <-].
  apply (redoes_one d a Persist 2); [done|done|]. intros n c' _ Hal. rewrite Ec in Hal.
  destruct c' as [[v' [t'|]]|]; try done; [|by destruct Hal]. destruct Hal as [<- _]. eexists _, _. split; [reflexivity|]. done.
Qed.

Lemma spec1_redone cmd arity readonly a t cm d K x w :
  lookupCommand (hd [] a) = Some (cmd, arity, readonly) -> wrong_arity arity (Z.of_nat (length a)) = false -> (forall n, 0 <= t n) ->
  spec1 cfm cmd a t false cm (K d (nth 1 a [])) = Some (Some x) -> e_write x = Some w ->
  redoes (d, e_argv x) K (upd d (nth 1 a []) w K).
Proof.
  intros Hl Har Ht Hs Hw. destruct (table_of _ _ _ _ Hl) as [n Hn]. pose proof (table_signature _ _ _ _ Hn) as Hsig.
  destruct cmd; cbn [spec1] in Hs; try discriminate Hs; injection Hs as Hs; injection Hsig as <- <-; try (subst x; discriminate Hw).
  - destruct (parse_options COMMAND_GET _ _ _ _) as [[[f u] e]|]; [|by subst x]. by eapply getex_redone.
  - unfold getdel_spec in Hs. destruct (K d (nth 1 a [])) as [[[b|] ttl]|]; subst x; try discriminate Hw. injection Hw as <-. apply redoes_deletion.
  - destruct (parse_options COMMAND_SET _ _ _ _) as [[[f u] e]|] eqn:E; [|by subst x]. by eapply setcmd_redone.
  - by eapply setnx_redone.
  - destruct (set_redone d a t EX_FLAGS (nth 3 a []) (Some (nth 2 a [])) UNIT_SECONDS ROk RNull x w K Ht Hs Hw) as [(_ & _ & _ & _ & H & _)|([=] & _)]. done.
  - destruct (set_redone d a t PX_FLAGS (nth 3 a []) (Some (nth 2 a [])) UNIT_MILLISECONDS ROk RNull x w K Ht Hs Hw) as [(_ & _ & _ & _ & H & _)|([=] & _)]. done.
  - by eapply append_redone.
  - unfold strlen_spec in Hs. repeat case_match; by subst x.
  - by eapply setrange_redone.
  - unfold getrange_spec in Hs. repeat case_match; by subst x.
  - by eapply (incr_redone d a Incr 2 1).
  - by eapply (incr_redone d a Decr 2 (-1)).
  - unfold incrby_spec in Hs. destruct (as_int (nth 2 a [])) as [v|] eqn:E; [|by subst x]. eapply (incr_redone d a Incrby 3 v); try done.
    intros. cbn [spec1]. unfold incrby_spec. by rewrite E.
  - unfold decrby_spec in Hs. destruct (as_int (nth 2 a [])) as [v|] eqn:E; [|by subst x]. eapply (incr_redone d a Decrby 3 (s64 (- v))); try done.
    intros. cbn [spec1]. unfold decrby_spec. by rewrite E.
  - by eapply getset_redone.
  - eapply (expire_redone d a Expire true); [..|exact Hs|exact Hw]; first [apply Ht|done].
  - eapply (expire_redone d a Expireat false); [..|exact Hs|exact Hw]; first [apply Ht|done].
  - eapply (expire_redone d a Pexpire true); [..|exact Hs|exact Hw]; first [apply Ht|done].
  - eapply (expire_redone d a Pexpireat false); [..|exact Hs|exact Hw]; first [apply Ht|done].
  - unfold ttl_spec in Hs. repeat case_match; by subst x.
  - unfold ttl_spec in Hs. repeat case_match; by subst x.
  - by eapply persist_redone.
Qed.

(** *** Commands on several keys *)

(** What a list of assignments gives a key. *)
Fixpoint assigned (d : Z) (l : list (bytes * bytes)) (d' : Z) (k' : bytes) : option acell :=
  match l with
  | [] => None
  | (k, v) :: l =>
      match assigned d l d' k' with
      | Some c => Some c
      | None => if decide ((d', k') = (d, k)) then Some (Some (AStr v, None)) else None
      end
  end.

Definition put_pairs (d : Z) (l : list (bytes * bytes)) (K : keyspace) : keyspace := fun d' k' => default (K d' k') (assigned d l d' k').

Lemma assigned_keys d l d' k' : (is_Some (assigned d l d' k') <-> d' = d /\ k' ∈ fst <$> l) /\ forall c, assigned d l d' k' = Some c -> alike c c.
Proof.
  induction l as [|[k v] l [IH1 IH2]]; cbn [assigned fmap list_fmap fst].
  { split; [|done]. split; [by intros []%is_Some_None|]. by intros [_ []%elem_of_nil]. }
  rewrite elem_of_cons. destruct (assigned d l d' k') as [c|] eqn:E.
  - split; [|done]. split; [|by eexists]. intros _. destruct (proj1 IH1) as [-> Hk]; [by eexists|]. auto.
  - case_decide as Ed.
    + injection Ed as -> ->. split; [|by intros c [= <-]]. split; [auto|by eexists].
    + split; [|done]. split; [by intros []%is_Some_None|]. intros [-> [->|Hk]]; [done|]. by destruct (proj2 IH1 (conj eq_refl Hk)).
Qed.

Lemma cells_sets cf d l s : Forall (fun kv => blen (snd kv) < 2 ^ 63) l -> same (put_pairs d l (cells s)) (cells (foldl (set1 cf d) s l)).
Proof.
  intros H. revert s. induction H as [|[k v] l Hv _ IH]; intros s d' k'; cbn [foldl]; [done|]. rewrite IH. unfold put_pairs. cbn [assigned].
  destruct (assigned d l d' k') as [c|]; [done|]. cbn [default from_option id].
  destruct (encoded_ok cf v Hv) as (_ & Hs & _). unfold cells, set1. cbn [fst snd]. rewrite get_touch. case_decide as E.
  - injection E as -> ->. rewrite get_put. cbn. by rewrite Hs.
  - cbn. by rewrite get_put_ne, get_purge_ne by done.
Qed.

Lemma put_pairs_agree d l K r r' : agree K r -> same (put_pairs d l (cells r)) (cells r') -> agree (put_pairs d l K) r'.
Proof.
  intros Ha Hs d' k'. rewrite Hs. unfold put_pairs. destruct (assigned d l d' k') as [c|] eqn:E; [|apply Ha]. by apply (assigned_keys d l d' k').
Qed.

Lemma put_pairs_cover d l K K' : (forall d' k', ~ (d' = d /\ k' ∈ fst <$> l) -> K' d' k' = K d' k') -> same (put_pairs d l K) (put_pairs d l K').
Proof.
  intros H d' k'. unfold put_pairs. destruct (assigned d l d' k') as [c|] eqn:E; [done|]. apply H. intros Hin.
  apply (proj1 (assigned_keys d l d' k')) in Hin. rewrite E in Hin. by destruct Hin.
Qed.

Lemma until_live_free d keys s : Forall (fun k => live d k s = None) keys -> until_live d keys s = (keys, true).
Proof. induction 1 as [|k keys Hk _ IH]; [done|]. cbn [until_live]. by rewrite Hk, IH. Qed.

Lemma live_replica d k r : masterhost r = true -> live d k r = get_cell d k r.
Proof. intros Hm. unfold live. by rewrite Hm, andb_false_r. Qed.

Lemma redoes_mset (nx : bool) d a K :
  lookupCommand (hd [] a) = Some (if nx then Msetnx else Mset, -3, false) -> wrong_arity (-3) (Z.of_nat (length a)) = false ->
  (Z.of_nat (length a) mod 2 =? 0) = false -> (nx = true -> Forall (fun k => K d k = None) (fst <$> pairs (drop 1 a))) ->
  redoes (d, a) K (put_pairs d (pairs (drop 1 a)) K).
Proof.
  intros Hl Har Hodd Hfree Hs _. exists (if nx then Msetnx else Mset), (-3). split; [done|]. split; [done|]. cbn [fst snd] in *. intros r Hrun Hm Ha Hag.
  set (c := mk_caller d true false). exists (mset_spec cfr c r nx).
  split; [destruct nx; apply (mset_ok cfr c r Hrun); by rewrite Ha|]. unfold mset_spec. rewrite Ha, Hodd.
  assert (Hk : nx_keys c r nx = (if nx then fst <$> pairs (drop 1 a) else [], true)).
  { unfold nx_keys. destruct nx; [|done]. rewrite Ha. apply until_live_free. eapply Forall_impl; [by apply Hfree|]. intros k Hk. cbn in Hk.
    rewrite live_replica by done. pose proof (Hag d k) as Hal. rewrite Hk in Hal. unfold cells in Hal. cbn. by destruct (get_cell d k r). }
  rewrite Hk. cbn [negb]. eapply put_pairs_agree; [exact Hag|]. rewrite purge_all_replica by done.
  intros d' k'. apply (cells_sets cfr d (pairs (drop 1 a)) r). by apply pairs_short, Forall_drop.
Qed.

(** The cell RENAME stores. *)
Definition renamed_cell (c : aval * option Z) : acell := Some (fst c, if default (-1) (snd c) =? -1 then None else snd c).

Lemma cells_moved d src dst c s : src <> dst -> same (upd d src None (upd d dst (abs c) (cells s))) (cells (moved d src dst c s)).
Proof.
  intros Hne d' k'. unfold cells, moved, upd. rewrite !get_touch. case_decide as E; [injection E as -> ->; by rewrite get_put|].
  rewrite get_put_ne by done. case_decide as E'; [injection E' as -> ->; by rewrite get_put|]. by rewrite get_put_ne.
Qed.

Lemma redoes_rename (nx : bool) d a v ttl K :
  lookupCommand (hd [] a) = Some (if nx then Renamenx else Rename, 3, false) -> wrong_arity 3 (Z.of_nat (length a)) = false ->
  nth 1 a [] <> nth 2 a [] -> K d (nth 1 a []) = Some (v, ttl) -> (nx = true -> K d (nth 2 a []) = None) ->
  redoes (d, a) K (upd d (nth 1 a []) None (upd d (nth 2 a []) (renamed_cell (v, ttl)) K)).
Proof.
  intros Hl Har Hne Hsrc Hdst Hs _. exists (if nx then Renamenx else Rename), 3. split; [done|]. split; [done|]. cbn [fst snd] in *. intros r Hrun Hm Ha Hag.
  set (c := mk_caller d true false). assert (Hlen : (2 < length a)%nat) by (unfold wrong_arity in Har; lia).
  exists (rename_spec cfr d nx (nth 1 a []) (nth 2 a []) r).
  split; [destruct nx; apply (rename_ok cfr d _ (nth 1 a []) (nth 2 a []) c r Hrun); try done; rewrite Ha; apply lookup_nth; lia|].
  unfold rename_spec. rewrite !purge_replica, !live_replica by done. pose proof (Hag d (nth 1 a [])) as Hal. rewrite Hsrc in Hal. unfold cells in Hal.
  destruct (get_cell d (nth 1 a []) r) as [[v' ttl']|] eqn:Ec; cbn [abs fmap option_fmap option_map prod_map fst snd] in Hal; [|done]. destruct Hal as [Hv Ht].
  rewrite bool_decide_false by done.
  assert (Hgoal : forall x, same (upd d (nth 1 a []) None (upd d (nth 2 a []) (abs (renamed v' ttl')) (cells r))) (cells x) ->
    agree (upd d (nth 1 a []) None (upd d (nth 2 a []) (renamed_cell (v, ttl)) K)) x).
  { intros x Hx d' k'. rewrite Hx. unfold upd. case_decide; [done|]. case_decide; [|apply Hag]. unfold renamed_cell, renamed. cbn. split; [done|].
    destruct ttl as [w|], ttl' as [w'|]; cbn in Ht; try done. cbn. destruct (Z.eqb_spec w (-1)), (Z.eqb_spec w' (-1)); lia. }
  assert (Hd' : nx = true -> get_cell d (nth 2 a []) r = None).
  { intros Hnx. pose proof (Hag d (nth 2 a [])) as Hal. rewrite (Hdst Hnx) in Hal. unfold cells in Hal. by destruct (get_cell d (nth 2 a []) r). }
  destruct nx; [rewrite Hd' by done|]; apply Hgoal; intros d' k'; apply (cells_moved d _ _ (renamed v' ttl') r Hne).
Qed.

(** ** What the master tells *)

(** The commands lead a replica from agreement with the first keyspace to agreement with
    the second. *)
Inductive told : keyspace -> list (Z * list bytes) -> keyspace -> Prop :=
  | told_nil K K' : same K K' -> told K [] K'
  | told_cons e b K K1 K' : redoes e K K1 -> told K1 b K' -> told K (e :: b) K'.

Lemma same_sym K K' : same K K' -> same K' K.
Proof. intros H d k. by rewrite H. Qed.

Lemma same_trans K1 K2 K3 : same K1 K2 -> same K2 K3 -> same K1 K3.
Proof. intros H1 H2 d k. by rewrite H2. Qed.

Lemma told_same K1 K2 b K3 : same K1 K2 -> told K1 b K3 -> told K2 b K3.
Proof.
  intros Hs Ht. destruct Ht as [K K' H|e b K K1 K' He Hb].
  - constructor. by eapply same_trans; [apply same_sym|].
  - econstructor; [|exact Hb]. by eapply redoes_ext; [exact Hs| |exact He].
Qed.

Lemma told_app K1 b1 K2 b2 K3 : told K1 b1 K2 -> told K2 b2 K3 -> told K1 (b1 ++ b2) K3.
Proof.
  induction 1 as [K K' H|e b K K1 K' He Hb IH]; intros H2; cbn [app]; [by eapply told_same; [apply same_sym|]|]. econstructor; [exact He|auto].
Qed.

Lemma told_one e K K' : redoes e K K' -> told K [e] K'.
Proof. intros H. econstructor; [exact H|by constructor]. Qed.

(** The log grew by the commands [b], after the MULTI of a transaction if they are its
    first. *)
Definition log_adds (s s' : server) (b : list (Z * list bytes)) : Prop :=
  (exists d, log s' = log s ++ (if negb (propagate_in_transaction s) && propagate_in_transaction s' then [(d, [bytes_of_string "MULTI"])] else []) ++ b) /\
  if in_exec s then (b = [] /\ propagate_in_transaction s' = propagate_in_transaction s) \/ propagate_in_transaction s' = true
  else propagate_in_transaction s' = propagate_in_transaction s.

Lemma log_adds_same s s' : log s' = log s -> propagate_in_transaction s' = propagate_in_transaction s -> log_adds s s' [].
Proof.
  intros El Ep. split; [exists 0|]; rewrite ?El, Ep; [by destruct (propagate_in_transaction s); rewrite !app_nil_r|]. destruct (in_exec s); auto.
Qed.

Lemma log_adds_trans s1 s2 s3 b1 b2 : in_exec s2 = in_exec s1 -> log_adds s1 s2 b1 -> log_adds s2 s3 b2 -> log_adds s1 s3 (b1 ++ b2).
Proof.
  intros Ee [(d & El) Hp] [(d' & El') Hp']. rewrite Ee in Hp'. split.
  - exists (if propagate_in_transaction s2 then d else d'). rewrite El', El.
    destruct (in_exec s1); [destruct Hp as [[-> Ep]|Ep], Hp' as [[-> Ep']|Ep']|rewrite Hp', Hp]; rewrite ?Ep', ?Ep;
      destruct (propagate_in_transaction s1); cbn; try destruct (propagate_in_transaction s3); cbn; by rewrite ?app_nil_r, <- ?app_assoc.
  - destruct (in_exec s1); [|congruence]. destruct Hp as [[-> Ep]|Ep], Hp' as [[-> Ep']|Ep']; [left; split; [done|congruence]|right; congruence..].
Qed.

Lemma log_adds_propagated d a s : log_adds s (propagated d a s) [(d, a)].
Proof. split; [exists d|]; unfold propagated; cbn; destruct (in_exec s), (propagate_in_transaction s); cbn; auto. Qed.

Lemma log_adds_eq s s' s2 b : log_adds s s' b -> log s2 = log s' -> propagate_in_transaction s2 = propagate_in_transaction s' -> log_adds s s2 b.
Proof. intros H E1 E2. unfold log_adds. by rewrite E1, E2. Qed.

Definition tells (s s' : server) : Prop := exists b, log_adds s s' b /\ told (cells s) b (cells s').

Lemma tells_trans s1 s2 s3 : in_exec s2 = in_exec s1 -> tells s1 s2 -> tells s2 s3 -> tells s1 s3.
Proof. intros Ee (b1 & L1 & T1) (b2 & L2 & T2). exists (b1 ++ b2). split; [by eapply log_adds_trans|by eapply told_app]. Qed.

Lemma tells_same s s' : log s' = log s -> propagate_in_transaction s' = propagate_in_transaction s -> same (cells s) (cells s') -> tells s s'.
Proof. intros El Ep Hs. exists []. split; [by apply log_adds_same|by constructor]. Qed.

Lemma tells_deletion lazy d k s : tells s (propagated d [del_name lazy; k] (touch d k (put_cell d k None s))).
Proof.
  exists [(d, [del_name lazy; k])]. split.
  - destruct (touch_cases d k (put_cell d k None s)) as [m ->]. destruct (log_adds_propagated d [del_name lazy; k] (put_cell d k None s)) as [H1 H2]. by split.
  - apply told_one. eapply redoes_ext; [| |apply (redoes_deletion lazy d k)]; [done|].
    intros d' k'. unfold cells, upd. rewrite get_propagated, get_touch. case_decide as E; [injection E as -> ->; by rewrite get_put|by rewrite get_put_ne].
Qed.

Lemma tells_purge d k s : tells s (purge cfm d k s).
Proof. destruct (purge_cases cfm d k s) as [->| ->]; [by apply tells_same|apply tells_deletion]. Qed.

Lemma exec_purge d k s : in_exec (purge cfm d k s) = in_exec s.
Proof. apply (same_run_purge cfm d k s). Qed.

Lemma tells_purge_all d keys s : tells s (purge_all cfm d keys s).
Proof.
  revert s. induction keys as [|k keys IH]; intros s; [by apply tells_same|]. eapply tells_trans; [apply exec_purge|apply tells_purge|apply IH].
Qed.

(** *** Handlers *)

(** What a handler did: deletions that are propagated already, and the changes that its
    arguments describe if it counted any. *)
Definition spoken (d : Z) (s s' : server) : Prop :=
  exists p, tells s p /\ log s' = log p /\ propagate_in_transaction s' = propagate_in_transaction p /\
    if dirty s <? dirty s' then redoes (d, argv s') (cells p) (cells s') else same (cells p) (cells s').

Lemma spoken_quiet d s p s' :
  tells s p -> log s' = log p -> propagate_in_transaction s' = propagate_in_transaction p -> dirty s' = dirty s -> same (cells p) (cells s') -> spoken d s s'.
Proof. intros Ht El Ep Ed Hs. exists p. rewrite Ed, Z.ltb_irrefl. done. Qed.

Lemma spoken_write d s p s' :
  tells s p -> log s' = log p -> propagate_in_transaction s' = propagate_in_transaction p -> dirty s < dirty s' ->
  redoes (d, argv s') (cells p) (cells s') -> spoken d s s'.
Proof. intros Ht El Ep Ed Hs. exists p. by rewrite (proj2 (Z.ltb_lt _ _) Ed). Qed.

Lemma pit_touch d k s : propagate_in_transaction (touch d k s) = propagate_in_transaction s.
Proof. by destruct (touch_cases d k s) as [m ->]. Qed.

Lemma readable_on_master c k s : masterhost s = false -> readable c k s = live (c_db c) k s.
Proof. intros Hm. unfold readable. by rewrite Hm, andb_false_r. Qed.

(** A command that writes has looked its key up. *)
Lemma spec1_lookup cf cmd a t follower cmaster c x w :
  spec1 cf cmd a t follower cmaster c = Some (Some x) -> e_write x = Some w -> e_lookup x = true.
Proof.
  intros Hs Hw.
  assert (Hset : forall f v e u ok ab, e_write (set_spec a t c f v e u ok ab) = Some w -> e_lookup (set_spec a t c f v e u ok ab) = true)
    by (intros f v e u ok ab; unfold set_spec, set_checked_spec; by repeat case_match).
  assert (Hget : forall f u e, e_write (getex_spec cf a t follower c f u e) = Some w -> e_lookup (getex_spec cf a t follower c f u e) = true)
    by (intros f u e; unfold getex_spec, getex_checked_spec; by repeat case_match).
  assert (Hex : forall b now u y, e_write (expireat_spec cf a follower c b now u y) = Some w -> e_lookup (expireat_spec cf a follower c b now u y) = true)
    by (intros b now u y; unfold expireat_spec; by repeat case_match).
  assert (Hinc : forall v, e_write (incr_spec a c v) = Some w -> e_lookup (incr_spec a c v) = true) by (intros v; unfold incr_spec; by repeat case_match).
  destruct cmd; cbn [spec1] in Hs; try discriminate Hs; injection Hs as Hs; subst; try done; try (by apply Hex); try (by apply Hinc).
  - destruct (parse_options _ _ _ _ _) as [[[f u] e]|]; [by apply Hget|done].
  - unfold getdel_spec in *. by repeat case_match.
  - destruct (parse_options _ _ _ _ _) as [[[f u] e]|]; [by apply Hset|done].
  - exact (Hset NX_FLAGS (nth 2 a []) None UNIT_SECONDS (RInt 1) (RInt 0) Hw).
  - exact (Hset EX_FLAGS (nth 3 a []) (Some (nth 2 a [])) UNIT_SECONDS ROk RNull Hw).
  - exact (Hset PX_FLAGS (nth 3 a []) (Some (nth 2 a [])) UNIT_MILLISECONDS ROk RNull Hw).
  - unfold append_spec in Hs. repeat case_match; by simplify_eq.
  - unfold strlen_spec in *. by repeat case_match.
  - unfold setrange_spec in Hs. repeat case_match; simplify_eq; done.
  - unfold getrange_spec in *. by repeat case_match.
  - unfold incrby_spec in *. case_match; [by apply Hinc|done].
  - unfold decrby_spec in *. case_match; [by apply Hinc|done].
  - unfold getset_spec in *. by repeat case_match.
  - unfold ttl_spec in *. by repeat case_match.
  - unfold ttl_spec in *. by repeat case_match.
  - unfold persist_spec in *. by repeat case_match.
Qed.

Lemma spoken_one cmd arity readonly c s s' x :
  running s -> masterhost s = false -> loading s = false ->
  lookupCommand (hd [] (argv s)) = Some (cmd, arity, readonly) -> request cmd arity readonly c s ->
  spec1 cfm cmd (argv s) (readings cfm s) (loading s || masterhost s) (c_master c) (abs (readable c (nth 1 (argv s) []) s)) = Some x ->
  proc cfm cmd c s = Some (s', tt) -> spoken (c_db c) s s'.
Proof.
  intros Hrun Hm Hlo Hl Hreq Hs Hp. pose proof (single_key_ok cfm cmd arity readonly c s x Hcfm Hrun Hreq Hs) as H.
  destruct x as [x|]; [|unfold may_do in H; congruence]. destruct H as (e & n & H & <- & _). rewrite H in Hp. injection Hp as <-.
  set (key := nth 1 (argv s) []) in *. set (d := c_db c) in *. set (p := if e_lookup e then purge cfm d key s else s).
  assert (Hp : (if e_lookup e then purge cfm d key (set_ticks n s) else set_ticks n s) = set_ticks n p) by (unfold p; destruct (e_lookup e); [apply purge_ticks|done]).
  assert (Htell : tells s p) by (unfold p; destruct (e_lookup e); [apply tells_purge|by apply tells_same]).
  assert (Hdp : dirty p = dirty s) by (unfold p; destruct (e_lookup e); by rewrite ?field_purge_dirty).
  unfold apply. rewrite Hp. destruct (e_write e) as [w|] eqn:Ew; [|by apply (spoken_quiet d s p)].
  apply (spoken_write d s p); [done|cbn; by rewrite field_touch_log|cbn; by rewrite pit_touch|cbn; rewrite ?field_touch_dirty; cbn; rewrite Hdp; lia|].
  assert (Hlook : e_lookup e = true) by (by apply (spec1_lookup _ _ _ _ _ _ _ _ (abs w) Hs); cbn; rewrite Ew). unfold p in *. rewrite Hlook in *.
  set (q := purge cfm d key s) in *. rewrite Hm, Hlo, readable_on_master in Hs by done. fold d in Hs. rewrite <- (get_purge cfm) in Hs. fold q in Hs.
  pose proof (spec1_redone cmd arity readonly (argv s) (readings cfm s) (c_master c) d (cells q) (abs_effect e) (abs w) Hl (proj1 (proj2 Hreq))) as Hr.
  eapply redoes_ext; [| |apply Hr]; [done| |intros i; apply (proj1 Hcfm)|exact Hs|cbn; by rewrite Ew].
  intros d' k'. unfold cells, upd. change (get_cell d' k' (set_argv ?u (set_out ?v (set_dirty ?y ?z)))) with (get_cell d' k' z). rewrite get_touch. fold key.
  case_decide as E; [injection E as -> ->; by rewrite get_put|by rewrite get_put_ne].
Qed.

(** [p] propagated the same as [s], and finds the same keys expired. *)
Definition trails (s p : server) : Prop :=
  same_run s p /\ log p = log s /\ propagate_in_transaction p = propagate_in_transaction s /\ forall d k, key_expired d k p = key_expired d k s.

Lemma trails_refl s : trails s s.
Proof. split; [apply same_run_refl|done]. Qed.

Lemma key_expired_put d k c d' k' s :
  key_expired d' k' (touch d k (put_cell d k c s)) = if decide ((d', k') = (d, k)) then cell_expired s c else key_expired d' k' s.
Proof.
  unfold key_expired. rewrite get_touch, (cell_expired_same s). 2: { eapply same_run_trans; [|apply same_run_touch]. by repeat split. }
  case_decide as E; [injection E as -> ->; by rewrite get_put|by rewrite get_put_ne].
Qed.

Lemma trails_purge d k s p : trails s p -> trails (purge cfm d k s) (purge cfm d k p).
Proof.
  intros (R & El & Ep & Hx). unfold purge. rewrite Hx. destruct (R) as (Rm & _ & _ & _ & _ & _ & Re). rewrite Rm. destruct (_ && _); [|done].
  split; [|split; [|split]].
  - assert (Hs : forall x, same_run x (propagated d [del_name (lazyfree_lazy_expire cfm); k] (touch d k (put_cell d k None x)))).
    { intros x. eapply same_run_trans; [|by repeat split]. eapply same_run_trans; [|apply same_run_touch]. by repeat split. }
    eapply same_run_trans; [|apply Hs]. eapply same_run_trans; [|exact R]. destruct (Hs s) as (? & ? & ? & ? & ? & ? & ?). by repeat split.
  - unfold propagated. cbn. rewrite !field_touch_log, !pit_touch. cbn. destruct (same_run_touch d k (put_cell d k None s)) as (_ & _ & _ & _ & _ & _ & ->).
    destruct (same_run_touch d k (put_cell d k None p)) as (_ & _ & _ & _ & _ & _ & ->). cbn. by rewrite El, Ep, Re.
  - unfold propagated. cbn. rewrite !pit_touch. destruct (same_run_touch d k (put_cell d k None s)) as (_ & _ & _ & _ & _ & _ & ->).
    destruct (same_run_touch d k (put_cell d k None p)) as (_ & _ & _ & _ & _ & _ & ->). cbn. by rewrite Ep, Re.
  - intros d' k'. change (key_expired d' k' (propagated ?x ?y ?z)) with (key_expired d' k' z). rewrite !key_expired_put. by case_decide.
Qed.

(** A purged key is not expired on a master, and neither is what replaces it. *)
Lemma trails_put d k c s p :
  masterhost s = false -> cell_expired s c = false -> trails (purge cfm d k s) p -> trails (touch d k (put_cell d k c (purge cfm d k s))) p.
Proof.
  intros Hm Hc (R & El & Ep & Hx). set (q := purge cfm d k s) in *.
  assert (Rq : same_run q (touch d k (put_cell d k c q))) by (eapply same_run_trans; [|apply same_run_touch]; by repeat split).
  split; [|split; [by rewrite field_touch_log|split; [by rewrite pit_touch|]]].
  - destruct Rq as (? & ? & ? & ? & ? & ? & ?), R as (? & ? & ? & ? & ? & ? & ?). repeat split; congruence.
  - intros d' k'. rewrite Hx, key_expired_put. case_decide as E; [injection E as -> ->|done]. unfold q. rewrite (cell_expired_same s) by apply same_run_purge.
    rewrite Hc. unfold key_expired. rewrite (cell_expired_same s) by apply same_run_purge. rewrite get_purge. unfold live, key_expired. rewrite Hm, andb_true_r.
    by destruct (cell_expired s (get_cell d k s)) eqn:E.
Qed.

Lemma trails_log s p x : trails s p -> log x = log s -> propagate_in_transaction x = propagate_in_transaction s ->
  log x = log p /\ propagate_in_transaction x = propagate_in_transaction p.
Proof. intros (_ & -> & -> & _). done. Qed.

Lemma get_purge_all d keys s d' k' : ~ (d' = d /\ k' ∈ keys) -> get_cell d' k' (purge_all cfm d keys s) = get_cell d' k' s.
Proof.
  revert s. induction keys as [|k keys IH]; intros s Hn; [done|]. cbn [purge_all foldl]. fold (purge_all cfm d keys (purge cfm d k s)).
  rewrite IH; [apply get_purge_ne|]; intros H; apply Hn; [injection H as -> ->; split; [done|apply list_elem_of_here]|]. destruct H as [-> H]. split; [done|by apply list_elem_of_further].
Qed.

Lemma del_trails d keys s p : masterhost s = false -> trails s p -> trails (foldl (del1 cfm d) s keys) (purge_all cfm d keys p).
Proof.
  revert s p. induction keys as [|k keys IH]; intros s p Hm Ht; [done|]. cbn [foldl purge_all]. apply IH.
  - destruct (evolves_del1 cfm d s k) as [(R & _) _ _ _ _ _ _ _ _]. congruence.
  - pose proof (trails_purge d k s p Ht) as Hp. unfold del1. destruct (live d k s); [|done].
    pose proof (trails_put d k None s _ Hm eq_refl Hp) as (R & H). by split.
Qed.

Lemma del_unchanged d keys s : dirty (foldl (del1 cfm d) s keys) = dirty s -> foldl (del1 cfm d) s keys = purge_all cfm d keys s.
Proof.
  revert s. induction keys as [|k keys IH]; intros s Hd; [done|]. cbn [foldl purge_all] in *. unfold del1 at 2 in Hd. unfold del1 at 2.
  destruct (live d k s) as [x|] eqn:El.
  - exfalso. set (y := set_dirty _ _) in Hd. pose proof (ev_dirty _ _ (evolves_foldl (del1 cfm d) keys y (evolves_del1 cfm d))) as Hle.
    unfold y in Hle at 1. cbn in Hle. rewrite field_purge_dirty in Hle. lia.
  - apply IH. by rewrite Hd, field_purge_dirty.
Qed.

Lemma del_argv d keys s : argv (foldl (del1 cfm d) s keys) = argv s.
Proof.
  revert s. induction keys as [|k keys IH]; intros s; [done|]. cbn [foldl]. rewrite IH. unfold del1. destruct (live d k s); [|apply field_purge_argv].
  cbn. rewrite field_touch_argv. apply field_purge_argv.
Qed.

Lemma spoken_del cmd d s x :
  masterhost s = false -> cmd = Del \/ cmd = Unlink -> lookupCommand (hd [] (argv s)) = Some (cmd, -2, false) ->
  wrong_arity (-2) (Z.of_nat (length (argv s))) = false -> spoken d s (set_out x (foldl (del1 cfm d) s (drop 1 (argv s)))).
Proof.
  intros Hm Hc Hl Har. set (keys := drop 1 (argv s)). set (s' := foldl _ _ _). pose proof (del_trails d keys s s Hm (trails_refl s)) as Ht. fold s' in Ht.
  destruct (trails_log _ _ (set_out x s') Ht eq_refl eq_refl) as [El Ep]. pose proof (tells_purge_all d keys s) as Htell.
  pose proof (evolves_foldl (del1 cfm d) keys s (evolves_del1 cfm d)) as Hev. fold s' in Hev. pose proof (ev_dirty _ _ Hev) as Hle.
  destruct (decide (dirty s' = dirty s)) as [E|E].
  { eapply (spoken_quiet d s (purge_all cfm d keys s)); try done. intros d' k'. unfold cells. change (get_cell d' k' (set_out x s')) with (get_cell d' k' s').
    unfold s'. by rewrite (del_unchanged d keys s E). }
  eapply (spoken_write d s (purge_all cfm d keys s)); try done; [cbn; lia|]. cbn [argv set_out].
  unfold s' at 1. rewrite del_argv. eapply redoes_ext; [| |by apply (redoes_del d (argv s) (cells (purge_all cfm d keys s)) cmd)]; [done|].
  intros d' k'. transitivity (drop_cells d keys (cells s) d' k'); [apply (cells_del cfm d keys s)|]. fold keys. unfold drop_cells.
  case_decide; [done|]. unfold cells. by rewrite get_purge_all.
Qed.

Lemma set_trails d l s p : masterhost s = false -> trails s p -> trails (foldl (set1 cfm d) s l) (purge_all cfm d (fst <$> l) p).
Proof.
  revert s p. induction l as [|[k v] l IH]; intros s p Hm Ht; [done|]. cbn [foldl purge_all fmap list_fmap fst]. apply IH.
  - unfold set1. cbn [fst snd]. destruct (same_run_touch d k (put_cell d k (Some (Str (encoded cfm v), None)) (purge cfm d k s))) as (-> & _).
    change (masterhost (purge cfm d k s) = false). by destruct (same_run_purge cfm d k s) as (-> & _).
  - unfold set1. cbn [fst snd]. apply trails_put; [done|done|by apply trails_purge].
Qed.

Lemma set_fields d l s : dirty (foldl (set1 cfm d) s l) = dirty s /\ argv (foldl (set1 cfm d) s l) = argv s.
Proof.
  revert s. induction l as [|[k v] l IH]; intros s; [done|]. cbn [foldl]. destruct (IH (set1 cfm d s (k, v))) as [-> ->]. unfold set1.
  rewrite field_touch_dirty, field_touch_argv. cbn. by rewrite field_purge_dirty, field_purge_argv.
Qed.

Lemma purge_all_fields d keys s : dirty (purge_all cfm d keys s) = dirty s /\ argv (purge_all cfm d keys s) = argv s /\ masterhost (purge_all cfm d keys s) = masterhost s.
Proof.
  revert s. induction keys as [|k keys IH]; intros s; [done|]. cbn [purge_all foldl]. destruct (IH (purge cfm d k s)) as (H1 & H2 & H3).
  unfold purge_all in *. rewrite H1, H2, H3. destruct (purge_fields cfm d k s) as (_ & -> & -> & _ & -> & _). done.
Qed.

Lemma until_live_none d keys s : snd (until_live d keys s) = true -> fst (until_live d keys s) = keys /\ Forall (fun k => live d k s = None) keys.
Proof.
  induction keys as [|k keys IH]; [done|]. cbn [until_live]. destruct (live d k s) eqn:E; [done|]. cbn [fst snd]. intros H. destruct (IH H) as [-> Hf]. split; [done|by constructor].
Qed.

Lemma live_purge_keys d keys s d' k' : live d' k' (purge_all cfm d keys s) = live d' k' s.
Proof. revert s. induction keys as [|k keys IH]; intros s; [done|]. cbn [purge_all foldl]. unfold purge_all in IH. by rewrite IH, live_purge_all. Qed.

Lemma get_purged d keys s k : k ∈ keys -> get_cell d k (purge_all cfm d keys s) = live d k s.
Proof.
  revert s. induction keys as [|k0 keys IH]; intros s Hk; [by apply elem_of_nil in Hk|]. cbn [purge_all foldl]. fold (purge_all cfm d keys (purge cfm d k0 s)).
  destruct (decide (k ∈ keys)) as [H|H]; [by rewrite IH, live_purge_all|]. apply elem_of_cons in Hk as [->|Hk]; [|done].
  rewrite get_purge_all, get_purge; [done|]. by intros [_ ?].
Qed.

Lemma spoken_mset (nx : bool) c s :
  masterhost s = false -> lookupCommand (hd [] (argv s)) = Some (if nx then Msetnx else Mset, -3, false) ->
  wrong_arity (-3) (Z.of_nat (length (argv s))) = false -> short (argv s) -> spoken (c_db c) s (mset_spec cfm c s nx).
Proof.
  intros Hm Hl Har Hs. set (d := c_db c). unfold mset_spec. destruct (Z.of_nat (length (argv s)) mod 2 =? 0) eqn:Eodd; [by apply (spoken_quiet d s s); try done; apply tells_same|].
  destruct (nx_keys c s nx) as [keys free] eqn:Ek. set (p := purge_all cfm d keys s). pose proof (tells_purge_all d keys s) as Ht. fold p in Ht.
  destruct (purge_all_fields d keys s) as (Pd & Pa & Pm). fold p in Pd, Pa, Pm.
  destruct free; [|by apply (spoken_quiet d s p)]. cbn [negb]. set (l := pairs (drop 1 (argv s))). set (s' := foldl (set1 cfm d) p l).
  set (q := purge_all cfm d (fst <$> l) p). destruct (set_fields d l p) as [Sd Sa]. fold s' in Sd, Sa.
  pose proof (set_trails d l p p ltac:(congruence) (trails_refl p)) as Htr. fold s' q in Htr.
  set (x := set_out _ _). destruct (trails_log s' q x Htr eq_refl eq_refl) as [El Ep].
  assert (Hq : tells s q). { eapply tells_trans; [|exact Ht|apply tells_purge_all]. apply (ev_run _ _ (evolves_purge_all cfm d keys s)). }
  assert (Hlen : Z.of_nat (length (argv s)) >= 3) by (unfold wrong_arity in Har; lia).
  apply (spoken_write d s q); try done.
  - change (dirty s < dirty s' + (Z.of_nat (length (argv s)) - 1) / 2). rewrite Sd, Pd. pose proof (Z.div_le_mono 2 (Z.of_nat (length (argv s)) - 1) 2). change (2 / 2) with 1 in *. lia.
  - change (argv x) with (argv s'). rewrite Sa, Pa. eapply redoes_ext; [| |apply (redoes_mset nx d (argv s) (cells q))]; try done; fold l.
    + eapply same_trans; [|intros d' k'; apply (cells_sets cfm d l p); by apply pairs_short, Forall_drop]. apply put_pairs_cover.
      intros d' k' Hn. unfold cells, q. by rewrite get_purge_all.
    + intros ->. unfold nx_keys in Ek. destruct (until_live_none (c_db c) (fst <$> l) s) as [_ Hf]; [by unfold l; rewrite Ek|].
      rewrite Forall_forall in Hf |- *. intros k Hk. unfold cells, q. rewrite get_purged by done. unfold p. rewrite live_purge_keys.
      unfold d. by rewrite Hf.
Qed.

Lemma spoken_rename (nx : bool) d s :
  masterhost s = false -> lookupCommand (hd [] (argv s)) = Some (if nx then Renamenx else Rename, 3, false) ->
  wrong_arity 3 (Z.of_nat (length (argv s))) = false -> spoken d s (rename_spec cfm d nx (nth 1 (argv s) []) (nth 2 (argv s) []) s).
Proof.
  intros Hm Hl Har. set (src := nth 1 (argv s) []). set (dst := nth 2 (argv s) []). unfold rename_spec. set (p := purge cfm d src s). set (p2 := purge cfm d dst p).
  assert (Ht : tells s p) by apply tells_purge. assert (Ht2 : tells s p2) by (eapply tells_trans; [|exact Ht|apply tells_purge]; apply exec_purge).
  assert (Ed : dirty p = dirty s /\ dirty p2 = dirty s /\ argv p2 = argv s) by (unfold p2, p; by rewrite !field_purge_dirty, !field_purge_argv).
  destruct Ed as (Ed & Ed2 & Ea). destruct (live d src s) as [[v ttl]|] eqn:El; [|by apply (spoken_quiet d s p)].
  case_bool_decide as Hne; [by apply (spoken_quiet d s p)|].
  assert (Hsrc : get_cell d src p2 = Some (v, ttl)) by (unfold p2, p; rewrite get_purge_ne by congruence; by rewrite get_purge).
  assert (Hmoved : (nx = true -> live d dst s = None) -> forall r, spoken d s (set_out (out s ++ [r]) (set_dirty (dirty s + 1) (moved d src dst (renamed v ttl) p2)))).
  { intros Hdst r. apply (spoken_write d s p2); [done|cbn; unfold moved; by rewrite !field_touch_log|cbn; unfold moved; by rewrite !pit_touch|cbn; lia|].
    assert (Ha : argv (moved d src dst (renamed v ttl) p2) = argv s) by (unfold moved; by rewrite !field_touch_argv). cbn [argv set_out set_dirty]. rewrite Ha.
    eapply redoes_ext; [| |apply (redoes_rename nx d (argv s) (abs_value v) ttl (cells p2))]; try done.
    - intros d' k'. apply (cells_moved d src dst (renamed v ttl) p2 Hne).
    - unfold cells. fold src. by rewrite Hsrc.
    - intros Hnx. unfold cells. fold dst. unfold p2. rewrite get_purge. unfold p. rewrite live_purge_all. by rewrite Hdst. }
  destruct nx; [|by apply Hmoved]. destruct (live d dst s); [by apply (spoken_quiet d s p2)|by apply Hmoved].
Qed.

(** Every command of a master describes what it does. *)
Lemma command_spoken cmd arity readonly c s s' :
  running s -> masterhost s = false -> loading s = false -> lookupCommand (hd [] (argv s)) = Some (cmd, arity, readonly) -> request cmd arity readonly c s ->
  proc cfm cmd c s = Some (s', tt) -> spoken (c_db c) s s'.
Proof.
  intros Hrun Hm Hlo Hl Hreq Hp.
  destruct (spec1 cfm cmd (argv s) (readings cfm s) (loading s || masterhost s) (c_master c) (abs (readable c (nth 1 (argv s) []) s))) as [x|] eqn:Es; [by eapply spoken_one|].
  pose proof (request_signature _ _ _ _ _ Hreq) as Hsig. destruct (Hreq) as (_ & Har & _ & Hargs).
  assert (Hpurge : forall o, spoken (c_db c) s (set_out o (purge_all cfm (c_db c) (drop 1 (argv s)) s))).
  { intros o. eapply (spoken_quiet _ s (purge_all cfm (c_db c) (drop 1 (argv s)) s)); try done; [apply tells_purge_all|]. apply (purge_all_fields (c_db c) (drop 1 (argv s)) s). }
  destruct cmd; cbn [spec1] in Es; try discriminate Es; injection Hsig as <- <-; cbn [proc] in Hp.
  - unfold delCommand in Hp. rewrite (delGeneric_ok cfm c s Hrun) in Hp. injection Hp as <-. by apply (spoken_del Del); auto.
  - unfold unlinkCommand in Hp. rewrite (delGeneric_ok cfm c s Hrun) in Hp. injection Hp as <-. by apply (spoken_del Unlink); auto.
  - destruct (count_ok cfm c s Hrun) as [H _]. rewrite H in Hp. injection Hp as <-. apply Hpurge.
  - rewrite (mget_ok cfm c s Hrun) in Hp. injection Hp as <-. apply Hpurge.
  - unfold msetCommand in Hp. rewrite (mset_ok cfm c s Hrun false Hargs) in Hp. injection Hp as <-. by apply (spoken_mset false).
  - unfold msetnxCommand in Hp. rewrite (mset_ok cfm c s Hrun true Hargs) in Hp. injection Hp as <-. by apply (spoken_mset true).
  - assert (Hlen : (2 < length (argv s))%nat) by (unfold wrong_arity in Har; lia). unfold renameCommand in Hp.
    rewrite (rename_ok cfm (c_db c) false (nth 1 (argv s) []) (nth 2 (argv s) [])) in Hp by (done || (apply lookup_nth; lia)). injection Hp as <-. by apply (spoken_rename false).
  - assert (Hlen : (2 < length (argv s))%nat) by (unfold wrong_arity in Har; lia). unfold renamenxCommand in Hp.
    rewrite (rename_ok cfm (c_db c) true (nth 1 (argv s) []) (nth 2 (argv s) [])) in Hp by (done || (apply lookup_nth; lia)). injection Hp as <-. by apply (spoken_rename true).
  - destruct (count_ok cfm c s Hrun) as [H1 H2]. rewrite H2, H1 in Hp. injection Hp as <-. apply Hpurge.
Qed.

(** *** Calls *)

Lemma data_or_other (x : any) : (exists cmd ro, x = Data cmd ro) \/ (forall cmd ro, x <> Data cmd ro).
Proof. destruct x; eauto; right; done. Qed.

Lemma other_ok i x c s :
  clients_ok s -> clients s !! i = Some c -> known (argv s) x -> x <> Exec -> (forall cmd ro, x <> Data cmd ro) ->
  exists s', simple_proc cfm i x s = Some (s', tt) /\ handled (kept i x) s s' /\ same_data s s'.
Proof.
  intros Hok Hc Hk Hx Hd. destruct x as [cmd ro| | | | | |]; try done; try (by exfalso; eapply Hd).
  - destruct (select_ok cfm i c s Hok Hc Hk) as (s' & H & Hh & Hs). exists s'. split; [done|]. split; [|done]. by apply (handled_weaken all).
  - apply (transaction_ok cfm Hcfm i Multi_ c s Hok Hc). apply list_elem_of_here.
  - apply (transaction_ok cfm Hcfm i Discard c s Hok Hc). set_solver.
  - apply (transaction_ok cfm Hcfm i Watch c s Hok Hc). set_solver.
  - apply (transaction_ok cfm Hcfm i Unwatch c s Hok Hc). set_solver.
Qed.

Lemma cells_dbs s s' : dbs s' = dbs s -> same (cells s) (cells s').
Proof. intros E d k. unfold cells. by rewrite (cell_same s s' d k E). Qed.

(** The propagation after a handler. *)
Lemma fed_tells d t s s2 : dirty t = dirty s -> in_exec s2 = in_exec t -> spoken d t s2 -> tells t (fed true d s s2).
Proof.
  intros Hd He (p & (b & L & T) & El & Ep & H). unfold fed. cbn [andb]. rewrite Hd in H.
  assert (Lp : log_adds t s2 b) by (by eapply log_adds_eq).
  destruct (Z.ltb_spec (dirty s) (dirty s2)).
  - rewrite (proj2 (Z.ltb_lt 0 _)) by lia. exists (b ++ [(d, argv s2)]). split; [eapply log_adds_trans; [exact He|exact Lp|apply log_adds_propagated]|].
    eapply told_app; [exact T|]. apply told_one. by eapply redoes_ext; [| |exact H].
  - rewrite (proj2 (Z.ltb_ge 0 _)) by lia. exists b. split; [done|]. rewrite <- (app_nil_r b). eapply told_app; [exact T|by constructor].
Qed.

Lemma tells_around s t t' s' :
  log t = log s -> propagate_in_transaction t = propagate_in_transaction s -> in_exec t = in_exec s -> dbs t = dbs s ->
  log s' = log t' -> propagate_in_transaction s' = propagate_in_transaction t' -> dbs s' = dbs t' -> tells t t' -> tells s s'.
Proof.
  intros L1 P1 E1 D1 L2 P2 D2 (b & L & T). exists b. split.
  - eapply log_adds_eq; [|exact L2|exact P2]. unfold log_adds in *. by rewrite L1, P1, E1 in L.
  - eapply told_same; [apply same_sym, cells_dbs, D1|]. rewrite <- (app_nil_r b). eapply told_app; [exact T|]. constructor. by apply cells_dbs.
Qed.

Lemma pit_finished s : propagate_in_transaction (finished s) = propagate_in_transaction s.
Proof. unfold finished. by destruct (in_exec s). Qed.

Lemma call_tells i x c s s' :
  wf s -> paused s = false -> 0 <= fixed_time_expire s -> clients_ok s -> clients s !! i = Some c -> masterhost s = false -> loading s = false ->
  known (argv s) x -> x <> Exec -> call cfm i (simple_proc cfm i x) true s = Some (s', tt) -> tells s s'.
Proof.
  intros Hw Hp Hf Hok Hc Hm Hlo Hk Hx Hcall. pose proof (running_started cfm s Hw Hp Hf) as Hr. set (t := started cfm s) in *.
  destruct (started_fields cfm s) as (F1 & F2 & F3 & F4 & F5 & F6 & F7 & F8 & F9 & F10). fold t in F1, F2, F3, F4, F5, F6, F7, F8, F9, F10.
  pose proof (kp_ok all _ _ (keeps_started cfm all s) Hok) as Hok'. fold t in Hok'. destruct (kp_role _ _ _ (keeps_started cfm all s)) as (R1 & R2 & _). fold t in R1, R2.
  assert (Hct : clients t !! i = Some c) by (by rewrite F7). assert (Hkt : known (argv t) x) by (by rewrite F5).
  assert (Hh : exists s2 c2, simple_proc cfm i x t = Some (s2, tt) /\ handled (kept i x) t s2 /\ clients s2 !! i = Some c2 /\ spoken (db c2) t s2).
  { destruct (data_or_other x) as [(cmd & ro & ->)|Hn].
    2: { destruct (other_ok i x c t Hok' Hct Hkt Hx) as (s2 & H & Hh & Hg & Hd & Hl & Hpi); [done|].
         destruct (kp_dom _ _ _ (proj1 Hh) i ltac:(by eexists)) as [c2 Hc2]. exists s2, c2. split; [done|]. split; [done|]. split; [done|].
         eapply (spoken_quiet _ t t); try done; [by apply tells_same|]. intros d k. unfold cells. by rewrite Hg. }
    cbn [simple_proc] in *. rewrite (mbind_ok _ _ _ _ _ (the_client_ok i c t Hct)). set (cl := mk_caller (db c) (CLIENT_MASTER c) ro).
    destruct (Hkt) as (arity & Hl & Ha & Hs). apply lookup_data in Hl as [Hl Hn]. assert (Hreq : request cmd arity ro cl t) by (by repeat split).
    destruct (command_evolves cfm cmd arity ro cl t Hcfm Hr Hreq) as [(s2 & H & Hev)|[_ H]].
    2: { exfalso. rewrite (call_none cfm i _ true s) in Hcall; [done|]. fold t. by rewrite (mbind_ok _ _ _ _ _ (the_client_ok i c t Hct)). }
    exists s2. pose proof (command_spoken cmd arity ro cl t s2 Hr ltac:(congruence) ltac:(congruence) Hl Hreq H) as Hsp.
    destruct (ev_clients _ _ Hev i) as [E|E]; rewrite Hct in E; eexists; (split; [exact H|]); (split; [by apply handled_evolves|]); (split; [exact E|]); exact Hsp. }
  destruct Hh as (s2 & c2 & H & (K & R & _) & Hc2 & Hsp). assert (Hp2 : paused s2 = false) by (destruct (kp_role _ _ _ K) as (_ & _ & ->); congruence).
  rewrite (call_eq cfm i _ true s s2 c2 H Hp2 Hc2) in Hcall. injection Hcall as <-.
  eapply (tells_around s t (fed true (db c2) s s2)); try done.
  - by destruct (finished_fields (fed true (db c2) s s2)) as (-> & _).
  - apply pit_finished.
  - by destruct (finished_fields (fed true (db c2) s s2)) as (_ & _ & -> & _).
  - apply fed_tells; [done|by destruct R as (_ & _ & _ & _ & _ & _ & ->)|done].
Qed.

Lemma exec_loop_tells i q s s' :
  running s -> in_exec s = true -> clients_ok s -> is_Some (clients s !! i) -> Forall queueable q -> masterhost s = false -> loading s = false ->
  exec_loop cfm i q s = Some (s', tt) -> tells s s'.
Proof.
  intros Hr He Hok Hi Hq. revert s Hr He Hok Hi. induction Hq as [|a q Ha Hq IH]; intros s Hr He Hok Hi Hm Hlo Hx; [injection Hx as <-; by apply tells_same|].
  destruct (exec_one cfm Hcfm i a s Hr He Hok Hi Ha) as [(s1 & E & (K & R & Hh) & _ & Hone)|(E & _)]; [|by rewrite E in Hx]. rewrite E in Hx.
  assert (Ee : in_exec s1 = in_exec s) by (by destruct R as (_ & _ & _ & _ & _ & _ & ->)).
  eapply tells_trans; [exact Ee| |apply (IH s1)]; [|eapply running_handled; [by split|done]|congruence|by apply K|by apply K|by destruct R as (-> & _)|by destruct R as (_ & -> & _)|done].
  destruct Hone as [[o ->]|(x & Hk & Hnx & Hcall)]; [by apply tells_same|]. rewrite Hlo in Hcall. cbn [negb] in Hcall. destruct (Hi) as [c Hc].
  eapply (tells_around s (set_argv a s) s1); try done. apply (call_tells i x c (set_argv a s) s1); try done; [apply Hr|apply Hr|apply Z.lt_le_incl, Hr| |].
  - by apply (kp_ok all s); [apply keeps_same|].
  - intros ->. apply Hnx. apply list_elem_of_here.
Qed.

(** *** Requests *)

(** What one request, or one step of the periodic expiration, propagates: commands, or the
    commands of a transaction between MULTI and EXEC. *)
Inductive chapter (K : keyspace) (b : list (Z * list bytes)) (K' : keyspace) : Prop :=
  | plain : told K b K' -> chapter K b K'
  | block d d' a l : b = (d, [bytes_of_string "MULTI"]) :: l ++ [(d', a)] -> known a Exec -> told K l K' -> chapter K b K'.

Definition adds_chapter (s s' : server) : Prop := exists b, log s' = log s ++ b /\ chapter (cells s) b (cells s').

Lemma chapter_nil s s' : log s' = log s -> same (cells s) (cells s') -> adds_chapter s s'.
Proof. intros El Hs. exists []. rewrite app_nil_r. split; [done|]. by apply plain, told_nil. Qed.

Lemma chapter_tells s s' : in_exec s = false -> tells s s' -> adds_chapter s s'.
Proof.
  intros He (b & [(d & El) Hp] & T). exists b. rewrite He in Hp. rewrite El, Hp. split; [by destruct (propagate_in_transaction s)|by apply plain].
Qed.

Lemma chapter_around s t s' : log t = log s -> dbs t = dbs s -> adds_chapter t s' -> adds_chapter s s'.
Proof.
  intros El Ed (b & Hb & Hc). exists b. rewrite Hb, El. split; [done|].
  destruct Hc as [T|d d' a l E Hk T]; [apply plain|by eapply (block _ _ _ d d' a l); [| |eapply told_same; [apply same_sym, cells_dbs, Ed|]]].
  by eapply told_same; [apply same_sym, cells_dbs, Ed|].
Qed.

(** The log of an executed transaction, from what its commands told. *)
Lemma exec_chapter s1 s2 a d' b :
  propagate_in_transaction s1 = false -> in_exec s1 = true -> log_adds s1 s2 b -> counted s1 s2 -> dirty s1 <= dirty s2 -> known a Exec -> told (cells s1) b (cells s2) ->
  exists b', log s2 ++ (if 0 <? dirty s2 + Z.b2z (propagate_in_transaction s2) - dirty s1 then [(d', a)] else []) = log s1 ++ b' /\
    chapter (cells s1) b' (cells s2).
Proof.
  intros Hp He [(d & El) Hx] Hc Hd Ha T. rewrite He in Hx. rewrite El, Hp. cbn [negb andb]. destruct (propagate_in_transaction s2) eqn:E2.
  - rewrite (proj2 (Z.ltb_lt 0 _)) by (cbn; lia). exists ((d, [bytes_of_string "MULTI"]) :: b ++ [(d', a)]). split; [by rewrite <- !app_assoc|]. by eapply block.
  - destruct Hc as [Hc|Hc]; [congruence|]. rewrite (proj2 (Z.ltb_ge 0 _)) by (cbn; lia). destruct Hx as [[-> _]|Hx]; [|congruence].
    exists []. split; [by rewrite !app_nil_r|by apply plain].
Qed.

Lemma exec_call_tells i c s s' :
  idle s -> masterhost s = false -> loading s = false -> clients s !! i = Some c -> known (argv s) Exec ->
  call cfm i (execCommand cfm i) true s = Some (s', tt) -> adds_chapter s s'.
Proof.
  intros Hid Hm Hlo Hc Hk Hcall. destruct (negb (CLIENT_MULTI c) || exec_aborts c (started cfm s)) eqn:E.
  { destruct (exec_call_refused cfm i c s Hid Hc E) as (s2 & H & _ & _ & Hg & Hl & _). rewrite H in Hcall. injection Hcall as <-.
    apply chapter_nil; [done|]. intros d k. unfold cells. by rewrite Hg. }
  apply orb_false_iff in E as [Em Ha]. rewrite negb_false_iff in Em.
  destruct (started_idle cfm s Hid) as [Hr Hok]. destruct (started_fields cfm s) as (F1 & F2 & F3 & F4 & F5 & F6 & F7 & F8 & F9 & F10).
  destruct (kp_role _ _ _ (keeps_started cfm all s)) as (R1 & R2 & _). set (t := started cfm s) in *.
  destruct (exec_executed cfm Hcfm i c t Hr) as (s1 & Hq1 & K1 & H); [rewrite F2; apply Hid|done|by rewrite F7|done|done|].
  set (s1' := set_out _ (set_in_exec true s1)) in H. cbn zeta in H. destruct (Hq1) as [(m1 & cl1 & E1) _].
  destruct (exec_loop cfm i (mstate c) s1') as [[s2 []]|] eqn:El; [|destruct H as [H _]; by rewrite (call_none cfm i _ true s H) in Hcall].
  destruct H as ((K2 & RR2 & _ & D2) & C2 & s3 & Hq3 & K3 & Hx). destruct (Hq3) as [(m3 & cl3 & E3) _].
  assert (Kx : keeps (others i) t s1') by (eapply keeps_trans; [exact K1|by apply keeps_same]).
  assert (Hr1 : running s1') by (split; [apply Kx, Hr|]; unfold s1'; rewrite E1; split; apply Hr).
  assert (Hi : is_Some (clients s1' !! i)) by (apply (kp_dom _ _ _ Kx); rewrite F7; by eexists).
  assert (Hq : Forall queueable (mstate c)) by (apply (co_queue _ Hok i c); by rewrite F7).
  destruct (exec_loop_tells i (mstate c) s1' s2 Hr1 eq_refl (kp_ok _ _ _ Kx Hok) Hi Hq) as (b & L & T); [unfold s1'; rewrite E1; cbn; congruence..|done|].
  destruct (ended_fields s3) as (N1 & N2 & N3 & N4 & N5 & N6 & N7 & N8 & N9 & N10 & N11).
  assert (Kt : keeps (others i) t (ended s3)).
  { eapply keeps_trans; [exact Kx|]. eapply keeps_trans; [exact K2|]. eapply keeps_trans; [exact K3|]. by apply (keeps_weaken all). }
  destruct (kp_dom _ _ _ Kt i) as [c3 Hc3]; [rewrite F7; by eexists|].
  assert (Hpz : paused (ended s3) = false) by (destruct (kp_role _ _ _ Kt) as (_ & _ & ->); rewrite F3; apply Hid).
  rewrite (call_eq cfm i _ true s (ended s3) c3 Hx Hpz Hc3) in Hcall. injection Hcall as <-.
  destruct (fed_fields true (db c3) s (ended s3) N1 N2) as (_ & _ & _ & _ & G5 & _ & G7). destruct (finished_fields (fed true (db c3) s (ended s3))) as (Lf & _ & Df & _).
  assert (Es : log s = log s1' /\ dirty s = dirty s1') by (cbn; rewrite E1; cbn; by rewrite F4, F6). destruct Es as [Es1 Es2].
  destruct (exec_chapter s1' s2 (argv s) (db c3) b) as (b' & Hb' & Hch); try done; [cbn; rewrite E1; cbn; rewrite F8; apply Hid|apply C2; congruence|].
  exists b'. split; [rewrite Lf, G7, N7, N8, N11; cbn [andb]; rewrite E3; cbn; rewrite F5, Es1, Es2; exact Hb'|].
  assert (Hs1 : same (cells s1') (cells s)) by (intros d k; unfold cells; change (get_cell d k s1') with (get_cell d k s1); rewrite (quiet_cell t s1 d k Hq1); by rewrite (cell_same s t)).
  assert (Hs2 : same (cells s2) (cells (finished (fed true (db c3) s (ended s3))))).
  { intros d k. unfold cells. rewrite (cell_same s3) by congruence. by rewrite (quiet_cell _ s3 d k Hq3). }
  destruct Hch as [T'|d d' a l E' Hk' T']; [apply plain|eapply (block _ _ _ d d' a l); [done|done|]]; (eapply told_same; [exact Hs1|]);
    [rewrite <- (app_nil_r b')|rewrite <- (app_nil_r l)]; (eapply told_app; [exact T'|by constructor]).
Qed.

Lemma request_chapter k i a s s' o :
  idle s -> masterhost s = false -> loading s = false -> short a -> processCommand cfm k i a s = Some (s', o) -> adds_chapter s s'.
Proof.
  intros Hid Hm Hlo Hs H. destruct (clients s !! i) as [c|] eqn:Hc; [|by rewrite (no_client cfm k i a s Hid Hc) in H].
  revert H. unfold processCommand. set (t := set_argv a s). pose proof (idle_argv a s Hid) as Hidt. fold t in Hidt. pose proof (id_clients t Hidt) as Hok.
  rewrite (mbind_ok _ _ _ _ _ (not_nested_ok k s Hid)), (mbind_ok (modify (set_argv a)) _ s t tt eq_refl). intros H. apply (chapter_around s t); [done|done|].
  assert (Hans : forall P r s1, answered P r t s1 -> adds_chapter t s1).
  { intros P r s1 Ha. destruct (answered_ok _ _ _ _ Ha) as (_ & Hg & Hl & _). apply chapter_nil; [done|]. intros d key. unfold cells. by rewrite Hg. }
  destruct (lookup_any (hd [] a)) as [[x arity]|] eqn:El.
  2: { destruct (rejectCommand_ok cfm Hcfm i None UnknownCommand c t Hok Hc) as (s1 & Hr & Ha). rewrite (mbind_ok _ _ _ _ _ Hr) in H. injection H as <- _. by eapply Hans. }
  destruct (early_rejection k arity a) as [e|] eqn:Ee.
  { destruct (rejectCommand_ok cfm Hcfm i (Some x) e c t Hok Hc) as (s1 & Hr & Ha). rewrite (mbind_ok _ _ _ _ _ Hr) in H. injection H as <- _. by eapply Hans. }
  assert (Hk : known a x) by (exists arity; unfold early_rejection in Ee; destruct (wrong_arity _ _) eqn:Ew; done).
  pose proof (process_cases cfm Hcfm k i x c t Hok Hc Hk (id_paused t Hidt)) as Hp. destruct (served k c x t).
  2: { destruct Hp as (s1 & r & Hp & Ha & _). rewrite Hp in H. injection H as <- _. by eapply Hans. }
  rewrite Hp in H. destruct (call cfm i (any_proc cfm i x) true t) as [[s1 []]|] eqn:Ecall; [|done]. injection H as <- _.
  destruct (decide (x = Exec)) as [->|Hx]; [by eapply (exec_call_tells i c)|].
  apply chapter_tells; [apply Hidt|]. replace (any_proc cfm i x) with (simple_proc cfm i x) in Ecall by (by destruct x).
  eapply (call_tells i x c); try done; [apply Hidt|apply Hidt|]. pose proof (id_fixed t Hidt). lia.
Qed.

Lemma event_chapter e s s' :
  idle s -> masterhost s = false -> loading s = false -> event_ok e -> serve cfm e s = Some (s', tt) -> adds_chapter s s'.
Proof.
  intros Hid Hm Hlo He H. destruct e as [k i a|d key now]; cbn [serve event_ok] in *.
  - unfold mbind_ in H. destruct (processCommand cfm k i a s) as [[s1 o]|] eqn:E; [|done]. injection H as <-. by eapply request_chapter.
  - unfold expire_cycle in H. rewrite !(mbind_ok (gets _) _ s s _ eq_refl) in H. rewrite Hm, (id_paused s Hid) in H. cbn [orb] in H.
    rewrite (mbind_ok (gets _) _ s s _ eq_refl) in H. destruct (expires (db_at s d) !! key) as [t|] eqn:Et; [|injection H as <-; by apply chapter_nil].
    unfold activeExpireCycleTryExpire in H. destruct (t <? now); [|injection H as <-; by apply chapter_nil].
    assert (Hg : is_Some (get_cell d key s)) by (rewrite (expires_cell d key s (id_wf s Hid)) in Et; destruct (get_cell d key s); [by eexists|done]).
    unfold mbind_ in H. rewrite (deleteExpired_ok cfm d key s (id_wf s Hid) (id_paused s Hid) Hg) in H. injection H as <-.
    apply chapter_tells; [apply Hid|apply tells_deletion].
Qed.

(** The chapters of a run. *)
Inductive story : keyspace -> list (Z * list bytes) -> keyspace -> Prop :=
  | story_nil K K' : same K K' -> story K [] K'
  | story_cons K b K1 b' K' : chapter K b K1 -> story K1 b' K' -> story K (b ++ b') K'.

Lemma run_story evs s s' :
  idle s -> masterhost s = false -> loading s = false -> Forall event_ok evs -> serve_all cfm evs s = Some (s', tt) ->
  exists b, log s' = log s ++ b /\ story (cells s) b (cells s').
Proof.
  intros Hid Hm Hlo He. revert s Hid Hm Hlo. induction He as [|e evs He _ IH]; intros s Hid Hm Hlo H.
  { injection H as <-. exists []. rewrite app_nil_r. split; [done|by constructor]. }
  cbn [serve_all] in H. unfold mbind_ in H. destruct (serve cfm e s) as [[s1 []]|] eqn:E; [|done].
  destruct (event_chapter e s s1 Hid Hm Hlo He E) as (b & Hb & Hc).
  assert (Hu : exists j, ~ unwatches j e) by (destruct e as [k i a|]; [exists (i + 1); intros [? _]; lia|exists 0; intros []]). destruct Hu as [j Hu].
  destruct (serve_ok cfm Hcfm e s s1 j Hid He Hu E) as [Hid1 K]. destruct (kp_role _ _ _ K) as (R1 & R2 & _).
  destruct (IH s1 Hid1 ltac:(congruence) ltac:(congruence) H) as (b' & Hb' & Hs). exists (b ++ b'). rewrite Hb', Hb, app_assoc. split; [done|]. by econstructor.
Qed.

(** ** What the replica does *)

(** The database exists on the replica. *)
Definition selectable (d : Z) : Prop := 0 <= d < dbnum cfr /\ d <= INT32_MAX /\ (cluster_enabled cfr = true -> d = 0).

Definition replayable (e : Z * list bytes) : Prop := selectable (fst e) /\ short (snd e) /\ in_time cfr (snd e).

(** The replica [r] agrees with [K], and its link to the master is the client [i], which has
    selected [d] and queued [q] in a transaction, if there is one. *)
Record linked (i d : Z) (multi : bool) (q : list (list bytes)) (K : keyspace) (r : server) : Prop := mk_linked {
  lk_client : clients r !! i = Some (mk_client d true multi false false q []);
  lk_role : masterhost r = true /\ loading r = false;
  lk_agree : agree K r;
}.

Lemma agree_dbs K r r' : dbs r' = dbs r -> agree K r -> agree K r'.
Proof. intros E Ha d k. rewrite (cells_dbs r r' E). apply Ha. Qed.

Lemma linked_same i d multi q K r r' :
  clients r' = clients r -> masterhost r' = masterhost r -> loading r' = loading r -> dbs r' = dbs r -> linked i d multi q K r -> linked i d multi q K r'.
Proof. intros Ec Em El Ed [Hc [Hm Hl] Ha]. split; [by rewrite Ec|by rewrite Em, El|by eapply agree_dbs]. Qed.

Lemma linked_started i d multi q K r : linked i d multi q K r -> linked i d multi q K (started cfr r).
Proof.
  destruct (started_fields cfr r) as (_ & _ & _ & _ & _ & _ & F7 & _ & _ & F10). destruct (kp_role _ _ _ (keeps_started cfr all r)) as (R1 & R2 & _). by apply linked_same.
Qed.

Lemma linked_finished i d multi q K r : linked i d multi q K r -> linked i d multi q K (finished r).
Proof.
  destruct (finished_fields r) as (_ & _ & F1 & F2). destruct (kp_role _ _ _ (keeps_finished all r)) as (R1 & R2 & _). by apply linked_same.
Qed.

Lemma linked_fed i d multi q K prop d0 r0 r : linked i d multi q K r -> linked i d multi q K (fed prop d0 r0 r).
Proof. unfold fed. destruct (prop && _); [|done]. by apply linked_same. Qed.

Lemma not_watching i d multi q K r : clients_ok r -> linked i d multi q K r -> forall d k, i ∉ default [] (watched_keys (db_at r d) !! k).
Proof.
  intros Hok [Hc _ _] e k Hi. apply (co_watched r Hok e k i) in Hi as (c & Hc' & Hk). rewrite Hc in Hc'. injection Hc' as <-. by apply elem_of_nil in Hk.
Qed.

(** *** Calls *)

Lemma replay_data i d multi q prop a K K' r :
  wf r -> paused r = false -> 0 <= fixed_time_expire r -> clients_ok r -> argv r = a -> linked i d multi q K r ->
  redoes (d, a) K K' -> short a -> in_time cfr a ->
  exists x r', known a (Data x false) /\ call cfr i (simple_proc cfr i (Data x false)) prop r = Some (r', tt) /\ linked i d multi q K' r'.
Proof.
  intros Hw Hp Hf Hok Ha Hlk Hre Hs Ht. destruct (Hre Hs Ht) as (cmd & arity & Hl & Har & Hrun). cbn [fst snd] in *.
  pose proof (running_started cfr r Hw Hp Hf) as Hr. pose proof (linked_started _ _ _ _ _ _ Hlk) as Hlt. pose proof (kp_ok all _ _ (keeps_started cfr all r) Hok) as Hokt.
  destruct (started_fields cfr r) as (F1 & F2 & F3 & F4 & F5 & F6 & F7 & F8 & F9 & F10). set (t := started cfr r) in *. destruct (Hlt) as [Hct [Hmt Hlot] Hat].
  destruct (Hrun t Hr Hmt ltac:(congruence) Hat) as (r2 & Hproc & Hag). set (cl := mk_caller d true false) in *.
  assert (Hreq : request cmd arity false cl t) by (split; [by eapply table_of|]; rewrite F5, Ha; by repeat split).
  destruct (command_evolves cfr cmd arity false cl t Hcfr Hr Hreq) as [(r2' & H & Hev)|[_ H]]; rewrite Hproc in H; [injection H as <-|done].
  assert (Hl2 : linked i d multi q K' r2).
  { split; [rewrite (ev_unmarked _ _ Hev); [done|by eapply not_watching]| |done]. destruct (ev_run _ _ Hev) as (-> & -> & _). done. }
  exists cmd. eexists. split; [exists arity; split; [unfold lookup_any; by rewrite Hl|done]|]. split.
  - eapply (call_eq cfr i _ prop r r2); [|destruct (ev_run _ _ Hev) as (_ & _ & -> & _); congruence|apply Hl2]. fold t. cbn [simple_proc].
    rewrite (mbind_ok _ _ _ _ _ (the_client_ok i _ t Hct)). exact Hproc.
  - apply linked_finished, linked_fed, Hl2.
Qed.

Lemma replay_select i d d' multi q prop K r :
  paused r = false -> argv r = [bytes_of_string "SELECT"; sdec d'] -> linked i d multi q K r -> selectable d' ->
  exists r', call cfr i (selectCommand cfr i) prop r = Some (r', tt) /\ linked i d' multi q K r'.
Proof.
  intros Hp Ha Hlk (Hd & Hmax & Hcl). pose proof (linked_started _ _ _ _ _ _ Hlk) as Hlt. destruct (started_fields cfr r) as (F1 & F2 & F3 & F4 & F5 & F6 & F7 & F8 & F9 & F10).
  set (t := started cfr r) in *. destruct (Hlt) as [Hct Hrt Hat].
  assert (Hs : is_s 64 d') by (unfold is_s, INT32_MAX in *; change (2 ^ (64 - 1)) with (2 ^ 63); lia).
  set (r2 := set_out (out t ++ [ROk]) (set_clients (alter (set_client_db d') i (clients t)) t)).
  assert (Hsel : selectCommand cfr i t = Some (r2, tt)).
  { unfold selectCommand. step (by apply arg_ok; rewrite F5, Ha). step (apply getLongLong_arg). rewrite as_int_sdec by done.
    rewrite (proj2 (Z.ltb_ge d' _)), (proj2 (Z.ltb_ge _ d')) by (unfold INT32_MIN, INT32_MAX in *; lia). cbn [orb].
    replace (cluster_enabled cfr && negb (d' =? 0)) with false by (destruct (cluster_enabled cfr); [by rewrite Hcl|done]).
    rewrite (proj2 (Z.ltb_ge d' 0)), (proj2 (Z.leb_gt (dbnum cfr) d')) by lia. cbn [orb]. done. }
  assert (Hl2 : linked i d' multi q K r2) by (split; [cbn; by rewrite lookup_alter_eq, Hct|done|by apply (agree_dbs K t)]).
  eexists. split; [eapply (call_eq cfr i _ prop r r2); [exact Hsel|cbn; congruence|apply Hl2]|]. apply linked_finished, linked_fed, Hl2.
Qed.

Lemma replay_multi i d K r :
  paused r = false -> linked i d false [] K r -> exists r', call cfr i (multiCommand i) true r = Some (r', tt) /\ linked i d true [] K r'.
Proof.
  intros Hp Hlk. pose proof (linked_started _ _ _ _ _ _ Hlk) as Hlt. destruct (started_fields cfr r) as (F1 & F2 & F3 & F4 & F5 & F6 & F7 & F8 & F9 & F10).
  set (t := started cfr r) in *. destruct (Hlt) as [Hct Hrt Hat].
  set (f := fun c => set_transaction true (CLIENT_DIRTY_CAS c) (CLIENT_DIRTY_EXEC c) (mstate c) c). set (r2 := set_out (out t ++ [ROk]) (set_clients (alter f i (clients t)) t)).
  assert (Hm : multiCommand i t = Some (r2, tt)) by (unfold multiCommand; step (by apply the_client_ok); done).
  assert (Hl2 : linked i d true [] K r2) by (split; [cbn; by rewrite lookup_alter_eq, Hct|done|by apply (agree_dbs K t)]).
  eexists. split; [eapply (call_eq cfr i _ true r r2); [exact Hm|cbn; congruence|apply Hl2]|]. apply linked_finished, linked_fed, Hl2.
Qed.

(** *** Transactions *)

Context (i : Z) (Hacl : forall a, exec_denied cfr i a = false).

Definition last_db (sel : Z) (b : list (Z * list bytes)) : Z := foldl (fun _ e => fst e) sel b.

Lemma with_selects_app sel b b' :
  Replication.with_selects sel (b ++ b') = Replication.with_selects sel b ++ Replication.with_selects (last_db sel b) b'.
Proof. revert sel. induction b as [|[d a] b IH]; intros sel; [done|]. cbn. rewrite IH. by destruct (sel =? d). Qed.

Definition select_request (d : Z) : list bytes := [bytes_of_string "SELECT"; sdec d].

Lemma select_known d : selectable d -> known (select_request d) Select.
Proof.
  intros (Hd & Hmax & _). exists 2. split; [done|]. split; [done|].
  assert (Hs : is_s 64 d) by (unfold is_s, INT32_MAX in *; change (2 ^ (64 - 1)) with (2 ^ 63); lia). pose proof (sdec_length_bound d Hs).
  repeat (apply Forall_cons; split); [done|lia|done].
Qed.

Lemma exec_step a x rest s s' :
  running s -> in_exec s = true -> clients_ok s -> is_Some (clients s !! i) -> loading s = false -> known a x -> x ∉ [Exec; Discard; Multi_; Watch] ->
  call cfr i (simple_proc cfr i x) true (set_argv a s) = Some (s', tt) ->
  exec_loop cfr i (a :: rest) s = exec_loop cfr i rest s' /\ running s' /\ in_exec s' = true /\ clients_ok s'.
Proof.
  intros Hr He Hok Hi Hlo Hk Hx Hcall. destruct (Hk) as (arity & Hl & Har & Hs).
  assert (Heq : forall q, exec_loop cfr i (a :: q) s = exec_loop cfr i q s').
  { intros q. cbn [exec_loop]. rewrite Hl. step done. step done. change (loading (set_argv a s)) with (loading s). rewrite Hlo, Hacl. cbn [negb]. by step exact Hcall. }
  split; [apply Heq|]. destruct (exec_one cfr Hcfr i a s Hr He Hok Hi) as [(s1 & E & (K & R & Hh) & _)|(E & _)]; [by exists x, arity|..|by specialize (E []); rewrite Heq in E].
  specialize (E []). rewrite Heq in E. injection E as <-. split; [eapply running_handled; [by split|done]|]. split; [by destruct R as (_ & _ & _ & _ & _ & _ & ->)|by apply K].
Qed.

(** The replica is executing the transaction of its link. *)
Record executing (d : Z) (q : list (list bytes)) (K : keyspace) (s : server) : Prop := mk_executing {
  ex_running : running s;
  ex_exec : in_exec s = true;
  ex_clients : clients_ok s;
  ex_linked : linked i d true q K s;
}.

Lemma executing_step d d' q K K' a x s s' :
  executing d q K s -> known a x -> x ∉ [Exec; Discard; Multi_; Watch] ->
  call cfr i (simple_proc cfr i x) true (set_argv a s) = Some (s', tt) -> linked i d' true q K' s' ->
  (forall rest, exec_loop cfr i (a :: rest) s = exec_loop cfr i rest s') /\ executing d' q K' s'.
Proof.
  intros [Hr He Hok Hlk] Hk Hx Hcall Hl'. assert (Hi : is_Some (clients s !! i)) by (destruct Hlk as [Hc _ _]; by eexists).
  pose proof (fun rest => exec_step a x rest s s' Hr He Hok Hi (proj2 (lk_role _ _ _ _ _ _ Hlk)) Hk Hx Hcall) as H.
  split; [intros rest; apply H|]. destruct (H []) as (_ & H1 & H2 & H3). by split.
Qed.

Lemma executing_select sel d q K s :
  executing sel q K s -> selectable d ->
  exists s', (forall rest, exec_loop cfr i ((if sel =? d then [] else [select_request d]) ++ rest) s = exec_loop cfr i rest s') /\ executing d q K s'.
Proof.
  intros Hx Hd. destruct (Z.eqb_spec sel d) as [->|Hne]; [by exists s|].
  destruct (replay_select i sel d true q true K (set_argv (select_request d) s)) as (s1 & Hcall & Hl1); [apply Hx|done|by eapply linked_same; [..|apply Hx]|done|].
  exists s1. apply (executing_step sel d q K K (select_request d) Select); try done; [by apply select_known|]. apply (bool_decide_unpack _). by vm_compute.
Qed.

Lemma executing_data d q K K' a s :
  executing d q K s -> redoes (d, a) K K' -> short a -> in_time cfr a ->
  exists s', (forall rest, exec_loop cfr i (a :: rest) s = exec_loop cfr i rest s') /\ executing d q K' s'.
Proof.
  intros Hx Hre Hs Ht. destruct (Hx) as [Hr He Hok Hlk].
  destruct (replay_data i d true q true a K K' (set_argv a s)) as (cmd & s' & Hk & Hcall & Hl'); try done; [apply Hr|apply Hr|apply Z.lt_le_incl, Hr|..].
  - by apply (kp_ok all s); [apply keeps_same|].
  - by eapply linked_same; [..|exact Hlk].
  - exists s'. apply (executing_step d d q K K' a (Data cmd false)); try done. intros Hin. repeat (apply elem_of_cons in Hin as [[=]|Hin]). by apply elem_of_nil in Hin.
Qed.

Lemma executing_told sel q b K K' s :
  told K b K' -> Forall replayable b -> executing sel q K s ->
  exists s', (forall rest, exec_loop cfr i (Replication.with_selects sel b ++ rest) s = exec_loop cfr i rest s') /\ executing (last_db sel b) q K' s'.
Proof.
  intros Ht. revert sel s. induction Ht as [K K' Hs|[d a] b K K1 K' Hre _ IH]; intros sel s Hb Hx.
  { exists s. split; [done|]. destruct Hx as [H1 H2 H3 [Hc Hro Ha]]. split; [done..|]. split; [done|done|]. intros d k. rewrite Hs. apply Ha. }
  apply Forall_cons_1 in Hb as [(Hd & Hsh & Hti) Hb]. destruct (executing_select sel d q K s Hx Hd) as (s1 & E1 & Hx1).
  destruct (executing_data d q K K1 a s1 Hx1 Hre Hsh Hti) as (s2 & E2 & Hx2). destruct (IH d s2 Hb Hx2) as (s3 & E3 & Hx3).
  exists s3. split; [|exact Hx3]. intros rest. cbn [Replication.with_selects]. fold (select_request d). rewrite <- app_assoc, E1. cbn [app]. by rewrite E2, E3.
Qed.

(** The link runs the queued transaction. *)
Lemma replay_exec d b d' K K' r :
  idle r -> told K b K' -> Forall replayable b -> selectable d' ->
  linked i d true (Replication.with_selects d b ++ if last_db d b =? d' then [] else [select_request d']) K r ->
  exists r', call cfr i (execCommand cfr i) true r = Some (r', tt) /\ linked i d' false [] K' r'.
Proof.
  intros Hid Ht Hb Hd' Hlk. set (q := _ ++ _) in Hlk. destruct (started_idle cfr r Hid) as [Hr Hok]. pose proof (linked_started _ _ _ _ _ _ Hlk) as Hlt.
  destruct (started_fields cfr r) as (F1 & F2 & F3 & F4 & F5 & F6 & F7 & F8 & F9 & F10). set (t := started cfr r) in *. destruct (Hlt) as [Hct Hrt Hat].
  set (s1 := set_clients (alter (set_watched []) i (clients t)) t). set (s1' := set_out (out s1 ++ [RArray (Z.of_nat (length q))]) (set_in_exec true s1)).
  assert (Hun : unwatchAllKeys i t = Some (s1, tt)) by (unfold unwatchAllKeys; step (by apply the_client_ok); done).
  destruct (unwatchAllKeys_ok i _ t Hok Hct) as (s1x & Hun' & Hq & _ & Hok1). rewrite Hun in Hun'. injection Hun' as <-.
  assert (Hx1 : executing d q K s1').
  { split; [split; [apply (wf_same t); [done|apply Hr]|apply Hr]|done|by apply (kp_ok all s1); [apply keeps_same|]|].
    split; [cbn; by rewrite lookup_alter_eq, Hct|done|by apply (agree_dbs K t)]. }
  destruct (executing_told d q b K K' s1' Ht Hb Hx1) as (s2 & E2 & Hx2). destruct (executing_select (last_db d b) d' q K' s2 Hx2 Hd') as (s3 & E3 & Hx3).
  assert (Hloop : exec_loop cfr i q s1' = Some (s3, tt)) by (unfold q; rewrite E2, <- (app_nil_r (if _ =? d' then _ else _)), E3; done).
  destruct (Hx3) as [Hr3 He3 Hok3 [Hc3 Hro3 Ha3]]. set (s4 := set_argv (argv t) s3).
  destruct (discardTransaction_ok i _ s4 (kp_ok all s3 s4 (keeps_same all s3 s4 eq_refl eq_refl eq_refl eq_refl eq_refl) Hok3) Hc3) as (s5 & H5 & Hq5 & K5 & Hc5).
  assert (Hexec : execCommand cfr i t = Some (ended s5, tt)).
  { unfold execCommand. step (by apply the_client_ok). cbn [CLIENT_MULTI negb]. step (unfold isWatchedKeyExpired; step (by apply the_client_ok); done). step done.
    step (by apply the_client_ok). cbn [CLIENT_DIRTY_CAS CLIENT_DIRTY_EXEC orb]. step exact Hun. step done. step done. step done. step exact Hloop. step done. step exact H5. apply exec_done_ok. }
  destruct (ended_fields s5) as (N1 & N2 & N3 & N4 & N5 & N6 & N7 & N8 & N9 & N10 & N11). destruct (kp_role _ _ _ K5) as (R1 & R2 & R3).
  assert (Hl5 : linked i d' false [] K' (ended s5)).
  { destruct (kp_role _ _ _ N10) as (M1 & M2 & _). split; [rewrite N6; exact Hc5|rewrite M1, M2, R1, R2; exact Hro3|].
    apply (agree_dbs K' s5); [done|]. intros e k. unfold cells. rewrite (quiet_cell s4 s5 e k Hq5). apply (Ha3 e k). }
  eexists. split; [eapply (call_eq cfr i _ true r (ended s5)); [exact Hexec|rewrite N9, R3; apply Hr3|apply Hl5]|]. apply linked_finished, linked_fed, Hl5.
Qed.

(** *** Requests of the link *)

(** Nothing stands in the way of the master's commands: no script, no lack of memory, and
    the link is up. *)
Definition admits (k : circumstances) : Prop :=
  auth_required k = false /\ acl_denied k = false /\ out_of_memory k = false /\ pubsub_resp2 k = false /\ master_link_stale k = false /\
  lua_timedout k = false /\ from_replica k = false.

Context (k : circumstances) (Hadm : admits k).

(** The replica between two commands of its master. *)
Record following (d : Z) (multi : bool) (q : list (list bytes)) (K : keyspace) (r : server) : Prop := mk_following {
  fo_idle : idle r;
  fo_linked : linked i d multi q K r;
}.

Lemma link_request a x d multi q K r :
  following d multi q K r -> known a x ->
  processCommand cfr k i a r = process_known cfr k i x (set_argv a r) /\
  rejection k (set_argv a r) (mk_client d true multi false false q []) x = None.
Proof.
  intros [Hid [Hc [Hm Hlo] _]] (arity & Hl & Har & _). destruct Hadm as (A1 & A2 & A3 & A4 & A5 & A6 & A7). split.
  - unfold processCommand. step (by apply not_nested_ok). step done. rewrite Hl. unfold early_rejection. by rewrite Har, A1, A2.
  - unfold rejection. change (masterhost (set_argv a r)) with (masterhost r). change (loading (set_argv a r)) with (loading r). rewrite Hm, Hlo, A3, A4, A5, A6, A7.
    cbn [negb CLIENT_MASTER]. by rewrite !andb_false_r.
Qed.

Lemma following_request a x d multi q K r r' d' multi' q' K' :
  following d multi q K r -> known a x -> process_known cfr k i x (set_argv a r) = Some (r', Processed) -> linked i d' multi' q' K' r' ->
  serve cfr (Request k i a) r = Some (r', tt) /\ following d' multi' q' K' r'.
Proof.
  intros Hfo Hk Hp Hl. destruct (link_request a x d multi q K r Hfo Hk) as [E _]. rewrite Hp in E. split; [cbn [serve]; by step exact E|]. split; [|done].
  destruct Hfo as [Hid [Hc _ _]]. destruct Hk as (_ & _ & _ & Hs).
  destruct (processCommand_ok cfr Hcfr k i a _ r Hid Hc Hs) as [(s2 & o & H & Hid' & _)|[H _]]; rewrite E in H; [by injection H as <- _|done].
Qed.

Lemma following_call a x d multi q K r r' d' multi' q' K' :
  following d multi q K r -> known a x -> queued (mk_client d true multi false false q []) x = false ->
  call cfr i (any_proc cfr i x) true (set_argv a r) = Some (r', tt) -> linked i d' multi' q' K' r' ->
  serve cfr (Request k i a) r = Some (r', tt) /\ following d' multi' q' K' r'.
Proof.
  intros Hfo Hk Hq Hcall Hl. apply (following_request a x d multi q K); try done. destruct (link_request a x d multi q K r Hfo Hk) as [_ Hrej].
  destruct Hfo as [Hid [Hc Hro Ha]]. pose proof (idle_argv a r Hid) as Hidt.
  pose proof (process_cases cfr Hcfr k i x _ (set_argv a r) (id_clients _ Hidt) Hc Hk (id_paused _ Hidt)) as H. unfold served in H.
  rewrite Hrej, Hq in H. cbn [CLIENT_MASTER negb andb] in H. rewrite andb_false_r in H. cbn [negb andb] in H. by rewrite H, Hcall.
Qed.

(** Inside a transaction, the commands are queued. *)
Definition enqueued (a : list bytes) : Prop := exists x, known a x /\ x ∉ [Exec; Discard; Multi_; Watch].

Lemma following_queue l d q K r :
  following d true q K r -> Forall enqueued l ->
  exists r', serve_all cfr (Request k i <$> l) r = Some (r', tt) /\ following d true (q ++ l) K r'.
Proof.
  intros Hfo Hl. revert q r Hfo. induction Hl as [|a l (x & Hk & Hx) _ IH]; intros q r Hfo; [exists r; by rewrite app_nil_r|].
  destruct (link_request a x d true q K r Hfo Hk) as [_ Hrej]. destruct (Hfo) as [Hid [Hc Hro Ha]].
  set (f := fun c => set_transaction (CLIENT_MULTI c) (CLIENT_DIRTY_CAS c) (CLIENT_DIRTY_EXEC c) (mstate c ++ [a]) c).
  set (r1 := set_out (out r ++ [RQueued]) (set_clients (alter f i (clients r)) (set_argv a r))).
  assert (Hp : process_known cfr k i x (set_argv a r) = Some (r1, Processed)).
  { unfold process_known. step (by apply the_client_ok). cbn [CLIENT_MASTER negb]. rewrite andb_false_r. cbn [andb]. step done. cbn [id]. rewrite Hrej.
    change (paused (set_argv a r)) with (paused r). rewrite (id_paused r Hid), andb_false_r. cbn [andb].
    unfold queued. cbn [CLIENT_MULTI andb]. rewrite bool_decide_false by done. cbn [negb]. step (step (unfold queueMultiCommand; step (by apply the_client_ok); done); done). done. }
  destruct (following_request a x d true q K r r1 d true (q ++ [a]) K Hfo Hk Hp) as [Hs Hfo1].
  { split; [cbn; by rewrite lookup_alter_eq, Hc|done|by apply (agree_dbs K r)]. }
  destruct (IH _ r1 Hfo1) as (r2 & H2 & Hfo2). exists r2. split; [cbn [fmap list_fmap serve_all]; by step exact Hs|]. by rewrite <- app_assoc in Hfo2.
Qed.

Lemma serve_all_app l l' s s1 : serve_all cfr l s = Some (s1, tt) -> serve_all cfr (l ++ l') s = serve_all cfr l' s1.
Proof.
  revert s. induction l as [|e l IH]; intros s H; [by injection H as <-|]. cbn [app serve_all] in *. unfold mbind_ in *. destruct (serve cfr e s) as [[s2 []]|]; [by apply IH|done].
Qed.

Lemma serve_one e s s1 : serve cfr e s = Some (s1, tt) -> serve_all cfr [e] s = Some (s1, tt).
Proof. intros H. cbn [serve_all]. by step exact H. Qed.

(** The database the master has selected last is that of the link, or it selects one. *)
Lemma following_select sel d d' K r :
  following d false [] K r -> sel = d \/ sel < 0 -> selectable d' ->
  exists r', serve_all cfr (Request k i <$> if sel =? d' then [] else [select_request d']) r = Some (r', tt) /\ following d' false [] K r'.
Proof.
  intros Hfo Hsel Hd. destruct (Z.eqb_spec sel d') as [->|Hne].
  { exists r. split; [done|]. destruct Hsel as [->|Hn]; [done|]. destruct Hd as [Hd _]. lia. }
  destruct (Hfo) as [Hid Hlk].
  destruct (replay_select i d d' false [] true K (set_argv (select_request d') r)) as (r1 & Hcall & Hl1); [apply Hid|done|by eapply linked_same; [..|exact Hlk]|done|].
  exists r1. destruct (following_call (select_request d') Select d false [] K r r1 d' false [] K Hfo (select_known d' Hd) eq_refl Hcall Hl1) as [Hs Hf].
  split; [by apply serve_one|done].
Qed.

Lemma following_told sel d b K K' r :
  told K b K' -> Forall replayable b -> following d false [] K r -> sel = d \/ sel < 0 ->
  exists r' d', serve_all cfr (Request k i <$> Replication.with_selects sel b) r = Some (r', tt) /\ following d' false [] K' r' /\
    (last_db sel b = d' \/ last_db sel b < 0).
Proof.
  intros Ht. revert sel d r. induction Ht as [K K' Hs|[d1 a] b K K1 K' Hre _ IH]; intros sel d r Hb Hfo Hsel.
  { exists r, d. split; [done|]. split; [|done]. destruct Hfo as [Hid [Hc Hro Ha]]. split; [done|]. split; [done|done|]. intros e key. rewrite Hs. apply Ha. }
  apply Forall_cons_1 in Hb as [(Hd & Hsh & Hti) Hb]. cbn [fst snd] in *. destruct (following_select sel d d1 K r Hfo Hsel Hd) as (r1 & E1 & Hfo1).
  destruct (Hfo1) as [Hid1 Hlk1]. pose proof (idle_argv a r1 Hid1) as Hidt.
  destruct (replay_data i d1 false [] true a K K1 (set_argv a r1)) as (cmd & r2 & Hk & Hcall & Hl2); try done; [apply Hidt|apply Hidt|pose proof (id_fixed _ Hidt); lia|apply Hidt|by eapply linked_same; [..|exact Hlk1]|].
  destruct (following_call a (Data cmd false) d1 false [] K r1 r2 d1 false [] K1 Hfo1 Hk eq_refl Hcall Hl2) as [Hs2 Hfo2].
  destruct (IH d1 d1 r2 Hb Hfo2 (or_introl eq_refl)) as (r3 & d3 & E3 & Hfo3). exists r3, d3. split; [|done].
  cbn [Replication.with_selects]. fold (select_request d1). rewrite fmap_app, (serve_all_app _ _ r r1 E1). cbn [fmap list_fmap serve_all]. by step exact Hs2.
Qed.

Lemma told_enqueued sel b K K' : told K b K' -> Forall replayable b -> Forall enqueued (Replication.with_selects sel b).
Proof.
  intros Ht. revert sel. induction Ht as [K K' Hs|[d a] b K K1 K' Hre _ IH]; intros sel Hb; [constructor|]. apply Forall_cons_1 in Hb as [(Hd & Hsh & Hti) Hb].
  cbn [fst snd] in *. cbn [Replication.with_selects]. apply Forall_app. split.
  - destruct (sel =? d); [constructor|]. repeat constructor. exists Select. split; [by apply select_known|]. apply (bool_decide_unpack _). by vm_compute.
  - constructor; [|by apply IH]. destruct (Hre Hsh Hti) as (cmd & arity & Hl & Har & _). cbn [snd] in *. exists (Data cmd false). split; [exists arity; split; [unfold lookup_any; by rewrite Hl|done]|].
    intros Hin. repeat (apply elem_of_cons in Hin as [[=]|Hin]). by apply elem_of_nil in Hin.
Qed.

Lemma following_block sel d d1 d2 a l K K' r :
  told K l K' -> known a Exec -> Forall replayable ((d1, [bytes_of_string "MULTI"]) :: l ++ [(d2, a)]) -> following d false [] K r -> sel = d \/ sel < 0 ->
  exists r', serve_all cfr (Request k i <$> Replication.with_selects sel ((d1, [bytes_of_string "MULTI"]) :: l ++ [(d2, a)])) r = Some (r', tt) /\ following d2 false [] K' r'.
Proof.
  intros Ht Ha Hb Hfo Hsel. apply Forall_cons_1 in Hb as [(Hd1 & Hsh & _) Hb]. apply Forall_app in Hb as [Hl [(Hd2 & _) _]%Forall_cons_1]. cbn [fst snd] in *.
  destruct (following_select sel d d1 K r Hfo Hsel Hd1) as (r1 & E1 & Hfo1). set (m := [bytes_of_string "MULTI"]) in *.
  assert (Hkm : known m Multi_) by (by exists 1). pose proof (idle_argv m r1 (fo_idle _ _ _ _ _ Hfo1)) as Hid1.
  destruct (replay_multi i d1 K (set_argv m r1)) as (r2 & Hcall & Hl2); [apply Hid1|by eapply linked_same; [..|apply Hfo1]|].
  destruct (following_call m Multi_ d1 false [] K r1 r2 d1 true [] K Hfo1 Hkm eq_refl Hcall Hl2) as [E2 Hfo2].
  set (q := Replication.with_selects d1 l ++ if last_db d1 l =? d2 then [] else [select_request d2]).
  assert (Hq : Forall enqueued q).
  { apply Forall_app. split; [by eapply told_enqueued|]. destruct (_ =? d2); [constructor|]. repeat constructor. exists Select. split; [by apply select_known|]. apply (bool_decide_unpack _). by vm_compute. }
  destruct (following_queue q d1 [] K r2 Hfo2 Hq) as (r3 & E3 & Hfo3). cbn [app] in Hfo3. pose proof (idle_argv a r3 (fo_idle _ _ _ _ _ Hfo3)) as Hid3.
  destruct (replay_exec d1 l d2 K K' (set_argv a r3) Hid3 Ht Hl Hd2) as (r4 & Hcall4 & Hl4); [by eapply linked_same; [..|apply Hfo3]|].
  destruct (following_call a Exec d1 true q K r3 r4 d2 false [] K' Hfo3 Ha eq_refl Hcall4 Hl4) as [E4 Hfo4].
  exists r4. split; [|done].
  assert (Ew : Replication.with_selects sel ((d1, m) :: l ++ [(d2, a)]) = (if sel =? d1 then [] else [select_request d1]) ++ m :: q ++ [a]).
  { cbn [Replication.with_selects]. rewrite with_selects_app. cbn [Replication.with_selects]. unfold q. by rewrite <- app_assoc. }
  rewrite Ew, fmap_app, (serve_all_app _ _ r r1 E1). cbn [fmap list_fmap serve_all]. step exact E2. fold (Request k i <$> (q ++ [a])).
  rewrite fmap_app, (serve_all_app _ _ r2 r3 E3). by apply serve_one.
Qed.

Lemma following_story sel d b K K' r :
  story K b K' -> Forall replayable b -> following d false [] K r -> sel = d \/ sel < 0 ->
  exists r' d', serve_all cfr (Request k i <$> Replication.with_selects sel b) r = Some (r', tt) /\ following d' false [] K' r'.
Proof.
  intros Hst. revert sel d r. induction Hst as [K K' Hs|K b K1 b' K' Hch _ IH]; intros sel d r Hb Hfo Hsel.
  { exists r, d. split; [done|]. destruct Hfo as [Hid [Hc Hro Ha]]. split; [done|]. split; [done|done|]. intros e key. rewrite Hs. apply Ha. }
  apply Forall_app in Hb as [Hb Hb'].
  assert (H1 : exists r1 d1, serve_all cfr (Request k i <$> Replication.with_selects sel b) r = Some (r1, tt) /\ following d1 false [] K1 r1 /\
    (last_db sel b = d1 \/ last_db sel b < 0)).
  { destruct Hch as [T|d1 d2 a l -> Hk T]; [by eapply following_told|]. destruct (following_block sel d d1 d2 a l K K1 r T Hk Hb Hfo Hsel) as (r1 & E1 & Hf1).
    exists r1, d2. split; [done|]. split; [done|]. left. unfold last_db. cbn. by rewrite foldl_app. }
  destruct H1 as (r1 & d1 & E1 & Hf1 & Hs1). destruct (IH _ d1 r1 Hb' Hf1 Hs1) as (r2 & d2 & E2 & Hf2). exists r2, d2. split; [|done].
  by rewrite with_selects_app, fmap_app, (serve_all_app _ _ r r1 E1).
Qed.

End Converge.

(** ** Correctness *)

(** C39: replicas converge.  A master serves requests of any clients, in any order, with
    transactions, lazy expiration and the periodic deletion of expired keys; a replica,
    with a clock and a configuration of its own, serves as requests of its master what
    the master propagated meanwhile, with the SELECT commands the stream contains.  If
    they agreed before, they agree after: the same keys with the same values in the same
    databases, and the same of them with expire times.  The replica executes the whole
    stream, and is ready for more.  The databases exist on the replica, it has the memory,
    and the expire times relative to its clock fit. *)
Theorem replica_converges cfm cfr k i evs s s' r sel d :
  config_ok cfm -> config_ok cfr -> (forall n, can_hold cfm n = true -> can_hold cfr n = true) ->
  idle s -> masterhost s = false -> loading s = false -> Forall event_ok evs -> serve_all cfm evs s = Some (s', tt) ->
  let stream := drop (length (log s)) (log s') in
  (forall a, exec_denied cfr i a = false) -> admits k -> Forall (replayable cfr) stream ->
  idle r -> linked i d false [] (cells s) r -> sel = d \/ sel < 0 ->
  exists r' d', serve_all cfr (Request k i <$> Replication.with_selects sel stream) r = Some (r', tt) /\
    idle r' /\ linked i d' false [] (cells s') r'.
Proof.
  intros Hcfm Hcfr Hmem Hid Hm Hlo Hev Hrun stream Hacl Hadm Hb Hidr Hlk Hsel.
  destruct (run_story cfm cfr Hcfm Hcfr Hmem evs s s' Hid Hm Hlo Hev Hrun) as (b & Hlog & Hst).
  assert (Hstream : stream = b) by (unfold stream; by rewrite Hlog, drop_app_length). rewrite Hstream in *.
  destruct (following_story cfr Hcfr i Hacl k Hadm sel d b (cells s) (cells s') r Hst Hb (mk_following i d false [] (cells s) r Hidr Hlk) Hsel)
    as (r' & d' & E & [Hid' Hl']).
  by exists r', d'.
Qed.

(** *** A run *)

(** The replica of the server of the run in Requests.v: its clock is ahead, and its link
    has another database selected. *)
Definition replica_config : config := mk_config demo_env 16 false (2 ^ 29) true false false (fun _ => 5000) (fun n => n <? 2 ^ 40) (fun _ _ => false).

Definition demo_link : client := mk_client 3 true false false false [] [].

Definition demo_replica : server := set_clients {[ 9 := demo_link ]} (demo_server true).

Lemma replica_config_ok : config_ok replica_config.
Proof. split; [intros n; vm_compute; split; (discriminate || reflexivity)|]. intros n Hn. apply Z.ltb_lt in Hn. lia. Qed.

Lemma demo_replica_idle : idle demo_replica.
Proof.
  pose proof (demo_idle true) as [Hw [H1 _ H3 _] Hp Hf He Hm]. assert (Hno : forall d key, watchers demo_replica d key = []).
  { intros d key. change (watchers demo_replica d key) with (watchers (demo_server true) d key). destruct (watchers (demo_server true) d key) as [|j l] eqn:E; [done|].
    destruct (proj1 (H1 d key j)) as (c & Hc & Hk); [rewrite E; apply list_elem_of_here|]. cbn [clients demo_server] in Hc.
    apply lookup_insert_Some in Hc as [[_ <-]|[_ Hc]]; [by apply elem_of_nil in Hk|]. apply lookup_singleton_Some in Hc as [_ <-]. by apply elem_of_nil in Hk. }
  assert (Hcl : forall j c, clients demo_replica !! j = Some c -> c = demo_link) by (intros j c Hc; cbn in Hc; by apply lookup_singleton_Some in Hc as [_ <-]).
  split; try done. split.
  - intros d key j. rewrite Hno. split; [by intros ?%elem_of_nil|]. intros (c & Hc%Hcl & Hk). subst. by apply elem_of_nil in Hk.
  - intros j c Hc%Hcl. subst. constructor.
  - intros d key. rewrite Hno. constructor.
  - intros j c Hc%Hcl. subst. constructor.
Qed.

Definition demo_writes : list event :=
  [Request (calm false) 1 [bytes_of_string "MULTI"]; Request (calm false) 1 [bytes_of_string "GETSET"; demo_key; bytes_of_string "x"];
   Request (calm false) 1 exec_request_args; Request (calm false) 2 [bytes_of_string "SETEX"; demo_key; bytes_of_string "100"; bytes_of_string "8"]].

Definition written_server : server := match serve_all demo_config demo_writes (demo_server false) with Some (s, _) => s | None => demo_server false end.

Definition demo_stream : list (Z * list bytes) :=
  [(0, [bytes_of_string "MULTI"]); (0, [bytes_of_string "SET"; demo_key; bytes_of_string "x"]); (0, exec_request_args);
   (0, [bytes_of_string "SET"; demo_key; bytes_of_string "8"; bytes_of_string "PX"; bytes_of_string "100000"])].

Lemma demo_replayable : Forall (replayable replica_config) demo_stream.
Proof.
  assert (Hsel : selectable replica_config 0) by (split; [by vm_compute|by split]).
  assert (Hs : forall a, forallb (fun x => blen x <? 2 ^ 63) a = true -> short a).
  { intros a H. apply Forall_forall. intros x Hx. apply Z.ltb_lt. apply list_elem_of_In in Hx. exact (proj1 (forallb_forall _ _) H x Hx). }
  assert (Hn : forall a, relative a = None -> in_time replica_config a) by (intros a E ms n H; congruence).
  repeat (apply Forall_cons; split); [..|constructor]; (split; [exact Hsel|split; [apply Hs; vm_compute; reflexivity|]]); [apply Hn; vm_compute; reflexivity..|].
  intros ms n H. assert (E : relative [bytes_of_string "SET"; demo_key; bytes_of_string "8"; bytes_of_string "PX"; bytes_of_string "100000"] = Some 100000) by (vm_compute; reflexivity).
  cbn [snd] in H. rewrite E in H. injection H as <-. cbn [clock replica_config]. lia.
Qed.

Lemma replica_converges_witness :
  exists r' w, serve_all replica_config (Request (calm true) 9 <$> Replication.with_selects (-1) demo_stream) demo_replica = Some (r', tt) /\
    cells r' 0 demo_key = Some (AStr (bytes_of_string "8"), Some w).
Proof.
  assert (Hlog : drop (length (log (demo_server false))) (log written_server) = demo_stream) by (vm_compute; reflexivity).
  assert (Hlink : linked 9 3 false [] (cells (demo_server false)) demo_replica).
  { apply mk_linked; [reflexivity|by split|]. intros d key. change (cells demo_replica d key) with (cells (demo_server false) d key). unfold cells.
    assert (Hg : forall v w, get_cell d key (demo_server false) <> Some (v, Some w)).
    { intros v w E. unfold get_cell, db_at in E. cbn [dbs demo_server] in E.
      destruct (decide (d = 0)) as [->|Hd]; [rewrite lookup_singleton_eq in E|by rewrite lookup_singleton_ne in E].
      cbn [default from_option id dict expires] in E. rewrite lookup_empty in E. by destruct (_ !! key). }
    revert Hg. generalize (get_cell d key (demo_server false)). intros [[v [w|]]|] Hg; [by destruct (Hg v w)|by split|exact I]. }
  destruct (replica_converges demo_config replica_config (calm true) 9 demo_writes (demo_server false) written_server demo_replica (-1) 3
    demo_config_ok replica_config_ok (fun _ H => H) (demo_idle false) eq_refl eq_refl) as (r' & d' & H & _ & [_ _ Ha]).
  - repeat (apply Forall_cons; split); try done; repeat (apply Forall_cons; split); done.
  - vm_compute. reflexivity.
  - done.
  - by repeat split.
  - rewrite Hlog. exact demo_replayable.
  - exact demo_replica_idle.
  - exact Hlink.
  - by right.
  - rewrite Hlog in H. specialize (Ha 0 demo_key). assert (Hm : cells written_server 0 demo_key = Some (AStr (bytes_of_string "8"), Some 101000)) by (vm_compute; reflexivity).
    rewrite Hm in Ha. destruct (cells r' 0 demo_key) as [[v [w|]]|] eqn:E; cbn [alike] in Ha; [|destruct Ha as [_ []]|destruct Ha].
    destruct Ha as [<- _]. exists r', w. split; [exact H|exact E].
Defined.

End Convergence.
