(* ===== verification/Cluster.v ===== *)
(** * Cluster state and its operations: [cluster.c], [cluster.h]

    The state a node keeps about the cluster and the operations on it: hash
    slots and their owners, configuration epochs, failure reports, votes and
    failover.  Nodes are the entries of the dictionary [nodes] and a pointer to a
    node is its 40-byte name, the dictionary's key; a C array of [CLUSTER_SLOTS]
    pointers is a finite map, a null pointer an absent key.  The current time
    ([mstime()]) and the configuration are arguments; what an operation sends or
    asks of the rest of the server is a list of [action]s.  [None] is a failed
    assertion or the dereference of a null or dangling pointer. *)

From Stdlib Require Import ZArith Lia.
From stdpp Require Import base option list numbers gmap.
From S2P Require Import Prelude Crc.

#[local] Open Scope Z_scope.

Module Cluster.

(** ** Data *)

Definition CLUSTER_SLOTS : Z := 16384.

(** States of the cluster and the redirections of [getNodeByQuery]. *)
Inductive cstate := CLUSTER_OK | CLUSTER_FAIL.

Inductive redir := REDIR_NONE | REDIR_CROSS_SLOT | REDIR_UNSTABLE | REDIR_ASK
  | REDIR_MOVED | REDIR_DOWN_STATE | REDIR_DOWN_UNBOUND | REDIR_DOWN_RO_STATE.

#[export] Instance cstate_eq_dec : EqDecision cstate.
Proof. solve_decision. Defined.

#[export] Instance redir_eq_dec : EqDecision redir.
Proof. solve_decision. Defined.

Definition CLUSTER_NODE_MASTER : Z := 1.
Definition CLUSTER_NODE_SLAVE : Z := 2.
Definition CLUSTER_NODE_PFAIL : Z := 4.
Definition CLUSTER_NODE_FAIL : Z := 8.
Definition CLUSTER_NODE_MYSELF : Z := 16.
Definition CLUSTER_NODE_HANDSHAKE : Z := 32.
Definition CLUSTER_NODE_MIGRATE_TO : Z := 256.
Definition CLUSTER_NODE_NOFAILOVER : Z := 512.

Definition CLUSTER_TODO_HANDLE_FAILOVER : Z := 1.
Definition CLUSTER_TODO_UPDATE_STATE : Z := 2.
Definition CLUSTER_TODO_SAVE_CONFIG : Z := 4.
Definition CLUSTER_TODO_FSYNC_CONFIG : Z := 8.
Definition CLUSTER_TODO_HANDLE_MANUALFAILOVER : Z := 16.

Abbreviation name := (list Z).

Record clusterNode := mk_node {
  flags : Z;
  configEpoch : Z;
  slots : bytes;
  numslots : Z;
  slaves : list name;
  slaveof : option name;
  fail_time : Z;
  voted_time : Z;
  repl_offset : Z;
  fail_reports : list (name * Z);
}.

(** The fields of [clusterState] a replica uses to be elected. *)
Record election := mk_election {
  failover_auth_time : Z;
  failover_auth_count : Z;
  failover_auth_sent : bool;
  failover_auth_rank : Z;
  failover_auth_epoch : Z;
  cant_failover_reason : Z;
}.

(** The fields of [clusterState] about a manual failover. *)
Record manual := mk_manual {
  mf_end : Z;
  mf_slave : option name;
  mf_master_offset : Z;
  mf_can_start : bool;
}.

Record clusterState := mk_state {
  myself : name;
  currentEpoch : Z;
  state : cstate;
  size : Z;
  nodes : gmap name clusterNode;
  migrating_slots_to : gmap Z name;
  importing_slots_from : gmap Z name;
  cslots : gmap Z name;
  elect : election;
  mf : manual;
  lastVoteEpoch : Z;
  todo_before_sleep : Z;
  among_minority_time : Z; (* static variables of clusterUpdateState *)
  first_call_time : Z;
}.

(** The configuration directives the operations read. *)
Record config := mk_config {
  cluster_node_timeout : Z;
  cluster_allow_replica_migration : bool;
  cluster_no_redirection : bool;
  cluster_slave_no_failover : bool;
  cluster_slave_validity_factor : Z;
  repl_ping_slave_period : Z;
  cluster_require_full_coverage : bool;
  cluster_allow_reads_when_down : bool;
}.

(** The header of a cluster bus message, as far as it is used below. *)
Record clusterMsg := mk_msg {
  msg_sender : name;
  msg_currentEpoch : Z;
  msg_configEpoch : Z;
  msg_offset : Z;
  msg_myslots : bytes;
  msg_paused : bool;   (* CLUSTERMSG_FLAG0_PAUSED *)
  msg_forceack : bool; (* CLUSTERMSG_FLAG0_FORCEACK *)
}.

(** What the operations ask of the network, the disk and the data set. *)
Inductive action :=
| SendFail (node : name)
| SendFailoverAuth (node : name) (hdr : clusterMsg)
| BroadcastFailoverAuthRequest (hdr : clusterMsg)
| BroadcastPong
| SaveConfig
| ReplicationSetMaster (node : name)
| ReplicationUnsetMaster
| CheckClientPause
| DelKeysInSlot (slot : Z).

(** ** Field updates *)

Definition set_flags (f : Z -> Z) (n : clusterNode) : clusterNode :=
  mk_node (f (flags n)) (configEpoch n) (slots n) (numslots n) (slaves n) (slaveof n)
    (fail_time n) (voted_time n) (repl_offset n) (fail_reports n).
Definition set_configEpoch (e : Z) (n : clusterNode) : clusterNode :=
  mk_node (flags n) e (slots n) (numslots n) (slaves n) (slaveof n)
    (fail_time n) (voted_time n) (repl_offset n) (fail_reports n).
Definition set_slots (b : bytes) (k : Z) (n : clusterNode) : clusterNode :=
  mk_node (flags n) (configEpoch n) b k (slaves n) (slaveof n)
    (fail_time n) (voted_time n) (repl_offset n) (fail_reports n).
Definition set_slaves (l : list name) (n : clusterNode) : clusterNode :=
  mk_node (flags n) (configEpoch n) (slots n) (numslots n) l (slaveof n)
    (fail_time n) (voted_time n) (repl_offset n) (fail_reports n).
Definition set_slaveof (m : option name) (n : clusterNode) : clusterNode :=
  mk_node (flags n) (configEpoch n) (slots n) (numslots n) (slaves n) m
    (fail_time n) (voted_time n) (repl_offset n) (fail_reports n).
Definition set_fail_time (t : Z) (n : clusterNode) : clusterNode :=
  mk_node (flags n) (configEpoch n) (slots n) (numslots n) (slaves n) (slaveof n)
    t (voted_time n) (repl_offset n) (fail_reports n).
Definition set_voted_time (t : Z) (n : clusterNode) : clusterNode :=
  mk_node (flags n) (configEpoch n) (slots n) (numslots n) (slaves n) (slaveof n)
    (fail_time n) t (repl_offset n) (fail_reports n).
Definition set_repl_offset (o : Z) (n : clusterNode) : clusterNode :=
  mk_node (flags n) (configEpoch n) (slots n) (numslots n) (slaves n) (slaveof n)
    (fail_time n) (voted_time n) o (fail_reports n).
Definition set_fail_reports (l : list (name * Z)) (n : clusterNode) : clusterNode :=
  mk_node (flags n) (configEpoch n) (slots n) (numslots n) (slaves n) (slaveof n)
    (fail_time n) (voted_time n) (repl_offset n) l.

Definition set_nodes (m : gmap name clusterNode) (s : clusterState) : clusterState :=
  mk_state (myself s) (currentEpoch s) (state s) (size s) m (migrating_slots_to s)
    (importing_slots_from s) (cslots s) (elect s) (mf s) (lastVoteEpoch s)
    (todo_before_sleep s) (among_minority_time s) (first_call_time s).
Definition set_currentEpoch (e : Z) (s : clusterState) : clusterState :=
  mk_state (myself s) e (state s) (size s) (nodes s) (migrating_slots_to s)
    (importing_slots_from s) (cslots s) (elect s) (mf s) (lastVoteEpoch s)
    (todo_before_sleep s) (among_minority_time s) (first_call_time s).
Definition set_state (c : cstate) (s : clusterState) : clusterState :=
  mk_state (myself s) (currentEpoch s) c (size s) (nodes s) (migrating_slots_to s)
    (importing_slots_from s) (cslots s) (elect s) (mf s) (lastVoteEpoch s)
    (todo_before_sleep s) (among_minority_time s) (first_call_time s).
Definition set_size (k : Z) (s : clusterState) : clusterState :=
  mk_state (myself s) (currentEpoch s) (state s) k (nodes s) (migrating_slots_to s)
    (importing_slots_from s) (cslots s) (elect s) (mf s) (lastVoteEpoch s)
    (todo_before_sleep s) (among_minority_time s) (first_call_time s).
Definition set_cslots (m : gmap Z name) (s : clusterState) : clusterState :=
  mk_state (myself s) (currentEpoch s) (state s) (size s) (nodes s) (migrating_slots_to s)
    (importing_slots_from s) m (elect s) (mf s) (lastVoteEpoch s) (todo_before_sleep s)
    (among_minority_time s) (first_call_time s).
Definition set_open_slots (mig imp : gmap Z name) (s : clusterState) : clusterState :=
  mk_state (myself s) (currentEpoch s) (state s) (size s) (nodes s) mig imp (cslots s)
    (elect s) (mf s) (lastVoteEpoch s) (todo_before_sleep s) (among_minority_time s)
    (first_call_time s).
Definition set_elect (e : election) (s : clusterState) : clusterState :=
  mk_state (myself s) (currentEpoch s) (state s) (size s) (nodes s) (migrating_slots_to s)
    (importing_slots_from s) (cslots s) e (mf s) (lastVoteEpoch s) (todo_before_sleep s)
    (among_minority_time s) (first_call_time s).
Definition set_mf (m : manual) (s : clusterState) : clusterState :=
  mk_state (myself s) (currentEpoch s) (state s) (size s) (nodes s) (migrating_slots_to s)
    (importing_slots_from s) (cslots s) (elect s) m (lastVoteEpoch s) (todo_before_sleep s)
    (among_minority_time s) (first_call_time s).
Definition set_lastVoteEpoch (e : Z) (s : clusterState) : clusterState :=
  mk_state (myself s) (currentEpoch s) (state s) (size s) (nodes s) (migrating_slots_to s)
    (importing_slots_from s) (cslots s) (elect s) (mf s) e (todo_before_sleep s)
    (among_minority_time s) (first_call_time s).
Definition set_todo (t : Z) (s : clusterState) : clusterState :=
  mk_state (myself s) (currentEpoch s) (state s) (size s) (nodes s) (migrating_slots_to s)
    (importing_slots_from s) (cslots s) (elect s) (mf s) (lastVoteEpoch s) t
    (among_minority_time s) (first_call_time s).
Definition set_times (am fc : Z) (s : clusterState) : clusterState :=
  mk_state (myself s) (currentEpoch s) (state s) (size s) (nodes s) (migrating_slots_to s)
    (importing_slots_from s) (cslots s) (elect s) (mf s) (lastVoteEpoch s)
    (todo_before_sleep s) am fc.

Definition upd_node (f : clusterNode -> clusterNode) (n : name) (s : clusterState) : clusterState :=
  set_nodes (alter f n (nodes s)) s.

Definition has_flag (f : Z) (n : clusterNode) : bool := negb (Z.land (flags n) f =? 0).
Definition or_flag (f x : Z) : Z := Z.lor x f.
Definition clear_flag (f x : Z) : Z := Z.land x (Z.lnot f).

Definition nodeIsMaster (n : clusterNode) : bool := has_flag CLUSTER_NODE_MASTER n.
Definition nodeIsSlave (n : clusterNode) : bool := has_flag CLUSTER_NODE_SLAVE n.
Definition nodeInHandshake (n : clusterNode) : bool := has_flag CLUSTER_NODE_HANDSHAKE n.
Definition nodeTimedOut (n : clusterNode) : bool := has_flag CLUSTER_NODE_PFAIL n.
Definition nodeFailed (n : clusterNode) : bool := has_flag CLUSTER_NODE_FAIL n.
Definition nodeCantFailover (n : clusterNode) : bool := has_flag CLUSTER_NODE_NOFAILOVER n.

Definition clusterDoBeforeSleep (f : Z) (s : clusterState) : clusterState :=
  set_todo (Z.lor (todo_before_sleep s) f) s.

(** ** Hash slots of keys *)

(** The index of the first [c] in the list, or its length. *)
Fixpoint index_of (c : Z) (l : bytes) : Z :=
  match l with
  | [] => 0
  | x :: l => if x =? c then 0 else 1 + index_of c l
  end.

Definition keyHashSlot (key : bytes) : Z :=
  let keylen := blen key in
  let s := index_of 123 key in
  if s =? keylen then Z.land (Crc.crc16 key) 0x3FFF else
  let e := s + 1 + index_of 125 (drop (Z.to_nat (s + 1)) key) in
  if (e =? keylen) || (e =? s + 1) then Z.land (Crc.crc16 key) 0x3FFF else
  Z.land (Crc.crc16 (take (Z.to_nat (e - s - 1)) (drop (Z.to_nat (s + 1)) key))) 0x3FFF.

(** ** Slots and their owners *)

Definition bitmapTestBit (bitmap : bytes) (pos : Z) : bool :=
  negb (Z.land (default 0 (bitmap !! Z.to_nat (pos / 8))) (Z.shiftl 1 (Z.land pos 7)) =? 0).

Definition bitmapSetBit (bitmap : bytes) (pos : Z) : bytes :=
  alter (fun b => Z.lor b (Z.shiftl 1 (Z.land pos 7))) (Z.to_nat (pos / 8)) bitmap.

Definition bitmapClearBit (bitmap : bytes) (pos : Z) : bytes :=
  alter (fun b => Z.land b (Z.lnot (Z.shiftl 1 (Z.land pos 7)))) (Z.to_nat (pos / 8)) bitmap.

Definition clusterMastersHaveSlaves (s : clusterState) : bool :=
  negb (foldr (fun '(_, node) sum =>
    if nodeIsSlave node then sum else Z.of_nat (length (slaves node)) + sum)
    0 (map_to_list (nodes s)) =? 0).

Definition clusterNodeSetSlotBit (n : name) (slot : Z) (s : clusterState) : option (bool * clusterState) :=
  nd ← nodes s !! n;
  let old := bitmapTestBit (slots nd) slot in
  let bm := bitmapSetBit (slots nd) slot in
  if old then Some (old, upd_node (set_slots bm (numslots nd)) n s) else
  let s := upd_node (set_slots bm (numslots nd + 1)) n s in
  if (numslots nd + 1 =? 1) && clusterMastersHaveSlaves s
  then Some (old, upd_node (set_flags (or_flag CLUSTER_NODE_MIGRATE_TO)) n s)
  else Some (old, s).

Definition clusterNodeClearSlotBit (n : name) (slot : Z) (s : clusterState) : option (bool * clusterState) :=
  nd ← nodes s !! n;
  let old := bitmapTestBit (slots nd) slot in
  let bm := bitmapClearBit (slots nd) slot in
  Some (old, upd_node (set_slots bm (if old then numslots nd - 1 else numslots nd)) n s).

Definition clusterNodeGetSlotBit (nd : clusterNode) (slot : Z) : bool := bitmapTestBit (slots nd) slot.

(** [true] is [C_OK], [false] is [C_ERR]. *)
Definition clusterAddSlot (n : name) (slot : Z) (s : clusterState) : option (bool * clusterState) :=
  match cslots s !! slot with
  | Some _ => Some (false, s)
  | None =>
      '(_, s) ← clusterNodeSetSlotBit n slot s;
      Some (true, set_cslots (<[slot := n]> (cslots s)) s)
  end.

Definition clusterDelSlot (slot : Z) (s : clusterState) : option (bool * clusterState) :=
  match cslots s !! slot with
  | None => Some (false, s)
  | Some n =>
      '(old, s) ← clusterNodeClearSlotBit n slot s;
      if old : bool then Some (true, set_cslots (delete slot (cslots s)) s) else None
  end.

(** A loop over the slots that threads a state. *)
Definition for_slots {A} (f : A -> Z -> option A) (a : A) : option A :=
  foldl (fun a j => a ← a; f a j) (Some a) (seqZ 0 CLUSTER_SLOTS).

Definition clusterDelNodeSlots (node : name) (s : clusterState) : option (Z * clusterState) :=
  for_slots (fun '(deleted, s) j =>
    nd ← nodes s !! node;
    if clusterNodeGetSlotBit nd j then
      '(_, s) ← clusterDelSlot j s; Some (deleted + 1, s)
    else Some (deleted, s)) (0, s).

Definition clusterCloseAllSlots (s : clusterState) : clusterState := set_open_slots ∅ ∅ s.

(** ** Masters and replicas *)

Fixpoint remove_first (x : name) (l : list name) : option (list name) :=
  match l with
  | [] => None
  | y :: l => if decide (y = x) then Some l else r ← remove_first x l; Some (y :: r)
  end.

Definition clusterNodeRemoveSlave (master slave : name) (s : clusterState) : option (bool * clusterState) :=
  m ← nodes s !! master;
  match remove_first slave (slaves m) with
  | None => Some (false, s)
  | Some l =>
      let s := upd_node (set_slaves l) master s in
      Some (true, if decide (l = []) then upd_node (set_flags (clear_flag CLUSTER_NODE_MIGRATE_TO)) master s
                  else s)
  end.

Definition clusterNodeAddSlave (master slave : name) (s : clusterState) : option (bool * clusterState) :=
  m ← nodes s !! master;
  if decide (slave ∈ slaves m) then Some (false, s) else
  Some (true, upd_node (fun m => set_flags (or_flag CLUSTER_NODE_MIGRATE_TO)
                                   (set_slaves (slaves m ++ [slave]) m)) master s).

Definition clusterSetNodeAsMaster (n : name) (s : clusterState) : option clusterState :=
  nd ← nodes s !! n;
  if nodeIsMaster nd then Some s else
  s ← match slaveof nd with
      | Some m =>
          '(_, s) ← clusterNodeRemoveSlave m n s;
          Some (if decide (n = myself s) then s
                else upd_node (set_flags (or_flag CLUSTER_NODE_MIGRATE_TO)) n s)
      | None => Some s
      end;
  let s := upd_node (set_flags (fun f => or_flag CLUSTER_NODE_MASTER (clear_flag CLUSTER_NODE_SLAVE f))) n s in
  let s := upd_node (set_slaveof None) n s in
  Some (clusterDoBeforeSleep (Z.lor CLUSTER_TODO_SAVE_CONFIG CLUSTER_TODO_UPDATE_STATE) s).

Definition resetManualFailover (s : clusterState) : clusterState * list action :=
  (set_mf (mk_manual 0 None (-1) false) s,
   if mf_end (mf s) =? 0 then [] else [CheckClientPause]).

(** A master becomes a replica and closes its open slots; a replica leaves its
    master. *)
Definition leave_role (me : clusterNode) (s : clusterState) : option clusterState :=
  if nodeIsMaster me then
    let s := upd_node (set_flags (fun f => or_flag CLUSTER_NODE_SLAVE
      (clear_flag (Z.lor CLUSTER_NODE_MASTER CLUSTER_NODE_MIGRATE_TO) f))) (myself s) s in
    Some (clusterCloseAllSlots s)
  else match slaveof me with
       | Some m => '(_, s) ← clusterNodeRemoveSlave m (myself s) s; Some s
       | None => Some s
       end.

Definition clusterSetMaster (n : name) (s : clusterState) : option (clusterState * list action) :=
  me ← nodes s !! myself s;
  if decide (n = myself s) then None else
  if negb (numslots me =? 0) then None else
  s ← leave_role me s;
  let s := upd_node (set_slaveof (Some n)) (myself s) s in
  '(_, s) ← clusterNodeAddSlave n (myself s) s;
  let '(s, acts) := resetManualFailover s in
  Some (s, ReplicationSetMaster n :: acts).

(** ** Learning slot configurations *)

(** The variables of the loop of [clusterUpdateSlotsConfigWith]. *)
Record update := mk_update {
  u_state : clusterState;
  u_newmaster : option name;
  u_dirty : list Z;
  u_sender_slots : Z;
  u_migrated : Z;
}.

(** One turn of the loop. [countKeysInSlot] is the number of keys the data set
    holds in a slot. *)
Definition update_slot (countKeysInSlot : Z -> Z) (sender : name) (senderConfigEpoch : Z)
    (claimed : bytes) (curmaster : option name) (u : update) (j : Z) : option update :=
  let s := u_state u in
  if negb (bitmapTestBit claimed j) then Some u else
  let sender_slots := u_sender_slots u + 1 in
  let skip := Some (mk_update s (u_newmaster u) (u_dirty u) sender_slots (u_migrated u)) in
  if decide (cslots s !! j = Some sender) then skip else
  if decide (is_Some (importing_slots_from s !! j)) then skip else
  newer ← match cslots s !! j with
          | None => Some true
          | Some n => nd ← nodes s !! n; Some (configEpoch nd <? senderConfigEpoch)
          end;
  if negb newer then skip else
  let dirty :=
    if bool_decide (cslots s !! j = Some (myself s)) && negb (countKeysInSlot j =? 0)
       && negb (bool_decide (sender = myself s))
    then u_dirty u ++ [j] else u_dirty u in
  let '(newmaster, migrated) :=
    if decide (cslots s !! j = curmaster) then (Some sender, u_migrated u + 1)
    else (u_newmaster u, u_migrated u) in
  '(_, s) ← clusterDelSlot j s;
  '(_, s) ← clusterAddSlot sender j s;
  let s := clusterDoBeforeSleep (Z.lor CLUSTER_TODO_SAVE_CONFIG
             (Z.lor CLUSTER_TODO_UPDATE_STATE CLUSTER_TODO_FSYNC_CONFIG)) s in
  Some (mk_update s newmaster dirty sender_slots migrated).

Definition clusterUpdateSlotsConfigWith (cfg : config) (countKeysInSlot : Z -> Z) (sender : name)
    (senderConfigEpoch : Z) (claimed : bytes) (s : clusterState) : option (clusterState * list action) :=
  me ← nodes s !! myself s;
  let curmaster := if nodeIsMaster me then Some (myself s) else slaveof me in
  if decide (sender = myself s) then Some (s, []) else
  u ← for_slots (update_slot countKeysInSlot sender senderConfigEpoch claimed curmaster)
        (mk_update s None [] 0 0);
  let s := u_state u in
  if cluster_no_redirection cfg then Some (s, []) else
  demoted ← match u_newmaster u with
            | None => Some false
            | Some _ =>
                cm ← curmaster; (* curmaster->numslots *)
                nd ← nodes s !! cm;
                Some ((numslots nd =? 0) &&
                      (cluster_allow_replica_migration cfg || (u_sender_slots u =? u_migrated u)))
            end;
  if demoted : bool then
    '(s, acts) ← clusterSetMaster sender s;
    Some (clusterDoBeforeSleep (Z.lor CLUSTER_TODO_SAVE_CONFIG
            (Z.lor CLUSTER_TODO_UPDATE_STATE CLUSTER_TODO_FSYNC_CONFIG)) s, acts)
  else Some (s, DelKeysInSlot <$> u_dirty u).

(** ** Configuration epochs *)

Definition clusterGetMaxEpoch (s : clusterState) : Z :=
  let mx := foldr (fun '(_, node) mx => if mx <? configEpoch node then configEpoch node else mx)
              0 (map_to_list (nodes s)) in
  if mx <? currentEpoch s then currentEpoch s else mx.

Definition clusterBumpConfigEpochWithoutConsensus (s : clusterState) : option (bool * clusterState) :=
  me ← nodes s !! myself s;
  let maxEpoch := clusterGetMaxEpoch s in
  if (configEpoch me =? 0) || negb (configEpoch me =? maxEpoch) then
    let s := set_currentEpoch (u64 (currentEpoch s + 1)) s in
    let s := upd_node (set_configEpoch (currentEpoch s)) (myself s) s in
    Some (true, clusterDoBeforeSleep (Z.lor CLUSTER_TODO_SAVE_CONFIG CLUSTER_TODO_FSYNC_CONFIG) s)
  else Some (false, s).

(** [memcmp] on two names: their order as strings of unsigned bytes. *)
Fixpoint memcmp (a b : bytes) : comparison :=
  match a, b with
  | x :: a, y :: b => match Z.compare x y with Eq => memcmp a b | c => c end
  | [], [] => Eq
  | [], _ => Lt
  | _, [] => Gt
  end.

Definition clusterHandleConfigEpochCollision (sender : name) (s : clusterState)
  : option (clusterState * list action) :=
  me ← nodes s !! myself s;
  sd ← nodes s !! sender;
  if negb (configEpoch sd =? configEpoch me) || negb (nodeIsMaster sd) || negb (nodeIsMaster me)
  then Some (s, []) else
  match memcmp sender (myself s) with
  | Gt =>
      let s := set_currentEpoch (u64 (currentEpoch s + 1)) s in
      Some (upd_node (set_configEpoch (currentEpoch s)) (myself s) s, [SaveConfig])
  | _ => Some (s, [])
  end.

(** ** Failure reports *)

Definition CLUSTER_FAIL_REPORT_VALIDITY_MULT : Z := 2.
Definition CLUSTER_FAIL_UNDO_TIME_MULT : Z := 2.

(** Updates the time of the first report of [sender], if there is one. *)
Fixpoint touch_report (sender : name) (now : Z) (l : list (name * Z)) : option (list (name * Z)) :=
  match l with
  | [] => None
  | (n, t) :: l => if decide (n = sender) then Some ((n, now) :: l)
                   else r ← touch_report sender now l; Some ((n, t) :: r)
  end.

Definition clusterNodeAddFailureReport (now : Z) (failing sender : name) (s : clusterState)
  : option (bool * clusterState) :=
  nd ← nodes s !! failing;
  match touch_report sender now (fail_reports nd) with
  | Some l => Some (false, upd_node (set_fail_reports l) failing s)
  | None => Some (true, upd_node (set_fail_reports (fail_reports nd ++ [(sender, now)])) failing s)
  end.

Definition cleanup_reports (now maxtime : Z) (l : list (name * Z)) : list (name * Z) :=
  List.filter (fun '(_, t) => negb (maxtime <? now - t)) l.

Definition clusterNodeCleanupFailureReports (cfg : config) (now : Z) (node : name) (s : clusterState)
  : option clusterState :=
  nd ← nodes s !! node;
  let maxtime := cluster_node_timeout cfg * CLUSTER_FAIL_REPORT_VALIDITY_MULT in
  Some (upd_node (set_fail_reports (cleanup_reports now maxtime (fail_reports nd))) node s).

Fixpoint del_report (sender : name) (l : list (name * Z)) : option (list (name * Z)) :=
  match l with
  | [] => None
  | (n, t) :: l => if decide (n = sender) then Some l
                   else r ← del_report sender l; Some ((n, t) :: r)
  end.

Definition clusterNodeDelFailureReport (cfg : config) (now : Z) (node sender : name) (s : clusterState)
  : option (bool * clusterState) :=
  nd ← nodes s !! node;
  match del_report sender (fail_reports nd) with
  | None => Some (false, s)
  | Some l =>
      s ← clusterNodeCleanupFailureReports cfg now node (upd_node (set_fail_reports l) node s);
      Some (true, s)
  end.

Definition clusterNodeFailureReportsCount (cfg : config) (now : Z) (node : name) (s : clusterState)
  : option (Z * clusterState) :=
  s ← clusterNodeCleanupFailureReports cfg now node s;
  nd ← nodes s !! node;
  Some (Z.of_nat (length (fail_reports nd)), s).

Definition markNodeAsFailingIfNeeded (cfg : config) (now : Z) (node : name) (s : clusterState)
  : option (clusterState * list action) :=
  let needed_quorum := size s / 2 + 1 in
  nd ← nodes s !! node;
  if negb (nodeTimedOut nd) then Some (s, []) else
  if nodeFailed nd then Some (s, []) else
  '(failures, s) ← clusterNodeFailureReportsCount cfg now node s;
  me ← nodes s !! myself s;
  let failures := if nodeIsMaster me then failures + 1 else failures in
  if failures <? needed_quorum then Some (s, []) else
  let s := upd_node (fun nd => set_fail_time now (set_flags (fun f =>
             or_flag CLUSTER_NODE_FAIL (clear_flag CLUSTER_NODE_PFAIL f)) nd)) node s in
  Some (clusterDoBeforeSleep (Z.lor CLUSTER_TODO_UPDATE_STATE CLUSTER_TODO_SAVE_CONFIG) s, [SendFail node]).

Definition clearNodeFailureIfNeeded (cfg : config) (now : Z) (node : name) (s : clusterState)
  : option clusterState :=
  nd ← nodes s !! node;
  if negb (nodeFailed nd) then None else
  let clear s := clusterDoBeforeSleep (Z.lor CLUSTER_TODO_UPDATE_STATE CLUSTER_TODO_SAVE_CONFIG)
                   (upd_node (set_flags (clear_flag CLUSTER_NODE_FAIL)) node s) in
  let s := if nodeIsSlave nd || (numslots nd =? 0) then clear s else s in
  Some (if nodeIsMaster nd && (0 <? numslots nd) &&
           (cluster_node_timeout cfg * CLUSTER_FAIL_UNDO_TIME_MULT <? now - fail_time nd)
        then clear s else s).

(** ** Votes *)

(** The header of this node's messages: its master's slots and epoch if it is a
    replica. [offset] is the replication offset the node announces. *)
Definition clusterBuildMessageHdr (offset : Z) (s : clusterState) : option clusterMsg :=
  me ← nodes s !! myself s;
  master ← match slaveof me with
           | Some m => if nodeIsSlave me then nodes s !! m else Some me
           | None => Some me
           end;
  Some (mk_msg (myself s) (currentEpoch s) (configEpoch master) offset (slots master)
          (nodeIsMaster me && negb (mf_end (mf s) =? 0)) false).

(** Is every slot the request claims unassigned here, or assigned to a node whose
    epoch is not newer than the request's? The loop returns at the first that is
    not. *)
Definition claim_not_stale (claimed : bytes) (requestConfigEpoch : Z) (s : clusterState) : option bool :=
  for_slots (fun (ok : bool) j =>
    if negb ok || negb (bitmapTestBit claimed j) then Some ok else
    match cslots s !! j with
    | None => Some true
    | Some n => nd ← nodes s !! n; Some (configEpoch nd <=? requestConfigEpoch)
    end) true.

Definition clusterSendFailoverAuthIfNeeded (cfg : config) (now offset : Z) (node : name)
    (request : clusterMsg) (s : clusterState) : option (clusterState * list action) :=
  me ← nodes s !! myself s;
  nd ← nodes s !! node;
  if nodeIsSlave me || (numslots me =? 0) then Some (s, []) else
  if msg_currentEpoch request <? currentEpoch s then Some (s, []) else
  if lastVoteEpoch s =? currentEpoch s then Some (s, []) else
  if nodeIsMaster nd then Some (s, []) else
  match slaveof nd with
  | None => Some (s, [])
  | Some master =>
      m ← nodes s !! master;
      if negb (nodeFailed m) && negb (msg_forceack request) then Some (s, []) else
      if now - voted_time m <? cluster_node_timeout cfg * 2 then Some (s, []) else
      ok ← claim_not_stale (msg_myslots request) (msg_configEpoch request) s;
      if negb ok then Some (s, []) else
      let s := set_lastVoteEpoch (currentEpoch s) s in
      let s := upd_node (set_voted_time now) master s in
      let s := clusterDoBeforeSleep (Z.lor CLUSTER_TODO_SAVE_CONFIG CLUSTER_TODO_FSYNC_CONFIG) s in
      hdr ← clusterBuildMessageHdr offset s;
      Some (s, [SendFailoverAuth node hdr])
  end.

(** The part of [clusterProcessPacket] common to all messages of a known sender
    that is not in handshake: epochs and replication offset. *)
Definition process_header (hdr : clusterMsg) (s : clusterState) : option clusterState :=
  match nodes s !! msg_sender hdr with
  | None => Some s
  | Some sd =>
      if nodeInHandshake sd then Some s else
      let s := if currentEpoch s <? msg_currentEpoch hdr then set_currentEpoch (msg_currentEpoch hdr) s else s in
      let s := if configEpoch sd <? msg_configEpoch hdr
               then clusterDoBeforeSleep (Z.lor CLUSTER_TODO_SAVE_CONFIG CLUSTER_TODO_FSYNC_CONFIG)
                      (upd_node (set_configEpoch (msg_configEpoch hdr)) (msg_sender hdr) s)
               else s in
      let s := upd_node (set_repl_offset (msg_offset hdr)) (msg_sender hdr) s in
      me ← nodes s !! myself s;
      Some (if negb (mf_end (mf s) =? 0) && nodeIsSlave me &&
               bool_decide (slaveof me = Some (msg_sender hdr)) && msg_paused hdr &&
               (mf_master_offset (mf s) =? -1)
            then clusterDoBeforeSleep CLUSTER_TODO_HANDLE_MANUALFAILOVER
                   (set_mf (mk_manual (mf_end (mf s)) (mf_slave (mf s)) (msg_offset hdr)
                      (mf_can_start (mf s))) s)
            else s)
  end.

(** [FAILOVER_AUTH_REQUEST] and [FAILOVER_AUTH_ACK] packets. *)
Definition process_auth_request (cfg : config) (now offset : Z) (hdr : clusterMsg) (s : clusterState)
  : option (clusterState * list action) :=
  s ← process_header hdr s;
  match nodes s !! msg_sender hdr with
  | None => Some (s, [])
  | Some _ => clusterSendFailoverAuthIfNeeded cfg now offset (msg_sender hdr) hdr s
  end.

Definition set_auth_count (c : Z) (e : election) : election :=
  mk_election (failover_auth_time e) c (failover_auth_sent e) (failover_auth_rank e)
    (failover_auth_epoch e) (cant_failover_reason e).

Definition process_auth_ack (hdr : clusterMsg) (s : clusterState) : option clusterState :=
  s ← process_header hdr s;
  match nodes s !! msg_sender hdr with
  | None => Some s
  | Some sd =>
      (* senderCurrentEpoch stays 0 for a sender in handshake *)
      let senderCurrentEpoch := if nodeInHandshake sd then 0 else msg_currentEpoch hdr in
      if nodeIsMaster sd && (0 <? numslots sd) && (failover_auth_epoch (elect s) <=? senderCurrentEpoch)
      then Some (clusterDoBeforeSleep CLUSTER_TODO_HANDLE_FAILOVER
                   (set_elect (set_auth_count (failover_auth_count (elect s) + 1) (elect s)) s))
      else Some s
  end.

(** ** State of the cluster as a whole *)

Definition CLUSTER_MAX_REJOIN_DELAY : Z := 5000.
Definition CLUSTER_MIN_REJOIN_DELAY : Z := 500.
Definition CLUSTER_WRITABLE_DELAY : Z := 2000.

(** Is some slot unassigned or owned by a failing node? *)
Definition slots_uncovered (s : clusterState) : option bool :=
  for_slots (fun (bad : bool) j =>
    if bad then Some bad else
    match cslots s !! j with
    | None => Some true
    | Some n => nd ← nodes s !! n; Some (nodeFailed nd)
    end) false.

Definition count_nodes (p : clusterNode -> bool) (s : clusterState) : Z :=
  Z.of_nat (length (List.filter (fun '(_, nd) => p nd) (map_to_list (nodes s)))).

Definition voting_master (nd : clusterNode) : bool := nodeIsMaster nd && negb (numslots nd =? 0).

Definition clusterUpdateState (cfg : config) (now : Z) (s : clusterState) : option clusterState :=
  me ← nodes s !! myself s;
  let s := set_todo (Z.land (todo_before_sleep s) (Z.lnot CLUSTER_TODO_UPDATE_STATE)) s in
  let s := if first_call_time s =? 0 then set_times (among_minority_time s) now s else s in
  if nodeIsMaster me && bool_decide (state s = CLUSTER_FAIL) &&
     (now - first_call_time s <? CLUSTER_WRITABLE_DELAY) then Some s else
  uncovered ← (if cluster_require_full_coverage cfg then slots_uncovered s else Some false);
  let new_state := if uncovered : bool then CLUSTER_FAIL else CLUSTER_OK in
  let s := set_size (count_nodes voting_master s) s in
  let reachable_masters := count_nodes (fun nd => voting_master nd &&
        negb (has_flag (Z.lor CLUSTER_NODE_FAIL CLUSTER_NODE_PFAIL) nd)) s in
  let '(new_state, s) := if reachable_masters <? size s / 2 + 1
                         then (CLUSTER_FAIL, set_times now (first_call_time s) s) else (new_state, s) in
  if bool_decide (new_state = state s) then Some s else
  let rejoin_delay := Z.max CLUSTER_MIN_REJOIN_DELAY
                        (Z.min CLUSTER_MAX_REJOIN_DELAY (cluster_node_timeout cfg)) in
  if bool_decide (new_state = CLUSTER_OK) && nodeIsMaster me &&
     (now - among_minority_time s <? rejoin_delay) then Some s else
  Some (set_state new_state s).

(** ** Failover *)

(** The loop that claims the slots of the old master. *)
Definition claim_slots (oldmaster : name) (s : clusterState) : option clusterState :=
  for_slots (fun s j =>
    om ← nodes s !! oldmaster;
    if clusterNodeGetSlotBit om j then
      '(_, s) ← clusterDelSlot j s;
      '(_, s) ← clusterAddSlot (myself s) j s; Some s
    else Some s) s.

Definition clusterFailoverReplaceYourMaster (cfg : config) (now : Z) (s : clusterState)
  : option (clusterState * list action) :=
  me ← nodes s !! myself s;
  if nodeIsMaster me then Some (s, []) else
  match slaveof me with
  | None => Some (s, [])
  | Some oldmaster =>
      s ← clusterSetNodeAsMaster (myself s) s;
      s ← claim_slots oldmaster s;
      s ← clusterUpdateState cfg now s;
      let '(s, acts) := resetManualFailover s in
      Some (s, [ReplicationUnsetMaster; SaveConfig; BroadcastPong] ++ acts)
  end.

(** The state of replication that the election reads, and the random delay. *)
Record repl := mk_repl {
  data_age_raw : Z; (* milliseconds since the last interaction with the master *)
  slave_offset : Z; (* replicationGetSlaveOffset() *)
  random_ : Z;
}.

Definition clusterGetSlaveRank (r : repl) (s : clusterState) : option Z :=
  me ← nodes s !! myself s;
  if negb (nodeIsSlave me) then None else
  match slaveof me with
  | None => Some 0
  | Some master =>
      m ← nodes s !! master;
      foldl (fun rank n => rank ← rank;
        if decide (n = myself s) then Some rank else
        nd ← nodes s !! n;
        Some (if negb (nodeCantFailover nd) && (slave_offset r <? repl_offset nd) then rank + 1 else rank))
        (Some 0) (slaves m)
  end.

Definition CLUSTER_CANT_FAILOVER_NONE : Z := 0.
Definition CLUSTER_CANT_FAILOVER_DATA_AGE : Z := 1.
Definition CLUSTER_CANT_FAILOVER_WAITING_DELAY : Z := 2.
Definition CLUSTER_CANT_FAILOVER_EXPIRED : Z := 3.
Definition CLUSTER_CANT_FAILOVER_WAITING_VOTES : Z := 4.

(** The effect of [clusterLogCantFailover] besides the log. *)
Definition cant_failover (reason : Z) (s : clusterState) : clusterState :=
  let e := elect s in
  set_elect (mk_election (failover_auth_time e) (failover_auth_count e) (failover_auth_sent e)
    (failover_auth_rank e) (failover_auth_epoch e) reason) s.

(** [clusterRequestFailoverAuth]: the header with the force flag of a manual
    failover, broadcast. *)
Definition clusterRequestFailoverAuth (offset : Z) (s : clusterState) : option action :=
  h ← clusterBuildMessageHdr offset s;
  Some (BroadcastFailoverAuthRequest
    (mk_msg (msg_sender h) (msg_currentEpoch h) (msg_configEpoch h) (msg_offset h) (msg_myslots h)
       (msg_paused h) (negb (mf_end (mf s) =? 0)))).

(** The branches of [clusterHandleSlaveFailover] once an election is allowed:
    scheduling one, and the rest. *)
Definition schedule_election (now : Z) (r : repl) (s : clusterState) : option (clusterState * list action) :=
  rank ← clusterGetSlaveRank r s;
  let e := elect s in
  let '(t, rank) := if mf_end (mf s) =? 0 then (now + 500 + random_ r mod 500 + rank * 1000, rank)
                    else (now, 0) in
  let s := set_elect (mk_election t 0 false rank (failover_auth_epoch e) (cant_failover_reason e)) s in
  let s := if mf_end (mf s) =? 0 then s else clusterDoBeforeSleep CLUSTER_TODO_HANDLE_FAILOVER s in
  Some (s, [BroadcastPong]).

(** The extra delay when this replica's rank got worse. *)
Definition update_rank (r : repl) (s : clusterState) : option clusterState :=
  let e := elect s in
  if negb (failover_auth_sent e) && (mf_end (mf s) =? 0) then
    newrank ← clusterGetSlaveRank r s;
    if failover_auth_rank e <? newrank then
      Some (set_elect (mk_election
        (failover_auth_time e + (newrank - failover_auth_rank e) * 1000)
        (failover_auth_count e) (failover_auth_sent e) newrank
        (failover_auth_epoch e) (cant_failover_reason e)) s)
    else Some s
  else Some s.

(** Asking for votes: a new epoch and a request to everybody. *)
Definition start_election (r : repl) (s : clusterState) : option (clusterState * list action) :=
  let s := set_currentEpoch (u64 (currentEpoch s + 1)) s in
  let e := elect s in
  let s := set_elect (mk_election (failover_auth_time e) (failover_auth_count e) true
             (failover_auth_rank e) (currentEpoch s) (cant_failover_reason e)) s in
  a ← clusterRequestFailoverAuth (slave_offset r) s;
  Some (clusterDoBeforeSleep (Z.lor CLUSTER_TODO_SAVE_CONFIG
          (Z.lor CLUSTER_TODO_UPDATE_STATE CLUSTER_TODO_FSYNC_CONFIG)) s, [a]).

(** Winning the election: the new epoch, then the master's slots. *)
Definition win_election (cfg : config) (now : Z) (s : clusterState) : option (clusterState * list action) :=
  me ← nodes s !! myself s;
  let epoch := failover_auth_epoch (elect s) in
  let s := if configEpoch me <? epoch then upd_node (set_configEpoch epoch) (myself s) s else s in
  clusterFailoverReplaceYourMaster cfg now s.

(** May this replica fail over at all: the preconditions of the function. *)
Definition failover_allowed (cfg : config) (s : clusterState) : option bool :=
  me ← nodes s !! myself s;
  let manual_failover := negb (mf_end (mf s) =? 0) && mf_can_start (mf s) in
  if nodeIsMaster me then Some false else
  match slaveof me with
  | None => Some false
  | Some master =>
      m ← nodes s !! master;
      Some (negb ((negb (nodeFailed m) && negb manual_failover) ||
                  (cluster_slave_no_failover cfg && negb manual_failover) ||
                  (numslots m =? 0)))
  end.

Definition clusterHandleSlaveFailover (cfg : config) (now : Z) (r : repl) (s : clusterState)
  : option (clusterState * list action) :=
  let auth_age := now - failover_auth_time (elect s) in
  let needed_quorum := size s / 2 + 1 in
  let manual_failover := negb (mf_end (mf s) =? 0) && mf_can_start (mf s) in
  let s := set_todo (Z.land (todo_before_sleep s) (Z.lnot CLUSTER_TODO_HANDLE_FAILOVER)) s in
  let auth_timeout := Z.max 2000 (cluster_node_timeout cfg * 2) in
  let auth_retry_time := auth_timeout * 2 in
  allowed ← failover_allowed cfg s;
  if negb allowed then Some (cant_failover CLUSTER_CANT_FAILOVER_NONE s, []) else
  let data_age := if cluster_node_timeout cfg <? data_age_raw r
                  then data_age_raw r - cluster_node_timeout cfg else data_age_raw r in
  if negb (cluster_slave_validity_factor cfg =? 0) &&
     (repl_ping_slave_period cfg * 1000 + cluster_node_timeout cfg * cluster_slave_validity_factor cfg <? data_age) &&
     negb manual_failover
  then Some (cant_failover CLUSTER_CANT_FAILOVER_DATA_AGE s, []) else
  if auth_retry_time <? auth_age then schedule_election now r s else
  s ← update_rank r s;
  if now <? failover_auth_time (elect s)
  then Some (cant_failover CLUSTER_CANT_FAILOVER_WAITING_DELAY s, []) else
  if auth_timeout <? auth_age then Some (cant_failover CLUSTER_CANT_FAILOVER_EXPIRED s, []) else
  if negb (failover_auth_sent (elect s)) then start_election r s else
  if needed_quorum <=? failover_auth_count (elect s) then win_election cfg now s
  else Some (cant_failover CLUSTER_CANT_FAILOVER_WAITING_VOTES s, []).

(** ** Redirections *)

(** A query: the keys of the command, or of all the commands of the transaction,
    in order ([getKeysFromCommand]), and what is asked about the command and the
    client. *)
Record query := mk_query {
  q_exec : bool;        (* cmd->proc == execCommand *)
  q_multi : bool;       (* CLIENT_MULTI *)
  q_keys : list bytes;
  q_write : bool;       (* cmd->flags & CMD_WRITE *)
  q_migrate : bool;     (* cmd->proc == migrateCommand *)
  q_asking : bool;      (* CLIENT_ASKING or CMD_ASKING *)
  q_readonly : bool;    (* CLIENT_READONLY *)
  q_is_write : bool;    (* is_write_command, of c->cmd and the transaction *)
}.

(** The variables of the loop over the keys. *)
Record keyscan := mk_scan {
  k_first : option bytes;
  k_slot : Z;
  k_node : option name;
  k_migrating : bool;
  k_importing : bool;
  k_multiple : bool;
  k_missing : Z;
}.

(** [if ((migrating_slot || importing_slot) && lookupKeyRead(...) == NULL)]. *)
Definition count_missing (has_key : bytes -> bool) (key : bytes) (k : keyscan) : keyscan :=
  if (k_migrating k || k_importing k) && negb (has_key key)
  then mk_scan (k_first k) (k_slot k) (k_node k) (k_migrating k) (k_importing k) (k_multiple k) (k_missing k + 1)
  else k.

(** One key: the scan goes on, or an error is returned. *)
Definition scan_key (has_key : bytes -> bool) (s : clusterState) (k : keyscan) (thiskey : bytes)
  : keyscan + redir :=
  let thisslot := keyHashSlot thiskey in
  match k_first k with
  | None =>
      match cslots s !! thisslot with
      | None => inr REDIR_DOWN_UNBOUND
      | Some n =>
          let mig := bool_decide (n = myself s) && bool_decide (is_Some (migrating_slots_to s !! thisslot)) in
          let imp := negb mig && bool_decide (is_Some (importing_slots_from s !! thisslot)) in
          inl (count_missing has_key thiskey
                 (mk_scan (Some thiskey) thisslot (Some n) mig imp (k_multiple k) (k_missing k)))
      end
  | Some firstkey =>
      if decide (firstkey = thiskey) then inl (count_missing has_key thiskey k) else
      if negb (k_slot k =? thisslot) then inr REDIR_CROSS_SLOT else
      inl (count_missing has_key thiskey
             (mk_scan (k_first k) (k_slot k) (k_node k) (k_migrating k) (k_importing k) true (k_missing k)))
  end.

Fixpoint scan_keys (has_key : bytes -> bool) (s : clusterState) (k : keyscan) (keys : list bytes)
  : keyscan + redir :=
  match keys with
  | [] => inl k
  | key :: keys =>
      match scan_key has_key s k key with
      | inl k => scan_keys has_key s k keys
      | inr e => inr e
      end
  end.

Definition getNodeByQuery (cfg : config) (has_key : bytes -> bool) (q : query) (s : clusterState)
  : option (option name * redir) :=
  me ← nodes s !! myself s;
  if cluster_no_redirection cfg then Some (Some (myself s), REDIR_NONE) else
  if q_exec q && negb (q_multi q) then Some (Some (myself s), REDIR_NONE) else
  match scan_keys has_key s (mk_scan None 0 None false false false 0) (q_keys q) with
  | inr e => Some (None, e)
  | inl k =>
      match k_node k with
      | None => Some (Some (myself s), REDIR_NONE)
      | Some n =>
          if negb (bool_decide (state s = CLUSTER_OK)) && negb (cluster_allow_reads_when_down cfg)
          then Some (None, REDIR_DOWN_STATE) else
          if negb (bool_decide (state s = CLUSTER_OK)) && q_write q
          then Some (None, REDIR_DOWN_RO_STATE) else
          if (k_migrating k || k_importing k) && q_migrate q then Some (Some (myself s), REDIR_NONE) else
          if k_migrating k && negb (k_missing k =? 0)
          then Some (migrating_slots_to s !! k_slot k, REDIR_ASK) else
          if k_importing k && q_asking q then
            if k_multiple k && negb (k_missing k =? 0) then Some (None, REDIR_UNSTABLE)
            else Some (Some (myself s), REDIR_NONE)
          else
          if q_readonly q && negb (q_is_write q) && nodeIsSlave me && bool_decide (slaveof me = Some n)
          then Some (Some (myself s), REDIR_NONE) else
          Some (Some n, if decide (n = myself s) then REDIR_NONE else REDIR_MOVED)
      end
  end.

End Cluster.
