(* ===== verification/ClusterSlots.v ===== *)
(** * Hash slots and their owners: correctness

    The slot of a key ([keyHashSlot]), the agreement between the table of slot
    owners and the nodes' bitmaps through every operation that moves a slot, and
    the effect of a configuration update received from another node. *)

From Stdlib Require Import ZArith Lia.
From stdpp Require Import base option list numbers gmap relations.
From S2P Require Import Prelude Crc Cluster.

#[local] Open Scope Z_scope.

Module ClusterSlots.

Export Cluster.

(** ** The slot of a key *)

(** [hashtag key t]: [t] is the non-empty text between the first opening brace of
    the key and the first closing brace after it. *)
Definition hashtag (key t : bytes) : Prop :=
  exists pre post, key = pre ++ 123 :: t ++ 125 :: post /\ 123 ∉ pre /\ 125 ∉ t /\ t <> [].

Lemma index_of_spec c l :
  (c ∉ l /\ index_of c l = blen l) \/
  (exists pre post, l = pre ++ c :: post /\ c ∉ pre /\ index_of c l = blen pre).
Proof.
  induction l as [|x l IH]; cbn [index_of].
  - left. split; [apply not_elem_of_nil|done].
  - destruct (Z.eqb_spec x c) as [->|Hx].
    + right. exists [], l. split_and!; [done|apply not_elem_of_nil|done].
    + destruct IH as [[Hn ->]|(pre & post & -> & Hn & ->)]; [left|right].
      * split; [by apply not_elem_of_cons; split; [congruence|]|unfold blen; simpl; lia].
      * exists (x :: pre), post. split_and!; [done|by apply not_elem_of_cons; split; [congruence|]|].
        unfold blen. simpl. lia.
Qed.

Lemma first_split_unique (c : Z) pre post pre' post' :
  pre ++ c :: post = pre' ++ c :: post' -> c ∉ pre -> c ∉ pre' -> pre = pre' /\ post = post'.
Proof.
  revert pre'. induction pre as [|x pre IH]; intros [|y pre'] E Hn Hn'; simplify_eq/=; [done|..].
  - by apply not_elem_of_cons in Hn' as [? _].
  - by apply not_elem_of_cons in Hn as [? _].
  - apply not_elem_of_cons in Hn as [_ Hn]. apply not_elem_of_cons in Hn' as [_ Hn'].
    destruct (IH pre') as [-> ->]; done.
Qed.

Lemma drop_blen (pre post : bytes) x : drop (Z.to_nat (blen pre + 1)) (pre ++ x :: post) = post.
Proof.
  unfold blen. replace (Z.to_nat (Z.of_nat (length pre) + 1)) with (length pre + 1)%nat by lia.
  by rewrite <- drop_drop, drop_app_length.
Qed.

(** What [keyHashSlot] hashes. *)
Lemma keyHashSlot_cases key :
  (exists t, hashtag key t /\ keyHashSlot key = Z.land (Crc.crc16 t) 0x3FFF) \/
  ((forall t, ~ hashtag key t) /\ keyHashSlot key = Z.land (Crc.crc16 key) 0x3FFF).
Proof.
  unfold keyHashSlot. destruct (index_of_spec 123 key) as [[Hn ->]|(pre & post & E & Hn & Hs)].
  { right. rewrite Z.eqb_refl. split; [|done]. intros t (pre & post & -> & _). apply Hn. set_solver. }
  rewrite Hs, E. rewrite (proj2 (Z.eqb_neq _ _)) by (rewrite blen_app; unfold blen; simpl; lia).
  rewrite drop_blen. destruct (index_of_spec 125 post) as [[Hn2 Hi]|(t & post2 & E2 & Hn2 & Hi)]; rewrite Hi.
  - right. replace (blen pre + 1 + blen post) with (blen (pre ++ 123 :: post))
      by (rewrite blen_app; unfold blen; simpl; lia).
    rewrite Z.eqb_refl. split; [|done]. intros t (pre' & post' & Ek & Hp & _).
    apply first_split_unique in Ek as [_ ->]; [|done..]. apply Hn2. set_solver.
  - subst post. rewrite (proj2 (Z.eqb_neq (blen pre + 1 + blen t) _))
      by (rewrite !blen_app; unfold blen; cbn [length]; rewrite length_app; cbn [length]; lia).
    cbn [orb]. destruct t as [|c t].
    + right. rewrite (proj2 (Z.eqb_eq _ _)) by (unfold blen; simpl; lia). split; [|done].
      intros t (pre' & post' & Ek & Hp & Ht & Hne).
      apply first_split_unique in Ek as [_ Ek]; [|done..]. destruct t; [done|]. simplify_eq/=.
      by apply not_elem_of_cons in Ht as [? _].
    + left. rewrite (proj2 (Z.eqb_neq _ _)) by (unfold blen; simpl; lia).
      exists (c :: t). split; [by exists pre, post2|]. do 2 f_equal.
      replace (Z.to_nat (blen pre + 1 + blen (c :: t) - blen pre - 1)) with (length (c :: t))
        by (unfold blen; lia).
      apply take_app_length.
Qed.

Lemma hashtag_unique key t t' : hashtag key t -> hashtag key t' -> t = t'.
Proof.
  intros (pre & post & -> & Hp & Ht & _) (pre' & post' & E & Hp' & Ht' & _).
  apply first_split_unique in E as [_ E]; [|done..]. by apply first_split_unique in E as [-> _].
Qed.

(** C40: key placement. A key's slot is the CRC16 of its hash tag when it has one,
    of the whole key otherwise, modulo the 16384 slots. *)
Theorem keyHashSlot_correct key :
  0 <= keyHashSlot key < CLUSTER_SLOTS /\
  (forall t, hashtag key t -> keyHashSlot key = Crc.crc16 t mod CLUSTER_SLOTS) /\
  ((forall t, ~ hashtag key t) -> keyHashSlot key = Crc.crc16 key mod CLUSTER_SLOTS).
Proof.
  assert (forall x, Z.land x 0x3FFF = x mod CLUSTER_SLOTS) as Hm.
  { intros x. change 0x3FFF with (Z.ones 14). by rewrite Z.land_ones. }
  destruct (keyHashSlot_cases key) as [(t & Ht & ->)|[Hn ->]]; rewrite !Hm.
  - split_and!; [apply Z.mod_pos_bound; done..| |intros Hn; by destruct (Hn t)].
    intros t' Ht'. by rewrite (hashtag_unique key t t').
  - split_and!; [apply Z.mod_pos_bound; done..| |done]. intros t Ht. by destruct (Hn t).
Qed.

(** ** Bitmaps *)

Definition is_slot (j : Z) : Prop := 0 <= j < CLUSTER_SLOTS.

(** A bitmap of [CLUSTER_SLOTS/8] bytes. *)
Definition bitmap_ok (b : bytes) : Prop := length b = 2048%nat.

Lemma testbit_spec b p :
  0 <= p -> bitmapTestBit b p = Z.testbit (default 0 (b !! Z.to_nat (p / 8))) (p mod 8).
Proof.
  intros Hp. unfold bitmapTestBit. change 7 with (Z.ones 3). rewrite Z.land_ones by lia.
  change (2 ^ 3) with 8. rewrite Z.shiftl_1_l. apply land_pow2_test, Z.mod_pos_bound. lia.
Qed.

Lemma slot_index p : is_slot p -> (Z.to_nat (p / 8) < 2048)%nat.
Proof. unfold is_slot, CLUSTER_SLOTS. intros. assert (p / 8 < 2048) by (apply Z.div_lt_upper_bound; lia). lia. Qed.

Lemma same_byte p q :
  is_slot p -> is_slot q -> Z.to_nat (p / 8) = Z.to_nat (q / 8) -> p mod 8 = q mod 8 -> p = q.
Proof.
  unfold is_slot. intros Hp Hq Hd Hm. rewrite (Z.div_mod p 8), (Z.div_mod q 8) by lia.
  assert (0 <= p / 8) by (apply Z.div_pos; lia). assert (0 <= q / 8) by (apply Z.div_pos; lia).
  rewrite Hm. do 2 f_equal. lia.
Qed.

(** Both updates change the bit at their position and no other. *)
Lemma alter_bit b p q (f : Z -> Z) v :
  bitmap_ok b -> is_slot p -> is_slot q ->
  (forall x i, 0 <= i -> Z.testbit (f x) i = if i =? p mod 8 then v else Z.testbit x i) ->
  bitmapTestBit (alter f (Z.to_nat (p / 8)) b) q = if q =? p then v else bitmapTestBit b q.
Proof.
  intros Hb Hp Hq Hf. pose proof (slot_index p Hp). pose proof (slot_index q Hq).
  rewrite !testbit_spec by (unfold is_slot in *; lia).
  pose proof (Z.mod_pos_bound q 8 ltac:(lia)).
  destruct (decide (Z.to_nat (p / 8) = Z.to_nat (q / 8))) as [E|E].
  - rewrite E, list_lookup_alter_eq. destruct (lookup_lt_is_Some_2 b (Z.to_nat (q / 8))) as [x Hx];
      [unfold bitmap_ok in Hb; lia|].
    rewrite Hx. cbn [fmap option_fmap option_map from_option id]. rewrite Hf by lia.
    destruct (Z.eqb_spec (q mod 8) (p mod 8)), (Z.eqb_spec q p); try done.
    + by exfalso; eauto using same_byte.
    + by subst.
  - rewrite list_lookup_alter_ne by done. destruct (Z.eqb_spec q p); [by subst|done].
Qed.

Lemma pos_land7 p : Z.shiftl 1 (Z.land p 7) = 2 ^ (p mod 8).
Proof. change 7 with (Z.ones 3). rewrite Z.land_ones by lia. by rewrite Z.shiftl_1_l. Qed.

Lemma testbit_set b p q :
  bitmap_ok b -> is_slot p -> is_slot q ->
  bitmapTestBit (bitmapSetBit b p) q = if q =? p then true else bitmapTestBit b q.
Proof.
  intros Hb Hp Hq. apply alter_bit; [done..|]. intros x i Hi. rewrite pos_land7, Z.lor_spec.
  pose proof (Z.mod_pos_bound p 8 ltac:(lia)). destruct (Z.eqb_spec i (p mod 8)) as [->|].
  - rewrite Z.pow2_bits_true by lia. apply orb_true_r.
  - rewrite Z.pow2_bits_false by lia. apply orb_false_r.
Qed.

Lemma testbit_clear b p q :
  bitmap_ok b -> is_slot p -> is_slot q ->
  bitmapTestBit (bitmapClearBit b p) q = if q =? p then false else bitmapTestBit b q.
Proof.
  intros Hb Hp Hq. apply alter_bit; [done..|]. intros x i Hi. rewrite pos_land7, Z.land_spec.
  pose proof (Z.mod_pos_bound p 8 ltac:(lia)). rewrite Z.lnot_spec by done.
  destruct (Z.eqb_spec i (p mod 8)) as [->|].
  - rewrite Z.pow2_bits_true by lia. apply andb_false_r.
  - rewrite Z.pow2_bits_false by lia. apply andb_true_r.
Qed.

Lemma bitmap_ok_set b p : bitmap_ok b -> bitmap_ok (bitmapSetBit b p).
Proof. unfold bitmap_ok, bitmapSetBit. by rewrite length_alter. Qed.

Lemma bitmap_ok_clear b p : bitmap_ok b -> bitmap_ok (bitmapClearBit b p).
Proof. unfold bitmap_ok, bitmapClearBit. by rewrite length_alter. Qed.

Lemma all_slots_NoDup : NoDup (seqZ 0 CLUSTER_SLOTS).
Proof. apply NoDup_seqZ. Qed.

Lemma elem_all_slots j : j ∈ seqZ 0 CLUSTER_SLOTS <-> is_slot j.
Proof. rewrite elem_of_seqZ. unfold is_slot. lia. Qed.

(** The number of bits set. *)
Definition slot_count (b : bytes) : Z :=
  Z.of_nat (length (List.filter (bitmapTestBit b) (seqZ 0 CLUSTER_SLOTS))).

Lemma filter_add {A} (f g : A -> bool) (l : list A) x :
  NoDup l -> x ∈ l -> f x = false -> g x = true -> (forall y, y ∈ l -> y <> x -> f y = g y) ->
  length (List.filter g l) = S (length (List.filter f l)).
Proof.
  intros Hnd Hx Hf Hg He. induction Hnd as [|y l Hy Hnd IH]; [by apply not_elem_of_nil in Hx|].
  apply elem_of_cons in Hx as [<-|Hx].
  - simpl. rewrite Hf, Hg. simpl. f_equal. f_equal. apply filter_ext_in. intros z Hz. symmetry.
    apply list_elem_of_In in Hz. apply He; [by right|]. by intros ->.
  - simpl. rewrite (He y) by (set_solver). destruct (g y); simpl; rewrite IH; try done; set_solver.
Qed.

Lemma slot_count_set b p :
  bitmap_ok b -> is_slot p -> bitmapTestBit b p = false -> slot_count (bitmapSetBit b p) = slot_count b + 1.
Proof.
  intros Hb Hp Hf. unfold slot_count.
  rewrite (filter_add (bitmapTestBit b) (bitmapTestBit (bitmapSetBit b p)) _ p); [lia|apply all_slots_NoDup|..].
  - by apply elem_all_slots.
  - done.
  - rewrite testbit_set by done. by rewrite Z.eqb_refl.
  - intros q Hq Hne. apply elem_all_slots in Hq. rewrite testbit_set by done.
    by rewrite (proj2 (Z.eqb_neq _ _)).
Qed.

Lemma slot_count_clear b p :
  bitmap_ok b -> is_slot p -> bitmapTestBit b p = true -> slot_count (bitmapClearBit b p) = slot_count b - 1.
Proof.
  intros Hb Hp Hf. unfold slot_count.
  rewrite (filter_add (bitmapTestBit (bitmapClearBit b p)) (bitmapTestBit b) _ p); [lia|apply all_slots_NoDup|..].
  - by apply elem_all_slots.
  - rewrite testbit_clear by done. by rewrite Z.eqb_refl.
  - done.
  - intros q Hq Hne. apply elem_all_slots in Hq. rewrite testbit_clear by done.
    by rewrite (proj2 (Z.eqb_neq _ _)).
Qed.

Lemma slot_count_0 b : slot_count b = 0 <-> forall j, is_slot j -> bitmapTestBit b j = false.
Proof.
  unfold slot_count. split.
  - intros H j Hj. destruct (bitmapTestBit b j) eqn:E; [|done].
    assert (In j (List.filter (bitmapTestBit b) (seqZ 0 CLUSTER_SLOTS))) as Hin.
    { apply filter_In. split; [by apply list_elem_of_In, elem_all_slots|done]. }
    destruct (List.filter _ _); [done|simpl in H; lia].
  - intros H. destruct (List.filter _ _) as [|j l] eqn:E; [done|].
    assert (In j (List.filter (bitmapTestBit b) (seqZ 0 CLUSTER_SLOTS))) as Hin by (rewrite E; by left).
    apply filter_In in Hin as [Hj Hb]. apply list_elem_of_In, elem_all_slots in Hj. by rewrite H in Hb.
Qed.

(** ** The table of owners and the bitmaps agree *)

Record slots_ok (s : clusterState) : Prop := mk_slots_ok {
  so_owner : forall j n, cslots s !! j = Some n ->
    is_slot j /\ exists nd, nodes s !! n = Some nd /\ bitmapTestBit (slots nd) j = true;
  so_bit : forall n nd j, nodes s !! n = Some nd -> is_slot j ->
    bitmapTestBit (slots nd) j = true -> cslots s !! j = Some n;
  so_node : forall n nd, nodes s !! n = Some nd ->
    bitmap_ok (slots nd) /\ numslots nd = slot_count (slots nd);
}.

(** Two nodes that differ in nothing but slots and the migration-target flag. *)
Record node_frame (a b : clusterNode) : Prop := mk_node_frame {
  nf_flags : forall k, k <> 8 -> Z.testbit (flags a) k = Z.testbit (flags b) k;
  nf_epoch : configEpoch a = configEpoch b;
  nf_slaves : slaves a = slaves b;
  nf_slaveof : slaveof a = slaveof b;
  nf_fail_time : fail_time a = fail_time b;
  nf_voted : voted_time a = voted_time b;
  nf_offset : repl_offset a = repl_offset b;
  nf_reports : fail_reports a = fail_reports b;
}.

#[export] Instance node_frame_preorder : PreOrder node_frame.
Proof.
  split.
  - intros a. by split.
  - intros a b c [] []. split; (congruence || (intros k Hk; etrans; eauto)).
Qed.

(** Two states that differ in nothing but slots, their owners, the
    migration-target flags and the work left for later. *)
Record frame (s s' : clusterState) : Prop := mk_frame {
  fr_myself : myself s = myself s';
  fr_epoch : currentEpoch s = currentEpoch s';
  fr_state : state s = state s';
  fr_size : size s = size s';
  fr_mig : migrating_slots_to s = migrating_slots_to s';
  fr_imp : importing_slots_from s = importing_slots_from s';
  fr_elect : elect s = elect s';
  fr_mf : mf s = mf s';
  fr_vote : lastVoteEpoch s = lastVoteEpoch s';
  fr_nodes : forall n, option_Forall2 node_frame (nodes s !! n) (nodes s' !! n);
}.

#[export] Instance frame_preorder : PreOrder frame.
Proof.
  split.
  - intros s. by split.
  - intros s1 s2 s3 [] []. split; (congruence || (intros n; etrans; eauto)).
Qed.

Lemma frame_lookup s s' n nd :
  frame s s' -> nodes s !! n = Some nd -> exists nd', nodes s' !! n = Some nd' /\ node_frame nd nd'.
Proof. intros Hf Hn. pose proof (fr_nodes _ _ Hf n) as H. rewrite Hn in H. inversion H; eauto. Qed.

Lemma frame_lookup_r s s' n nd' :
  frame s s' -> nodes s' !! n = Some nd' -> exists nd, nodes s !! n = Some nd /\ node_frame nd nd'.
Proof. intros Hf Hn. pose proof (fr_nodes _ _ Hf n) as H. rewrite Hn in H. inversion H; eauto. Qed.

Lemma frame_cslots m s : frame s (set_cslots m s).
Proof. by split. Qed.

Lemma frame_todo f s : frame s (clusterDoBeforeSleep f s).
Proof. by split. Qed.

(** An update of one node that stays in its frame. *)
Lemma frame_upd_node s n nd f :
  nodes s !! n = Some nd -> node_frame nd (f nd) -> frame s (upd_node f n s).
Proof.
  intros Hn Hf. split; try done. intros m. cbn. destruct (decide (m = n)) as [->|].
  - rewrite lookup_alter_eq, Hn. by constructor.
  - rewrite lookup_alter_ne by done. destruct (nodes s !! m); by constructor.
Qed.

Lemma testbit_flag_ne k : k <> 8 -> Z.testbit CLUSTER_NODE_MIGRATE_TO k = false.
Proof.
  intros Hk. change CLUSTER_NODE_MIGRATE_TO with (2 ^ 8).
  destruct (decide (0 <= k)); [|apply Z.testbit_neg_r; lia]. apply Z.pow2_bits_false. lia.
Qed.

(** A node with the slots of [s'] replacing those of its namesake in [s]. *)
Lemma slots_ok_insert s s' (n : name) nd b j :
  slots_ok s -> nodes s !! n = Some nd -> is_slot j -> cslots s !! j = None ->
  nodes s' !! n = Some b -> slots b = bitmapSetBit (slots nd) j -> numslots b = numslots nd + 1 ->
  (forall m, m <> n -> nodes s' !! m = nodes s !! m) -> cslots s' = <[j := n]> (cslots s) ->
  slots_ok s'.
Proof.
  intros [Ho Hb Hn] Hnd Hj Hfree Hb' Hbits Hnum Hne Hc.
  destruct (Hn n nd Hnd) as [Hok Hcount].
  assert (bitmapTestBit (slots nd) j = false) as Hclr.
  { destruct (bitmapTestBit (slots nd) j) eqn:E; [|done]. apply (Hb n nd j) in E; [congruence|done..]. }
  split.
  - intros i m. rewrite Hc. destruct (decide (i = j)) as [->|].
    + rewrite lookup_insert_eq. intros [= <-]. split; [done|]. exists b. split; [done|].
      rewrite Hbits, testbit_set by done. by rewrite Z.eqb_refl.
    + rewrite lookup_insert_ne by done. intros Hi. destruct (Ho i m Hi) as (Hs & nd' & Hm & Hbit).
      split; [done|]. destruct (decide (m = n)) as [->|]; [|exists nd'; by rewrite Hne].
      exists b. split; [done|]. rewrite Hnd in Hm. simplify_eq.
      rewrite Hbits, testbit_set by done. by destruct (i =? j).
  - intros m nd' i Hm Hi Hbit. rewrite Hc. destruct (decide (m = n)) as [->|].
    + rewrite Hb' in Hm. simplify_eq. rewrite Hbits, testbit_set in Hbit by done.
      destruct (Z.eqb_spec i j) as [->|]; [by rewrite lookup_insert_eq|].
      rewrite lookup_insert_ne by done. by apply (Hb n nd i).
    + rewrite Hne in Hm by done. pose proof (Hb m nd' i Hm Hi Hbit) as Hi'.
      rewrite lookup_insert_ne; [done|]. intros ->. congruence.
  - intros m nd' Hm. destruct (decide (m = n)) as [->|]; [|by apply (Hn m); rewrite <- Hne].
    rewrite Hb' in Hm. simplify_eq. rewrite Hbits. split; [by apply bitmap_ok_set|].
    rewrite slot_count_set by done. lia.
Qed.

Lemma clusterAddSlot_spec n j s :
  slots_ok s -> is_slot j -> is_Some (nodes s !! n) -> cslots s !! j = None ->
  exists s', clusterAddSlot n j s = Some (true, s') /\ slots_ok s' /\
    cslots s' = <[j := n]> (cslots s) /\ frame s s'.
Proof.
  intros Hok Hj [nd Hnd] Hfree. unfold clusterAddSlot. rewrite Hfree.
  unfold clusterNodeSetSlotBit. rewrite Hnd. cbn [mbind option_bind].
  assert (bitmapTestBit (slots nd) j = false) as Hclr.
  { destruct (bitmapTestBit (slots nd) j) eqn:E; [|done].
    apply (so_bit s Hok n nd j) in E; [congruence|done..]. }
  rewrite Hclr. set (s1 := upd_node (set_slots _ _) n s).
  assert (nodes s1 !! n = Some (set_slots (bitmapSetBit (slots nd) j) (numslots nd + 1) nd)) as Hn1.
  { cbn. by rewrite lookup_alter_eq, Hnd. }
  assert (forall m, m <> n -> nodes s1 !! m = nodes s !! m) as Hne1.
  { intros m Hm. cbn. by rewrite lookup_alter_ne. }
  assert (frame s s1) as Hf1 by (eapply frame_upd_node; [done|by split]).
  destruct ((numslots nd + 1 =? 1) && clusterMastersHaveSlaves s1); cbn [mbind option_bind].
  - eexists. split; [done|]. split; [|split].
    + eapply (slots_ok_insert s _ n nd); try done.
      * cbn. rewrite lookup_alter_eq. cbn in Hn1. rewrite Hn1. done.
      * done.
      * done.
      * intros m Hm. cbn. rewrite lookup_alter_ne by done. by apply Hne1.
    + done.
    + etrans; [exact Hf1|]. etrans; [|apply frame_cslots].
      eapply frame_upd_node; [exact Hn1|]. split; try done. intros k Hk. cbn. unfold or_flag.
      by rewrite Z.lor_spec, testbit_flag_ne, orb_false_r.
  - eexists. split; [done|]. split; [|split].
    + eapply (slots_ok_insert s _ n nd); try done.
    + done.
    + etrans; [exact Hf1|]. apply frame_cslots.
Qed.

Lemma slots_ok_delete s s' (n : name) nd b j :
  slots_ok s -> nodes s !! n = Some nd -> is_slot j -> cslots s !! j = Some n ->
  nodes s' !! n = Some b -> slots b = bitmapClearBit (slots nd) j -> numslots b = numslots nd - 1 ->
  (forall m, m <> n -> nodes s' !! m = nodes s !! m) -> cslots s' = delete j (cslots s) ->
  slots_ok s'.
Proof.
  intros [Ho Hb Hn] Hnd Hj Hown Hb' Hbits Hnum Hne Hc.
  destruct (Hn n nd Hnd) as [Hok Hcount].
  destruct (Ho j n Hown) as (_ & nd0 & Hnd0 & Hset). rewrite Hnd in Hnd0. simplify_eq.
  split.
  - intros i m. rewrite Hc. intros [Hij Hi]%lookup_delete_Some.
    destruct (Ho i m Hi) as (Hs & nd' & Hm & Hbit). split; [done|].
    destruct (decide (m = n)) as [->|]; [|exists nd'; by rewrite Hne].
    exists b. split; [done|]. rewrite Hnd in Hm. simplify_eq.
    rewrite Hbits, testbit_clear by done. by rewrite (proj2 (Z.eqb_neq _ _)).
  - intros m nd' i Hm Hi Hbit. rewrite Hc. apply lookup_delete_Some. destruct (decide (m = n)) as [->|].
    + rewrite Hb' in Hm. simplify_eq. rewrite Hbits, testbit_clear in Hbit by done.
      destruct (Z.eqb_spec i j) as [->|]; [done|]. split; [done|]. by apply (Hb n nd0 i).
    + rewrite Hne in Hm by done. pose proof (Hb m nd' i Hm Hi Hbit) as Hi'.
      split; [|done]. intros ->. congruence.
  - intros m nd' Hm. destruct (decide (m = n)) as [->|]; [|by apply (Hn m); rewrite <- Hne].
    rewrite Hb' in Hm. simplify_eq. rewrite Hbits. split; [by apply bitmap_ok_clear|].
    rewrite slot_count_clear by done. lia.
Qed.

Lemma clusterDelSlot_spec j s :
  slots_ok s ->
  exists s', clusterDelSlot j s = Some (bool_decide (is_Some (cslots s !! j)), s') /\ slots_ok s' /\
    cslots s' = delete j (cslots s) /\ frame s s'.
Proof.
  intros Hok. unfold clusterDelSlot. destruct (cslots s !! j) as [n|] eqn:Hown.
  2: { exists s. split; [done|]. split; [done|]. split; [by rewrite delete_id|done]. }
  destruct (so_owner s Hok j n Hown) as (Hj & nd & Hnd & Hbit).
  unfold clusterNodeClearSlotBit. rewrite Hnd. cbn [mbind option_bind]. rewrite Hbit.
  eexists. split; [done|]. split; [|split].
  - eapply (slots_ok_delete s _ n nd); try done.
    + cbn. by rewrite lookup_alter_eq, Hnd.
    + done.
    + done.
    + intros m Hm. cbn. by rewrite lookup_alter_ne.
  - done.
  - etrans; [|apply frame_cslots]. eapply frame_upd_node; [done|by split].
Qed.

(** Taking a slot from whoever has it and giving it to [n]. *)
Lemma rebind_slot n j s :
  slots_ok s -> is_slot j -> is_Some (nodes s !! n) ->
  exists r s' s'', clusterDelSlot j s = Some (r, s') /\ clusterAddSlot n j s' = Some (true, s'') /\
    slots_ok s'' /\ cslots s'' = <[j := n]> (cslots s) /\ frame s s''.
Proof.
  intros Hok Hj [nd Hnd]. destruct (clusterDelSlot_spec j s Hok) as (s' & H1 & Hok1 & Hc1 & Hf1).
  destruct (frame_lookup _ _ _ _ Hf1 Hnd) as (nd' & Hnd' & _).
  destruct (clusterAddSlot_spec n j s' Hok1 Hj) as (s'' & H2 & Hok2 & Hc2 & Hf2); [by eauto| |].
  { rewrite Hc1. apply lookup_delete_eq. }
  do 3 eexists. split_and!; [done|done|done| |by etrans].
  by rewrite Hc2, Hc1, insert_delete_eq.
Qed.

(** A loop over the slots, by an invariant indexed by the slots done. *)
(** A preorder that every iteration respects, the loop respects. *)
Lemma fold_rel {A} (R : A -> A -> Prop) `{!PreOrder R} (f : A -> Z -> option A) (l : list Z) a b :
  (forall a j a', f a j = Some a' -> R a a') ->
  foldl (fun a j => a ← a; f a j) (Some a) l = Some b -> R a b.
Proof.
  intros Hf. revert a. induction l as [|j l IH]; intros a; cbn [foldl]; [by intros [= <-]|].
  rewrite bind_ret. destruct (f a j) as [a1|] eqn:E.
  - intros H. etrans; [by eapply Hf|by apply IH].
  - clear IH. intros H. exfalso. induction l; [discriminate|auto].
Qed.

Lemma for_slots_rel {A} (R : A -> A -> Prop) `{!PreOrder R} (f : A -> Z -> option A) a b :
  (forall a j a', f a j = Some a' -> R a a') -> for_slots f a = Some b -> R a b.
Proof. intros Hf. exact (fold_rel R f (seqZ 0 CLUSTER_SLOTS) a b Hf). Qed.

Lemma for_slots_ind {A} (f : A -> Z -> option A) (P : Z -> A -> Prop) a :
  P 0 a ->
  (forall j a, is_slot j -> P j a -> exists a', f a j = Some a' /\ P (j + 1) a') ->
  exists a', for_slots f a = Some a' /\ P CLUSTER_SLOTS a'.
Proof.
  intros H0 Hstep. unfold for_slots.
  assert (forall n i a, 0 <= i -> i + Z.of_nat n = CLUSTER_SLOTS -> P i a ->
    exists a', foldl (fun a j => a ← a; f a j) (Some a) (seqZ i (Z.of_nat n)) = Some a' /\ P CLUSTER_SLOTS a') as H.
  { intros n. induction n as [|n IH]; intros i b Hi Hn Hb.
    - exists b. simpl. split; [done|]. by replace CLUSTER_SLOTS with i by lia.
    - rewrite seqZ_cons by lia. cbn [foldl mbind option_bind].
      destruct (Hstep i b) as (b' & -> & Hb'); [unfold is_slot; lia|done|].
      replace (Z.pred (Z.of_nat (S n))) with (Z.of_nat n) by lia.
      apply IH; [lia|lia|]. by replace (Z.succ i) with (i + 1) by lia. }
  apply (H (Z.to_nat CLUSTER_SLOTS) 0); [lia|done|done].
Qed.

#[local] Opaque for_slots.

(** ** Learning a configuration *)

(** A loop that acts on one slot only. *)
Lemma for_slots_at {A} (f : A -> Z -> option A) (p : Z) (a b : A) :
  is_slot p -> f a p = Some b -> (forall c j, is_slot j -> j <> p -> f c j = Some c) -> for_slots f a = Some b.
Proof.
  intros Hp Hf Hskip.
  destruct (for_slots_ind f (fun j c => c = if j <=? p then a else b) a) as (c & E & ->).
  - destruct (Z.leb_spec 0 p); unfold is_slot in Hp; [done|lia].
  - intros j c Hj ->. destruct (decide (j = p)) as [->|Hne].
    + exists b. rewrite Z.leb_refl. split; [exact Hf|]. by rewrite (proj2 (Z.leb_gt _ _)) by lia.
    + rewrite Hskip by done. eexists. split; [done|].
      destruct (Z.leb_spec j p), (Z.leb_spec (j + 1) p); (done || lia).
  - rewrite E, (proj2 (Z.leb_gt _ _)) by (unfold is_slot in Hp; lia). done.
Qed.

Section Update.
Context (cfg : config) (keys : Z -> Z) (sender : name) (epoch : Z) (claimed : bytes) (s0 : clusterState).

(** Does slot [j] move to the sender: claimed, not being imported, and held by
    nobody or by a node with an older configuration. *)
Definition moves (j : Z) : bool :=
  bitmapTestBit claimed j && negb (bool_decide (cslots s0 !! j = Some sender)) &&
  negb (bool_decide (is_Some (importing_slots_from s0 !! j))) &&
  match cslots s0 !! j with
  | None => true
  | Some n => match nodes s0 !! n with Some nd => configEpoch nd <? epoch | None => false end
  end.

(** The slots that move and were held by [m]. *)
Definition moved_from (m : option name) (k : Z) : list Z :=
  List.filter (fun j => moves j && bool_decide (cslots s0 !! j = m)) (seqZ 0 k).

(** The loop after the slots below [k]. *)
Record update_inv (curmaster : option name) (k : Z) (u : update) : Prop := mk_update_inv {
  ui_ok : slots_ok (u_state u);
  ui_frame : frame s0 (u_state u);
  ui_slots : forall j, cslots (u_state u) !! j =
    if bool_decide (0 <= j < k) && moves j then Some sender else cslots s0 !! j;
  ui_newmaster : u_newmaster u = if decide (moved_from curmaster k = []) then None else Some sender;
  ui_migrated : u_migrated u = Z.of_nat (length (moved_from curmaster k));
  ui_sender : u_sender_slots u = Z.of_nat (length (List.filter (bitmapTestBit claimed) (seqZ 0 k)));
  ui_dirty : u_dirty u =
    List.filter (fun j => moves j && bool_decide (cslots s0 !! j = Some (myself s0)) && negb (keys j =? 0))
      (seqZ 0 k);
}.

Lemma seqZ_snoc k : 0 <= k -> seqZ 0 (k + 1) = seqZ 0 k ++ [k].
Proof. intros. rewrite seqZ_app by lia. f_equal. Qed.

Lemma filter_snoc (f : Z -> bool) k :
  0 <= k -> List.filter f (seqZ 0 (k + 1)) = List.filter f (seqZ 0 k) ++ if f k then [k] else [].
Proof. intros. rewrite seqZ_snoc, List.filter_app by done. simpl. by destruct (f k). Qed.

(** A slot that stays where it is. *)
Lemma update_keep curmaster k u n :
  is_slot k -> update_inv curmaster k u -> moves k = false ->
  n = u_sender_slots u + Z.b2z (bitmapTestBit claimed k) ->
  update_inv curmaster (k + 1) (mk_update (u_state u) (u_newmaster u) (u_dirty u) n (u_migrated u)).
Proof.
  intros Hk [Hok Hf Hs Hnm Hmig Hsl Hd] Hmv ->. unfold is_slot in Hk.
  assert (moved_from curmaster (k + 1) = moved_from curmaster k) as Hmf.
  { unfold moved_from. rewrite filter_snoc, Hmv by lia. apply app_nil_r. }
  split; cbn; rewrite ?Hmf; try done.
  - intros j. rewrite Hs. destruct (decide (j = k)) as [->|]; [by rewrite Hmv, !andb_false_r|].
    by rewrite (bool_decide_ext (0 <= j < k) (0 <= j < k + 1)) by lia.
  - rewrite filter_snoc, length_app, Hsl by lia. destruct (bitmapTestBit claimed k); simpl; lia.
  - rewrite filter_snoc, Hmv, Hd by lia. by rewrite app_nil_r.
Qed.

(** A slot that moves. *)
Lemma update_move curmaster k u s'' (nm : option name) mg :
  is_slot k -> update_inv curmaster k u -> moves k = true -> sender <> myself s0 ->
  slots_ok s'' -> frame (u_state u) s'' -> cslots s'' = <[k := sender]> (cslots (u_state u)) ->
  (nm, mg) = (if decide (cslots s0 !! k = curmaster) then (Some sender, u_migrated u + 1)
              else (u_newmaster u, u_migrated u)) ->
  update_inv curmaster (k + 1) (mk_update s'' nm
    (if bool_decide (cslots s0 !! k = Some (myself s0)) && negb (keys k =? 0)
     then u_dirty u ++ [k] else u_dirty u) (u_sender_slots u + 1) mg).
Proof.
  intros Hk [Hok Hf Hs Hnm Hmig Hsl Hd] Hmv Hne Hok'' Hf'' Hc Hp. unfold is_slot in Hk.
  assert (bitmapTestBit claimed k = true) as Hcl by (unfold moves in Hmv; by destruct (bitmapTestBit claimed k)).
  assert (moved_from curmaster (k + 1) = moved_from curmaster k ++
            if bool_decide (cslots s0 !! k = curmaster) then [k] else []) as Hmf.
  { unfold moved_from. by rewrite filter_snoc, Hmv by lia. }
  split; cbn; rewrite ?Hmf; try done.
  - by etrans.
  - intros j. rewrite Hc. destruct (decide (j = k)) as [->|].
    + rewrite lookup_insert_eq, Hmv, bool_decide_true by lia. done.
    + rewrite lookup_insert_ne, Hs by done.
      by rewrite (bool_decide_ext (0 <= j < k) (0 <= j < k + 1)) by lia.
  - destruct (decide (cslots s0 !! k = curmaster)) as [E|E]; simplify_eq.
    + rewrite bool_decide_true by done. destruct (decide (_ ++ [k] = [])) as [E'|]; [|done].
      by apply app_nil in E' as [_ ?].
    + rewrite bool_decide_false by done. by rewrite app_nil_r.
  - destruct (decide (cslots s0 !! k = curmaster)) as [E|E]; simplify_eq.
    + rewrite bool_decide_true, length_app, Hmig by done. simpl. lia.
    + rewrite bool_decide_false by done. by rewrite app_nil_r.
  - rewrite filter_snoc, length_app, Hsl, Hcl by lia. simpl. lia.
  - rewrite filter_snoc, Hmv, Hd by lia. cbn [andb].
    destruct (bool_decide _ && _); [done|by rewrite app_nil_r].
Qed.

Lemma update_slot_inv curmaster k u :
  is_Some (nodes s0 !! sender) -> sender <> myself s0 -> is_slot k ->
  update_inv curmaster k u ->
  exists u', update_slot keys sender epoch claimed curmaster u k = Some u' /\ update_inv curmaster (k + 1) u'.
Proof.
  intros [sd Hsd] Hme Hk Hinv. pose proof (ui_ok _ _ _ Hinv) as Hok. pose proof (ui_frame _ _ _ Hinv) as Hf.
  assert (cslots (u_state u) !! k = cslots s0 !! k) as Hsame.
  { rewrite (ui_slots _ _ _ Hinv), bool_decide_false by lia. done. }
  unfold update_slot. rewrite Hsame, <- (fr_imp _ _ Hf), <- (fr_myself _ _ Hf).
  pose proof (update_keep curmaster k u) as Hkeep. unfold moves in Hkeep.
  destruct (bitmapTestBit claimed k) eqn:Hcl; cbn [negb andb Z.b2z] in *.
  2: { eexists. split; [done|]. destruct u. apply Hkeep; [done..|]. simpl. lia. }
  destruct (decide (cslots s0 !! k = Some sender)) as [Hs|Hs].
  { rewrite bool_decide_true in Hkeep by done. eauto. }
  destruct (decide (is_Some (importing_slots_from s0 !! k))) as [Hi|Hi].
  { rewrite (bool_decide_true (is_Some _)), andb_false_r in Hkeep by done. eauto. }
  rewrite !bool_decide_false in Hkeep by done. cbn [negb andb] in Hkeep.
  assert (exists newer,
    match cslots s0 !! k with
    | None => Some true
    | Some n => nd ← nodes (u_state u) !! n; Some (configEpoch nd <? epoch)
    end = Some newer /\ match cslots s0 !! k with
    | None => true
    | Some n => match nodes s0 !! n with Some nd => configEpoch nd <? epoch | None => false end
    end = newer) as (newer & -> & Hnew).
  { destruct (cslots s0 !! k) as [n|] eqn:Hn; [|eauto].
    destruct (so_owner _ Hok k n) as (_ & nd & Hnd & _); [congruence|].
    destruct (frame_lookup_r _ _ _ _ Hf Hnd) as (nd0 & Hnd0 & Hnf).
    rewrite Hnd, Hnd0. cbn. rewrite (nf_epoch _ _ Hnf). eauto. }
  cbn [mbind option_bind]. destruct newer; cbn [negb]; [|eauto]. clear Hkeep.
  destruct (rebind_slot sender k (u_state u) Hok Hk) as (r & s1 & s2 & -> & H2 & Hok2 & Hc2 & Hf2).
  { destruct (frame_lookup _ _ _ _ Hf Hsd) as (? & ? & _). eauto. }
  rewrite (bool_decide_false (sender = myself s0)) by done. rewrite andb_true_r.
  pose proof (update_move curmaster k u (clusterDoBeforeSleep (Z.lor CLUSTER_TODO_SAVE_CONFIG
           (Z.lor CLUSTER_TODO_UPDATE_STATE CLUSTER_TODO_FSYNC_CONFIG)) s2)) as Hmove.
  assert (moves k = true) as Hmv.
  { unfold moves. rewrite Hcl, !bool_decide_false by done. exact Hnew. }
  destruct (decide (cslots s0 !! k = curmaster)) as [E|E];
    cbn [mbind option_bind]; rewrite H2; cbn [mbind option_bind]; eexists; (split; [done|]);
    (apply Hmove; [done|done|done|done|by destruct Hok2; split|by etrans; [|apply frame_todo]|done|done]).
Qed.

(** The whole loop. *)
Lemma update_loop curmaster :
  slots_ok s0 -> is_Some (nodes s0 !! sender) -> sender <> myself s0 ->
  exists u, for_slots (update_slot keys sender epoch claimed curmaster) (mk_update s0 None [] 0 0) = Some u /\
    update_inv curmaster CLUSTER_SLOTS u.
Proof.
  intros Hok Hsd Hme.
  apply (for_slots_ind _ (update_inv curmaster)).
  - split; try done. intros j. rewrite bool_decide_false by lia. done.
  - intros j u Hj Hu. by apply update_slot_inv.
Qed.

End Update.

(** ** Changes of role leave the slots alone *)

Definition same_bits (a b : clusterNode) : Prop := slots a = slots b /\ numslots a = numslots b.

Record same_slots (s s' : clusterState) : Prop := mk_same_slots {
  ss_cslots : cslots s = cslots s';
  ss_myself : myself s = myself s';
  ss_nodes : forall n, option_Forall2 same_bits (nodes s !! n) (nodes s' !! n);
}.

#[export] Instance same_bits_preorder : PreOrder same_bits.
Proof. split; [done|]. unfold same_bits. intros a b c [] []. split; congruence. Qed.

#[export] Instance same_slots_preorder : PreOrder same_slots.
Proof.
  split; [done|]. intros a b c [] []. split; [congruence..|]. intros n. etrans; eauto.
Qed.

Lemma same_slots_ok s s' : same_slots s s' -> slots_ok s -> slots_ok s'.
Proof.
  intros [Hc _ Hn] [Ho Hb Hno]. split.
  - intros j n Hj. rewrite <- Hc in Hj. destruct (Ho j n Hj) as (Hs & nd & Hnd & Hbit). split; [done|].
    specialize (Hn n). rewrite Hnd in Hn. inversion Hn as [? nd' [E _] | ]; subst.
    exists nd'. by rewrite <- E.
  - intros n nd j Hnd Hj Hbit. rewrite <- Hc. specialize (Hn n). rewrite Hnd in Hn.
    inversion Hn as [nd' ? [E _] Hnd' | ]; subst. apply (Hb n nd' j); [done..|]. by rewrite E.
  - intros n nd Hnd. specialize (Hn n). rewrite Hnd in Hn. inversion Hn as [nd' ? [E1 E2] Hnd' | ]; subst.
    rewrite <- E1, <- E2. by apply (Hno n).
Qed.

Lemma same_slots_upd f n s : (forall nd, same_bits nd (f nd)) -> same_slots s (upd_node f n s).
Proof.
  intros Hf. split; [done..|]. intros m. cbn. destruct (decide (m = n)) as [->|].
  - rewrite lookup_alter_eq. destruct (nodes s !! n); constructor. apply Hf.
  - by rewrite lookup_alter_ne.
Qed.

(** What [clusterNodeRemoveSlave] and [clusterNodeAddSlave] leave of a node. *)
Definition slaves_frame (s s' : clusterState) : Prop :=
  same_slots s s' /\ forall n, option_Forall2 (fun a b => slaveof a = slaveof b /\
    forall k, k <> 8 -> Z.testbit (flags a) k = Z.testbit (flags b) k) (nodes s !! n) (nodes s' !! n).

Lemma slaves_frame_refl s : slaves_frame s s.
Proof. split; [done|]. intros n. destruct (nodes s !! n); by constructor. Qed.

Lemma slaves_frame_upd f n s :
  (forall nd, same_bits nd (f nd) /\ slaveof (f nd) = slaveof nd /\
     forall k, k <> 8 -> Z.testbit (flags (f nd)) k = Z.testbit (flags nd) k) ->
  slaves_frame s (upd_node f n s).
Proof.
  intros Hf. split; [apply same_slots_upd; intros nd; apply Hf|]. intros m. cbn.
  destruct (decide (m = n)) as [->|].
  - rewrite lookup_alter_eq. destruct (nodes s !! n) as [nd|]; constructor.
    destruct (Hf nd) as (_ & -> & Hb). split; [done|]. intros k Hk. by rewrite Hb.
  - rewrite lookup_alter_ne by done. destruct (nodes s !! m); by constructor.
Qed.

Lemma slaves_frame_trans s1 s2 s3 : slaves_frame s1 s2 -> slaves_frame s2 s3 -> slaves_frame s1 s3.
Proof.
  intros [H1 H2] [H3 H4]. split; [by etrans|]. intros n. specialize (H2 n). specialize (H4 n).
  inversion H2 as [a b [Ha Hb] E1 E2 | E1 E2]; rewrite <- E2 in H4; inversion H4 as [? c [Hc Hd]|]; subst; constructor.
  split; [congruence|]. intros k Hk. by rewrite Hb, Hd.
Qed.

Lemma testbit_clear_migrate x k :
  k <> 8 -> Z.testbit (clear_flag CLUSTER_NODE_MIGRATE_TO x) k = Z.testbit x k.
Proof.
  intros Hk. unfold clear_flag. rewrite Z.land_spec.
  destruct (decide (0 <= k)); [|by rewrite !Z.testbit_neg_r by lia].
  rewrite Z.lnot_spec, testbit_flag_ne by done. apply andb_true_r.
Qed.

Lemma testbit_or_migrate x k : k <> 8 -> Z.testbit (or_flag CLUSTER_NODE_MIGRATE_TO x) k = Z.testbit x k.
Proof. intros Hk. unfold or_flag. by rewrite Z.lor_spec, testbit_flag_ne, orb_false_r. Qed.

Lemma clusterNodeRemoveSlave_frame m n s :
  is_Some (nodes s !! m) ->
  exists r s', clusterNodeRemoveSlave m n s = Some (r, s') /\ slaves_frame s s'.
Proof.
  intros [nd Hnd]. unfold clusterNodeRemoveSlave. rewrite Hnd. cbn [mbind option_bind].
  destruct (remove_first n (slaves nd)) as [l|]; [|eauto using slaves_frame_refl].
  assert (slaves_frame s (upd_node (set_slaves l) m s)) as H1 by (apply slaves_frame_upd; by intros).
  destruct (decide (l = [])); [|eauto]. do 2 eexists. split; [done|].
  eapply slaves_frame_trans; [exact H1|]. apply slaves_frame_upd. intros nd'. split_and!; try done.
  intros k Hk. by apply testbit_clear_migrate.
Qed.

Lemma clusterNodeAddSlave_frame m n s :
  is_Some (nodes s !! m) ->
  exists r s', clusterNodeAddSlave m n s = Some (r, s') /\ slaves_frame s s' /\
    exists md, nodes s' !! m = Some md /\ n ∈ slaves md.
Proof.
  intros [nd Hnd]. unfold clusterNodeAddSlave. rewrite Hnd. cbn [mbind option_bind].
  destruct (decide (n ∈ slaves nd)); [eauto 10 using slaves_frame_refl|].
  do 2 eexists. split; [done|]. split.
  - apply slaves_frame_upd. intros nd'. split_and!; try done. intros k Hk. by apply testbit_or_migrate.
  - cbn. rewrite lookup_alter_eq, Hnd. eexists. split; [done|]. cbn. set_solver.
Qed.

Lemma nodeIsMaster_bit nd : nodeIsMaster nd = Z.testbit (flags nd) 0.
Proof. apply (land_pow2_test _ 0). lia. Qed.

Lemma nodeIsSlave_bit nd : nodeIsSlave nd = Z.testbit (flags nd) 1.
Proof. apply (land_pow2_test _ 1). lia. Qed.

(** [n] replicates [m] in the view of [s]. *)
Definition replica_of (n m : name) (s : clusterState) : Prop :=
  exists nd md, nodes s !! n = Some nd /\ nodes s !! m = Some md /\
    slaveof nd = Some m /\ nodeIsSlave nd = true /\ nodeIsMaster nd = false /\ n ∈ slaves md.

Lemma demote_flags f :
  let f' := or_flag CLUSTER_NODE_SLAVE (clear_flag (Z.lor CLUSTER_NODE_MASTER CLUSTER_NODE_MIGRATE_TO) f) in
  Z.testbit f' 0 = false /\ Z.testbit f' 1 = true.
Proof.
  unfold or_flag, clear_flag. rewrite !Z.lor_spec, !Z.land_spec, !Z.lnot_spec by lia.
  split; [by rewrite andb_false_r|apply orb_true_r].
Qed.

Lemma same_slots_close s : same_slots s (clusterCloseAllSlots s).
Proof. by split. Qed.

Lemma leave_role_spec s me :
  slots_ok s -> nodes s !! myself s = Some me -> nodeIsSlave me = negb (nodeIsMaster me) ->
  (forall m, slaveof me = Some m -> is_Some (nodes s !! m)) ->
  exists s1 me1, leave_role me s = Some s1 /\ same_slots s s1 /\ nodes s1 !! myself s = Some me1 /\
    Z.testbit (flags me1) 0 = false /\ Z.testbit (flags me1) 1 = true.
Proof.
  intros Hok Hme Hrole Hmaster. unfold leave_role.
  rewrite nodeIsSlave_bit, nodeIsMaster_bit in Hrole. rewrite nodeIsMaster_bit.
  destruct (Z.testbit (flags me) 0) eqn:Hm.
  - do 2 eexists. split; [done|]. split.
    + etrans; [|apply same_slots_close]. by apply same_slots_upd.
    + cbn. rewrite lookup_alter_eq, Hme. split; [done|]. apply demote_flags.
  - destruct (slaveof me) as [m|] eqn:Hso; [|by exists s, me].
    destruct (clusterNodeRemoveSlave_frame m (myself s) s) as (r & s1 & -> & Hf1 & Hf2); [by apply Hmaster|].
    specialize (Hf2 (myself s)). rewrite Hme in Hf2. inversion Hf2 as [a me1 [Ha Hb] E1 Hme1|]; subst.
    exists s1, me1. split_and!; try done; rewrite <- Hb by lia; done.
Qed.

(** Becoming a replica of [n]. *)
Lemma clusterSetMaster_spec n s me :
  slots_ok s -> nodes s !! myself s = Some me -> n <> myself s -> is_Some (nodes s !! n) ->
  numslots me = 0 -> nodeIsSlave me = negb (nodeIsMaster me) ->
  (forall m, slaveof me = Some m -> is_Some (nodes s !! m)) ->
  exists s' acts, clusterSetMaster n s = Some (s', ReplicationSetMaster n :: acts) /\
    slots_ok s' /\ cslots s' = cslots s /\ myself s' = myself s /\ replica_of (myself s) n s'.
Proof.
  intros Hok Hme Hne [nd Hnd] Hnum Hrole Hmaster. unfold clusterSetMaster. rewrite Hme.
  cbn [mbind option_bind]. rewrite decide_False, Hnum by done. cbn [Z.eqb negb].
  destruct (leave_role_spec s me Hok Hme Hrole Hmaster) as (s1 & me1 & -> & Hss1 & Hme1 & Hb0 & Hb1).
  cbn [mbind option_bind]. rewrite <- (ss_myself _ _ Hss1).
  set (s2 := upd_node (set_slaveof (Some n)) (myself s) s1).
  assert (same_slots s s2) as Hss2 by (etrans; [exact Hss1|]; by apply same_slots_upd).
  assert (is_Some (nodes s2 !! n)) as Hn2.
  { pose proof (ss_nodes _ _ Hss2 n) as H. rewrite Hnd in H. inversion H. eauto. }
  assert (myself s2 = myself s) as -> by (symmetry; apply (ss_myself _ _ Hss2)).
  destruct (clusterNodeAddSlave_frame n (myself s) s2 Hn2) as (r & s3 & -> & [Hss3 Hf3] & md & Hmd & Hin).
  cbn [mbind option_bind]. assert (same_slots s s3) as Hss by (by etrans).
  do 2 eexists. split; [done|]. split.
  { apply (same_slots_ok s); [|done]. etrans; [exact Hss|]. by split. }
  cbn. split; [by rewrite (ss_cslots _ _ Hss)|]. split; [by rewrite (ss_myself _ _ Hss)|].
  specialize (Hf3 (myself s)). cbn in Hf3. rewrite lookup_alter_eq, Hme1 in Hf3. cbn in Hf3.
  inversion Hf3 as [a me3 [Hso3 Hb3] E1 Hme3|]; subst. cbn in Hso3, Hb3.
  exists me3, md. cbn. split_and!; try done.
  - by rewrite nodeIsSlave_bit, <- Hb3 by lia.
  - by rewrite nodeIsMaster_bit, <- Hb3 by lia.
Qed.

(** A node has no slots exactly when the table gives it none. *)
Lemma numslots_0 s n nd :
  slots_ok s -> nodes s !! n = Some nd -> numslots nd = 0 <-> forall j, cslots s !! j <> Some n.
Proof.
  intros Hok Hnd. destruct (so_node s Hok n nd Hnd) as [_ ->]. rewrite slot_count_0. split.
  - intros H j Hj. destruct (so_owner s Hok j n Hj) as (Hs & nd' & Hnd' & Hb). rewrite Hnd in Hnd'.
    simplify_eq. by rewrite H in Hb.
  - intros H j Hj. destruct (bitmapTestBit (slots nd) j) eqn:E; [|done].
    by apply (so_bit s Hok n nd j) in E; [destruct (H j)|..].
Qed.

(** The end of [clusterUpdateSlotsConfigWith] when the node is demoted. *)
Lemma update_demote sender s u me cm :
  nodes s !! myself s = Some me -> nodeIsSlave me = negb (nodeIsMaster me) ->
  (nodeIsMaster me = false -> numslots me = 0) -> slots_ok s ->
  (if nodeIsMaster me then Some (myself s) else slaveof me) = Some cm ->
  (forall m, slaveof me = Some m -> is_Some (nodes s !! m)) ->
  is_Some (nodes s !! sender) -> sender <> myself s ->
  slots_ok u -> frame s u -> (forall j, cslots u !! j = Some sender \/ cslots u !! j = cslots s !! j) ->
  (forall j, cslots u !! j <> Some cm) ->
  exists s' acts, clusterSetMaster sender u = Some (s', ReplicationSetMaster sender :: acts) /\
    slots_ok s' /\ cslots s' = cslots u /\ replica_of (myself s) sender s'.
Proof.
  intros Hme Hrole Hslave Hok Hcm Hmaster [sd Hsd] Hne Hoku Hf Hown Hnone.
  destruct (frame_lookup _ _ _ _ Hf Hme) as (me' & Hme' & Hnf).
  destruct (frame_lookup _ _ _ _ Hf Hsd) as (sd' & Hsd' & _).
  rewrite (fr_myself _ _ Hf) in Hme', Hne |- *.
  assert (nodeIsMaster me' = nodeIsMaster me) as Em.
  { rewrite !nodeIsMaster_bit. symmetry. apply (nf_flags _ _ Hnf). lia. }
  assert (nodeIsSlave me' = nodeIsSlave me) as Es.
  { rewrite !nodeIsSlave_bit. symmetry. apply (nf_flags _ _ Hnf). lia. }
  assert (numslots me' = 0) as Hnum.
  { apply (numslots_0 u (myself u)); [done..|]. destruct (nodeIsMaster me); [by simplify_eq; rewrite <- (fr_myself _ _ Hf)|].
    intros j Hj. destruct (Hown j) as [E|E]; [congruence|]. rewrite E in Hj.
    revert Hj. rewrite <- (fr_myself _ _ Hf). apply (numslots_0 s (myself s) me); [done..|by apply Hslave]. }
  destruct (clusterSetMaster_spec sender u me') as (s' & acts & E & Hok' & Hc' & _ & Hrep);
    [done..|by eauto|done|by rewrite Em, Es| |eauto 10].
  intros m Hm. rewrite <- (nf_slaveof _ _ Hnf) in Hm. destruct (Hmaster m Hm) as [md Hmd].
  destruct (frame_lookup _ _ _ _ Hf Hmd) as (? & ? & _). eauto.
Qed.

(** C10: configuration updates. When a node claims slots with a configuration
    epoch, the receiver gives it exactly the claimed slots that it is not
    importing and that were unassigned or held under an older epoch; every other
    slot keeps its owner; owners and bitmaps still agree.  The receiver becomes a
    replica of the sender exactly when that took the last slot of its own master
    (or itself), as the migration policy allows; otherwise roles are unchanged and
    the keys of the slots it lost are deleted. *)
Theorem clusterUpdateSlotsConfigWith_correct cfg keys sender epoch claimed s me cm :
  slots_ok s -> nodes s !! myself s = Some me ->
  nodeIsSlave me = negb (nodeIsMaster me) -> (nodeIsMaster me = false -> numslots me = 0) ->
  (if nodeIsMaster me then Some (myself s) else slaveof me) = Some cm -> is_Some (nodes s !! cm) ->
  (forall m, slaveof me = Some m -> is_Some (nodes s !! m)) ->
  is_Some (nodes s !! sender) -> sender <> myself s ->
  let mv := moves sender epoch claimed s in
  let demoted s' := cluster_no_redirection cfg = false /\
    moved_from sender epoch claimed s (Some cm) CLUSTER_SLOTS <> [] /\
    (forall j, cslots s' !! j <> Some cm) /\
    (cluster_allow_replica_migration cfg = true \/
     length (List.filter (bitmapTestBit claimed) (seqZ 0 CLUSTER_SLOTS)) =
     length (moved_from sender epoch claimed s (Some cm) CLUSTER_SLOTS)) in
  exists s' acts,
    clusterUpdateSlotsConfigWith cfg keys sender epoch claimed s = Some (s', acts) /\ slots_ok s' /\
    (forall j, cslots s' !! j = if bool_decide (is_slot j) && mv j then Some sender else cslots s !! j) /\
    (demoted s' /\ replica_of (myself s) sender s' /\ ReplicationSetMaster sender ∈ acts \/
     ~ demoted s' /\ frame s s' /\
     acts = if cluster_no_redirection cfg then [] else
       DelKeysInSlot <$> List.filter (fun j => mv j && bool_decide (cslots s !! j = Some (myself s))
                                                && negb (keys j =? 0)) (seqZ 0 CLUSTER_SLOTS)).
Proof.
  intros Hok Hme Hrole Hslave Hcm [cmd Hcmd] Hmaster Hsd Hne mv demoted.
  unfold clusterUpdateSlotsConfigWith. rewrite Hme. cbn [mbind option_bind]. rewrite decide_False by done.
  rewrite Hcm. destruct (update_loop keys sender epoch claimed s (Some cm) Hok Hsd Hne) as (u & -> & Hu).
  destruct Hu as [Hok' Hf Hs Hnm Hmig Hsl Hd]. cbn [mbind option_bind].
  destruct (frame_lookup _ _ _ _ Hf Hcmd) as (cmd' & Hcmd' & _).
  assert (forall j, cslots (u_state u) !! j = if bool_decide (is_slot j) && mv j then Some sender else cslots s !! j)
    as Hs'. { intros j. rewrite Hs. by rewrite (bool_decide_ext (0 <= j < CLUSTER_SLOTS) (is_slot j)). }
  destruct (cluster_no_redirection cfg) eqn:Hnr.
  { do 2 eexists. split; [done|]. split_and!; [done..|]. right. by split; [intros [? _]|]. }
  assert (~ demoted (u_state u) ->
    exists s' acts, Some (u_state u, DelKeysInSlot <$> u_dirty u) = Some (s', acts) /\ slots_ok s' /\
    (forall j, cslots s' !! j = if bool_decide (is_slot j) && mv j then Some sender else cslots s !! j) /\
    (demoted s' /\ replica_of (myself s) sender s' /\ ReplicationSetMaster sender ∈ acts \/
     ~ demoted s' /\ frame s s' /\ acts = DelKeysInSlot <$> u_dirty u)) as Hstay.
  { intros Hnd. do 2 eexists. split; [done|]. split_and!; [done..|]. right. by split_and!. }
  fold mv in Hd. rewrite <- Hd. clear Hd.
  rewrite Hnm. destruct (decide (moved_from sender epoch claimed s (Some cm) CLUSTER_SLOTS = [])) as [Hmv|Hmv];
    cbn [mbind option_bind].
  { apply Hstay. by intros (_ & ? & _). }
  rewrite Hcmd'. cbn [mbind option_bind].
  pose proof (numslots_0 _ _ _ Hok' Hcmd') as Hz. rewrite Hsl, Hmig.
  destruct ((numslots cmd' =? 0) && _) eqn:Hdem.
  - assert (demoted (u_state u)) as Hdm.
    { split_and!; [done|done|apply Hz; lia|]. destruct (cluster_allow_replica_migration cfg); [by left|right; lia]. }
    destruct (update_demote sender s (u_state u) me cm) as (s' & acts & E & Hok2 & Hc2 & Hrep); try done.
    { intros j. rewrite Hs'. destruct (bool_decide (is_slot j) && mv j); [by left|by right]. } { apply Hdm. }
    rewrite E. cbn [mbind option_bind]. do 2 eexists. split; [done|]. split; [by destruct Hok2; split|].
    cbn. rewrite Hc2. split; [done|]. left. split_and!; [|done|by left].
    unfold demoted in *. cbn. by rewrite Hc2.
  - apply Hstay. intros (_ & _ & H1 & H2). apply Hz in H1. rewrite H1 in Hdem. cbn in Hdem.
    destruct H2 as [H2|H2]; rewrite H2 in Hdem; [done|]. rewrite Z.eqb_refl, orb_true_r in Hdem. done.
Qed.

(** ** Taking over, and giving up, all the slots of a node *)

(** Who owns slot [j] after every slot below [k] of [m] has gone to [to]. *)
Definition handed_over (s : clusterState) (m : name) (to : option name) (k j : Z) : option name :=
  if bool_decide (0 <= j < k) && bool_decide (cslots s !! j = Some m) then to else cslots s !! j.

Lemma handed_over_keep s m to k j :
  (j = k -> cslots s !! j <> Some m) -> handed_over s m to (k + 1) j = handed_over s m to k j.
Proof.
  intros H. unfold handed_over. destruct (decide (j = k)) as [->|].
  - rewrite !(bool_decide_false (cslots s !! k = Some m)) by (by apply H). by rewrite !andb_false_r.
  - by rewrite (bool_decide_ext (0 <= j < k + 1) (0 <= j < k)) by lia.
Qed.

Lemma handed_over_at s m to k : 0 <= k -> cslots s !! k = Some m -> handed_over s m to (k + 1) k = to.
Proof. intros Hk Hm. unfold handed_over. by rewrite !bool_decide_true by (done || lia). Qed.

(** The bit of a node says who owns the slot. *)
Lemma bit_owner s n nd j :
  slots_ok s -> nodes s !! n = Some nd -> is_slot j ->
  clusterNodeGetSlotBit nd j = bool_decide (cslots s !! j = Some n).
Proof.
  intros Hok Hnd Hj. unfold clusterNodeGetSlotBit. apply Bool.eq_iff_eq_true.
  rewrite bool_decide_eq_true. split.
  - by apply (so_bit s Hok).
  - intros H. destruct (so_owner s Hok j n H) as (_ & nd' & Hnd' & Hb). congruence.
Qed.

(** A turn of either loop at slot [k], from a state where the slots below [k]
    have been handled. *)
Lemma handover_step s m md to k st :
  is_slot k -> nodes s !! m = Some md -> slots_ok st -> frame s st ->
  (forall j, cslots st !! j = handed_over s m to k j) ->
  exists md', nodes st !! m = Some md' /\
    clusterNodeGetSlotBit md' k = bool_decide (cslots s !! k = Some m) /\ cslots st !! k = cslots s !! k.
Proof.
  intros Hk Hmd Hok Hf Hs. destruct (frame_lookup _ _ _ _ Hf Hmd) as (md' & Hmd' & _).
  assert (cslots st !! k = cslots s !! k) as E.
  { rewrite Hs. unfold handed_over. by rewrite bool_decide_false by lia. }
  exists md'. split_and!; [done| |done]. by rewrite (bit_owner st m), E.
Qed.

(** Removing all the slots of a node, as when a master turns into a replica. *)
Lemma clusterDelNodeSlots_spec m s md :
  slots_ok s -> nodes s !! m = Some md ->
  exists n s', clusterDelNodeSlots m s = Some (n, s') /\ slots_ok s' /\ frame s s' /\
    forall j, cslots s' !! j = if decide (cslots s !! j = Some m) then None else cslots s !! j.
Proof.
  intros Hok Hmd.
  destruct (for_slots_ind (fun '(deleted, s) j =>
      nd ← nodes s !! m;
      if clusterNodeGetSlotBit nd j then
        '(_, s) ← clusterDelSlot j s; Some (deleted + 1, s)
      else Some (deleted, s))
    (fun k '(d, st) => slots_ok st /\ frame s st /\ forall j, cslots st !! j = handed_over s m None k j)
    (0, s)) as ([n s'] & E & Hok' & Hf' & Hs').
  - split_and!; [done..|]. intros j. unfold handed_over. by rewrite bool_decide_false by lia.
  - intros k [d st] Hk (Hst & Hf & Hs).
    destruct (handover_step s m md None k st) as (md' & Hmd' & Hbit & Hsame); try done.
    rewrite Hmd'. cbn [mbind option_bind]. rewrite Hbit.
    destruct (bool_decide_reflect (cslots s !! k = Some m)) as [Hm|Hm].
    + destruct (clusterDelSlot_spec k st Hst) as (st' & -> & Hok' & Hc' & Hf').
      cbn [mbind option_bind]. eexists (_, _). split; [done|]. split_and!; [done|by etrans|]. intros j. rewrite Hc'.
      destruct (decide (j = k)) as [->|]; [|rewrite lookup_delete_ne, Hs by done; symmetry; by apply handed_over_keep].
      rewrite lookup_delete_eq, handed_over_at; [done|unfold is_slot in Hk; lia|done].
    + eexists (_, _). split; [done|]. split_and!; [done|done|]. intros j. rewrite Hs. symmetry.
      apply handed_over_keep. congruence.
  - exists n, s'. split_and!; [exact E|done..|]. intros j. rewrite Hs'. unfold handed_over.
    destruct (decide (cslots s !! j = Some m)) as [Hm|Hm].
    + rewrite !bool_decide_true; [done|done|]. by destruct (so_owner s Hok j m Hm).
    + by rewrite (bool_decide_false (cslots s !! j = Some m)), andb_false_r.
Qed.

(** The loop of a replica that claims its master's slots. *)
Lemma claim_slots_spec m s md :
  slots_ok s -> nodes s !! m = Some md -> is_Some (nodes s !! myself s) -> m <> myself s ->
  exists s', claim_slots m s = Some s' /\ slots_ok s' /\ frame s s' /\
    forall j, cslots s' !! j = if decide (cslots s !! j = Some m) then Some (myself s) else cslots s !! j.
Proof.
  intros Hok Hmd [me Hme] Hne.
  destruct (for_slots_ind (fun s j =>
      om ← nodes s !! m;
      if clusterNodeGetSlotBit om j then
        '(_, s) ← clusterDelSlot j s;
        '(_, s) ← clusterAddSlot (myself s) j s; Some s
      else Some s)
    (fun k st => slots_ok st /\ frame s st /\ forall j, cslots st !! j = handed_over s m (Some (myself s)) k j)
    s) as (s' & E & Hok' & Hf' & Hs').
  - split_and!; [done..|]. intros j. unfold handed_over. by rewrite bool_decide_false by lia.
  - intros k st Hk (Hst & Hf & Hs).
    destruct (handover_step s m md (Some (myself s)) k st) as (md' & Hmd' & Hbit & Hsame); try done.
    rewrite Hmd'. cbn [mbind option_bind]. rewrite Hbit.
    destruct (bool_decide_reflect (cslots s !! k = Some m)) as [Hm|Hm].
    + destruct (rebind_slot (myself s) k st Hst Hk) as (r & s1 & s2 & H1 & H2 & Hok2 & Hc2 & Hf2).
      { destruct (frame_lookup _ _ _ _ Hf Hme) as (? & ? & _). eauto. }
      rewrite H1. cbn [mbind option_bind].
      assert (myself s1 = myself s) as ->.
      { destruct (clusterDelSlot_spec k st Hst) as (s1' & E & _ & _ & Hf1). rewrite H1 in E. simplify_eq.
        rewrite <- (fr_myself _ _ Hf1). symmetry. apply (fr_myself _ _ Hf). }
      rewrite H2. cbn [mbind option_bind]. eexists. split; [done|]. split_and!; [done|by etrans|]. intros j. rewrite Hc2.
      destruct (decide (j = k)) as [->|]; [|rewrite lookup_insert_ne, Hs by done; symmetry; by apply handed_over_keep].
      rewrite lookup_insert_eq, handed_over_at; [done|unfold is_slot in Hk; lia|done].
    + eexists. split; [done|]. split_and!; [done|done|]. intros j. rewrite Hs. symmetry.
      apply handed_over_keep. congruence.
  - exists s'. split_and!; [exact E|done..|]. intros j. rewrite Hs'. unfold handed_over.
    destruct (decide (cslots s !! j = Some m)) as [Hm|Hm].
    + rewrite !bool_decide_true; [done|done|]. by destruct (so_owner s Hok j m Hm).
    + by rewrite (bool_decide_false (cslots s !! j = Some m)), andb_false_r.
Qed.

(** ** The global state *)

Lemma slots_uncovered_spec s :
  slots_ok s ->
  exists b, slots_uncovered s = Some b /\
    (b = false <-> forall j, is_slot j -> exists n nd,
       cslots s !! j = Some n /\ nodes s !! n = Some nd /\ nodeFailed nd = false).
Proof.
  intros Hok.
  destruct (for_slots_ind (fun (bad : bool) j =>
      if bad then Some bad else
      match cslots s !! j with
      | None => Some true
      | Some n => nd ← nodes s !! n; Some (nodeFailed nd)
      end)
    (fun k b => b = false <-> forall j, 0 <= j < k -> exists n nd,
       cslots s !! j = Some n /\ nodes s !! n = Some nd /\ nodeFailed nd = false) false) as (b & E & Hb).
  - split; [|done]. intros _ j Hj. lia.
  - intros k b Hk IH. destruct b.
    { exists true. split; [done|]. split; [done|]. intros H. apply IH. intros j Hj. apply H. lia. }
    destruct (cslots s !! k) as [n|] eqn:Hn.
    + destruct (so_owner s Hok k n Hn) as (_ & nd & Hnd & _). rewrite Hnd. cbn [mbind option_bind].
      exists (nodeFailed nd). split; [done|]. split.
      * intros Hf j Hj. destruct (decide (j = k)) as [->|]; [by eauto|]. apply IH; [done|lia].
      * intros H. destruct (H k) as (n' & nd' & Hn' & Hnd' & Hf'); [unfold is_slot in Hk; lia|]. congruence.
    + exists true. split; [done|]. split; [done|]. intros H.
      destruct (H k) as (n' & nd' & Hn' & _); [unfold is_slot in Hk; lia|]. congruence.
  - exists b. by split.
Qed.

(** The nodes this node counts: all voting masters, and the reachable ones. *)
Definition reachable_master (nd : clusterNode) : bool :=
  voting_master nd && negb (has_flag (Z.lor CLUSTER_NODE_FAIL CLUSTER_NODE_PFAIL) nd).

(** May the node serve queries: a majority of the voting masters is reachable
    and, if full coverage is required, every slot has a master that is not
    failing. *)
Definition healthy (cfg : config) (s : clusterState) : Prop :=
  (cluster_require_full_coverage cfg = true -> forall j, is_slot j -> exists n nd,
     cslots s !! j = Some n /\ nodes s !! n = Some nd /\ nodeFailed nd = false) /\
  count_nodes voting_master s / 2 + 1 <= count_nodes reachable_master s.

Lemma clusterUpdateState_spec cfg now s me :
  slots_ok s -> nodes s !! myself s = Some me ->
  exists s', clusterUpdateState cfg now s = Some s' /\
    nodes s' = nodes s /\ cslots s' = cslots s /\ myself s' = myself s /\
    (state s' = CLUSTER_OK -> healthy cfg s).
Proof.
  intros Hok Hme. unfold clusterUpdateState. rewrite Hme. cbn [mbind option_bind].
  set (s1 := if first_call_time (set_todo _ s) =? 0 then _ else _).
  assert (nodes s1 = nodes s /\ cslots s1 = cslots s /\ myself s1 = myself s /\ state s1 = state s) as (Hn & Hc & Hm & Hst)
    by (unfold s1; by destruct (_ =? 0)).
  clearbody s1. case_match eqn:Hearly.
  { exists s1. split_and!; try done. intros H. rewrite H in Hearly.
    by rewrite bool_decide_false, andb_false_r in Hearly. }
  clear Hearly.
  assert (exists b, (if cluster_require_full_coverage cfg then slots_uncovered s1 else Some false) = Some b /\
    (b = false -> cluster_require_full_coverage cfg = true -> forall j, is_slot j -> exists n nd,
     cslots s !! j = Some n /\ nodes s !! n = Some nd /\ nodeFailed nd = false)) as (b & -> & Hb).
  { destruct (cluster_require_full_coverage cfg); [|by exists false].
    destruct (slots_uncovered_spec s1) as (b & -> & Hb).
    { apply (same_slots_ok s); [|done]. split; [done|done|]. intros n. by rewrite Hn. }
    exists b. split; [done|]. intros E _. rewrite <- Hn, <- Hc. by apply Hb. }
  cbn [mbind option_bind].
  assert (forall p, count_nodes p s1 = count_nodes p s) as Hcount by (intros p; unfold count_nodes; by rewrite Hn).
  change (count_nodes _ (set_size _ s1)) with (count_nodes reachable_master s1).
  cbn [size set_size]. rewrite !Hcount.
  destruct (Z.ltb_spec (count_nodes reachable_master s) (count_nodes voting_master s / 2 + 1)) as [Hq|Hq].
  - case_match eqn:Hsame.
    + eexists. split; [done|]. split_and!; try done. cbn. intros H.
      apply bool_decide_eq_true in Hsame. cbn in Hsame. congruence.
    + rewrite (bool_decide_false (CLUSTER_FAIL = CLUSTER_OK)) by done. cbn [andb].
      eexists. split; [done|]. by split_and!.
  - assert (b = false -> healthy cfg s) as Hh by (intros Eb; split; auto).
    destruct b.
    + case_match eqn:Hsame.
      * eexists. split; [done|]. split_and!; try done. cbn. apply bool_decide_eq_true in Hsame.
        cbn in Hsame. congruence.
      * rewrite (bool_decide_false (CLUSTER_FAIL = CLUSTER_OK)) by done. cbn [andb].
        eexists. split; [done|]. by split_and!.
    + repeat case_match; eexists; (split; [done|]); split_and!; auto.
Qed.

(** C32: availability. [clusterUpdateState] changes neither nodes nor slots, and
    after it the node accepts queries only if the cluster is healthy. *)
Theorem clusterUpdateState_safe cfg now s me :
  slots_ok s -> nodes s !! myself s = Some me ->
  exists s', clusterUpdateState cfg now s = Some s' /\
    nodes s' = nodes s /\ cslots s' = cslots s /\ myself s' = myself s /\
    (state s' = CLUSTER_OK -> healthy cfg s).
Proof. apply clusterUpdateState_spec. Qed.


(** ** Failover *)

Lemma promote_flags f :
  let f' := or_flag CLUSTER_NODE_MASTER (clear_flag CLUSTER_NODE_SLAVE f) in
  Z.testbit f' 0 = true /\ Z.testbit f' 1 = false.
Proof.
  unfold or_flag, clear_flag. rewrite !Z.lor_spec, !Z.land_spec, !Z.lnot_spec by lia.
  split; [apply orb_true_r|by rewrite andb_false_r].
Qed.

Lemma same_slots_todo f s : same_slots s (clusterDoBeforeSleep f s).
Proof. by split. Qed.

Lemma clusterSetNodeAsMaster_spec s me m :
  nodes s !! myself s = Some me -> nodeIsMaster me = false -> slaveof me = Some m -> is_Some (nodes s !! m) ->
  exists s' me', clusterSetNodeAsMaster (myself s) s = Some s' /\ same_slots s s' /\
    nodes s' !! myself s = Some me' /\ nodeIsMaster me' = true /\ nodeIsSlave me' = false /\ slaveof me' = None.
Proof.
  intros Hme Hnm Hso Hm. unfold clusterSetNodeAsMaster. rewrite Hme. cbn [mbind option_bind].
  rewrite Hnm, Hso. destruct (clusterNodeRemoveSlave_frame m (myself s) s Hm) as (r & s1 & -> & Hss & Hf).
  cbn [mbind option_bind]. rewrite decide_True by apply (ss_myself _ _ Hss).
  specialize (Hf (myself s)). rewrite Hme in Hf. inversion Hf as [a me1 [Ha Hb] E1 Hme1|]; subst.
  do 2 eexists. split; [done|]. split.
  { etrans; [exact Hss|]. etrans; [|apply same_slots_todo]. etrans; [|by apply same_slots_upd]. by apply same_slots_upd. }
  split; [cbn; by rewrite !lookup_alter_eq, <- Hme1|]. destruct (promote_flags (flags me1)) as [Hp0 Hp1].
  rewrite nodeIsMaster_bit, nodeIsSlave_bit. by split_and!.
Qed.

Lemma clusterFailoverReplaceYourMaster_spec cfg now s me m :
  slots_ok s -> nodes s !! myself s = Some me -> nodeIsMaster me = false ->
  slaveof me = Some m -> is_Some (nodes s !! m) -> m <> myself s ->
  exists s' acts me' md',
    clusterFailoverReplaceYourMaster cfg now s = Some (s', acts) /\
    [ReplicationUnsetMaster; SaveConfig; BroadcastPong] `prefix_of` acts /\ slots_ok s' /\
    (forall j, cslots s' !! j = if decide (cslots s !! j = Some m) then Some (myself s) else cslots s !! j) /\
    nodes s' !! myself s = Some me' /\ nodeIsMaster me' = true /\ nodeIsSlave me' = false /\ slaveof me' = None /\
    nodes s' !! m = Some md' /\ numslots md' = 0.
Proof.
  intros Hok Hme Hnm Hso Hm Hne. unfold clusterFailoverReplaceYourMaster. rewrite Hme.
  rewrite bind_ret, Hnm, Hso.
  destruct (clusterSetNodeAsMaster_spec s me m) as (s1 & me1 & -> & Hss & Hme1 & Hm1 & Hs1 & Hso1); [done..|].
  rewrite bind_ret. pose proof (same_slots_ok _ _ Hss Hok) as Hok1.
  destruct Hm as [md Hmd]. pose proof (ss_nodes _ _ Hss m) as Hmd1. rewrite Hmd in Hmd1.
  inversion Hmd1 as [a md1 Hsb E1 Hmd1'|]; subst. symmetry in Hmd1'. rewrite (ss_myself _ _ Hss) in *.
  destruct (claim_slots_spec m s1 md1 Hok1 Hmd1') as (s2 & -> & Hok2 & Hf2 & Hc2); [by eauto|done|].
  rewrite bind_ret. destruct (frame_lookup _ _ _ _ Hf2 Hme1) as (me2 & Hme2 & Hnf).
  destruct (frame_lookup _ _ _ _ Hf2 Hmd1') as (md2 & Hmd2 & _).
  destruct (clusterUpdateState_spec cfg now s2 me2 Hok2) as (s3 & -> & Hn3 & Hc3 & Hm3 & _);
    [by rewrite <- (fr_myself _ _ Hf2)|].
  rewrite bind_ret. do 4 eexists. split; [done|]. split; [by eexists|]. cbn. rewrite Hc3, Hn3.
  split; [apply (same_slots_ok s2); [split; [done|done|intros n; cbn; by rewrite Hn3]|done]|].
  split; [intros j; by rewrite Hc2, (ss_cslots _ _ Hss)|]. split; [done|].
  rewrite nodeIsMaster_bit, nodeIsSlave_bit, <- !(nf_flags _ _ Hnf), <- nodeIsMaster_bit, <- nodeIsSlave_bit by lia.
  split_and!; [done|done|by rewrite <- (nf_slaveof _ _ Hnf)|exact Hmd2|].
  apply (numslots_0 s2 m md2 Hok2 Hmd2). intros j. rewrite Hc2. case_decide; congruence.
Qed.

(** C31: failover. A replica that won an election becomes a master and owns
    exactly the slots its master had, besides those it had; the old master has
    none left; every other slot keeps its owner, and owners and bitmaps agree. *)
Theorem clusterFailoverReplaceYourMaster_correct cfg now s me m :
  slots_ok s -> nodes s !! myself s = Some me -> nodeIsMaster me = false ->
  slaveof me = Some m -> is_Some (nodes s !! m) -> m <> myself s ->
  exists s' acts me' md',
    clusterFailoverReplaceYourMaster cfg now s = Some (s', acts) /\ slots_ok s' /\
    (forall j, cslots s' !! j = if decide (cslots s !! j = Some m) then Some (myself s) else cslots s !! j) /\
    nodes s' !! myself s = Some me' /\ nodeIsMaster me' = true /\ nodeIsSlave me' = false /\ slaveof me' = None /\
    nodes s' !! m = Some md' /\ numslots md' = 0.
Proof.
  intros Hok Hme Hnm Hso Hm Hne.
  destruct (clusterFailoverReplaceYourMaster_spec cfg now s me m) as (s' & acts & me' & md' & E & _ & H); [done..|].
  by exists s', acts, me', md'.
Qed.

(** ** Witnesses *)

Definition no_bits : bytes := replicate 2048 0.

Definition plain_node (f : Z) (b : bytes) (k : Z) (e : Z) (so : option name) (sl : list name) : clusterNode :=
  mk_node f e b k sl so 0 0 0 [].

(** Two masters and a replica of the second: node 1 holds slot 0 with epoch 1,
    node 2 slot 1 with epoch 2. *)
Definition demo_state (me : name) : clusterState :=
  mk_state me 2 CLUSTER_OK 2
    (<[[1] := plain_node CLUSTER_NODE_MASTER (bitmapSetBit no_bits 0) 1 1 None []]>
     (<[[2] := plain_node CLUSTER_NODE_MASTER (bitmapSetBit no_bits 1) 1 2 None [[3]]]>
      (<[[3] := plain_node CLUSTER_NODE_SLAVE no_bits 0 0 (Some [2]) []]> ∅)))
    ∅ ∅ (<[0 := [1]]> (<[1 := [2]]> ∅))
    (mk_election 0 0 false 0 0 0) (mk_manual 0 None (-1) false) 0 0 0 0.

Definition demo_config : config := mk_config 15000 true false false 10 10 true false.

Lemma no_bits_ok : bitmap_ok no_bits /\ forall j, is_slot j -> bitmapTestBit no_bits j = false.
Proof.
  split; [apply length_replicate|]. intros j Hj. rewrite testbit_spec by (unfold is_slot in Hj; lia).
  unfold no_bits. rewrite lookup_replicate_2 by (by apply slot_index). apply Z.bits_0.
Qed.

Lemma one_bit_ok j : is_slot j -> bitmap_ok (bitmapSetBit no_bits j) /\
  1 = slot_count (bitmapSetBit no_bits j) /\
  forall i, is_slot i -> bitmapTestBit (bitmapSetBit no_bits j) i = (i =? j).
Proof.
  intros Hj. destruct no_bits_ok as [Hok Hz]. split; [by apply bitmap_ok_set|]. split.
  - rewrite slot_count_set by auto. rewrite (proj2 (slot_count_0 no_bits) Hz). done.
  - intros i Hi. rewrite testbit_set, Hz by done. by destruct (i =? j).
Qed.

#[local] Opaque no_bits slot_count.

Lemma demo_slots_ok me : slots_ok (demo_state me).
Proof.
  assert (is_slot 0) as H0 by (unfold is_slot, CLUSTER_SLOTS; lia).
  assert (is_slot 1) as H1 by (unfold is_slot, CLUSTER_SLOTS; lia).
  destruct no_bits_ok as [Hok0 Hz]. destruct (one_bit_ok 0 H0) as (Hb0 & Hc0 & Ht0).
  destruct (one_bit_ok 1 H1) as (Hb1 & Hc1 & Ht1).
  split; unfold demo_state; cbn [cslots nodes].
  - intros j n. rewrite !lookup_insert_Some, lookup_empty. intros [[<- <-]|[_ [[<- <-]|[_ ?]]]]; [..|done].
    + split; [exact H0|]. eexists. split; [reflexivity|]. by apply Ht0.
    + split; [exact H1|]. eexists. split; [reflexivity|]. by apply Ht1.
  - intros n nd j. rewrite !lookup_insert_Some, lookup_empty.
    intros [[<- <-]|[_ [[<- <-]|[_ [[<- <-]|[_ ?]]]]]] Hj Hbit; [..|discriminate]; cbn [slots plain_node] in Hbit.
    + rewrite Ht0 in Hbit by done. apply Z.eqb_eq in Hbit as ->. left. split; reflexivity.
    + rewrite Ht1 in Hbit by done. apply Z.eqb_eq in Hbit as ->. right. split; [discriminate|].
      left. split; reflexivity.
    + by rewrite Hz in Hbit.
  - intros n nd. rewrite !lookup_insert_Some, lookup_empty.
    intros [[<- <-]|[_ [[<- <-]|[_ [[<- <-]|[_ ?]]]]]]; [..|discriminate]; cbn [slots numslots plain_node].
    + exact (conj Hb0 Hc0).
    + exact (conj Hb1 Hc1).
    + split; [exact Hok0|]. symmetry. apply slot_count_0, Hz.
Qed.

(** Node 1 claims slot 1 with the newer epoch 3: node 2 loses its last slot, and
    its replica, node 3, becomes a replica of node 1. *)
Lemma clusterUpdateSlotsConfigWith_witness :
  exists s' acts,
    clusterUpdateSlotsConfigWith demo_config (fun _ => 0) [1] 3 (bitmapSetBit no_bits 1) (demo_state [3]) = Some (s', acts) /\
    slots_ok s'.
Proof.
  destruct (clusterUpdateSlotsConfigWith_correct demo_config (fun _ => 0) [1] 3 (bitmapSetBit no_bits 1) (demo_state [3])
    (plain_node CLUSTER_NODE_SLAVE no_bits 0 0 (Some [2]) []) [2]) as (s' & acts & E & Hok & _);
    [apply demo_slots_ok|reflexivity|reflexivity|reflexivity|reflexivity|by eexists| |by eexists|discriminate|eauto].
  intros m [= <-]. by eexists.
Defined.

Lemma clusterFailoverReplaceYourMaster_witness :
  exists s' acts, clusterFailoverReplaceYourMaster demo_config 1 (demo_state [3]) = Some (s', acts) /\ slots_ok s'.
Proof.
  destruct (clusterFailoverReplaceYourMaster_correct demo_config 1 (demo_state [3])
    (plain_node CLUSTER_NODE_SLAVE no_bits 0 0 (Some [2]) []) [2]) as (s' & acts & me' & md' & E & Hok & _);
    [apply demo_slots_ok|reflexivity|reflexivity|reflexivity|by eexists|discriminate|eauto].
Defined.

Lemma clusterUpdateState_witness :
  exists s', clusterUpdateState demo_config 1 (demo_state [1]) = Some s' /\
    (state s' = CLUSTER_OK -> healthy demo_config (demo_state [1])).
Proof.
  destruct (clusterUpdateState_safe demo_config 1 (demo_state [1])
    (plain_node CLUSTER_NODE_MASTER (bitmapSetBit no_bits 0) 1 1 None [])) as (s' & E & _ & _ & _ & H);
    [apply demo_slots_ok|reflexivity|eauto].
Defined.

(** The known-master hypothesis of the update theorem is needed: for a replica
    that does not know its master, an unassigned slot claimed by another node
    compares equal to the null current master, which is then dereferenced. *)
Lemma unknown_master_null_dereference cfg keys sender epoch p s me sd :
  nodes s !! myself s = Some me -> nodeIsMaster me = false -> slaveof me = None ->
  cluster_no_redirection cfg = false -> sender <> myself s -> nodes s !! sender = Some sd ->
  is_slot p -> cslots s !! p = None -> importing_slots_from s !! p = None ->
  clusterUpdateSlotsConfigWith cfg keys sender epoch (bitmapSetBit no_bits p) s = None.
Proof.
  intros Hme Hnm Hso Hcfg Hne Hsd Hp Hc Hi. unfold clusterUpdateSlotsConfigWith.
  rewrite Hme, bind_ret, Hnm, Hso, decide_False by done. destruct (one_bit_ok p Hp) as (_ & _ & Hbit).
  assert (exists s1, clusterAddSlot sender p s = Some (true, s1)) as [s1 Hadd].
  { unfold clusterAddSlot, clusterNodeSetSlotBit. rewrite Hc, Hsd. cbn [mbind option_bind].
    repeat case_match; cbn [mbind option_bind]; eauto. }
  assert (exists u1, update_slot keys sender epoch (bitmapSetBit no_bits p) None (mk_update s None [] 0 0) p
                     = Some u1 /\ u_newmaster u1 = Some sender) as (u1 & Hu & Hnew).
  { unfold update_slot. cbn [u_state u_newmaster u_dirty u_sender_slots u_migrated].
    rewrite Hbit, Z.eqb_refl, Hc, Hi by done. cbn [negb]. rewrite decide_False by done.
    rewrite decide_False by (by intros [? ?]). rewrite bind_ret. cbn [negb]. rewrite decide_True by done.
    unfold clusterDelSlot. rewrite Hc, bind_ret. cbn beta iota. rewrite Hadd, bind_ret. by eexists. }
  rewrite (for_slots_at _ p _ u1 Hp Hu).
  - rewrite bind_ret, Hcfg, Hnew. reflexivity.
  - intros u j Hj Hjp. unfold update_slot. rewrite Hbit by done. by rewrite (proj2 (Z.eqb_neq _ _)) by done.
Qed.

End ClusterSlots.
