(* ===== verification/ClusterElection.v ===== *)
(** * Elections, epochs and failure detection: correctness

    The replicas of a failing master ask the masters for their votes; a master
    grants at most one vote per epoch, and a replica with the votes of a majority
    takes over.  The exchange is a transition system whose steps are the handlers
    of [Cluster], run by any number of servers over a network that delays, loses
    and reorders messages.  Nodes may disagree about the masters, and these may change
    during a run.  Two replicas can win one epoch only if the nodes that voted in
    it are as many as a majority of the masters the one knows and a majority of those
    the other knows, taken together, provided that no vote reaches a candidate after it
    has scheduled its next attempt; without this proviso two can although all nodes agree, and a run that does so is given. *)

From Stdlib Require Import ZArith Lia.
From stdpp Require Import base option list numbers gmap.
From S2P Require Import Prelude Cluster ClusterSlots.

#[local] Open Scope Z_scope.

Module ClusterElection.

Export Cluster ClusterSlots.

#[local] Opaque for_slots.

(** ** What the handlers do to epochs, votes and elections *)

(** Nothing of the voting state changes, and the current epoch does not go back. *)
Record quiet (s s' : clusterState) : Prop := mk_quiet {
  q_myself : myself s' = myself s;
  q_epoch : currentEpoch s <= currentEpoch s';
  q_vote : lastVoteEpoch s' = lastVoteEpoch s;
  q_elect : elect s' = elect s;
}.






(** Is the replica elected by the actions: it stops replicating. *)
Definition elected (acts : list action) : bool :=
  existsb (fun a => match a with ReplicationUnsetMaster => true | _ => false end) acts.

Definition requests (acts : list action) : list clusterMsg :=
  omap (fun a => match a with BroadcastFailoverAuthRequest h => Some h | _ => None end) acts.



(** Nothing at all of the voting state changes. *)
Record same_votes (s s' : clusterState) : Prop := mk_same_votes {
  sv_myself : myself s' = myself s;
  sv_epoch : currentEpoch s' = currentEpoch s;
  sv_vote : lastVoteEpoch s' = lastVoteEpoch s;
  sv_elect : elect s' = elect s;
}.

#[export] Instance same_votes_preorder : PreOrder same_votes.
Proof. split; [by split|]. intros s1 s2 s3 [? ? ? ?] [? ? ? ?]. split; congruence. Qed.

(** Inverts a run of an operation: binds, branches and results. *)
Ltac run_inv :=
  repeat match goal with
  | H : (_ ≫= _) = Some _ |- _ => apply bind_Some in H as (? & ? & ?)
  | H : Some (_, _) = Some (_, _) |- _ => injection H as <- <-
  | H : Some _ = Some _ |- _ => injection H as <-
  | H : None = Some _ |- _ => discriminate H
  | p : (_ * _)%type |- _ => destruct p
  | H : (if ?b then _ else _) = Some _ |- _ => destruct b
  | H : (match ?o with Some _ => _ | None => _ end) = Some _ |- _ => destruct o
  end.

Lemma clusterAddSlot_votes n j s r s' : clusterAddSlot n j s = Some (r, s') -> same_votes s s'.
Proof. unfold clusterAddSlot, clusterNodeSetSlotBit. intros H. run_inv; by split. Qed.

Lemma clusterDelSlot_votes j s r s' : clusterDelSlot j s = Some (r, s') -> same_votes s s'.
Proof. unfold clusterDelSlot, clusterNodeClearSlotBit. intros H. run_inv; by split. Qed.

Lemma claim_slots_votes m s s' : claim_slots m s = Some s' -> same_votes s s'.
Proof.
  apply (for_slots_rel same_votes). intros s1 j s2 H. run_inv; [|done].
  etrans; [by eapply clusterDelSlot_votes|by eapply clusterAddSlot_votes].
Qed.

Lemma clusterSetNodeAsMaster_votes n s s' : clusterSetNodeAsMaster n s = Some s' -> same_votes s s'.
Proof.
  unfold clusterSetNodeAsMaster, clusterNodeRemoveSlave. intros H. run_inv; repeat case_match; by split.
Qed.

Lemma clusterUpdateState_votes cfg now s s' : clusterUpdateState cfg now s = Some s' -> same_votes s s'.
Proof.
  unfold clusterUpdateState. intros (me & _ & H)%bind_Some. revert H.
  set (s1 := if first_call_time _ =? 0 then _ else _).
  assert (same_votes s s1) as HV by (subst s1; case_match; by split). clearbody s1.
  case_match; [by intros [= <-]|]. intros (u & _ & HB)%bind_Some. revert HB.
  destruct (_ <? size _ / 2 + 1); repeat case_match; intros [= <-]; (etrans; [exact HV|by split]).
Qed.

Lemma clusterFailoverReplaceYourMaster_votes cfg now s s' acts :
  clusterFailoverReplaceYourMaster cfg now s = Some (s', acts) -> same_votes s s' /\ requests acts = [].
Proof.
  unfold clusterFailoverReplaceYourMaster. intros (me & _ & H)%bind_Some. revert H.
  case_match; [by intros [= <- <-]|]. destruct (slaveof me) as [m|]; [|by intros [= <- <-]].
  intros (s1 & E1 & (s2 & E2 & (s3 & E3 & HB)%bind_Some)%bind_Some)%bind_Some.
  assert (same_votes s s3) as HV.
  { etrans; [by eapply clusterSetNodeAsMaster_votes|]. etrans; [by eapply claim_slots_votes|].
    by eapply clusterUpdateState_votes. }
  unfold resetManualFailover in HB. injection HB as <- <-. split.
  - etrans; [exact HV|]. by split.
  - destruct (mf_end (mf s3) =? 0); reflexivity.
Qed.

(** ** The outcomes of [clusterHandleSlaveFailover] *)








(** ** The election protocol

    The servers, the current epoch in each one's configuration file, the requests that
    were broadcast, which stay readable by everybody, and the votes in flight, each
    with its addressee.  A vote and the start of an election are saved before the
    message leaves ([CLUSTER_TODO_FSYNC_CONFIG]); other changes of the epoch may be
    lost in a restart.  The last three fields record history for the statement: who
    voted for whom in which epoch, whose votes a candidate has counted in its present
    election, and who won which epoch, with the number of masters with slots it knew. *)

Record world := mk_world {
  servers : gmap name clusterState;
  disk : gmap name Z;
  broadcast : list clusterMsg;
  inflight : list (name * clusterMsg);
  votes : gmap (name * Z) name;
  counted : gmap name (list name);
  winners : list (name * Z * Z);
}.

Inductive event : Type :=
  | DeliverRequest (n : name) (i : nat) (cfg : config) (now offset : Z)
  | DeliverVote (i : nat)
  | HandleFailover (n : name) (cfg : config) (now : Z) (r : repl)
  | Restart (n : name) (e : Z)
  | Other (n : name) (s' : clusterState).

#[export] Instance election_eq_dec : EqDecision election.
Proof. solve_decision. Defined.

#[export] Instance quiet_dec s s' : Decision (quiet s s').
Proof.
  refine (cast_if (decide (myself s' = myself s /\ currentEpoch s <= currentEpoch s' /\
                           lastVoteEpoch s' = lastVoteEpoch s /\ elect s' = elect s))).
  - abstract (by destruct_and!; split).
  - abstract (by intros [? ? ? ?]; tauto).
Defined.

Definition set_server (n : name) (s : clusterState) (w : world) : world :=
  mk_world (<[n := s]> (servers w)) (disk w) (broadcast w) (inflight w) (votes w) (counted w) (winners w).

(** The epoch is written to the configuration file. *)
Definition save (n : name) (e : Z) (w : world) : world :=
  mk_world (servers w) (<[n := e]> (disk w)) (broadcast w) (inflight w) (votes w) (counted w) (winners w).

(** The vote sent by the actions, if any, on its way and recorded. *)
Definition send_vote (voter : name) (acts : list action) (w : world) : world :=
  match acts with
  | [SendFailoverAuth c hdr] =>
      mk_world (servers w) (disk w) (broadcast w) (inflight w ++ [(c, hdr)])
        (<[(voter, msg_currentEpoch hdr) := c]> (votes w)) (counted w) (winners w)
  | _ => w
  end.

Definition no_election : election := mk_election 0 0 false 0 0 0.

Section Protocol.

(** Whether votes may arrive when no election of the addressee is running. *)
Context (late : bool).

(** One step of the network or of a server. An election only starts below the
    greatest epoch. *)
Definition exec (ev : event) (w : world) : option world :=
  match ev with
  | DeliverRequest n i cfg now offset =>
      s ← servers w !! n;
      hdr ← broadcast w !! i;
      '(s', acts) ← process_auth_request cfg now offset hdr s;
      let w := set_server n s' w in
      Some (send_vote n acts (if decide (acts = []) then w else save n (currentEpoch s') w))
  | DeliverVote i =>
      '(c, hdr) ← inflight w !! i;
      s ← servers w !! c;
      if late || failover_auth_sent (elect s) then
        s' ← process_auth_ack hdr s;
        let new := if failover_auth_count (elect s') =? failover_auth_count (elect s) then []
                   else [msg_sender hdr] in
        Some (mk_world (<[c := s']> (servers w)) (disk w) (broadcast w) (delete i (inflight w)) (votes w)
                (<[c := default [] (counted w !! c) ++ new]> (counted w)) (winners w))
      else None
  | HandleFailover n cfg now r =>
      s ← servers w !! n;
      '(s', acts) ← clusterHandleSlaveFailover cfg now r s;
      if decide (0 <= currentEpoch s < 2 ^ 64 - 1) then
        let started := negb (bool_decide (requests acts = [])) in
        Some (mk_world (<[n := s']> (servers w)) (if started then <[n := currentEpoch s']> (disk w) else disk w)
                (broadcast w ++ requests acts) (inflight w) (votes w)
                (if started then <[n := []]> (counted w) else counted w)
                (if elected acts then winners w ++ [(n, failover_auth_epoch (elect s), size s)] else winners w))
      else None
  | Restart n e =>
      s ← servers w !! n;
      e0 ← disk w !! n;
      if decide (e0 <= e <= currentEpoch s)
      then Some (set_server n (set_elect no_election (set_currentEpoch e s)) w) else None
  | Other n s' =>
      s ← servers w !! n;
      if decide (quiet s s') then Some (set_server n s' w) else None
  end.

Definition initial (w : world) : Prop :=
  (forall n s, servers w !! n = Some s -> myself s = n /\
     (exists e, disk w !! n = Some e /\ lastVoteEpoch s <= e <= currentEpoch s) /\
     failover_auth_count (elect s) = 0 /\ failover_auth_sent (elect s) = false) /\
  broadcast w = [] /\ inflight w = [] /\ votes w = ∅ /\ counted w = ∅ /\ winners w = [].

Inductive reachable : world -> Prop :=
  | reach_init w : initial w -> reachable w
  | reach_step w ev w' : reachable w -> exec ev w = Some w' -> reachable w'.



















End Protocol.

(** The nodes that voted in an epoch. *)
Definition voters (w : world) (e : Z) : gset name :=
  set_map fst (filter (fun k : name * Z => k.2 = e) (dom (votes w))).




(** ** Runs

    Master 1, which holds slot 0, has failed; its replicas 4 and 5 are the
    candidates, and masters 2 and 3, with slots 1 and 2, vote. *)

Definition run_node (k : Z) : clusterNode :=
  if k <=? 3 then
    plain_node (if k =? 1 then Z.lor CLUSTER_NODE_MASTER CLUSTER_NODE_FAIL else CLUSTER_NODE_MASTER)
      (bitmapSetBit no_bits (k - 1)) 1 0 None (if k =? 1 then [[4]; [5]] else [])
  else plain_node CLUSTER_NODE_SLAVE no_bits 0 0 (Some [1]) [].

Definition run_state (me : Z) : clusterState :=
  mk_state [me] 0 CLUSTER_OK 3 (list_to_map ((fun k => ([k], run_node k)) <$> seqZ 1 5))
    ∅ ∅ (list_to_map ((fun k => (k - 1, [k])) <$> seqZ 1 3))
    no_election (mk_manual 0 None (-1) false) 0 0 0 0.

Definition run_world : world :=
  mk_world (list_to_map ((fun k => ([k], run_state k)) <$> seqZ 2 4))
    (list_to_map ((fun k => ([k], 0)) <$> seqZ 2 4)) [] [] ∅ ∅ [].

Definition run_config : config := mk_config 1000 true false false 0 10 true false.
Definition run_masters : gset name := list_to_set [[1]; [2]; [3]].
Definition run_repl : repl := mk_repl 0 0 0.

Lemma run_world_initial : initial run_world.
Proof.
  split; [|done]. intros n s Hn. apply elem_of_list_to_map_2 in Hn.
  apply list_elem_of_fmap in Hn as (k & [= -> ->] & Hk). apply elem_of_seqZ in Hk. split_and!; [done| |done|done].
  exists 0. split; [|done]. assert (k = 2 \/ k = 3 \/ k = 4 \/ k = 5) as [->|[->|[->| ->]]] by lia; reflexivity.
Qed.

Definition handle (k now : Z) : event := HandleFailover [k] run_config now run_repl.
Definition deliver (k : Z) (i : nat) (now : Z) : event := DeliverRequest [k] i run_config now 0.


(** Each replica gets one vote in an election of its own, epoch 1 for 4 and epoch
    2 for 5, and the votes are delayed until both have scheduled another attempt.
    They are counted then, since the count was reset when the attempt was
    scheduled and not when it starts; in epoch 3, which both start, one vote more
    is enough for each. *)
Definition late_votes_run : list event :=
  [handle 4 10000; handle 4 10500; deliver 2 0 10600; deliver 5 0 10600;
   handle 5 11000; handle 5 11500; deliver 3 1 11600; deliver 4 1 11600;
   handle 4 20000; handle 5 20000; DeliverVote 0; DeliverVote 0;
   handle 4 20500; handle 5 20500; deliver 2 2 20600; deliver 3 3 20600;
   DeliverVote 0; DeliverVote 0].

(** *** A vote on a claim of slot 0 alone, without the loop *)

Definition claim_at (p e : Z) (s : clusterState) : option bool :=
  match cslots s !! p with
  | None => Some true
  | Some n => nd ← nodes s !! n; Some (configEpoch nd <=? e)
  end.

Lemma claim_one p e s :
  is_slot p -> claim_at p e s = Some true -> claim_not_stale (bitmapSetBit no_bits p) e s = Some true.
Proof.
  intros Hp Hc. destruct (one_bit_ok p Hp) as (_ & _ & Hbit). unfold claim_not_stale.
  destruct (for_slots_ind (fun (ok : bool) j =>
    if negb ok || negb (bitmapTestBit (bitmapSetBit no_bits p) j) then Some ok else claim_at j e s)
    (fun _ ok => ok = true) true) as (ok & E & ->); [done| |exact E].
  intros j ok Hj ->. exists true. rewrite Hbit by done. cbn.
  destruct (Z.eqb_spec j p) as [->|]; cbn; [by rewrite Hc|done].
Qed.

(** A voter's answer to a request that claims slot 0 and that it grants. *)
Definition grant (now : Z) (request : clusterMsg) (s : clusterState) : option (clusterState * list action) :=
  me ← nodes s !! myself s;
  nd ← nodes s !! msg_sender request;
  master ← slaveof nd;
  m ← nodes s !! master;
  if negb (nodeIsSlave me || (numslots me =? 0)) && negb (msg_currentEpoch request <? currentEpoch s) &&
     negb (lastVoteEpoch s =? currentEpoch s) && negb (nodeIsMaster nd) && nodeFailed m &&
     negb (now - voted_time m <? cluster_node_timeout run_config * 2) &&
     bool_decide (msg_myslots request = bitmapSetBit no_bits 0) &&
     bool_decide (claim_at 0 (msg_configEpoch request) s = Some true)
  then
    let s := clusterDoBeforeSleep (Z.lor CLUSTER_TODO_SAVE_CONFIG CLUSTER_TODO_FSYNC_CONFIG)
               (upd_node (set_voted_time now) master (set_lastVoteEpoch (currentEpoch s) s)) in
    hdr ← clusterBuildMessageHdr 0 s;
    Some (s, [SendFailoverAuth (msg_sender request) hdr])
  else None.

Lemma grant_spec now request s r :
  grant now request s = Some r ->
  clusterSendFailoverAuthIfNeeded run_config now 0 (msg_sender request) request s = Some r.
Proof.
  unfold grant, clusterSendFailoverAuthIfNeeded.
  intros (me & -> & (nd & -> & (master & Hso & (m & Hm & H)%bind_Some)%bind_Some)%bind_Some)%bind_Some.
  rewrite !bind_ret, Hso, Hm, bind_ret. revert H.
  destruct (nodeIsSlave me || (numslots me =? 0)); [done|].
  destruct (msg_currentEpoch request <? currentEpoch s); [done|].
  destruct (lastVoteEpoch s =? currentEpoch s); [done|]. destruct (nodeIsMaster nd); [done|].
  destruct (nodeFailed m); [|done]. destruct (now - voted_time m <? _); [done|].
  case_bool_decide as Hb; [|done]. case_bool_decide as Hc; [|done].
  cbn [negb andb]. rewrite Hb, (claim_one 0), bind_ret; [done|split; [lia|done]|done].
Qed.

(** *** Steps without the loops *)

Definition fast (late : bool) (ev : event) (w : world) : option world :=
  match ev with
  | DeliverRequest n i _ now _ =>
      s ← servers w !! n;
      me ← nodes s !! myself s;
      if nodeIsSlave me then exec late (DeliverRequest n i run_config now 0) w else
      hdr ← broadcast w !! i;
      s1 ← process_header hdr s;
      '(s', acts) ← grant now hdr s1;
      Some (send_vote n acts (save n (currentEpoch s') (set_server n s' w)))
  | DeliverVote _ | HandleFailover _ _ _ _ => exec late ev w
  | _ => None
  end.

Fixpoint fast_all (late : bool) (evs : list event) (w : world) : option world :=
  match evs with
  | [] => Some w
  | ev :: evs => w' ← fast late ev w; fast_all late evs w'
  end.

Lemma fast_request late n i now w w' :
  fast late (DeliverRequest n i run_config now 0) w = Some w' ->
  exec late (DeliverRequest n i run_config now 0) w = Some w'.
Proof.
  cbn [fast]. intros (s & Hn & (me & _ & H)%bind_Some)%bind_Some. revert H.
  destruct (nodeIsSlave me); [done|]. intros (hdr & Hh & (s1 & E1 & HB)%bind_Some)%bind_Some.
  apply bind_Some in HB as ([s' acts] & Hg & HB). cbn [exec]. rewrite Hn, bind_ret, Hh, bind_ret.
  unfold process_auth_request. rewrite E1, bind_ret. pose proof (grant_spec _ _ _ _ Hg) as Hs.
  assert (is_Some (nodes s1 !! msg_sender hdr)) as [nd ->].
  { unfold grant in Hg. apply bind_Some in Hg as (me1 & _ & (nd & Hnd & _)%bind_Some). eauto. }
  rewrite Hs, bind_ret. injection HB as <-. rewrite decide_False; [done|]. intros ->.
  unfold grant in Hg. do 4 apply bind_Some in Hg as (? & _ & Hg). revert Hg. case_match; [|done].
  by intros (? & _ & [=])%bind_Some.
Qed.

(** The events of the runs carry the configuration of the runs. *)
Definition plain_event (ev : event) : Prop :=
  match ev with DeliverRequest _ _ cfg _ offset => cfg = run_config /\ offset = 0 | _ => True end.

Lemma fast_exec late ev w w' : plain_event ev -> fast late ev w = Some w' -> exec late ev w = Some w'.
Proof.
  destruct ev as [n i cfg now offset|i|n cfg now r|n e|n s']; [|done..].
  intros [-> ->]. apply fast_request.
Qed.

Lemma fast_reachable late evs w w' :
  Forall plain_event evs -> reachable late w -> fast_all late evs w = Some w' ->
  reachable late w'.
Proof.
  intros Hevs. revert w. induction Hevs as [|ev evs Hev Hevs IH]; intros w Hr; [by intros [= <-]|].
  intros (w1 & E & H)%bind_Some. eapply IH; [|exact H]. by eapply reach_step, fast_exec.
Qed.

(** *** Winning *)

Definition same_bitmaps (s s' : clusterState) : bool :=
  bool_decide (cslots s = cslots s') && bool_decide (myself s = myself s') &&
  bool_decide ((fun nd => (slots nd, numslots nd)) <$> nodes s = (fun nd => (slots nd, numslots nd)) <$> nodes s').

(** A candidate of the runs that wins at the given time. *)
Definition ready (k now : Z) (w : world) : bool :=
  match servers w !! [k] with
  | None => false
  | Some s =>
      let e := elect s in
      same_bitmaps (run_state k) s && bool_decide (nodes s !! myself s ≫= slaveof <> Some (myself s)) && (size s =? 3) && (0 <=? currentEpoch s) &&
      (currentEpoch s <? 2 ^ 64 - 1) && bool_decide (failover_allowed run_config s = Some true) &&
      negb (4000 <? now - failover_auth_time e) && negb (now <? failover_auth_time e) &&
      negb (2000 <? now - failover_auth_time e) && failover_auth_sent e && (2 <=? failover_auth_count e)
  end.

Lemma same_bitmaps_slots s s' : same_bitmaps s s' = true -> same_slots s s'.
Proof.
  unfold same_bitmaps. rewrite !andb_true_iff, !bool_decide_eq_true. intros [[Hc Hm] Hn].
  split; [done..|]. intros n. assert ((fun nd => (slots nd, numslots nd)) <$> (nodes s !! n) =
    (fun nd => (slots nd, numslots nd)) <$> (nodes s' !! n)) as E by (by rewrite <- !lookup_fmap, Hn).
  destruct (nodes s !! n), (nodes s' !! n); simplify_eq/=; constructor. by split.
Qed.

Lemma run_node_ok k : 1 <= k <= 5 ->
  bitmap_ok (slots (run_node k)) /\ numslots (run_node k) = slot_count (slots (run_node k)) /\
  forall j, is_slot j -> bitmapTestBit (slots (run_node k)) j = (k <=? 3) && (j =? k - 1).
Proof.
  intros Hk. unfold run_node. destruct (Z.leb_spec k 3) as [Hle|Hgt]; cbn [slots numslots plain_node andb].
  - apply one_bit_ok. split; [lia|unfold CLUSTER_SLOTS; lia].
  - destruct no_bits_ok as [Hok Hz]. split_and!; [done| |done]. symmetry. by apply slot_count_0.
Qed.

Lemma run_nodes me k : 1 <= k <= 5 -> nodes (run_state me) !! [k] = Some (run_node k).
Proof.
  intros Hk. assert (k = 1 \/ k = 2 \/ k = 3 \/ k = 4 \/ k = 5) as [->|[->|[->|[->| ->]]]] by lia; reflexivity.
Qed.

Lemma run_cslots me k : 1 <= k <= 3 -> cslots (run_state me) !! (k - 1) = Some [k].
Proof. intros Hk. assert (k = 1 \/ k = 2 \/ k = 3) as [->|[->| ->]] by lia; reflexivity. Qed.

Lemma run_node_inv me n nd : nodes (run_state me) !! n = Some nd -> exists k, n = [k] /\ nd = run_node k /\ 1 <= k <= 5.
Proof.
  intros H. apply elem_of_list_to_map_2, list_elem_of_fmap in H as (k & [= -> ->] & Hk).
  exists k. split_and!; [done..| |]; apply elem_of_seqZ in Hk; lia.
Qed.

Lemma run_slots_ok me : slots_ok (run_state me).
Proof.
  split.
  - intros j n H. apply elem_of_list_to_map_2, list_elem_of_fmap in H as (k & [= -> ->] & Hk).
    apply elem_of_seqZ in Hk. assert (is_slot (k - 1)) as Hs by (split; [lia|unfold CLUSTER_SLOTS; lia]).
    split; [done|]. exists (run_node k). split; [apply run_nodes; lia|].
    destruct (run_node_ok k) as (_ & _ & E); [lia|]. rewrite E, Z.eqb_refl, andb_true_r by done. lia.
  - intros n nd j (k & -> & -> & Hk)%run_node_inv Hj Hbit.
    destruct (run_node_ok k Hk) as (_ & _ & E). rewrite E in Hbit by done.
    assert (j = k - 1 /\ k <= 3) as [-> Hle] by lia. apply run_cslots. lia.
  - intros n nd (k & -> & -> & Hk)%run_node_inv. destruct (run_node_ok k Hk) as (? & ? & _). done.
Qed.

(** The failover of a candidate with enough votes, in the configuration of the
    runs. *)
Lemma handle_wins now s :
  slots_ok s -> nodes s !! myself s ≫= slaveof <> Some (myself s) ->
  failover_allowed run_config s = Some true -> now - failover_auth_time (elect s) <= 2000 ->
  failover_auth_time (elect s) <= now -> failover_auth_sent (elect s) = true ->
  size s = 3 -> 2 <= failover_auth_count (elect s) ->
  exists s' acts, clusterHandleSlaveFailover run_config now run_repl s = Some (s', acts) /\
    elected acts = true /\ requests acts = [].
Proof.
  intros Hok Hself Hal Hto Hnow Hsent Hsz Hq. unfold clusterHandleSlaveFailover. rewrite Hsz.
  set (s1 := set_todo _ s). change (failover_allowed run_config s1 = Some true) in Hal.
  change (elect s) with (elect s1) in *. change (nodes s1 !! myself s1 ≫= slaveof <> Some (myself s1)) in Hself.
  assert (slots_ok s1) as Hok1 by (by destruct Hok; split).
  clearbody s1. rewrite Hal, bind_ret. cbn [negb cluster_slave_validity_factor run_config Z.eqb andb].
  change (cluster_node_timeout run_config) with 1000. rewrite (proj2 (Z.ltb_ge _ _)) by lia.
  unfold update_rank. rewrite Hsent. cbn [negb andb]. rewrite bind_ret.
  rewrite (proj2 (Z.ltb_ge _ _)) by lia. rewrite (proj2 (Z.ltb_ge _ _)) by lia. rewrite Hsent. cbn [negb].
  rewrite (proj2 (Z.leb_le _ _)) by (change (3 / 2 + 1) with 2; lia).
  unfold failover_allowed in Hal. apply bind_Some in Hal as (me & Hme & Hal).
  destruct (nodeIsMaster me) eqn:Hnm; [done|]. destruct (slaveof me) as [m|] eqn:Hso; [|done].
  apply bind_Some in Hal as (md & Hmd & Hal).
  rewrite Hme, bind_ret, Hso in Hself. unfold win_election. rewrite Hme, bind_ret.
  set (s2 := if configEpoch me <? _ then _ else _).
  assert (exists me2, same_slots s1 s2 /\ nodes s2 !! myself s2 = Some me2 /\ nodeIsMaster me2 = false /\
    slaveof me2 = Some m /\ is_Some (nodes s2 !! m) /\ m <> myself s2) as (me2 & Hss & Hme2 & Hnm2 & Hso2 & Hm2 & Hne2).
  { assert (m <> myself s1) by congruence. subst s2. case_match; [|exists me; split_and!; [reflexivity|eauto..]]. eexists. cbn.
    rewrite lookup_alter_eq, Hme, lookup_alter_ne by done. split_and!; [by apply same_slots_upd|eauto..]. }
  destruct (clusterFailoverReplaceYourMaster_spec run_config now s2 me2 m) as (s' & acts & _ & _ & E & [l ->] & _);
    [by eapply same_slots_ok|done..|].
  pose proof (clusterFailoverReplaceYourMaster_votes _ _ _ _ _ E) as [_ Hr]. eauto.
Qed.

(** A ready candidate of the runs wins the epoch of its election, and the others
    do not notice yet. *)
Lemma ready_wins late k now w s :
  ready k now w = true -> servers w !! [k] = Some s -> exists w', exec late (handle k now) w = Some w' /\
    winners w' = winners w ++ [([k], failover_auth_epoch (elect s), 3)] /\ votes w' = votes w /\
    forall n, n <> [k] -> servers w' !! n = servers w !! n.
Proof.
  unfold ready. intros H Hs. rewrite Hs in H. rewrite !andb_true_iff in H.
  destruct H as [[[[[[[[[[Hbm Hself] Hsz] H0] H64] Hal] Hret] Hnow] Hto] Hsent] Hq].
  apply same_bitmaps_slots in Hbm. apply bool_decide_eq_true in Hal, Hself.
  destruct (handle_wins now s) as (s' & acts & E & Hel & Hreq); try done; try lia.
  { eapply same_slots_ok, run_slots_ok. exact Hbm. }
  apply Z.eqb_eq in Hsz.
  exists (mk_world (<[[k] := s']> (servers w)) (disk w) (broadcast w) (inflight w) (votes w) (counted w)
            (winners w ++ [([k], failover_auth_epoch (elect s), 3)])).
  split_and!; [|done|done|intros n Hn; cbn; by rewrite lookup_insert_ne].
  unfold handle, exec. rewrite Hs, bind_ret, E, bind_ret. rewrite decide_True.
  - by rewrite Hel, Hreq, app_nil_r, Hsz.
  - lia.
Qed.

(** *** The two runs *)

Definition epoch_of (k : Z) (w : world) : option Z := failover_auth_epoch ∘ elect <$> servers w !! [k].


Lemma late_votes_run_ready :
  (w ← fast_all true late_votes_run run_world;
   Some (ready 4 20700 w, ready 5 20700 w, epoch_of 4 w, epoch_of 5 w, winners w, bool_decide (voters w 3 ⊆ run_masters)))
  = Some (true, true, Some 3, Some 3, [], true).
Proof. vm_compute. reflexivity. Qed.

Lemma epoch_of_Some k w e : epoch_of k w = Some e ->
  exists s, servers w !! [k] = Some s /\ failover_auth_epoch (elect s) = e.
Proof. unfold epoch_of. intros (s & Hs & ->)%fmap_Some. by exists s. Qed.



(** The proviso of [one_winner_per_epoch] is needed: with late votes two replicas
    win epoch 3, although each knows the same three masters and nobody else votes. *)
Lemma late_votes_two_winners :
  exists w, reachable true w /\ ([4], 3, 3) ∈ winners w /\ ([5], 3, 3) ∈ winners w /\
    voters w 3 ⊆ run_masters /\ base.size run_masters = 3%nat.
Proof.
  destruct (proj1 (bind_Some _ _ _) late_votes_run_ready) as (w & E & [= Hr4 Hr5 He4 He5 Hw Hv]).
  apply fast_reachable in E; [|repeat constructor|apply reach_init, run_world_initial].
  apply epoch_of_Some in He4 as (s4 & Hs4 & He4). apply epoch_of_Some in He5 as (s5 & Hs5 & He5).
  destruct (ready_wins true 4 20700 w s4 Hr4 Hs4) as (w1 & E1 & Hw1 & Hvo1 & Hsame).
  assert (servers w1 !! [5] = Some s5) as Hs5' by (by rewrite Hsame by done).
  assert (ready 5 20700 w1 = true) as Hr5' by (unfold ready in *; by rewrite Hsame by done).
  destruct (ready_wins true 5 20700 w1 s5 Hr5' Hs5') as (w2 & E2 & Hw2 & Hvo2 & _).
  exists w2. split; [by eapply reach_step; [eapply reach_step|]|].
  unfold voters. rewrite Hw2, Hw1, Hw, He4, He5, Hvo2, Hvo1.
  split_and!; [constructor|constructor; constructor|by apply bool_decide_eq_true in Hv|reflexivity].
Qed.

End ClusterElection.
