(* ===== verification/ClusterQuery.v ===== *)
(** * Redirections: which node serves a query

    Correctness of [getNodeByQuery]: what each answer says about the owner of the
    keys, and that following redirections ends at a node that serves the query. *)

From Stdlib Require Import ZArith Lia.
From stdpp Require Import base option list numbers gmap.
From S2P Require Import Prelude Cluster ClusterSlots.

#[local] Open Scope Z_scope.

Module ClusterQuery.

Export Cluster ClusterSlots.

#[local] Opaque keyHashSlot.

(** ** The loop over the keys *)

(** What is left of the keys after the first: they all hash to its slot. *)
Record scanned (has_key : bytes -> bool) (keys : list bytes) (k k' : keyscan) : Prop := mk_scanned {
  sc_slots : forall key, key ∈ keys -> keyHashSlot key = k_slot k;
  sc_first : k_first k' = k_first k;
  sc_slot : k_slot k' = k_slot k;
  sc_node : k_node k' = k_node k;
  sc_mig : k_migrating k' = k_migrating k;
  sc_imp : k_importing k' = k_importing k;
  sc_multiple : k_multiple k' = true <->
    k_multiple k = true \/ exists key, key ∈ keys /\ Some key <> k_first k;
  sc_missing : 0 <= k_missing k -> 0 <= k_missing k' /\
    (k_missing k' = 0 <-> k_missing k = 0 /\
       (k_migrating k || k_importing k = true -> forall key, key ∈ keys -> has_key key = true));
}.

Lemma scanned_nil has_key k : scanned has_key [] k k.
Proof.
  split; try done.
  - intros key Hin. by apply not_elem_of_nil in Hin.
  - split; [by left|]. intros [?|(key & Hin & _)]; [done|]. by apply not_elem_of_nil in Hin.
  - intros H0. split; [done|]. split; [|tauto]. intros ->. split; [done|].
    intros _ key Hin. by apply not_elem_of_nil in Hin.
Qed.

Lemma scanned_cons has_key key keys k k1 k' :
  scanned has_key [key] k k1 -> scanned has_key keys k1 k' -> scanned has_key (key :: keys) k k'.
Proof.
  intros [A1 A2 A3 A4 A5 A6 A7 A8] [B1 B2 B3 B4 B5 B6 B7 B8].
  rewrite A2 in B7. split; try congruence.
  - intros x Hx. apply elem_of_cons in Hx as [->|Hx]; [apply A1; constructor|rewrite <- A3; auto].
  - rewrite B7, A7. split.
    + intros [[?|(x & Hx & Hne)]|(x & Hx & Hne)]; [by left|right|right]; exists x; split; try done.
      * apply list_elem_of_singleton in Hx as ->. constructor.
      * by constructor.
    + intros [?|(x & Hx & Hne)]; [by left; left|]. apply elem_of_cons in Hx as [->|Hx].
      * left. right. exists key. split; [constructor|done].
      * right. by exists x.
  - intros H0. destruct (A8 H0) as [H1 HA]. destruct (B8 H1) as [H2 HB]. split; [done|].
    rewrite HB, HA, A5, A6. split.
    + intros [[? Hk] Hks]. split; [done|]. intros Hopen x Hx. apply elem_of_cons in Hx as [->|Hx]; [|auto].
      apply Hk; [done|constructor].
    + intros [? Hks]. split; [split; [done|]|]; intros Hopen x Hx; apply Hks; try done; [|by constructor].
      apply list_elem_of_singleton in Hx as ->. constructor.
Qed.

(** Counting a key of the right slot. *)
Lemma count_missing_scanned has_key key m k :
  keyHashSlot key = k_slot k -> (m = true <-> k_multiple k = true \/ Some key <> k_first k) ->
  scanned has_key [key] k (count_missing has_key key
    (mk_scan (k_first k) (k_slot k) (k_node k) (k_migrating k) (k_importing k) m (k_missing k))).
Proof.
  intros Hs Hm. unfold count_missing. cbn. split; try (case_match; done).
  - intros x Hx. by apply list_elem_of_singleton in Hx as ->.
  - assert (forall b : bool, k_multiple (if b then mk_scan (k_first k) (k_slot k) (k_node k) (k_migrating k)
      (k_importing k) m (k_missing k + 1) else mk_scan (k_first k) (k_slot k) (k_node k) (k_migrating k)
      (k_importing k) m (k_missing k)) = m) as -> by (by intros []).
    rewrite Hm. split; (intros [?|Hx]; [by left|right]).
    + exists key. split; [constructor|done].
    + destruct Hx as (x & Hx & Hne). by apply list_elem_of_singleton in Hx as ->.
  - intros H0. destruct (k_migrating k || k_importing k); cbn; [|by split; [|split; [split|tauto]]].
    destruct (has_key key) eqn:Hk; cbn.
    + split; [done|]. split; [|tauto]. intros ->. split; [done|]. intros _ x Hx.
      by apply list_elem_of_singleton in Hx as ->.
    + split; [lia|]. split; [lia|]. intros [_ Hx]. specialize (Hx eq_refl key). rewrite Hk in Hx.
      discriminate Hx. constructor.
Qed.

Lemma scan_key_cases has_key s k key first :
  k_first k = Some first -> keyHashSlot first = k_slot k ->
  (scan_key has_key s k key = inr REDIR_CROSS_SLOT /\ keyHashSlot key <> k_slot k) \/
  exists k', scan_key has_key s k key = inl k' /\ scanned has_key [key] k k'.
Proof.
  intros Hf Hs. unfold scan_key. rewrite Hf. case_decide as Hd.
  - subst key. right. eexists. split; [done|].
    replace k with (mk_scan (k_first k) (k_slot k) (k_node k) (k_migrating k) (k_importing k) (k_multiple k)
      (k_missing k)) at 2 by (by destruct k).
    apply count_missing_scanned; [done|]. rewrite Hf. tauto.
  - destruct (Z.eqb_spec (k_slot k) (keyHashSlot key)) as [He|Hne]; cbn; [right|left; by split].
    eexists. split; [done|]. rewrite <- Hf. apply count_missing_scanned; [done|]. split; [|done].
    intros _. right. rewrite Hf. congruence.
Qed.

Lemma scan_keys_cases has_key s keys k first :
  k_first k = Some first -> keyHashSlot first = k_slot k ->
  (scan_keys has_key s k keys = inr REDIR_CROSS_SLOT /\ exists key, key ∈ keys /\ keyHashSlot key <> k_slot k) \/
  exists k', scan_keys has_key s k keys = inl k' /\ scanned has_key keys k k'.
Proof.
  revert k. induction keys as [|key keys IH]; intros k Hf Hs; cbn [scan_keys].
  { right. eexists. split; [done|apply scanned_nil]. }
  destruct (scan_key_cases has_key s k key first Hf Hs) as [[-> Hne]|(k1 & -> & Hk1)].
  { left. split; [done|]. exists key. split; [constructor|done]. }
  destruct (IH k1) as [[-> (x & Hx & Hne)]|(k' & -> & Hk')].
  - by rewrite (sc_first _ _ _ _ Hk1).
  - by rewrite (sc_slot _ _ _ _ Hk1).
  - left. split; [done|]. exists x. rewrite (sc_slot _ _ _ _ Hk1) in Hne. split; [by constructor|done].
  - right. exists k'. split; [done|]. by eapply scanned_cons.
Qed.

(** ** What an answer promises *)

Definition one_slot (keys : list bytes) (j : Z) : Prop := forall key, key ∈ keys -> keyHashSlot key = j.
Definition several (keys : list bytes) : Prop := exists a b, a ∈ keys /\ b ∈ keys /\ a <> b.
Definition all_here (has_key : bytes -> bool) (keys : list bytes) : Prop :=
  forall key, key ∈ keys -> has_key key = true.

Definition migrating (s : clusterState) (j : Z) : Prop :=
  cslots s !! j = Some (myself s) /\ is_Some (migrating_slots_to s !! j).
Definition importing (s : clusterState) (j : Z) : Prop :=
  ~ migrating s j /\ is_Some (importing_slots_from s !! j).

(** Queries are accepted when the cluster is up, or when it is down and reads are
    allowed. *)
Definition accepting (cfg : config) (q : query) (s : clusterState) : Prop :=
  state s = CLUSTER_OK \/ (cluster_allow_reads_when_down cfg = true /\ q_write q = false).

(** The answers for keys of one slot, owned by [n]. *)
Definition slot_promise (cfg : config) (has_key : bytes -> bool) (q : query) (s : clusterState) (me : clusterNode)
    (j : Z) (n : name) (r : option name) (e : redir) : Prop :=
  match e with
  | REDIR_DOWN_STATE => r = None /\ state s <> CLUSTER_OK /\ cluster_allow_reads_when_down cfg = false
  | REDIR_DOWN_RO_STATE => r = None /\ state s <> CLUSTER_OK /\ q_write q = true
  | REDIR_MOVED => r = Some n /\ n <> myself s /\ accepting cfg q s
  | REDIR_ASK => r = migrating_slots_to s !! j /\ migrating s j /\ ~ all_here has_key (q_keys q) /\
      accepting cfg q s
  | REDIR_UNSTABLE => r = None /\ importing s j /\ q_asking q = true /\ several (q_keys q) /\
      ~ all_here has_key (q_keys q)
  | REDIR_NONE => r = Some (myself s) /\ accepting cfg q s /\
      ((n = myself s /\ (migrating s j -> q_migrate q = true \/ all_here has_key (q_keys q))) \/
       (importing s j /\ (q_migrate q = true \/
          (q_asking q = true /\ (several (q_keys q) -> all_here has_key (q_keys q))))) \/
       (q_readonly q = true /\ q_is_write q = false /\ nodeIsSlave me = true /\ slaveof me = Some n))
  | REDIR_CROSS_SLOT | REDIR_DOWN_UNBOUND => False
  end.

Definition promise (cfg : config) (has_key : bytes -> bool) (q : query) (s : clusterState) (me : clusterNode)
    (r : option name) (e : redir) : Prop :=
  (e = REDIR_DOWN_UNBOUND /\ r = None /\ exists key, key ∈ q_keys q /\ cslots s !! keyHashSlot key = None) \/
  (e = REDIR_CROSS_SLOT /\ r = None /\
     exists a b, a ∈ q_keys q /\ b ∈ q_keys q /\ keyHashSlot a <> keyHashSlot b) \/
  exists j n, one_slot (q_keys q) j /\ cslots s !! j = Some n /\ slot_promise cfg has_key q s me j n r e.

(** What the loop finds out about keys of one slot. *)
Record found (has_key : bytes -> bool) (keys : list bytes) (s : clusterState) (j : Z) (n : name) (k : keyscan)
  : Prop := mk_found {
  fo_slot : k_slot k = j;
  fo_one : one_slot keys j;
  fo_node : k_node k = Some n;
  fo_owner : cslots s !! j = Some n;
  fo_mig : k_migrating k = true <-> migrating s j;
  fo_imp : k_importing k = true <-> importing s j;
  fo_multiple : k_multiple k = true <-> several keys;
  fo_missing : k_migrating k || k_importing k = true -> k_missing k = 0 <-> all_here has_key keys;
}.

Lemma several_cons first keys :
  several (first :: keys) <-> exists key, key ∈ keys /\ key <> first.
Proof.
  split.
  - intros (a & b & Ha & Hb & Hne). apply elem_of_cons in Ha as [->|Ha], Hb as [->|Hb]; [done|eauto..|].
    destruct (decide (a = first)) as [->|]; eauto.
  - intros (key & Hk & Hne). exists key, first. split_and!; [by constructor|constructor|done].
Qed.

Lemma scan_found has_key s first keys :
  (scan_keys has_key s (mk_scan None 0 None false false false 0) (first :: keys) = inr REDIR_DOWN_UNBOUND /\
     cslots s !! keyHashSlot first = None) \/
  (scan_keys has_key s (mk_scan None 0 None false false false 0) (first :: keys) = inr REDIR_CROSS_SLOT /\
     exists key, key ∈ keys /\ keyHashSlot key <> keyHashSlot first) \/
  exists k n, scan_keys has_key s (mk_scan None 0 None false false false 0) (first :: keys) = inl k /\
    found has_key (first :: keys) s (keyHashSlot first) n k.
Proof.
  cbn [scan_keys]. unfold scan_key. cbn [k_first k_multiple k_missing].
  destruct (cslots s !! keyHashSlot first) as [n|] eqn:Ho; [right|by left].
  set (mig := bool_decide (n = myself s) && _). set (imp := negb mig && _).
  set (k0 := mk_scan (Some first) (keyHashSlot first) (Some n) mig imp false 0).
  assert (scanned has_key [first] k0 (count_missing has_key first k0)) as H1
    by (apply (count_missing_scanned has_key first false k0); [done|cbn; intuition congruence]).
  destruct (scan_keys_cases has_key s keys (count_missing has_key first k0) first) as [[-> (x & Hx & Hne)]|(k & -> & H2)].
  - by rewrite (sc_first _ _ _ _ H1).
  - by rewrite (sc_slot _ _ _ _ H1).
  - left. split; [done|]. exists x. rewrite (sc_slot _ _ _ _ H1) in Hne. done.
  - right. exists k, n. split; [done|]. destruct (scanned_cons _ _ _ _ _ _ H1 H2) as [A1 A2 A3 A4 A5 A6 A7 A8].
    cbn in *. assert (mig = true <-> migrating s (keyHashSlot first)) as Hmig.
    { unfold mig, migrating. rewrite andb_true_iff, !bool_decide_eq_true, Ho. intuition congruence. }
    split; try done.
    + by rewrite A5.
    + rewrite A6. unfold imp, importing. rewrite <- Hmig, andb_true_iff, negb_true_iff, bool_decide_eq_true.
      destruct mig; intuition congruence.
    + rewrite A7, several_cons. split.
      * intros [?|(x & Hx & Hne)]; [done|]. apply elem_of_cons in Hx as [->|Hx]; [done|]. exists x. split; congruence.
      * intros (x & Hx & Hne). right. exists x. split; [by constructor|congruence].
    + destruct A8 as [_ A8]; [done|]. rewrite A5, A6. intros Hopen. rewrite A8. unfold all_here. tauto.
Qed.

(** The table of answers for keys of one slot. *)
Definition answer (cfg : config) (q : query) (s : clusterState) (me : clusterNode) (n : name) (k : keyscan)
  : option name * redir :=
  if negb (bool_decide (state s = CLUSTER_OK)) && negb (cluster_allow_reads_when_down cfg)
  then (None, REDIR_DOWN_STATE) else
  if negb (bool_decide (state s = CLUSTER_OK)) && q_write q then (None, REDIR_DOWN_RO_STATE) else
  if (k_migrating k || k_importing k) && q_migrate q then (Some (myself s), REDIR_NONE) else
  if k_migrating k && negb (k_missing k =? 0) then (migrating_slots_to s !! k_slot k, REDIR_ASK) else
  if k_importing k && q_asking q then
    if k_multiple k && negb (k_missing k =? 0) then (None, REDIR_UNSTABLE) else (Some (myself s), REDIR_NONE)
  else if q_readonly q && negb (q_is_write q) && nodeIsSlave me && bool_decide (slaveof me = Some n)
  then (Some (myself s), REDIR_NONE)
  else (Some n, if decide (n = myself s) then REDIR_NONE else REDIR_MOVED).

Lemma answer_promise cfg has_key q s me j n k :
  found has_key (q_keys q) s j n k ->
  slot_promise cfg has_key q s me j n (answer cfg q s me n k).1 (answer cfg q s me n k).2.
Proof.
  intros [Hj _ _ Ho Hmig Himp Hmul Hmis]. unfold answer. subst j.
  assert (forall b, negb (bool_decide (state s = CLUSTER_OK)) && negb (cluster_allow_reads_when_down cfg) = false ->
    negb (bool_decide (state s = CLUSTER_OK)) && b = false -> q_write q = b -> accepting cfg q s) as Hacc.
  { intros b. unfold accepting. case_bool_decide; [by left|]. cbn. destruct (cluster_allow_reads_when_down cfg); [|done].
    intros _ -> ->. by right. }
  destruct (negb (bool_decide (state s = CLUSTER_OK)) && negb (cluster_allow_reads_when_down cfg)) eqn:E1.
  { apply andb_true_iff in E1 as [Es Ea]. rewrite negb_true_iff in Es, Ea. by apply bool_decide_eq_false in Es. }
  destruct (negb (bool_decide (state s = CLUSTER_OK)) && q_write q) eqn:E2.
  { apply andb_true_iff in E2 as [Es Ea]. rewrite negb_true_iff in Es. by apply bool_decide_eq_false in Es. }
  specialize (Hacc _ eq_refl E2 eq_refl). clear E1 E2.
  destruct ((k_migrating k || k_importing k) && q_migrate q) eqn:E3.
  { apply andb_true_iff in E3 as [[Hm|Hi]%orb_true_iff Hg]; split_and!; try done.
    - left. apply Hmig in Hm as [Hm _]. split; [congruence|]. by left.
    - right. left. split; [tauto|]. by left. }
  destruct (k_migrating k && negb (k_missing k =? 0)) eqn:E4.
  { apply andb_true_iff in E4 as [Hm Hne]. split; [done|]. split; [tauto|]. split; [|done].
    rewrite Hm in Hmis. rewrite <- Hmis by done. lia. }
  assert (migrating s (k_slot k) -> all_here has_key (q_keys q)) as Hall.
  { intros Hm%Hmig. rewrite Hm in Hmis, E4. apply Hmis; [done|]. cbn in E4. lia. }
  destruct (k_importing k && q_asking q) eqn:E5.
  { apply andb_true_iff in E5 as [Hi Ha]. rewrite Hi, orb_true_r in Hmis. specialize (Hmis eq_refl).
    destruct (k_multiple k && negb (k_missing k =? 0)) eqn:E6; cbn.
    - apply andb_true_iff in E6 as [Hk Hne]. do 4 (split; [tauto|]). rewrite <- Hmis. lia.
    - split_and!; [done|done|]. right. left. split; [tauto|]. right. split; [done|]. intros Hs%Hmul.
      apply Hmis. rewrite Hs in E6. cbn in E6. lia. }
  destruct (q_readonly q && negb (q_is_write q) && nodeIsSlave me && bool_decide (slaveof me = Some n)) eqn:E6.
  { rewrite !andb_true_iff, negb_true_iff, bool_decide_eq_true in E6. cbn. tauto. }
  cbn [fst snd]. destruct (decide (n = myself s)) as [Hd|Hd]; [|by split_and!].
  split_and!; [congruence|done|]. left. tauto.
Qed.

Lemma getNodeByQuery_spec cfg has_key q s me :
  nodes s !! myself s = Some me -> cluster_no_redirection cfg = false -> q_exec q && negb (q_multi q) = false ->
  q_keys q <> [] ->
  exists r e, getNodeByQuery cfg has_key q s = Some (r, e) /\ promise cfg has_key q s me r e.
Proof.
  intros Hme Hcfg Hexec Hkeys. unfold getNodeByQuery. rewrite Hme, bind_ret, Hcfg, Hexec.
  destruct (q_keys q) as [|first keys] eqn:Hq; [done|]. unfold promise. rewrite Hq.
  destruct (scan_found has_key s first keys) as [[-> Hu]|[[-> (x & Hx & Hne)]|(k & n & -> & Hf)]].
  - do 2 eexists. split; [done|]. left. split_and!; [done..|]. exists first. split; [constructor|done].
  - do 2 eexists. split; [done|]. right. left. split_and!; [done..|].
    exists x, first. split_and!; [by constructor|constructor|done].
  - rewrite (fo_node _ _ _ _ _ _ Hf). exists (answer cfg q s me n k).1, (answer cfg q s me n k).2.
    split; [unfold answer; by repeat case_match|]. right. right. exists (keyHashSlot first), n.
    split_and!; [apply Hf|apply Hf|]. apply answer_promise. by rewrite Hq.
Qed.

(** C9: redirections tell the truth. A query with keys always gets an answer, and
    the answer says what it means: a query is served here only if this node owns
    the slot of all its keys, or imports it and the client was sent here, or is a
    replica of the owner asked to read; MOVED names the owner; ASK names the
    target of the migration and is given only when a key is missing; CROSSSLOT and
    unbound-slot errors mean that. *)
Theorem getNodeByQuery_correct cfg has_key q s me :
  nodes s !! myself s = Some me -> cluster_no_redirection cfg = false -> q_exec q && negb (q_multi q) = false ->
  q_keys q <> [] ->
  exists r e, getNodeByQuery cfg has_key q s = Some (r, e) /\ promise cfg has_key q s me r e.
Proof. apply getNodeByQuery_spec. Qed.

(** ** Following redirections *)

(** What a client sends next: the same query, flagged ASKING after an ASK. *)
Definition follow (q : query) (e : redir) : query :=
  if decide (e = REDIR_ASK)
  then mk_query (q_exec q) (q_multi q) (q_keys q) (q_write q) (q_migrate q) true (q_readonly q) (q_is_write q)
  else q.

(** The answer of a node that is up, agrees that the keys are in one bound slot,
    and either owns it undisturbed or imports it for a client that asks for one
    key. *)
Lemma served_here cfg has_key q s me j n :
  nodes s !! myself s = Some me -> cluster_no_redirection cfg = false -> q_exec q && negb (q_multi q) = false ->
  q_keys q <> [] -> one_slot (q_keys q) j -> cslots s !! j = Some n -> state s = CLUSTER_OK ->
  (n = myself s /\ migrating_slots_to s !! j = None /\ importing_slots_from s !! j = None) \/
  (n <> myself s /\ is_Some (importing_slots_from s !! j) /\ q_asking q = true /\ ~ several (q_keys q)) ->
  getNodeByQuery cfg has_key q s = Some (Some (myself s), REDIR_NONE).
Proof.
  intros Hme Hcfg Hexec Hkeys Hone Hown Hup Hcase. unfold getNodeByQuery. rewrite Hme, bind_ret, Hcfg, Hexec.
  destruct (q_keys q) as [|first keys] eqn:Hq; [done|].
  assert (keyHashSlot first = j) as Hj by (apply Hone; constructor).
  destruct (scan_found has_key s first keys) as [[_ Hu]|[[_ (x & Hx & Hne)]|(k & n' & -> & Hf)]].
  - congruence.
  - rewrite Hj in Hne. rewrite Hone in Hne by (by constructor). done.
  - destruct Hf as [Hs _ Hn Ho Hmig Himp Hmul Hmis]. rewrite Hj in *. assert (n' = n) as -> by congruence.
    rewrite Hn, (bool_decide_true _ Hup). cbn [negb andb]. unfold migrating, importing in *.
    destruct Hcase as [(-> & Hm & Hi)|(Hne & Hi & Ha & Hone')].
    + rewrite Hm in Hmig. rewrite Hi in Himp.
      destruct (k_migrating k); [by destruct (proj1 Hmig eq_refl) as [_ [? ?]]|].
      destruct (k_importing k); [by destruct (proj1 Himp eq_refl) as [_ [? ?]]|]. cbn.
      case_match; [done|]. by rewrite decide_True.
    + destruct (k_migrating k); [destruct (proj1 Hmig eq_refl); congruence|].
      destruct (k_importing k); [|exfalso; by assert (false = true) by (apply Himp; split; [intros [? _]; congruence|done])].
      destruct (k_multiple k); [tauto|]. cbn. rewrite Ha. by destruct (q_migrate q).
Qed.

(** C18: redirections end. If a node answers MOVED or ASK, the node it names serves
    the query the client sends it next, when both agree who owns the slots, the
    named node is up, and, after MOVED, it is not moving slots; after ASK, it
    imports the slot and the query has one key. *)
Theorem redirection_served cfg here there q e s s' me me' n :
  nodes s !! myself s = Some me -> cluster_no_redirection cfg = false -> q_exec q && negb (q_multi q) = false ->
  q_keys q <> [] -> getNodeByQuery cfg here q s = Some (Some n, e) ->
  myself s' = n -> nodes s' !! n = Some me' -> cslots s' = cslots s -> state s' = CLUSTER_OK ->
  e = REDIR_MOVED /\ migrating_slots_to s' = ∅ /\ importing_slots_from s' = ∅ \/
  e = REDIR_ASK /\ n <> myself s /\ ~ several (q_keys q) /\
    (forall j, migrating_slots_to s !! j = Some n -> is_Some (importing_slots_from s' !! j)) ->
  getNodeByQuery cfg there (follow q e) s' = Some (Some n, REDIR_NONE).
Proof.
  intros Hme Hcfg Hexec Hkeys Hr <- Hme' Hcs Hup Hcase.
  destruct (getNodeByQuery_spec cfg here q s me) as (r & e' & E & Hp); [done..|].
  rewrite E in Hr. injection Hr as -> ->.
  destruct Hp as [(_ & ? & _)|[(_ & ? & _)|(j & n & Hone & Hown & Hs)]]; [done..|].
  rewrite <- Hcs in Hown.
  destruct Hcase as [(-> & Hm & Hi)|(-> & Hne & Hsev & Himp)]; cbn in Hs.
  - destruct Hs as ([= <-] & Hne & _). rewrite <- (served_here cfg there (follow q REDIR_MOVED) s' me' j (myself s')); try done.
    left. by rewrite Hm, Hi.
  - destruct Hs as (Hto & [Hmine _] & _). apply (served_here cfg there (follow q REDIR_ASK) s' me' j n); try done.
    right. split_and!; [congruence|by apply Himp|done|done].
Qed.

(** A transaction is refused like its commands would be when the cluster is down
    only if EXEC itself counts as a write, which it does not: with
    [cluster-allow-reads-when-down] the owner of a slot executes a transaction
    that writes. *)
Lemma transaction_writes_when_down cfg has_key s me key :
  nodes s !! myself s = Some me -> cluster_no_redirection cfg = false ->
  cluster_allow_reads_when_down cfg = true -> state s = CLUSTER_FAIL ->
  cslots s !! keyHashSlot key = Some (myself s) ->
  migrating_slots_to s = ∅ -> importing_slots_from s = ∅ ->
  getNodeByQuery cfg has_key (mk_query true true [key] false false false false true) s
  = Some (Some (myself s), REDIR_NONE).
Proof.
  intros Hme Hcfg Hal Hst Hown Hm Hi. unfold getNodeByQuery. rewrite Hme, bind_ret, Hcfg. cbn [q_exec q_multi q_keys].
  unfold scan_keys, scan_key. cbn [k_first negb andb]. rewrite Hown, Hm, Hi, Hst, Hal.
  rewrite !lookup_empty, (bool_decide_false (is_Some None)) by (by intros [? ?]).
  rewrite andb_false_r. cbn. by rewrite decide_True.
Qed.

(** ** Witnesses *)

#[local] Transparent keyHashSlot.

Definition demo_query : query := mk_query false false [[]] true false false false true.

Lemma getNodeByQuery_witness :
  exists r e, getNodeByQuery demo_config (fun _ => true) demo_query (demo_state [2]) = Some (r, e) /\
    promise demo_config (fun _ => true) demo_query (demo_state [2])
      (plain_node CLUSTER_NODE_MASTER (bitmapSetBit no_bits 1) 1 2 None [[3]]) r e.
Proof. apply getNodeByQuery_correct; [reflexivity|reflexivity|reflexivity|discriminate]. Defined.

Lemma redirection_witness :
  getNodeByQuery demo_config (fun _ => true) demo_query (demo_state [2]) = Some (Some [1], REDIR_MOVED) /\
  getNodeByQuery demo_config (fun _ => true) (follow demo_query REDIR_MOVED) (demo_state [1]) = Some (Some [1], REDIR_NONE).
Proof.
  split; [reflexivity|].
  eapply (redirection_served demo_config (fun _ => true) (fun _ => true) demo_query REDIR_MOVED (demo_state [2]) (demo_state [1]));
    [reflexivity|reflexivity|reflexivity|discriminate|reflexivity|reflexivity|reflexivity|reflexivity|reflexivity|].
  left. split_and!; reflexivity.
Defined.

End ClusterQuery.
