(* ===== verification/ClusterFailure.v ===== *)
(** * Failure detection and epoch collisions

    The failure reports of a node are a map from reporters to times; a node is
    declared failing exactly when it is unreachable from here and a majority of
    the masters say so.  Two masters with the same configuration epoch do not
    keep it. *)

From Stdlib Require Import ZArith Lia.
From stdpp Require Import base option list numbers gmap.
From S2P Require Import Prelude Cluster ClusterSlots.

#[local] Open Scope Z_scope.

Module ClusterFailure.

Export Cluster ClusterSlots.

(** ** Failure reports as a map *)

Implicit Types l : list (name * Z).

Definition reports_ok (l : list (name * Z)) : Prop := NoDup l.*1.

Definition report_map (l : list (name * Z)) : gmap name Z := list_to_map l.

Lemma report_lookup l n t : reports_ok l -> report_map l !! n = Some t <-> (n, t) ∈ l.
Proof. intros H. symmetry. by apply elem_of_list_to_map. Qed.

Lemma touch_report_spec sender now l : reports_ok l ->
  match touch_report sender now l with
  | None => report_map l !! sender = None
  | Some l' => reports_ok l' /\ is_Some (report_map l !! sender) /\
               report_map l' = <[sender := now]> (report_map l)
  end.
Proof.
  unfold reports_ok, report_map. induction l as [|[n t] l IH]; [done|]. cbn.
  intros [Hn Hl]%NoDup_cons. case_decide as Hd.
  - subst n. cbn. rewrite lookup_insert_eq, insert_insert_eq. split_and!; [by constructor|done|done].
  - specialize (IH Hl). destruct (touch_report sender now l) as [l'|] eqn:E; cbn.
    + destruct IH as (Hok & Hs & Hm). rewrite Hm, lookup_insert_ne, insert_insert_ne by done.
      split_and!; [|done|done]. apply NoDup_cons. split; [|done]. intros Hin. apply Hn.
      apply list_elem_of_fmap in Hin as ([x u] & -> & Hin). cbn in *.
      apply elem_of_list_to_map in Hin; [|done]. rewrite Hm, lookup_insert_ne in Hin by done.
      apply elem_of_list_to_map_2 in Hin. apply list_elem_of_fmap. by exists (x, u).
    + by rewrite lookup_insert_ne.
Qed.

Lemma del_report_spec sender l : reports_ok l ->
  match del_report sender l with
  | None => report_map l !! sender = None
  | Some l' => reports_ok l' /\ is_Some (report_map l !! sender) /\ report_map l' = delete sender (report_map l)
  end.
Proof.
  unfold reports_ok, report_map. induction l as [|[n t] l IH]; [done|]. cbn.
  intros [Hn Hl]%NoDup_cons. case_decide as Hd.
  - subst n. rewrite lookup_insert_eq, delete_insert_id; [done|]. by apply not_elem_of_list_to_map_1.
  - specialize (IH Hl). destruct (del_report sender l) as [l'|] eqn:E; cbn.
    + destruct IH as (Hok & Hs & Hm). rewrite Hm, lookup_insert_ne, delete_insert_ne by done.
      split_and!; [|done|done]. apply NoDup_cons. split; [|done]. intros Hin. apply Hn.
      apply list_elem_of_fmap in Hin as ([x u] & -> & Hin). cbn in *.
      apply elem_of_list_to_map in Hin; [|done]. rewrite Hm in Hin. apply lookup_delete_Some in Hin as [_ Hin].
      apply elem_of_list_to_map_2 in Hin. apply list_elem_of_fmap. by exists (x, u).
    + by rewrite lookup_insert_ne.
Qed.

(** The reports that are still valid. *)
Definition fresh (cfg : config) (now : Z) (m : gmap name Z) : gmap name Z :=
  filter (fun '(_, t) => now - t <= cluster_node_timeout cfg * 2) m.

Lemma cleanup_reports_spec cfg now l : reports_ok l ->
  let l' := cleanup_reports now (cluster_node_timeout cfg * CLUSTER_FAIL_REPORT_VALIDITY_MULT) l in
  reports_ok l' /\ report_map l' = fresh cfg now (report_map l).
Proof.
  unfold reports_ok, report_map, fresh, cleanup_reports, CLUSTER_FAIL_REPORT_VALIDITY_MULT.
  induction l as [|[n t] l IH]; [done|]. cbn. intros [Hn Hl]%NoDup_cons.
  destruct (IH Hl) as [Hok Hm]. destruct (Z.ltb_spec (cluster_node_timeout cfg * 2) (now - t)); cbn.
  - split; [done|]. rewrite Hm, map_filter_insert_False by lia.
    by rewrite delete_id by (by apply not_elem_of_list_to_map_1).
  - rewrite Hm, map_filter_insert_True by lia. split; [|done]. apply NoDup_cons. split; [|done].
    contradict Hn. apply list_elem_of_fmap in Hn as ([x u] & -> & Hin). apply list_elem_of_fmap.
    exists (x, u). split; [done|]. apply list_elem_of_In, filter_In in Hin as [Hin _].
    by apply list_elem_of_In.
Qed.

Lemma report_size l : reports_ok l -> length l = base.size (report_map l).
Proof.
  unfold reports_ok, report_map. induction l as [|[n t] l IH]; [done|]. cbn. intros [Hn Hl]%NoDup_cons.
  rewrite map_size_insert_None by (by apply not_elem_of_list_to_map_1). by rewrite <- IH.
Qed.

(** ** The operations on the reports of a node *)

Definition reports (n : name) (s : clusterState) : option (gmap name Z) := report_map ∘ fail_reports <$> nodes s !! n.

(** Nothing but the reports of [n] changes. *)
Definition only_reports (n : name) (s s' : clusterState) : Prop := exists l, s' = upd_node (set_fail_reports l) n s.

Lemma upd_reports n nd m s : nodes s !! n = Some nd ->
  nodes (upd_node (set_fail_reports m) n s) !! n = Some (set_fail_reports m nd).
Proof. intros Hn. cbn. by rewrite lookup_alter_eq, Hn. Qed.

Lemma upd_reports_twice n l l' s :
  upd_node (set_fail_reports l') n (upd_node (set_fail_reports l) n s) = upd_node (set_fail_reports l') n s.
Proof.
  assert (alter (set_fail_reports l') n (alter (set_fail_reports l) n (nodes s)) =
          alter (set_fail_reports l') n (nodes s)) as E.
  { apply map_eq. intros k. destruct (decide (k = n)) as [->|]; [|by rewrite !lookup_alter_ne].
    rewrite !lookup_alter_eq. by destruct (nodes s !! n). }
  unfold upd_node. cbn. by rewrite E.
Qed.

Lemma upd_reports_id n nd s : nodes s !! n = Some nd -> upd_node (set_fail_reports (fail_reports nd)) n s = s.
Proof.
  intros Hn. unfold upd_node. rewrite alter_id; [by destruct s|].
  intros x Hx. rewrite Hn in Hx. injection Hx as <-. by destruct nd.
Qed.

Lemma reports_count cfg now n s nd :
  nodes s !! n = Some nd -> reports_ok (fail_reports nd) ->
  exists l, clusterNodeFailureReportsCount cfg now n s
    = Some (Z.of_nat (base.size (fresh cfg now (report_map (fail_reports nd)))), upd_node (set_fail_reports l) n s) /\
    reports_ok l /\ report_map l = fresh cfg now (report_map (fail_reports nd)).
Proof.
  intros Hn Hok. unfold clusterNodeFailureReportsCount, clusterNodeCleanupFailureReports.
  rewrite Hn, !bind_ret, (upd_reports _ _ _ _ Hn), bind_ret.
  destruct (cleanup_reports_spec cfg now _ Hok) as [Hl' Hm']. eexists. split; [|done].
  cbn [fail_reports set_fail_reports]. by rewrite (report_size _ Hl'), Hm'.
Qed.

(** The failure reports of a node are a map from reporters to the time of
    their last report. Adding, withdrawing and expiring reports are insertion,
    deletion and filtering of that map; no reporter is ever listed twice, and the
    results say whether the report is new or was there. *)
Theorem failure_reports_refine cfg now n sender s nd :
  nodes s !! n = Some nd -> reports_ok (fail_reports nd) ->
  let m := report_map (fail_reports nd) in
  (exists l s', clusterNodeAddFailureReport now n sender s = Some (bool_decide (m !! sender = None), s') /\
     s' = upd_node (set_fail_reports l) n s /\ reports_ok l /\ report_map l = <[sender := now]> m) /\
  (exists l s', clusterNodeDelFailureReport cfg now n sender s = Some (bool_decide (is_Some (m !! sender)), s') /\
     s' = upd_node (set_fail_reports l) n s /\ reports_ok l /\
     report_map l = if decide (is_Some (m !! sender)) then fresh cfg now (delete sender m) else m) /\
  (exists l s', clusterNodeFailureReportsCount cfg now n s = Some (Z.of_nat (base.size (fresh cfg now m)), s') /\
     s' = upd_node (set_fail_reports l) n s /\ reports_ok l /\ report_map l = fresh cfg now m).
Proof.
  intros Hn Hok m. split_and!.
  - unfold clusterNodeAddFailureReport. rewrite Hn, bind_ret.
    pose proof (touch_report_spec sender now _ Hok) as H. destruct (touch_report _ _ _) as [l|].
    + destruct H as (Hl & [t Ht] & Hm). exists l. eexists. rewrite bool_decide_false by (subst m; congruence). done.
    + eexists _, _. rewrite bool_decide_true by done. split_and!; [done|done| |].
      * unfold reports_ok. rewrite fmap_app. apply NoDup_app. split_and!; [done| |apply NoDup_singleton].
        intros x Hx Hx'. apply list_elem_of_singleton in Hx' as ->. by apply not_elem_of_list_to_map in Hx.
      * unfold report_map. rewrite list_to_map_snoc; [done|]. by apply not_elem_of_list_to_map_2.
  - unfold clusterNodeDelFailureReport. rewrite Hn, bind_ret.
    pose proof (del_report_spec sender _ Hok) as H. destruct (del_report _ _) as [l|].
    + destruct H as (Hl & Hs & Hm). unfold clusterNodeCleanupFailureReports. rewrite (upd_reports _ _ _ _ Hn), !bind_ret.
      destruct (cleanup_reports_spec cfg now l Hl) as [Hl' Hm']. rewrite upd_reports_twice.
      cbn [fail_reports set_fail_reports].
      eexists _, _. rewrite bool_decide_true, decide_True by done. split_and!; [done|done|done|]. by rewrite Hm', Hm.
    + exists (fail_reports nd), s. rewrite bool_decide_false, decide_False by (subst m; rewrite H; by intros [? ?]).
      split_and!; [done| |done|done]. symmetry. by apply upd_reports_id.
  - destruct (reports_count cfg now n s nd Hn Hok) as (l & E & Hl & Hm). by exists l, (upd_node (set_fail_reports l) n s).
Qed.

(** ** Declaring a node failing *)

Lemma flag_fail f :
  let f' := or_flag CLUSTER_NODE_FAIL (clear_flag CLUSTER_NODE_PFAIL f) in
  Z.testbit f' 3 = true /\ Z.testbit f' 2 = false.
Proof.
  unfold or_flag, clear_flag. rewrite !Z.lor_spec, !Z.land_spec, !Z.lnot_spec by lia.
  split; [apply orb_true_r|by rewrite andb_false_r].
Qed.

(** The masters, besides this node, that reported the failure recently, and this
    node if it is a master. *)
Definition witnesses (cfg : config) (now : Z) (me nd : clusterNode) : Z :=
  Z.of_nat (base.size (fresh cfg now (report_map (fail_reports nd)))) + (if nodeIsMaster me then 1 else 0).

Lemma nodeFailed_bit nd : nodeFailed nd = Z.testbit (flags nd) 3.
Proof. apply (land_pow2_test _ 3). lia. Qed.

Lemma nodeTimedOut_bit nd : nodeTimedOut nd = Z.testbit (flags nd) 2.
Proof. apply (land_pow2_test _ 2). lia. Qed.

(** C29: a node is declared failing by a majority only. [markNodeAsFailingIfNeeded]
    sets the FAIL flag, and tells the other nodes, exactly when this node cannot
    reach the node, the flag is not set yet, and the masters that reported it
    lately, counted once each, with this node if it is a master, are a majority of
    the masters; otherwise the flags do not change. *)
Theorem markNodeAsFailingIfNeeded_correct cfg now n s nd me :
  nodes s !! n = Some nd -> nodes s !! myself s = Some me -> reports_ok (fail_reports nd) ->
  exists s' acts nd', markNodeAsFailingIfNeeded cfg now n s = Some (s', acts) /\ nodes s' !! n = Some nd' /\
    if decide (nodeTimedOut nd = true /\ nodeFailed nd = false /\ size s / 2 + 1 <= witnesses cfg now me nd)
    then acts = [SendFail n] /\ nodeFailed nd' = true /\ nodeTimedOut nd' = false /\ fail_time nd' = now
    else acts = [] /\ flags nd' = flags nd.
Proof.
  intros Hn Hme Hok. unfold markNodeAsFailingIfNeeded. rewrite Hn, bind_ret.
  destruct (nodeTimedOut nd) eqn:Ht; cbn [negb]; [|exists s, [], nd; by rewrite decide_False by (by intros [? _])].
  destruct (nodeFailed nd) eqn:Hf; [exists s, [], nd; by rewrite decide_False by (by intros (_ & ? & _))|].
  destruct (reports_count cfg now n s nd Hn Hok) as (l & E & Hl). rewrite E, bind_ret. cbn beta iota.
  assert (nodes (upd_node (set_fail_reports l) n s) !! n = Some (set_fail_reports l nd)) as Hn1 by (by apply upd_reports).
  assert (exists me1, nodes (upd_node (set_fail_reports l) n s) !! myself s = Some me1 /\ nodeIsMaster me1 = nodeIsMaster me)
    as (me1 & Hme1 & Hmm).
  { cbn. destruct (decide (myself s = n)) as [Hd|Hne]; [subst n; rewrite lookup_alter_eq|rewrite lookup_alter_ne by done];
      rewrite Hme; by eexists. }
  change (myself (upd_node _ n s)) with (myself s). rewrite Hme1, bind_ret, Hmm. unfold witnesses.
  set (f := if nodeIsMaster me then _ else _).
  replace (Z.of_nat (base.size (fresh cfg now (report_map (fail_reports nd)))) + (if nodeIsMaster me then 1 else 0)) with f
    by (subst f; destruct (nodeIsMaster me); lia).
  destruct (Z.ltb_spec f (size s / 2 + 1)) as [Hlt|Hge].
  - do 3 eexists. split; [done|]. split; [exact Hn1|]. by rewrite decide_False by lia.
  - do 3 eexists. split; [done|]. rewrite decide_True by done. split.
    { cbn in *. rewrite lookup_alter_eq, Hn1. reflexivity. }
    destruct (flag_fail (flags nd)) as [H3 H2]. split_and!; [done| | |done].
    + by rewrite nodeFailed_bit.
    + by rewrite nodeTimedOut_bit.
Qed.

(** ** Configuration epoch collisions *)

Lemma memcmp_opp a b : memcmp b a = CompOpp (memcmp a b).
Proof.
  revert b. induction a as [|x a IH]; intros [|y b]; try done. cbn.
  rewrite (Z.compare_antisym x y). destruct (x ?= y); cbn; auto.
Qed.

Lemma memcmp_eq a b : memcmp a b = Eq -> a = b.
Proof.
  revert b. induction a as [|x a IH]; intros [|y b]; try done. cbn.
  destruct (Z.compare_spec x y) as [->| |]; try done. intros ?%IH. by subst.
Qed.

(** The epoch a node has for itself. *)
Definition own_epoch (s : clusterState) : option Z := configEpoch <$> nodes s !! myself s.

(** [a] and [b] are masters that know each other and use the same epoch. *)
Definition collide (a b : clusterState) (e : Z) : Prop :=
  myself a <> myself b /\ own_epoch a = Some e /\ own_epoch b = Some e /\
  (exists me, nodes a !! myself a = Some me /\ nodeIsMaster me = true) /\
  (exists sd, nodes a !! myself b = Some sd /\ nodeIsMaster sd = true /\ configEpoch sd = e) /\
  e <= currentEpoch a < 2 ^ 64 - 1 /\ 0 <= e.

(** One side: the greater name keeps its epoch, the smaller takes a new one. *)
Lemma collision_side a b e : collide a b e ->
  exists s' acts, clusterHandleConfigEpochCollision (myself b) a = Some (s', acts) /\ myself s' = myself a /\
    match memcmp (myself b) (myself a) with
    | Gt => own_epoch s' = Some (currentEpoch a + 1) /\ currentEpoch s' = currentEpoch a + 1 /\ acts = [SaveConfig]
    | _ => s' = a /\ acts = []
    end.
Proof.
  intros (Hne & Ha & Hb & (me & Hme & Hm) & (sd & Hsd & Hms & Hse) & He & H0).
  unfold clusterHandleConfigEpochCollision. rewrite Hme, bind_ret, Hsd, bind_ret.
  unfold own_epoch in Ha. rewrite Hme in Ha. injection Ha as Ha. rewrite Hse, Ha, Z.eqb_refl, Hms, Hm. cbn [negb orb].
  destruct (memcmp (myself b) (myself a)); [eauto 10|eauto 10|].
  do 2 eexists. split; [done|]. cbn. unfold own_epoch. cbn. rewrite lookup_alter_eq, Hme. cbn.
  rewrite wrapu_small by (unfold is_u; lia). done.
Qed.

(** C30: epoch collisions are resolved. When two masters that use the same
    configuration epoch hear from each other, exactly one of them, the one with the
    smaller name, takes a new epoch, greater than the one they shared: their epochs
    differ from then on. *)
Theorem epoch_collision_resolved a b e :
  collide a b e -> collide b a e ->
  exists a' b' acts acts', clusterHandleConfigEpochCollision (myself b) a = Some (a', acts) /\
    clusterHandleConfigEpochCollision (myself a) b = Some (b', acts') /\
    ((exists e', own_epoch a' = Some e' /\ e < e' /\ currentEpoch a' = e' /\ b' = b /\ acts = [SaveConfig] /\ acts' = []) \/
     (exists e', own_epoch b' = Some e' /\ e < e' /\ currentEpoch b' = e' /\ a' = a /\ acts' = [SaveConfig] /\ acts = [])).
Proof.
  intros Hab Hba. destruct (collision_side a b e Hab) as (a' & acts & Ea & _ & Ha).
  destruct (collision_side b a e Hba) as (b' & acts' & Eb & _ & Hb).
  exists a', b', acts, acts'. split_and!; [done..|].
  destruct Hab as (Hne & _ & _ & _ & _ & Hea & _), Hba as (_ & _ & _ & _ & _ & Heb & _).
  rewrite memcmp_opp in Hb. destruct (memcmp (myself b) (myself a)) eqn:E; cbn in Hb.
  - apply memcmp_eq in E. by destruct Hne.
  - right. destruct Ha, Hb as (? & ? & ?). eexists. split_and!; try done; lia.
  - left. destruct Hb, Ha as (? & ? & ?). eexists. split_and!; try done; lia.
Qed.

(** ** Witnesses *)

Definition failing_state : clusterState :=
  upd_node (fun nd => set_fail_reports [([3], 90)] (set_flags (or_flag CLUSTER_NODE_PFAIL) nd)) [2] (demo_state [1]).

Lemma failure_reports_witness :
  exists l s', clusterNodeAddFailureReport 100 [2] [3] failing_state = Some (false, s') /\
    s' = upd_node (set_fail_reports l) [2] failing_state /\ report_map l = <[[3] := 100]> (report_map [([3], 90)]).
Proof.
  edestruct (failure_reports_refine demo_config 100 [2] [3] failing_state) as [(l & s' & E & Hs & _ & Hl) _];
    [reflexivity|apply NoDup_singleton|]. exists l, s'. split_and!; [exact E|exact Hs|exact Hl].
Defined.

Lemma markNodeAsFailing_witness :
  exists s' acts nd', markNodeAsFailingIfNeeded demo_config 100 [2] failing_state = Some (s', acts) /\
    nodes s' !! [2] = Some nd' /\ nodeFailed nd' = true.
Proof.
  edestruct (markNodeAsFailingIfNeeded_correct demo_config 100 [2] failing_state) as (s' & acts & nd' & E & Hn & H);
    [reflexivity|reflexivity|apply NoDup_singleton|]. exists s', acts, nd'. split_and!; [exact E|exact Hn|].
  rewrite decide_True in H by (vm_compute; split_and!; congruence). apply H.
Defined.

Definition colliding_state (me : name) : clusterState := upd_node (set_configEpoch 2) [1] (demo_state me).

Lemma epoch_collision_witness :
  exists a' b' acts acts',
    clusterHandleConfigEpochCollision [2] (colliding_state [1]) = Some (a', acts) /\
    clusterHandleConfigEpochCollision [1] (colliding_state [2]) = Some (b', acts').
Proof.
  destruct (epoch_collision_resolved (colliding_state [1]) (colliding_state [2]) 2) as (a' & b' & acts & acts' & Ea & Eb & _).
  - split_and!; try reflexivity; try discriminate; eexists; split_and!; reflexivity.
  - split_and!; try reflexivity; try discriminate; eexists; split_and!; reflexivity.
  - exists a', b', acts, acts'. split; [exact Ea|exact Eb].
Defined.

End ClusterFailure.
